(** * busytex-lazy: bundle resolution, mounting, package fetching and
      engine selection

    A shallow embedding of the lazy-loading core of busytex-lazy:

    - [BundleManager]  (bundle loading and package resolution module):
      [resolveBundles] and the three-tier [loadBundle];
    - [BundleLoader]   (packages/bundle-loader.ts): [mountBundle] and
      [ensureDirectory] over an abstract Emscripten file system;
    - [PackageManager] (the LaTeX package manager): [loadBundle] with its
      in-flight map, and [mountBundle];
    - [CTANFetcher]    (the CTAN package fetching module):
      [loadPackageFromCache] and [fetchPackage];
    - [Double]: the doubles JavaScript computes with, and when an operation
      on them does not round;
    - [EngineSelector] (the LaTeX engine selector): [checkRequirements],
      [select], [recordResult] and [clearHistory];
    - [Scan], [BundleLoaderPackages], [PackageManagerPackages]: how the
      bundle loader and the package manager get from a source to its
      packages and from the packages to bundles;
    - [BundleUtils]: [detectEngine], [extractPreamble] and [hashPreamble]
      of the bundle module;
    - [Layout], [SplitBundle], [BundleBuilder], [DownloadCtan]: how the
      build scripts lay files out in a bundle and place them in the TeX
      tree;
    - [CTANNames], [TlpdbIndex]: package names, and the index from file
      names to packages.

    JavaScript values are modelled as follows.  Identifiers, paths and keys
    are [string]s; a [Set] that is iterated is an insertion-ordered list
    without repetition; a JSON object used as a dictionary is a [gmap] of its
    own properties (in [BundleManager], together with the members it
    inherits from [Object.prototype]); numbers are doubles; byte buffers
    are lists of bytes; asynchronous functions are split at their
    [await]s into explicit resumable tasks. *)

From Stdlib Require Import ZArith QArith Qpower Floats List Bool Lia Lqa.
From Stdlib.Strings Require Import Byte Ascii String.
From stdpp Require Import base option list gmap sets strings pretty.

Local Open Scope string_scope.
Local Open Scope list_scope.
Local Open Scope nat_scope.

(** ** JavaScript helpers shared by the modules *)

(** [Set.prototype.add] on an insertion-ordered set: an element already
    present keeps its place, a new one goes last. *)
Definition set_add (x : string) (s : list string) : list string :=
  if bool_decide (x ∈ s) then s else s ++ [x].

(** Truthiness of a JavaScript string: only the empty string is falsy. *)
Definition truthy (s : string) : bool :=
  match s with
  | EmptyString => false
  | _ => true
  end.

Lemma elem_of_set_add (x y : string) (s : list string) :
  y ∈ set_add x s ↔ y = x ∨ y ∈ s.
Proof.
  unfold set_add. case_bool_decide as Hx.
  - split; [auto | intros [-> | ?]; auto].
  - rewrite elem_of_app, list_elem_of_singleton. tauto.
Qed.

Lemma set_add_mono (x y : string) (s : list string) :
  y ∈ s → y ∈ set_add x s.
Proof. intros; apply elem_of_set_add; auto. Qed.

Lemma set_add_NoDup (x : string) (s : list string) :
  NoDup s → NoDup (set_add x s).
Proof.
  intros Hs. unfold set_add. case_bool_decide as Hx; [done |].
  apply NoDup_app. split_and!; [done | | apply NoDup_singleton].
  intros z Hz Hz'. apply list_elem_of_singleton in Hz'. by subst.
Qed.

(** * BundleManager *)

Module BundleManager.

(** The manifests the manager holds once loaded; each field is [null]
    ([None]) until its loader has run.  The JSON objects are plain objects:
    a map holds their own properties, and a lookup that finds none goes on
    to [Object.prototype] ([getMember]). *)
Record manifests := {
  packageMap : option (gmap string string);
  bundleDeps : option (gmap string (list string));
  packageDeps : option (gmap string (list string));
  bundleRegistry : option (gset string)
}.

(** The members every plain object inherits from [Object.prototype]. *)
Definition objectPrototypeKeys : list string :=
  [ "constructor"; "__defineGetter__"; "__defineSetter__"; "hasOwnProperty";
    "__lookupGetter__"; "__lookupSetter__"; "isPrototypeOf";
    "propertyIsEnumerable"; "toString"; "valueOf"; "__proto__";
    "toLocaleString" ].

(** What [object?.[key]] evaluates to: the value of the object's own
    property, a member inherited from [Object.prototype] (a function, or the
    prototype itself: truthy, no string and not iterable), or
    [undefined]. *)
Inductive member (V : Type) :=
| Own (value : V)
| Inherited
| Undefined.
Arguments Own {V} _.
Arguments Inherited {V}.
Arguments Undefined {V}.

Definition getMember {V : Type} (object : option (gmap string V)) (key : string)
  : member V :=
  match object with
  | None => Undefined
  | Some own =>
      match own !! key with
      | Some value => Own value
      | None =>
          if bool_decide (key ∈ objectPrototypeKeys) then Inherited
          else Undefined
      end
  end.

(** How a call completes: it returns, or it throws. *)
Inductive completion (A : Type) :=
| Returns (value : A)
| Throws (error : string).
Arguments Returns {A} _.
Arguments Throws {A} _.

(** What [for (const x of value)] throws when [value] is not iterable. *)
Definition notIterable (name : string) : string :=
  "TypeError: " +:+ name +:+ " is not iterable".

Section Resolve.
Variable this : manifests.

(** [this.bundleRegistry?.has(bundleName) ?? false] *)
Definition bundleExists (bundleName : string) : bool :=
  match bundleRegistry this with
  | Some reg => bool_decide (bundleName ∈ reg)
  | None => false
  end.

(** [this.packageMap?.[pkg]] *)
Definition packageMap_get (pkg : string) : member string :=
  getMember (packageMap this) pkg.

(** [this.bundleDeps?.[bundleName]] *)
Definition bundleDeps_get (bundleName : string) : member (list string) :=
  getMember (bundleDeps this) bundleName.

(** [this.packageDeps?.[pkg]] *)
Definition packageDeps_get (pkg : string) : member (list string) :=
  getMember (packageDeps this) pkg.

(** The two sets the closure [resolvePackage] captures. *)
Record closure := {
  bundles : list string;
  resolved : gset string
}.

(** The bundle part of [resolvePackage]: the bundle of [pkg], when it is
    mapped and exists, and those of its direct bundle dependencies that
    exist.  An inherited member in the place of the bundle name is truthy,
    but the registry, a set of strings, does not have it.  In the place of
    the dependencies, [deps || []] is the inherited member, and the loop
    over it throws. *)
Definition addPackageBundles (pkg : string) (bs : list string)
  : completion (list string) :=
  match packageMap_get pkg with
  | Own bundleName =>
      if truthy bundleName && bundleExists bundleName then
        match bundleDeps_get bundleName with
        | Own deps =>
            Returns
              (fold_left
                 (fun acc dep => if bundleExists dep then set_add dep acc else acc)
                 deps (set_add bundleName bs))
        | Inherited => Throws (notIterable "deps")
        | Undefined => Returns (set_add bundleName bs)
        end
      else Returns bs
  | Inherited => Returns bs
  | Undefined => Returns bs
  end.

(** [resolvePackage], with the depth of the JavaScript call stack bounded
    by [fuel]; [None] when the bound is hit.  An exception leaves every
    loop and every frame. *)
Fixpoint resolvePackage (fuel : nat) (pkg : string) (st : closure)
  : option (completion closure) :=
  match fuel with
  | O => None
  | S fuel' =>
      if bool_decide (pkg ∈ resolved st) then Some (Returns st)
      else
        match addPackageBundles pkg (bundles st) with
        | Throws error => Some (Throws error)
        | Returns bs =>
            let st1 := {| bundles := bs; resolved := {[pkg]} ∪ resolved st |} in
            match packageDeps_get pkg with
            | Own pkgDeps =>
                fold_left
                  (fun acc dep =>
                     match acc with
                     | Some (Returns s) => resolvePackage fuel' dep s
                     | other => other
                     end)
                  pkgDeps (Some (Returns st1))
            | Inherited => Some (Throws (notIterable "pkgDeps"))
            | Undefined => Some (Returns st1)
            end
        end
  end.

(** A [for (const p of ps) resolvePackage(p)] loop at a given depth. *)
Definition resolveEach (fuel : nat) (ps : list string)
    (acc : option (completion closure)) : option (completion closure) :=
  fold_left
    (fun acc p =>
       match acc with
       | Some (Returns s) => resolvePackage fuel p s
       | other => other
       end)
    ps acc.

Definition resolveAll (fuel : nat) (ps : list string) (st : closure)
  : option (completion closure) :=
  resolveEach fuel ps (Some (Returns st)).

Definition coreBundles : list string :=
  ["core"; "latex-base"; "l3"; "graphics"; "tools"].

(** The bundles seeded before any package is looked at. *)
Definition seedBundles (engine : string) : list string :=
  let bundles := fold_left (fun acc b => set_add b acc) coreBundles [] in
  if String.eqb engine "pdflatex" then
    set_add "amsfonts" (set_add "fonts-cm" (set_add "fmt-pdflatex" bundles))
  else if String.eqb engine "xelatex" then
    set_add "unicode-math" (set_add "fontspec" (set_add "fmt-xelatex" bundles))
  else bundles.

Definition resolveBundles_fuel (fuel : nat) (packages : list string)
    (engine : string) : option (completion (list string)) :=
  match resolveAll fuel packages
          {| bundles := seedBundles engine; resolved := ∅ |} with
  | Some (Returns st) => Some (Returns (List.filter bundleExists (bundles st)))
  | Some (Throws error) => Some (Throws error)
  | None => None
  end.

(** Every package with dependencies is an own key of [packageDeps], and each
    is entered at most once, so this many frames always suffice
    ([resolveBundles_fuel_total]). *)
Definition enoughFuel : nat :=
  S (size (default ∅ (packageDeps this))).

Definition resolveBundles (packages : list string) (engine : string)
  : completion (list string) :=
  default (Returns []) (resolveBundles_fuel enoughFuel packages engine).

(** *** Facts about the resolution *)

Lemma resolveEach_None (fuel : nat) (ps : list string) :
  resolveEach fuel ps None = None.
Proof. induction ps as [|p ps IH]; [done | exact IH]. Qed.

Lemma resolveEach_Throws (fuel : nat) (ps : list string) (error : string) :
  resolveEach fuel ps (Some (Throws error)) = Some (Throws error).
Proof. induction ps as [|p ps IH]; [done | exact IH]. Qed.

Lemma resolveEach_cons (fuel : nat) (p : string) (ps : list string)
    (st : closure) :
  resolveEach fuel (p :: ps) (Some (Returns st))
  = resolveEach fuel ps (resolvePackage fuel p st).
Proof. reflexivity. Qed.

(** A call that enters a package: the bundles first, then the
    dependencies. *)
Lemma resolvePackage_enter (fuel : nat) (pkg : string) (st : closure) :
  pkg ∉ resolved st →
  resolvePackage (S fuel) pkg st
  = match addPackageBundles pkg (bundles st) with
    | Throws error => Some (Throws error)
    | Returns bs =>
        let st1 := {| bundles := bs; resolved := {[pkg]} ∪ resolved st |} in
        match packageDeps_get pkg with
        | Own pkgDeps => resolveEach fuel pkgDeps (Some (Returns st1))
        | Inherited => Some (Throws (notIterable "pkgDeps"))
        | Undefined => Some (Returns st1)
        end
    end.
Proof. intros Hin. simpl. by rewrite bool_decide_eq_false_2. Qed.

Lemma resolvePackage_entered (fuel : nat) (pkg : string) (st : closure) :
  pkg ∈ resolved st → resolvePackage (S fuel) pkg st = Some (Returns st).
Proof. intros Hin. simpl. by rewrite bool_decide_eq_true_2. Qed.

Definition unvisited (st : closure) : nat :=
  size (dom (default ∅ (packageDeps this)) ∖ resolved st).

Lemma unvisited_mono (s s' : closure) :
  resolved s ⊆ resolved s' → unvisited s' ≤ unvisited s.
Proof.
  intros Hs. unfold unvisited.
  apply (subseteq_size (C := gset string)).
  intros x [Hx Hn]%elem_of_difference. apply elem_of_difference. auto.
Qed.

Lemma packageDeps_get_Own (pkg : string) (pkgDeps : list string) :
  packageDeps_get pkg = Own pkgDeps → pkg ∈ dom (default ∅ (packageDeps this)).
Proof.
  unfold packageDeps_get, getMember.
  destruct (packageDeps this) as [m|]; simpl; [|done].
  destruct (m !! pkg) as [v|] eqn:Hv; [|by case_bool_decide].
  intros _. apply elem_of_dom. by eexists.
Qed.

Lemma unvisited_enter (pkg : string) (bs : list string) (st : closure) :
  pkg ∈ dom (default ∅ (packageDeps this)) → pkg ∉ resolved st →
  unvisited {| bundles := bs; resolved := {[pkg]} ∪ resolved st |} < unvisited st.
Proof.
  intros Hd Hr. unfold unvisited.
  apply (subset_size (C := gset string)). simpl. split.
  - intros x [Hx Hn]%elem_of_difference. apply elem_of_difference.
    split; [done|]. intros Hx'. apply Hn, elem_of_union; auto.
  - intros Hsub. specialize (Hsub pkg).
    rewrite !elem_of_difference, elem_of_union, elem_of_singleton in Hsub.
    destruct Hsub as [_ Hn]; [done | apply Hn; auto].
Qed.

(** What holds of the state a completion returns, if it returns one. *)
Definition returning (P : closure → Prop) (c : completion closure) : Prop :=
  match c with
  | Returns st => P st
  | Throws _ => True
  end.

Local Tactic Notation "completes" uconstr(c) :=
  exists c; split; [reflexivity | simpl; try done; set_solver].

(** The recursion is entered at most once per own key of [packageDeps]: with
    more frames than unvisited keys, [resolvePackage] completes. *)
Lemma resolvePackage_total (fuel : nat) :
  ∀ (pkg : string) (st : closure),
    unvisited st < fuel →
    ∃ c, resolvePackage fuel pkg st = Some c
         ∧ returning (fun st' => resolved st ⊆ resolved st') c.
Proof.
  induction fuel as [|fuel IH]; intros pkg st Hlt; [lia|].
  destruct (decide (pkg ∈ resolved st)) as [Hin|Hin].
  { rewrite resolvePackage_entered by done. completes (Returns st). }
  rewrite resolvePackage_enter by done.
  destruct (addPackageBundles pkg (bundles st)) as [bs|error];
    [|completes (Throws error)].
  cbn zeta.
  set (st1 := {| bundles := bs; resolved := {[pkg]} ∪ resolved st |}).
  assert (Hsub : resolved st ⊆ resolved st1) by (subst st1; simpl; set_solver).
  destruct (packageDeps_get pkg) as [pkgDeps| |] eqn:Hdeps.
  - assert (Hst1 : unvisited st1 < fuel).
    { pose proof (unvisited_enter pkg bs st (packageDeps_get_Own _ _ Hdeps) Hin).
      fold st1 in H. lia. }
    clearbody st1. clear Hdeps. revert st1 Hst1 Hsub.
    induction pkgDeps as [|d ds IHds]; intros s Hs Hsub.
    + completes (Returns s).
    + rewrite resolveEach_cons.
      destruct (IH d s Hs) as ([s'|error] & -> & Hs').
      * simpl in Hs'. apply IHds.
        -- pose proof (unvisited_mono s s' Hs'). lia.
        -- set_solver.
      * rewrite resolveEach_Throws. completes (Throws error).
  - completes (Throws (notIterable "pkgDeps")).
  - completes (Returns st1).
Qed.

Lemma resolveAll_total (fuel : nat) (ps : list string) :
  ∀ st : closure,
    unvisited st < fuel →
    ∃ c, resolveAll fuel ps st = Some c
         ∧ returning (fun st' => resolved st ⊆ resolved st') c.
Proof.
  unfold resolveAll. induction ps as [|p ps IHps]; intros st Hlt.
  - completes (Returns st).
  - rewrite resolveEach_cons.
    destruct (resolvePackage_total fuel p st Hlt) as ([s'|error] & -> & Hs').
    + simpl in Hs'. destruct (IHps s') as (c & -> & Hc).
      * pose proof (unvisited_mono st s' Hs'). lia.
      * exists c. split; [done|]. destruct c as [s''|]; simpl in *; [set_solver|done].
    + rewrite resolveEach_Throws. completes (Throws error).
Qed.

(** [resolveBundles] completes: the bound [enoughFuel] is never hit. *)
Lemma resolveBundles_fuel_total (packages : list string) (engine : string) :
  ∃ c,
    resolveAll enoughFuel packages
      {| bundles := seedBundles engine; resolved := ∅ |} = Some c
    ∧ resolveBundles_fuel enoughFuel packages engine
      = Some (resolveBundles packages engine)
    ∧ resolveBundles packages engine
      = match c with
        | Returns st => Returns (List.filter bundleExists (bundles st))
        | Throws error => Throws error
        end.
Proof.
  destruct (resolveAll_total enoughFuel packages
              {| bundles := seedBundles engine; resolved := ∅ |})
    as (c & Hc & _).
  - unfold unvisited, enoughFuel. simpl.
    rewrite difference_empty_L, size_dom. lia.
  - exists c. split; [done|].
    unfold resolveBundles, resolveBundles_fuel. rewrite Hc.
    by destruct c.
Qed.

Lemma addPackageBundles_mono (pkg b : string) (bs bs' : list string) :
  addPackageBundles pkg bs = Returns bs' → b ∈ bs → b ∈ bs'.
Proof.
  unfold addPackageBundles.
  destruct (packageMap_get pkg) as [bn| |]; [|by intros [= <-]..].
  destruct (truthy bn && bundleExists bn); [|by intros [= <-]].
  destruct (bundleDeps_get bn) as [deps| |]; [|done|].
  - intros [= <-] Hb.
    pose proof (set_add_mono bn b bs Hb) as Hb'.
    revert Hb'. generalize (set_add bn bs).
    induction deps as [|d ds IHds]; intros acc Hacc; simpl; [done|].
    apply IHds. destruct (bundleExists d); [by apply set_add_mono | done].
  - intros [= <-] Hb. by apply set_add_mono.
Qed.

Lemma elem_of_existing_deps (ds acc : list string) (b : string) :
  b ∈ fold_left (fun acc dep => if bundleExists dep then set_add dep acc else acc)
        ds acc
  ↔ b ∈ acc ∨ (b ∈ ds ∧ bundleExists b = true).
Proof.
  revert acc. induction ds as [|d ds IH]; intros acc; simpl.
  - split; [auto | intros [?|[Hb _]]; [done | by apply not_elem_of_nil in Hb]].
  - rewrite IH, elem_of_cons. destruct (bundleExists d) eqn:Hd.
    + rewrite elem_of_set_add. split.
      * intros [[->|?]|[? ?]]; auto.
      * intros [?|[[->|?] ?]]; auto.
    + split.
      * intros [?|[? ?]]; auto.
      * intros [?|[[->|?] Hb]]; auto. congruence.
Qed.

Lemma NoDup_existing_deps (ds acc : list string) :
  NoDup acc →
  NoDup (fold_left (fun acc dep => if bundleExists dep then set_add dep acc else acc)
           ds acc).
Proof.
  revert acc. induction ds as [|d ds IH]; intros acc Hacc; simpl; [done|].
  apply IH. destruct (bundleExists d); [by apply set_add_NoDup | done].
Qed.

(** Nothing is ever removed from [bundles] while packages are resolved. *)
Lemma resolvePackage_bundles_mono (fuel : nat) :
  ∀ (pkg : string) (st st' : closure) (b : string),
    resolvePackage fuel pkg st = Some (Returns st') →
    b ∈ bundles st → b ∈ bundles st'.
Proof.
  induction fuel as [|fuel IH]; intros pkg st st' b; [done|].
  destruct (decide (pkg ∈ resolved st)) as [Hin|Hin].
  { rewrite resolvePackage_entered by done. by intros [= ->]. }
  rewrite resolvePackage_enter by done.
  destruct (addPackageBundles pkg (bundles st)) as [bs|error] eqn:Hadd; [|done].
  cbn zeta.
  set (st1 := {| bundles := bs; resolved := {[pkg]} ∪ resolved st |}).
  intros Hrun Hb.
  assert (Hb1 : b ∈ bundles st1) by (by apply (addPackageBundles_mono _ _ _ _ Hadd)).
  destruct (packageDeps_get pkg) as [pkgDeps| |]; [|done|by injection Hrun as <-].
  clearbody st1. revert st1 Hrun Hb1.
  induction pkgDeps as [|d ds IHds]; intros s Hrun Hs.
  - by injection Hrun as <-.
  - rewrite resolveEach_cons in Hrun.
    destruct (resolvePackage fuel d s) as [[s1|error]|] eqn:Hd.
    + apply (IHds s1 Hrun). by apply (IH d s s1).
    + by rewrite resolveEach_Throws in Hrun.
    + by rewrite resolveEach_None in Hrun.
Qed.

Lemma resolveAll_bundles_mono (fuel : nat) (ps : list string) :
  ∀ (st st' : closure) (b : string),
    resolveAll fuel ps st = Some (Returns st') →
    b ∈ bundles st → b ∈ bundles st'.
Proof.
  unfold resolveAll. induction ps as [|p ps IHps]; intros st st' b.
  - by intros [= ->].
  - rewrite resolveEach_cons.
    destruct (resolvePackage fuel p st) as [[s1|error]|] eqn:Hp.
    + intros Hrun Hb. apply (IHps s1 st' b Hrun).
      by apply (resolvePackage_bundles_mono fuel p st s1).
    + by rewrite resolveEach_Throws.
    + by rewrite resolveEach_None.
Qed.

Lemma coreBundles_seeded (engine b : string) :
  b ∈ coreBundles → b ∈ seedBundles engine.
Proof.
  intros Hb. unfold seedBundles.
  assert (Hc : b ∈ fold_left (fun acc b => set_add b acc) coreBundles []).
  { vm_compute. exact Hb. }
  destruct (String.eqb engine "pdflatex"); [by do 3 apply set_add_mono|].
  destruct (String.eqb engine "xelatex"); [by do 3 apply set_add_mono | done].
Qed.

(** What [resolveBundles] returns exists in the registry. *)
Lemma resolveBundles_exist (packages : list string) (engine b : string)
    (result : list string) :
  resolveBundles packages engine = Returns result →
  b ∈ result → bundleExists b = true.
Proof.
  destruct (resolveBundles_fuel_total packages engine) as (c & _ & _ & ->).
  destruct c as [st|error]; [|done]. intros [= <-].
  rewrite list_elem_of_In. intros Hb. apply filter_In in Hb. tauto.
Qed.

(** *** What the resolution reaches *)

(** The packages [resolvePackage] comes to: the requested ones and, through
    the own properties of [packageDeps], the packages they depend on. *)
Inductive reachable (packages : list string) : string → Prop :=
| reachable_requested (p : string) :
    p ∈ packages → reachable packages p
| reachable_dependency (p d : string) (pkgDeps : list string) :
    reachable packages p → packageDeps_get p = Own pkgDeps → d ∈ pkgDeps →
    reachable packages d.

(** The package is mapped to a bundle that is named and exists. *)
Definition bundleOf (pkg bundleName : string) : Prop :=
  packageMap_get pkg = Own bundleName
  ∧ truthy bundleName = true
  ∧ bundleExists bundleName = true.

(** What a package contributes: its bundle, and the direct dependencies of
    that bundle that exist. *)
Definition contributes (pkg b : string) : Prop :=
  ∃ bundleName,
    bundleOf pkg bundleName
    ∧ (b = bundleName
       ∨ ∃ deps, bundleDeps_get bundleName = Own deps
                 ∧ b ∈ deps ∧ bundleExists b = true).

(** Where [resolvePackage] throws: at a package whose bundle has the name of
    a member that [bundleDeps] inherits, or that itself has the name of a
    member that [packageDeps] inherits. *)
Definition throwsAt (pkg : string) : Prop :=
  (∃ bundleName, bundleOf pkg bundleName ∧ bundleDeps_get bundleName = Inherited)
  ∨ packageDeps_get pkg = Inherited.

Lemma addPackageBundles_Throws (pkg : string) (bs : list string) (error : string) :
  addPackageBundles pkg bs = Throws error → throwsAt pkg.
Proof.
  unfold addPackageBundles, throwsAt, bundleOf.
  destruct (packageMap_get pkg) as [bn| |]; [|done..].
  destruct (truthy bn && bundleExists bn) eqn:Hok; [|done].
  apply andb_true_iff in Hok as [Ht He].
  destruct (bundleDeps_get bn) eqn:Hdeps; [done| |done].
  intros _. left. by exists bn.
Qed.

Lemma addPackageBundles_Returns (pkg : string) (bs bs' : list string) :
  addPackageBundles pkg bs = Returns bs' →
  (∀ bundleName, bundleOf pkg bundleName → bundleDeps_get bundleName ≠ Inherited)
  ∧ (∀ b, b ∈ bs' ↔ b ∈ bs ∨ contributes pkg b)
  ∧ (NoDup bs → NoDup bs').
Proof.
  unfold addPackageBundles, contributes, bundleOf.
  destruct (packageMap_get pkg) as [bn| |] eqn:Hbn.
  - destruct (truthy bn && bundleExists bn) eqn:Hok.
    + apply andb_true_iff in Hok as [Ht He].
      destruct (bundleDeps_get bn) as [deps| |] eqn:Hdeps; [|done|].
      * intros [= <-]. split_and!.
        -- intros bn' ([= <-] & _ & _). by rewrite Hdeps.
        -- intros b. rewrite elem_of_existing_deps, elem_of_set_add. split.
           ++ intros [[->|?]|[? ?]]; [right | by left | right].
              ** exists bn. split; [done | by left].
              ** exists bn. split; [done|]. right. by exists deps.
           ++ intros [?|(bn' & ([= <-] & _ & _) & [->|(deps' & Hd & ? & ?)])];
                [by left; right | by left; left |].
              rewrite Hdeps in Hd. injection Hd as <-. by right.
        -- intros Hnd. by apply NoDup_existing_deps, set_add_NoDup.
      * intros [= <-]. split_and!.
        -- intros bn' ([= <-] & _ & _). by rewrite Hdeps.
        -- intros b. rewrite elem_of_set_add. split.
           ++ intros [->|?]; [right | by left].
              exists bn. split; [done | by left].
           ++ intros [?|(bn' & ([= <-] & _ & _) & [->|(deps' & Hd & ? & ?)])];
                [by right | by left |].
              by rewrite Hdeps in Hd.
        -- apply set_add_NoDup.
    + intros [= <-]. split_and!; [| |done].
      * intros bn' ([= <-] & Ht & He). rewrite Ht, He in Hok. discriminate.
      * intros b. split; [auto|].
        intros [?|(bn' & ([= <-] & Ht & He) & _)]; [done|].
        rewrite Ht, He in Hok. discriminate.
  - intros [= <-]. split_and!; [by intros bn' ([=] & _) | | done].
    intros b. split; [auto|]. by intros [?|(bn' & ([=] & _) & _)].
  - intros [= <-]. split_and!; [by intros bn' ([=] & _) | | done].
    intros b. split; [auto|]. by intros [?|(bn' & ([=] & _) & _)].
Qed.

(** A package is settled in a state when nothing throws at it, all it
    contributes is among the bundles, and all it depends on has been
    entered. *)
Definition settledAt (st : closure) (p : string) : Prop :=
  ¬ throwsAt p
  ∧ (∀ b, contributes p b → b ∈ bundles st)
  ∧ (∀ pkgDeps d, packageDeps_get p = Own pkgDeps → d ∈ pkgDeps → d ∈ resolved st).

(** One state extends another. *)
Definition extends (st st' : closure) : Prop :=
  resolved st ⊆ resolved st' ∧ ∀ b, b ∈ bundles st → b ∈ bundles st'.

Lemma settledAt_extends (st st' : closure) (p : string) :
  extends st st' → settledAt st p → settledAt st' p.
Proof.
  intros [Hr Hb] (Ht & Hc & Hd). split_and!; [done | |].
  - intros b Hcb. by apply Hb, Hc.
  - intros pkgDeps d Hp Hdp. by apply Hr, (Hd pkgDeps).
Qed.

Lemma extends_refl (st : closure) : extends st st.
Proof. split; [done | auto]. Qed.

Lemma extends_trans (s1 s2 s3 : closure) :
  extends s1 s2 → extends s2 s3 → extends s1 s3.
Proof. intros [Hr Hb] [Hr' Hb']. split; [set_solver | auto]. Qed.

(** What a call of [resolvePackage] at depth [fuel] that returns leaves
    behind: the package is entered, and every package entered during the
    call is settled. *)
Definition closes (fuel : nat) : Prop :=
  ∀ (pkg : string) (st st' : closure),
    resolvePackage fuel pkg st = Some (Returns st') →
    extends st st' ∧ pkg ∈ resolved st'
    ∧ ∀ p, p ∈ resolved st' → p ∉ resolved st → settledAt st' p.

Lemma resolveEach_closure (fuel : nat) (ps : list string) :
  closes fuel →
  ∀ st st' : closure,
    resolveEach fuel ps (Some (Returns st)) = Some (Returns st') →
    extends st st' ∧ (∀ p, p ∈ ps → p ∈ resolved st')
    ∧ ∀ p, p ∈ resolved st' → p ∉ resolved st → settledAt st' p.
Proof.
  intros Hfuel. induction ps as [|p ps IH]; intros st st' Hrun.
  - injection Hrun as <-. split_and!; [apply extends_refl | | done].
    intros p Hp. by apply not_elem_of_nil in Hp.
  - rewrite resolveEach_cons in Hrun.
    destruct (resolvePackage fuel p st) as [[s1|error]|] eqn:Hp;
      [| by rewrite resolveEach_Throws in Hrun
       | by rewrite resolveEach_None in Hrun].
    destruct (Hfuel p st s1 Hp) as (Hext1 & Hp1 & Hnew1).
    destruct (IH s1 st' Hrun) as (Hext & Hps & Hnew).
    split_and!.
    + by apply (extends_trans st s1 st').
    + intros q [->|Hq]%elem_of_cons; [by apply Hext | by apply Hps].
    + intros q Hq Hnq. destruct (decide (q ∈ resolved s1)) as [Hq1|Hq1].
      * apply (settledAt_extends s1 st' q Hext). by apply Hnew1.
      * by apply Hnew.
Qed.

Lemma resolvePackage_closes (fuel : nat) : closes fuel.
Proof.
  induction fuel as [|fuel IH]; intros pkg st st'; [done|].
  destruct (decide (pkg ∈ resolved st)) as [Hin|Hin].
  { rewrite resolvePackage_entered by done. intros [= <-].
    split_and!; [apply extends_refl | done | done]. }
  rewrite resolvePackage_enter by done.
  destruct (addPackageBundles pkg (bundles st)) as [bs|error] eqn:Hadd; [|done].
  destruct (addPackageBundles_Returns _ _ _ Hadd) as (Hiter & Hbs & _).
  cbn zeta.
  set (st1 := {| bundles := bs; resolved := {[pkg]} ∪ resolved st |}).
  assert (Hext1 : extends st st1).
  { split; [intros x Hx; apply elem_of_union; by right|].
    intros b Hb. apply Hbs. by left. }
  assert (Hpkg : pkg ∈ resolved st1).
  { subst st1; simpl. apply elem_of_union. left. by apply elem_of_singleton. }
  assert (Hown : ∀ b, contributes pkg b → b ∈ bundles st1).
  { intros b Hb. apply Hbs. by right. }
  assert (Hother : ∀ q, q ∈ resolved st1 → q ∉ resolved st → q = pkg).
  { intros q Hq Hnq. subst st1; simpl in Hq.
    apply elem_of_union in Hq as [Hq%elem_of_singleton|Hq]; [done | contradiction]. }
  destruct (packageDeps_get pkg) as [pkgDeps| |] eqn:Hdeps; [|done|].
  - intros Hrun.
    destruct (resolveEach_closure fuel pkgDeps IH st1 st' Hrun)
      as (Hext & Hentered & Hnew).
    split_and!.
    + by apply (extends_trans st st1 st').
    + by apply Hext.
    + intros q Hq Hnq. destruct (decide (q ∈ resolved st1)) as [Hq1|Hq1].
      * apply Hother in Hq1 as ->; [|done]. split_and!.
        -- intros [(bn & Hbn & Hin')|Hin']; [by apply (Hiter bn) | congruence].
        -- intros b Hb. by apply Hext, Hown.
        -- intros ds d Hds Hd. rewrite Hdeps in Hds. injection Hds as <-.
           by apply Hentered.
      * by apply Hnew.
  - intros [= <-]. split_and!; [done | done |].
    intros q Hq Hnq. apply Hother in Hq as ->; [|done]. split_and!.
    + intros [(bn & Hbn & Hin')|Hin']; [by apply (Hiter bn) | congruence].
    + done.
    + intros ds d Hds. congruence.
Qed.

(** Every bundle in a state is a seed bundle or what a reached package
    contributes, and only reached packages were entered. *)
Definition justified (packages : list string) (engine : string) (st : closure)
  : Prop :=
  (∀ p, p ∈ resolved st → reachable packages p)
  ∧ (∀ b, b ∈ bundles st →
       b ∈ seedBundles engine ∨ ∃ p, reachable packages p ∧ contributes p b)
  ∧ NoDup (bundles st).

Lemma resolveEach_justified (packages : list string) (engine : string)
    (fuel : nat) (ps : list string) :
  (∀ pkg st st', reachable packages pkg → justified packages engine st →
                 resolvePackage fuel pkg st = Some (Returns st') →
                 justified packages engine st') →
  ∀ st st' : closure,
    (∀ p, p ∈ ps → reachable packages p) → justified packages engine st →
    resolveEach fuel ps (Some (Returns st)) = Some (Returns st') →
    justified packages engine st'.
Proof.
  intros Hfuel. induction ps as [|p ps IH]; intros st st' Hps Hst Hrun.
  - by injection Hrun as <-.
  - rewrite resolveEach_cons in Hrun.
    destruct (resolvePackage fuel p st) as [[s1|error]|] eqn:Hp;
      [| by rewrite resolveEach_Throws in Hrun
       | by rewrite resolveEach_None in Hrun].
    apply (IH s1 st'); [| |done].
    + intros q Hq. apply Hps. by right.
    + apply (Hfuel p st s1); [|done|done]. apply Hps. by left.
Qed.

Lemma resolvePackage_justified (packages : list string) (engine : string)
    (fuel : nat) :
  ∀ (pkg : string) (st st' : closure),
    reachable packages pkg → justified packages engine st →
    resolvePackage fuel pkg st = Some (Returns st') →
    justified packages engine st'.
Proof.
  induction fuel as [|fuel IH]; intros pkg st st' Hpkg Hst; [done|].
  destruct (decide (pkg ∈ resolved st)) as [Hin|Hin].
  { rewrite resolvePackage_entered by done. by intros [= <-]. }
  rewrite resolvePackage_enter by done.
  destruct (addPackageBundles pkg (bundles st)) as [bs|error] eqn:Hadd; [|done].
  destruct (addPackageBundles_Returns _ _ _ Hadd) as (_ & Hbs & Hnd1).
  cbn zeta.
  assert (Hst1 : justified packages engine
                   {| bundles := bs; resolved := {[pkg]} ∪ resolved st |}).
  { destruct Hst as (Hr & Hb & Hnd). split_and!; simpl.
    - intros p [->%elem_of_singleton|Hp]%elem_of_union; [done | by apply Hr].
    - intros b [Hb0|Hc]%Hbs; [by apply Hb|]. right. by exists pkg.
    - by apply Hnd1. }
  destruct (packageDeps_get pkg) as [pkgDeps| |] eqn:Hdeps; [|done|].
  - intros Hrun.
    apply (resolveEach_justified packages engine fuel pkgDeps IH _ st')
      in Hrun; [done | | done].
    intros d Hd. by apply (reachable_dependency packages pkg d pkgDeps).
  - by intros [= <-].
Qed.

(** A call that throws does so at a package it has come to. *)
Lemma resolveEach_throws (packages : list string) (fuel : nat)
    (ps : list string) :
  (∀ pkg st error, reachable packages pkg →
                   resolvePackage fuel pkg st = Some (Throws error) →
                   ∃ p, reachable packages p ∧ throwsAt p) →
  ∀ (st : closure) (error : string),
    (∀ p, p ∈ ps → reachable packages p) →
    resolveEach fuel ps (Some (Returns st)) = Some (Throws error) →
    ∃ p, reachable packages p ∧ throwsAt p.
Proof.
  intros Hfuel. induction ps as [|p ps IH]; intros st error Hps Hrun; [done|].
  rewrite resolveEach_cons in Hrun.
  destruct (resolvePackage fuel p st) as [[s1|error1]|] eqn:Hp.
  - apply (IH s1 error); [|done]. intros q Hq. apply Hps. by right.
  - apply (Hfuel p st error1); [|done]. apply Hps. by left.
  - by rewrite resolveEach_None in Hrun.
Qed.

Lemma resolvePackage_throws (packages : list string) (fuel : nat) :
  ∀ (pkg : string) (st : closure) (error : string),
    reachable packages pkg →
    resolvePackage fuel pkg st = Some (Throws error) →
    ∃ p, reachable packages p ∧ throwsAt p.
Proof.
  induction fuel as [|fuel IH]; intros pkg st error Hpkg; [done|].
  destruct (decide (pkg ∈ resolved st)) as [Hin|Hin].
  { by rewrite resolvePackage_entered. }
  rewrite resolvePackage_enter by done.
  destruct (addPackageBundles pkg (bundles st)) as [bs|error1] eqn:Hadd.
  - cbn zeta. destruct (packageDeps_get pkg) as [pkgDeps| |] eqn:Hdeps; [| |done].
    + intros Hrun.
      eapply (resolveEach_throws packages fuel pkgDeps IH); [|exact Hrun].
      intros d Hd. by apply (reachable_dependency packages pkg d pkgDeps).
    + intros _. exists pkg. split; [done | by right].
  - intros _. exists pkg. split; [done|].
    by apply (addPackageBundles_Throws _ _ _ Hadd).
Qed.

Lemma seedBundles_NoDup (engine : string) : NoDup (seedBundles engine).
Proof.
  unfold seedBundles.
  assert (Hc : NoDup (fold_left (fun acc b => set_add b acc) coreBundles [])).
  { vm_compute. repeat (constructor; [by intros Hin; apply list_elem_of_In in Hin;
        simpl in Hin; intuition discriminate|]). constructor. }
  destruct (String.eqb engine "pdflatex"); [by do 3 apply set_add_NoDup|].
  destruct (String.eqb engine "xelatex"); [by do 3 apply set_add_NoDup | done].
Qed.

Lemma reachable_resolved (packages : list string) (st : closure) :
  (∀ p, p ∈ packages → p ∈ resolved st) →
  (∀ p, p ∈ resolved st → settledAt st p) →
  ∀ p, reachable packages p → p ∈ resolved st.
Proof.
  intros Hroots Hsettled p Hp. induction Hp as [p Hp | p d pkgDeps _ IH Hds Hd].
  - by apply Hroots.
  - destruct (Hsettled p IH) as (_ & _ & Hdeps). by apply (Hdeps pkgDeps).
Qed.

(** How a call of [resolveBundles] completes, and in which state.  It
    throws only at a reached package at which [resolvePackage] throws; when
    it returns, nothing throws at any reached package, the state holds the
    seed bundles and what the reached packages contribute and nothing else,
    without repetition, and the result is that list filtered. *)
Lemma resolveBundles_completes (packages : list string) (engine : string) :
  resolveBundles_fuel enoughFuel packages engine
  = Some (resolveBundles packages engine)
  ∧ match resolveBundles packages engine with
    | Throws _ => ∃ p, reachable packages p ∧ throwsAt p
    | Returns result =>
        ∃ st,
          result = List.filter bundleExists (bundles st)
          ∧ NoDup (bundles st)
          ∧ (∀ p, reachable packages p → ¬ throwsAt p)
          ∧ ∀ b, b ∈ bundles st
                 ↔ b ∈ seedBundles engine
                   ∨ ∃ p, reachable packages p ∧ contributes p b
    end.
Proof.
  destruct (resolveBundles_fuel_total packages engine) as (c & Hc & Hfuel & Heq).
  split; [exact Hfuel|]. rewrite Heq.
  set (st0 := {| bundles := seedBundles engine; resolved := ∅ |}) in Hc.
  unfold resolveAll in Hc. destruct c as [st|error].
  - exists st. split; [done|].
    assert (Hj : justified packages engine st).
    { apply (resolveEach_justified packages engine enoughFuel packages
               (resolvePackage_justified packages engine enoughFuel) st0 st);
        [apply reachable_requested | | done].
      split_and!; simpl; [by intros p Hp%not_elem_of_empty | auto |
                          apply seedBundles_NoDup]. }
    destruct (resolveEach_closure enoughFuel packages
                (resolvePackage_closes enoughFuel) st0 st Hc)
      as (Hext & Hroots & Hnew).
    assert (Hsettled : ∀ p, p ∈ resolved st → settledAt st p).
    { intros q Hq. apply Hnew; [done|]. simpl. apply not_elem_of_empty. }
    assert (Hall : ∀ p, reachable packages p → p ∈ resolved st)
      by (by apply reachable_resolved).
    destruct Hj as (_ & Hb & Hnd). split_and!; [done | |].
    + intros p Hp. by destruct (Hsettled p (Hall p Hp)).
    + intros b. split; [apply Hb|].
      intros [Hseed|(p & Hp & Hcb)]; [by apply Hext|].
      destruct (Hsettled p (Hall p Hp)) as (_ & Hcs & _). by apply Hcs.
  - apply (resolveEach_throws packages enoughFuel packages
             (resolvePackage_throws packages enoughFuel) st0 error);
      [apply reachable_requested | done].
Qed.

(** X1.  [resolveBundles] throws a [TypeError] exactly when a package
    reached from the requested ones through [packageDeps] has, while
    [packageDeps] is loaded, the name of a member inherited from
    [Object.prototype], or is mapped to an existing bundle of such a name
    while [bundleDeps] is loaded.  Otherwise it returns exactly the bundles
    of the registry that are seeded (the core bundles and those of the
    engine) or contributed by a reached package: the bundle the package is
    mapped to and that bundle's direct dependencies.  Dependencies of
    packages are followed to any depth, also around cycles; dependencies of
    bundles are followed one step only.  The recursion always completes:
    the bound on its depth is never hit. *)
Theorem resolveBundles_reaches (packages : list string) (engine : string) :
  resolveBundles_fuel enoughFuel packages engine
  = Some (resolveBundles packages engine)
  ∧ match resolveBundles packages engine with
    | Throws _ => ∃ p, reachable packages p ∧ throwsAt p
    | Returns result =>
        (∀ p, reachable packages p → ¬ throwsAt p)
        ∧ ∀ b,
            b ∈ result
            ↔ bundleExists b = true
              ∧ (b ∈ seedBundles engine
                 ∨ ∃ p, reachable packages p ∧ contributes p b)
    end.
Proof.
  destruct (resolveBundles_completes packages engine) as [Hfuel Hc].
  split; [done|].
  destruct (resolveBundles packages engine) as [result|error]; [|done].
  destruct Hc as (st & -> & _ & Hthrows & Hb). split; [done|].
  intros b. rewrite list_elem_of_In, filter_In, <- list_elem_of_In, Hb. tauto.
Qed.

(** X2.  The list a call of [resolveBundles] returns has no bundle
    twice. *)
Theorem resolveBundles_NoDup (packages : list string) (engine : string)
    (result : list string) :
  resolveBundles packages engine = Returns result → NoDup result.
Proof.
  destruct (resolveBundles_completes packages engine) as [_ Hc].
  intros Hr. rewrite Hr in Hc. destruct Hc as (st & -> & Hnd & _).
  by apply NoDup_ListNoDup, List.NoDup_filter, NoDup_ListNoDup.
Qed.

End Resolve.

(** *** Concrete registries used below *)

(** A registry as the bundle build produces it: the core bundles, the
    engine bundles of all three engines, and [amsmath]. *)
Definition fullRegistry : manifests := {|
  packageMap := Some {[ "amsmath" := "amsmath" ]};
  bundleDeps := Some ∅;
  packageDeps := None;
  bundleRegistry :=
    Some (list_to_set
            ["core"; "latex-base"; "l3"; "graphics"; "tools";
             "fmt-pdflatex"; "fonts-cm"; "amsfonts";
             "fmt-xelatex"; "fmt-lualatex"; "fontspec"; "unicode-math";
             "amsmath"])
|}.

(** A registry whose [registry.json] lists no [tools] bundle. *)
Definition registryWithoutTools : manifests := {|
  packageMap := Some ∅;
  bundleDeps := Some ∅;
  packageDeps := None;
  bundleRegistry :=
    Some (list_to_set ["core"; "latex-base"; "l3"; "graphics"; "fmt-pdflatex"])
|}.

(** The manager before [loadManifest] has run. *)
Definition notLoaded : manifests := {|
  packageMap := None; bundleDeps := None; packageDeps := None;
  bundleRegistry := None
|}.

(** [seedBundles] has a branch for pdflatex and one for xelatex only. *)
Lemma seedBundles_lualatex : seedBundles "lualatex" = coreBundles.
Proof. reflexivity. Qed.

Lemma seedBundles_xelatex :
  seedBundles "xelatex" = coreBundles ++ ["fmt-xelatex"; "fontspec"; "unicode-math"].
Proof. reflexivity. Qed.

(** C1 (the code at the failing input).  With a registry that holds every
    bundle, [resolveBundles(['amsmath'], 'lualatex')] returns the core bundles
    and [amsmath] only: none of [fmt-lualatex], [fontspec], [unicode-math] is
    in the result although each exists in the registry, while the same call
    for xelatex does return that engine's three bundles. *)
Theorem resolveBundles_lualatex_misses_engine_bundles :
  ∃ result,
    resolveBundles fullRegistry ["amsmath"] "lualatex" = Returns result
    ∧ result = ["core"; "latex-base"; "l3"; "graphics"; "tools"; "amsmath"]
    ∧ bundleExists fullRegistry "fmt-lualatex" = true
    ∧ bundleExists fullRegistry "fontspec" = true
    ∧ bundleExists fullRegistry "unicode-math" = true
    ∧ ("fmt-lualatex" ∉ result)
    ∧ ("fontspec" ∉ result)
    ∧ ("unicode-math" ∉ result)
    ∧ resolveBundles fullRegistry ["amsmath"] "xelatex"
      = Returns ["core"; "latex-base"; "l3"; "graphics"; "tools";
                 "fmt-xelatex"; "fontspec"; "unicode-math"; "amsmath"].
Proof.
  exists ["core"; "latex-base"; "l3"; "graphics"; "tools"; "amsmath"].
  split_and!; try (vm_compute; reflexivity).
  all: intros Hin; apply list_elem_of_In in Hin; simpl in Hin;
    repeat (destruct Hin as [Hin|Hin]; [discriminate Hin|]); exact Hin.
Qed.

(** C9 (as stated, refuted).  When [registry.json] lists no [tools] bundle,
    the final filter drops [tools] from the result. *)
Lemma resolveBundles_core_dropped :
  ∃ result,
    resolveBundles registryWithoutTools [] "pdflatex" = Returns result
    ∧ result = ["core"; "latex-base"; "l3"; "graphics"; "fmt-pdflatex"]
    ∧ "tools" ∈ coreBundles
    ∧ "tools" ∉ result.
Proof.
  exists ["core"; "latex-base"; "l3"; "graphics"; "fmt-pdflatex"].
  split_and!; [vm_compute; reflexivity | reflexivity | | ].
  - apply list_elem_of_In; simpl; tauto.
  - intros Hin; apply list_elem_of_In in Hin; simpl in Hin;
      repeat (destruct Hin as [Hin|Hin]; [discriminate Hin|]); exact Hin.
Qed.

(** Before the registry is loaded nothing exists and nothing is looked up
    in an object: the call returns the empty list. *)
Lemma resolveBundles_notLoaded (packages : list string) (engine : string) :
  resolveBundles notLoaded packages engine = Returns [].
Proof.
  destruct (resolveBundles_completes notLoaded packages engine) as [_ Hc].
  destruct (resolveBundles notLoaded packages engine) as [result|error].
  - destruct Hc as (st & -> & _). f_equal.
    induction (bundles st) as [|b bs IH]; [done | exact IH].
  - destruct Hc as (p & _ & [(bn & (Hbn & _) & _)|Hp]); discriminate.
Qed.

(** A manager with [package-deps.json] loaded. *)
Definition withPackageDeps : manifests := {|
  packageMap := Some {[ "amsmath" := "amsmath" ]};
  bundleDeps := Some ∅;
  packageDeps := Some {[ "amsmath" := ["amstext"] ]};
  bundleRegistry :=
    Some (list_to_set
            ["core"; "latex-base"; "l3"; "graphics"; "tools"; "amsmath"])
|}.

(** A package named like a member of [Object.prototype] makes the call
    throw once [package-deps.json] is loaded, and not before. *)
Example resolveBundles_constructor :
  resolveBundles withPackageDeps ["amsmath"; "constructor"] "lualatex"
  = Throws "TypeError: pkgDeps is not iterable"
  ∧ resolveBundles withPackageDeps ["amsmath"; "geometry"] "lualatex"
    = Returns ["core"; "latex-base"; "l3"; "graphics"; "tools"; "amsmath"]
  ∧ resolveBundles fullRegistry ["amsmath"; "constructor"] "lualatex"
    = Returns ["core"; "latex-base"; "l3"; "graphics"; "tools"; "amsmath"].
Proof. split_and!; vm_compute; reflexivity. Qed.

(** C9 (amended).  For every registry, package list and engine: a call of
    [resolveBundles] that returns gives a list in which each of the five
    core bundle names is exactly when that bundle exists in the loaded
    registry (the core set is always seeded, and the final filter keeps the
    seeded names that exist); and a call does not return only when it has
    come to a package at which the loop over an inherited member of
    [Object.prototype] throws. *)
Theorem resolveBundles_core_iff_exists
    (this : manifests) (packages : list string) (engine : string) :
  match resolveBundles this packages engine with
  | Returns result =>
      ∀ b, b ∈ coreBundles → (b ∈ result ↔ bundleExists this b = true)
  | Throws _ => ∃ p, reachable this packages p ∧ throwsAt this p
  end.
Proof.
  destruct (resolveBundles_completes this packages engine) as [_ Hc].
  destruct (resolveBundles this packages engine) as [result|error]; [|done].
  destruct Hc as (st & -> & _ & _ & Hb). intros b Hcore.
  rewrite list_elem_of_In, filter_In, <- list_elem_of_In, Hb.
  split; [tauto|]. intros Hex. split; [|done]. left.
  by apply coreBundles_seeded.
Qed.

Lemma resolveBundles_core_iff_exists_witness :
  match resolveBundles fullRegistry ["amsmath"] "lualatex" with
  | Returns result =>
      ∀ b, b ∈ coreBundles → (b ∈ result ↔ bundleExists fullRegistry b = true)
  | Throws _ =>
      ∃ p, reachable fullRegistry ["amsmath"] p ∧ throwsAt fullRegistry p
  end.
Proof.
  exact (resolveBundles_core_iff_exists fullRegistry ["amsmath"] "lualatex").
Defined.

(** *** Dependencies around a cycle *)

(** Packages [a] and [b] depend on each other, [b] also on [c]; the bundle
    of [b] depends on two bundles, one of which the registry does not
    list. *)
Definition cyclicManifests : manifests := {|
  packageMap :=
    Some (list_to_map [("a", "bundle-a"); ("b", "bundle-b"); ("c", "bundle-c")]);
  bundleDeps := Some {[ "bundle-b" := ["base-b"; "missing"] ]};
  packageDeps := Some (list_to_map [("a", ["b"]); ("b", ["a"; "c"])]);
  bundleRegistry :=
    Some (list_to_set ["core"; "bundle-a"; "bundle-b"; "bundle-c"; "base-b"])
|}.

Example resolveBundles_cycle :
  resolveBundles cyclicManifests ["a"] "lualatex"
  = Returns ["core"; "bundle-a"; "bundle-b"; "base-b"; "bundle-c"].
Proof. vm_compute. reflexivity. Qed.

Lemma resolveBundles_NoDup_witness :
  NoDup ["core"; "bundle-a"; "bundle-b"; "base-b"; "bundle-c"].
Proof.
  apply (resolveBundles_NoDup cyclicManifests ["a"] "lualatex").
  vm_compute. reflexivity.
Defined.

(** ** Loading a bundle

    [loadBundle] is an [async] method: a call runs up to its first [await]
    and is resumed later, once per [await], while other callers may run in
    between.  A call is modelled by the [task] it leaves behind at each
    [await]; [loadBundle] is the part that runs at the call, [resume] runs a
    suspended task up to its next [await]. *)

(** The storage module ([./storage.js]) as [loadBundle] uses it. *)
Class BundleStorage (S : Type) := {
  getBundleFromOPFS : string → S → option (list byte);
  saveBundleToOPFS : string → list byte → S → S
}.

(** What [fetch(url)] resolves to. *)
Record response := {
  ok : bool;
  status : Z;
  body : list byte
}.

(** How the promise of a call settles. *)
Inductive outcome :=
| Fulfilled (data : list byte)
| Rejected (error : string).

(** A call of [loadBundle], by the [await] it is suspended at. *)
Inductive task :=
| AwaitOPFS (bundleName : string)
| AwaitFetch (bundleName : string)
| AwaitArrayBuffer (bundleName : string) (r : response)
| AwaitDecompress (bundleName : string) (compressed : list byte)
| Settled (o : outcome).

(** The manager's fields that [loadBundle] touches, the storage, and the
    URLs requested from the network so far. *)
Record world (S : Type) := {
  bundleCache : gmap string (list byte);
  bytesDownloaded : nat;
  cacheHitCount : nat;
  log : list string;
  store : S;
  requests : list string
}.
Arguments bundleCache {S} _.
Arguments bytesDownloaded {S} _.
Arguments cacheHitCount {S} _.
Arguments log {S} _.
Arguments store {S} _.
Arguments requests {S} _.

Section LoadBundle.
Context {S : Type} `{BundleStorage S}.

(** [this.bundleBase] *)
Variable bundleBase : string.
(** What the network answers to [fetch(url)]; [None] when it rejects. *)
Variable server : string → option response.
(** [decompress(compressed)]; [None] when it throws. *)
Variable decompress : list byte → option (list byte).

Definition bundleUrl (bundleName : string) : string :=
  bundleBase +:+ "/" +:+ bundleName +:+ ".data.gz".

(** The call itself: the memory cache is looked at, and on a miss
    [getBundleFromOPFS(bundleName)] is awaited. *)
Definition loadBundle (bundleName : string) (w : world S) : world S * task :=
  match bundleCache w !! bundleName with
  | Some data => (w, Settled (Fulfilled data))
  | None => (w, AwaitOPFS bundleName)
  end.

(** A suspended call, run from the [await] it is at to the next one.  The
    request of [fetch(url)] is recorded where the call is made.
    [saveBundleToOPFS] is not awaited; its write is taken to land at
    once. *)
Definition resume (t : task) (w : world S) : world S * task :=
  match t with
  | AwaitOPFS bundleName =>
      match getBundleFromOPFS bundleName (store w) with
      | Some cached =>
          ({| bundleCache := <[bundleName := cached]> (bundleCache w);
              bytesDownloaded := bytesDownloaded w;
              cacheHitCount := Datatypes.S (cacheHitCount w);
              log := log w ++ ["  From OPFS: " +:+ bundleName];
              store := store w;
              requests := requests w |},
           Settled (Fulfilled cached))
      | None =>
          ({| bundleCache := bundleCache w;
              bytesDownloaded := bytesDownloaded w;
              cacheHitCount := cacheHitCount w;
              log := log w ++ ["  Fetching: " +:+ bundleName];
              store := store w;
              requests := requests w ++ [bundleUrl bundleName] |},
           AwaitFetch bundleName)
      end
  | AwaitFetch bundleName =>
      match server (bundleUrl bundleName) with
      | None => (w, Settled (Rejected "Failed to fetch"))
      | Some r =>
          if ok r then (w, AwaitArrayBuffer bundleName r)
          else (w, Settled (Rejected ("Failed to load " +:+ bundleName +:+ ": "
                                       +:+ pretty (status r))))
      end
  | AwaitArrayBuffer bundleName r =>
      ({| bundleCache := bundleCache w;
          bytesDownloaded := bytesDownloaded w + length (body r);
          cacheHitCount := cacheHitCount w;
          log := log w;
          store := store w;
          requests := requests w |},
       AwaitDecompress bundleName (body r))
  | AwaitDecompress bundleName compressed =>
      match decompress compressed with
      | None => (w, Settled (Rejected "decompress"))
      | Some decompressed =>
          ({| bundleCache := <[bundleName := decompressed]> (bundleCache w);
              bytesDownloaded := bytesDownloaded w;
              cacheHitCount := cacheHitCount w;
              log := log w;
              store := saveBundleToOPFS bundleName decompressed (store w);
              requests := requests w |},
           Settled (Fulfilled decompressed))
      end
  | Settled o => (w, t)
  end.

(** Two callers ask for the same bundle one after the other, before either
    is resumed; then each is resumed once, in the order the storage happens
    to answer them ([firstFirst]: the first caller first). *)
Definition twoCallers (firstFirst : bool) (bundleName : string) (w : world S)
  : world S * task * task :=
  let (w1, first) := loadBundle bundleName w in
  let (w2, second) := loadBundle bundleName w1 in
  if firstFirst then
    let (w3, first') := resume first w2 in
    let (w4, second') := resume second w3 in
    (w4, first', second')
  else
    let (w3, second') := resume second w2 in
    let (w4, first') := resume first w3 in
    (w4, first', second').

(** C3 (the code at the failing input).  With the bundle neither in the
    memory cache nor in the storage, two concurrent callers of
    [loadBundle(name)] each reach [fetch], in whichever order they are
    resumed: the second caller does not join the first caller's pending
    load, and the network gets the same request twice.  [loadBundle] keeps
    no map of loads in flight. *)
Theorem loadBundle_two_callers_fetch_twice (firstFirst : bool)
    (bundleName : string) (w : world S) :
  bundleCache w !! bundleName = None →
  getBundleFromOPFS bundleName (store w) = None →
  ∃ w',
    twoCallers firstFirst bundleName w
    = (w', AwaitFetch bundleName, AwaitFetch bundleName)
    ∧ requests w' = requests w ++ [bundleUrl bundleName; bundleUrl bundleName].
Proof.
  intros Hmem Hopfs. unfold twoCallers, loadBundle. rewrite !Hmem.
  destruct firstFirst.
  - cbn [resume]. rewrite Hopfs. cbn [resume store]. rewrite Hopfs.
    eexists. split; [reflexivity|]. simpl. by rewrite <- app_assoc.
  - cbn [resume]. rewrite Hopfs. cbn [resume store]. rewrite Hopfs.
    eexists. split; [reflexivity|]. simpl. by rewrite <- app_assoc.
Qed.

(** *** One caller at a time *)

(** A task resumed [n] times in a row. *)
Fixpoint resumeAll (n : nat) (wt : world S * task) : world S * task :=
  match n with
  | O => wt
  | Datatypes.S n' => resumeAll n' (resume (snd wt) (fst wt))
  end.

(** [await this.loadBundle(bundleName)] with no other call of the manager
    running in between: the call is resumed at each of its [await]s, four
    at most, until it settles. *)
Definition awaitLoadBundle (bundleName : string) (w : world S) : world S * task :=
  resumeAll 4 (loadBundle bundleName w).

(** X3.  A call of [loadBundle] awaited on its own always settles.  When it
    is fulfilled with some data, the bundle is in the memory cache
    afterwards: the next call returns the same data at once, touching
    neither the storage nor the network.  When it is rejected (the request
    failed, the server answered with an error status, or decompression
    threw), the memory cache and the storage are as before the call, so
    that nothing is remembered of the failure. *)
Theorem loadBundle_outcome_cached (bundleName : string) (w : world S) :
  match awaitLoadBundle bundleName w with
  | (w', Settled (Fulfilled data)) =>
      loadBundle bundleName w' = (w', Settled (Fulfilled data))
  | (w', Settled (Rejected _)) =>
      bundleCache w' = bundleCache w ∧ store w' = store w
  | _ => False
  end.
Proof.
  unfold awaitLoadBundle, loadBundle.
  destruct (bundleCache w !! bundleName) as [data|] eqn:Hmem.
  { cbn [resumeAll resume fst snd]. by rewrite Hmem. }
  cbn [resumeAll fst snd]. cbn [resume].
  destruct (getBundleFromOPFS bundleName (store w)) as [cached|] eqn:Hopfs.
  { cbn [resume fst snd bundleCache]. by rewrite lookup_insert_eq. }
  cbn [resume fst snd].
  destruct (server (bundleUrl bundleName)) as [r|]; [|by cbn].
  destruct (ok r); [|by cbn].
  cbn [resume fst snd].
  destruct (decompress (body r)) as [decompressed|]; [|by cbn].
  cbn [resume fst snd bundleCache]. by rewrite lookup_insert_eq.
Qed.

(** X4.  The network sees a call of [loadBundle] only when the bundle is
    neither in the memory cache nor in the storage: then exactly one
    request is made, for [<bundleBase>/<name>.data.gz].  In the two other
    cases no request is made and [bytesDownloaded] stays as it is; a hit in
    the storage counts as one cache hit, a hit in memory as none. *)
Theorem loadBundle_network_use (bundleName : string) (w : world S) :
  let w' := fst (awaitLoadBundle bundleName w) in
  match bundleCache w !! bundleName, getBundleFromOPFS bundleName (store w) with
  | Some _, _ =>
      requests w' = requests w ∧ bytesDownloaded w' = bytesDownloaded w
      ∧ cacheHitCount w' = cacheHitCount w
  | None, Some _ =>
      requests w' = requests w ∧ bytesDownloaded w' = bytesDownloaded w
      ∧ cacheHitCount w' = Datatypes.S (cacheHitCount w)
  | None, None =>
      requests w' = requests w ++ [bundleUrl bundleName]
      ∧ cacheHitCount w' = cacheHitCount w
  end.
Proof.
  unfold awaitLoadBundle, loadBundle.
  destruct (bundleCache w !! bundleName) as [data|] eqn:Hmem; [by cbn|].
  cbn [resumeAll fst snd]. cbn [resume].
  destruct (getBundleFromOPFS bundleName (store w)) as [cached|] eqn:Hopfs;
    [by cbn|].
  cbn [resume fst snd].
  destruct (server (bundleUrl bundleName)) as [r|]; [|by cbn].
  destruct (ok r); [|by cbn].
  cbn [resume fst snd].
  by destruct (decompress (body r)) as [decompressed|]; cbn.
Qed.

End LoadBundle.

(** *** Two callers on a cold cache *)

(** A storage that holds bundles by name. *)
#[export] Instance gmap_BundleStorage : BundleStorage (gmap string (list byte)) := {|
  getBundleFromOPFS name s := s !! name;
  saveBundleToOPFS name data s := <[name := data]> s
|}.

Definition coldWorld : world (gmap string (list byte)) := {|
  bundleCache := ∅; bytesDownloaded := 0; cacheHitCount := 0; log := [];
  store := ∅; requests := []
|}.

(** A server that has every bundle, and a decompressor that returns its
    input. *)
Definition demoServer : string → option response :=
  fun _ => Some {| ok := true; status := 200;
                   body := list_byte_of_string "amsmath" |}.

(** Both callers run to the end: each downloads and decompresses the
    bundle, and the network has served the same URL twice. *)
Example loadBundle_two_callers_to_the_end :
  let run := resume "packages/bundles" demoServer Some in
  let '(w, first, second) :=
    twoCallers "packages/bundles" demoServer Some true "amsmath" coldWorld in
  let (w, first) := run first w in
  let (w, second) := run second w in
  let (w, first) := run first w in
  let (w, second) := run second w in
  let (w, first) := run first w in
  let (w, second) := run second w in
  first = Settled (Fulfilled (list_byte_of_string "amsmath"))
  ∧ second = Settled (Fulfilled (list_byte_of_string "amsmath"))
  ∧ requests w = ["packages/bundles/amsmath.data.gz";
                  "packages/bundles/amsmath.data.gz"]
  ∧ bytesDownloaded w = 14.
Proof. vm_compute. repeat split. Qed.

Lemma loadBundle_two_callers_fetch_twice_witness :
  bundleCache coldWorld !! "amsmath" = None
  ∧ getBundleFromOPFS "amsmath" (store coldWorld) = None
  ∧ ∃ w',
      twoCallers "packages/bundles" demoServer Some true "amsmath" coldWorld
      = (w', AwaitFetch "amsmath", AwaitFetch "amsmath")
      ∧ requests w'
        = requests coldWorld
          ++ [bundleUrl "packages/bundles" "amsmath";
              bundleUrl "packages/bundles" "amsmath"].
Proof.
  split; [reflexivity|]. split; [reflexivity|].
  exact (loadBundle_two_callers_fetch_twice "packages/bundles" demoServer Some
           true "amsmath" coldWorld eq_refl eq_refl).
Defined.

End BundleManager.


(** * The Emscripten file system, as the loaders see it *)

(** An error thrown by a file-system call: the loaders read [e.code] and
    [e.message]. *)
Record FSError := {
  code : string;
  message : string
}.

(** The three [FS] methods the loaders call.  Each either throws or returns
    the file system it leaves behind. *)
Class EmscriptenFS (FS : Type) := {
  FS_mkdir : string → FS → FSError + FS;
  FS_writeFile : string → list byte → FS → FSError + FS;
  FS_unlink : string → FS → FSError + FS
}.

(** A call made to the file system. *)
Inductive fs_call :=
| Mkdir (path : string)
| WriteFile (path : string) (data : list byte)
| Unlink (path : string).

(** The engine module: its file system, and the calls made to it so far. *)
Record engine (FS : Type) := {
  fs : FS;
  calls : list fs_call
}.
Arguments fs {FS} _.
Arguments calls {FS} _.

(** The [(path, data)] pairs handed to [FS.writeFile], in order. *)
Definition written (cs : list fs_call) : list (string * list byte) :=
  omap (fun c => match c with WriteFile p d => Some (p, d) | _ => None end) cs.

Section FSCalls.
Context {FS : Type} `{EmscriptenFS FS}.

(** [try { FS.mkdir(path) } catch { }]: the call is made, an exception
    leaves the file system as it was. *)
Definition try_mkdir (path : string) (e : engine FS) : engine FS :=
  {| fs := match FS_mkdir path (fs e) with inr fs' => fs' | inl _ => fs e end;
     calls := calls e ++ [Mkdir path] |}.

(** [FS.writeFile(path, data)]: the call is made; the result tells whether it
    threw. *)
Definition do_writeFile (path : string) (data : list byte) (e : engine FS)
  : option FSError * engine FS :=
  match FS_writeFile path data (fs e) with
  | inr fs' => (None, {| fs := fs'; calls := calls e ++ [WriteFile path data] |})
  | inl err => (Some err, {| fs := fs e; calls := calls e ++ [WriteFile path data] |})
  end.

(** [FS.unlink(path)], likewise. *)
Definition do_unlink (path : string) (e : engine FS)
  : option FSError * engine FS :=
  match FS_unlink path (fs e) with
  | inr fs' => (None, {| fs := fs'; calls := calls e ++ [Unlink path] |})
  | inl err => (Some err, {| fs := fs e; calls := calls e ++ [Unlink path] |})
  end.

End FSCalls.

(** ** Strings and typed arrays *)

(** [s.split('/')]: the pieces between slashes, empty ones included; never an
    empty list. *)
Fixpoint split_slash (s : string) : list string :=
  match s with
  | EmptyString => [EmptyString]
  | String c rest =>
      if Ascii.eqb c "/"%char then EmptyString :: split_slash rest
      else match split_slash rest with
           | [] => [String c EmptyString]
           | p :: ps => String c p :: ps
           end
  end.

(** An index of [slice] made absolute: a negative one counts from the end,
    and the result is clamped to [0, len]. *)
Definition relativeIndex (len rel : Z) : Z :=
  if (rel <? 0)%Z then Z.max (len + rel) 0 else Z.min rel len.

(** [TypedArray.prototype.slice(start, end)] for integer arguments. *)
Definition slice {A : Type} (l : list A) (start end_ : Z) : list A :=
  let len := Z.of_nat (length l) in
  let k := relativeIndex len start in
  let final := relativeIndex len end_ in
  let count := Z.max (final - k) 0 in
  take (Z.to_nat count) (drop (Z.to_nat k) l).

(** [path.startsWith('/texlive/')] *)
Definition underTexlive (path : string) : bool := String.prefix "/texlive/" path.

(** One entry of a bundle's [files] array ([BundleFile]). *)
Record BundleFile := {
  path : string;
  name : string;
  start : Z;
  end_ : Z
}.

(** [`${file.path}/${file.name}`] *)
Definition fullPath (file : BundleFile) : string :=
  path file +:+ "/" +:+ name file.

(** The directories [ensureDirectory(dirPath)] walks through: one per
    non-empty component, each the previous one extended by ['/' + part]. *)
Fixpoint chainFrom (current : string) (parts : list string) : list string :=
  match parts with
  | [] => []
  | part :: rest =>
      let current' := current +:+ "/" +:+ part in
      current' :: chainFrom current' rest
  end.

Definition directoryChain (dirPath : string) : list string :=
  chainFrom "" (List.filter truthy (split_slash dirPath)).

(** The calls one bundle entry gives rise to when nothing is skipped: its
    directories, then its extent of the payload at its full path. *)
Definition entryCalls (data : list byte) (file : BundleFile) : list fs_call :=
  map Mkdir (directoryChain (path file))
  ++ [WriteFile (fullPath file) (slice data (start file) (end_ file))].

(** *** Paths by their directory names

    What a path names, said without splitting it: slashes separate, and a
    directory name is a non-empty run of other characters that ends at a
    slash or at the end of the path.  The mounting theorem states the
    parent directories of an entry in these terms. *)

(** A directory name: not empty, no slash in it. *)
Definition isName (part : string) : bool :=
  negb (String.eqb part "")
  && forallb (fun c => negb (Ascii.eqb c "/"%char)) (list_ascii_of_string part).

(** Where a name may end: at the end of the path or before a slash. *)
Definition atBoundary (s : string) : bool :=
  match s with
  | EmptyString => true
  | String c _ => Ascii.eqb c "/"%char
  end.

(** [spelled dirPath names]: the directory names of [dirPath], from left to
    right, are [names]. *)
Inductive spelled : string → list string → Prop :=
| spelled_end : spelled "" []
| spelled_slash (s : string) (names : list string) :
    spelled s names → spelled (String "/" s) names
| spelled_name (part s : string) (names : list string) :
    isName part = true → atBoundary s = true → spelled s names →
    spelled (part +:+ s) (part :: names).



Section EnsureDirectory.
Context {FS : Type} `{EmscriptenFS FS}.

(** [ensureDirectory]: [BundleLoader.ensureDirectory(FS, dirPath)] and
    [PackageManager.ensureDirectory(path)] are the same loop.  Every
    exception of [FS.mkdir] is swallowed. *)
Definition ensureDirectory (dirPath : string) (e : engine FS) : engine FS :=
  let parts := List.filter truthy (split_slash dirPath) in
  snd (fold_left
         (fun (acc : string * engine FS) part =>
            let current := fst acc +:+ "/" +:+ part in
            (current, try_mkdir current (snd acc)))
         parts ("", e)).

End EnsureDirectory.

(** ** A small in-memory file system

    Used to run the loaders on concrete inputs: [mkdir] throws [EEXIST] on
    an existing path, [writeFile] throws [EISDIR] on a directory, [unlink]
    throws [ENOENT] on a missing file. *)

Record MemFS := {
  dirs : gset string;
  contents : gmap string (list byte)
}.

Definition mem_mkdir (p : string) (m : MemFS) : FSError + MemFS :=
  if bool_decide (p ∈ dirs m) || bool_decide (is_Some (contents m !! p)) then
    inl {| code := "EEXIST"; message := "File exists" |}
  else inr {| dirs := {[p]} ∪ dirs m; contents := contents m |}.

Definition mem_writeFile (p : string) (d : list byte) (m : MemFS)
  : FSError + MemFS :=
  if bool_decide (p ∈ dirs m) then
    inl {| code := "EISDIR"; message := "Is a directory" |}
  else inr {| dirs := dirs m; contents := <[p := d]> (contents m) |}.

Definition mem_unlink (p : string) (m : MemFS) : FSError + MemFS :=
  match contents m !! p with
  | Some _ => inr {| dirs := dirs m; contents := delete p (contents m) |}
  | None => inl {| code := "ENOENT"; message := "No such file or directory" |}
  end.

#[export] Instance MemFS_fs : EmscriptenFS MemFS := {|
  FS_mkdir := mem_mkdir;
  FS_writeFile := mem_writeFile;
  FS_unlink := mem_unlink
|}.

Definition emptyFS : MemFS := {| dirs := ∅; contents := ∅ |}.

(** ** Facts about the shared helpers *)

Example split_slash_example :
  split_slash "/texlive//tex/latex/" = [""; "texlive"; ""; "tex"; "latex"; ""].
Proof. reflexivity. Qed.

Example directoryChain_example :
  directoryChain "/texlive/texmf-dist/tex"
  = ["/texlive"; "/texlive/texmf-dist"; "/texlive/texmf-dist/tex"].
Proof. reflexivity. Qed.

Example slice_examples :
  slice [1; 2; 3; 4; 5] 1 3 = [2; 3]
  ∧ slice [1; 2; 3; 4; 5] 3 99 = [4; 5]
  ∧ slice [1; 2; 3; 4; 5] (-2) 5 = [4; 5]
  ∧ slice [1; 2; 3; 4; 5] 4 2 = [].
Proof. repeat split. Qed.

(** Inside the payload, [slice] is the extent from [start] up to, not
    including, [end]. *)
Lemma slice_in_range {A : Type} (l : list A) (start end_ : Z) :
  (0 ≤ start)%Z → (start ≤ end_)%Z → (end_ ≤ Z.of_nat (length l))%Z →
  slice l start end_ = take (Z.to_nat (end_ - start)) (drop (Z.to_nat start) l)
  ∧ length (slice l start end_) = Z.to_nat (end_ - start).
Proof.
  intros H0 H1 H2. unfold slice, relativeIndex.
  destruct (Z.ltb_spec start 0); [lia|].
  destruct (Z.ltb_spec end_ 0); [lia|].
  rewrite !Z.min_l by lia. rewrite Z.max_l by lia.
  split; [done|]. rewrite length_take, length_drop. lia.
Qed.







Lemma isName_String (c : ascii) (part : string) :
  Ascii.eqb c "/" = false →
  forallb (fun c => negb (Ascii.eqb c "/"%char)) (list_ascii_of_string part)
  = true →
  isName (String c part) = true.
Proof.
  intros Hc Hfree. unfold isName.
  change (String.eqb (String c part) "") with false.
  cbn [list_ascii_of_string forallb negb andb]. by rewrite Hc, Hfree.
Qed.

(** Every path spells some directory names: the ones splitting finds. *)
Lemma spelled_total (dirPath : string) :
  spelled dirPath (List.filter truthy (split_slash dirPath)).
Proof.
  induction dirPath as [|c rest IH]; [constructor|].
  cbn [split_slash]. destruct (Ascii.eqb c "/") eqn:Hc.
  - apply Ascii.eqb_eq in Hc as ->. by constructor.
  - assert (∀ piece pieces,
              spelled rest (List.filter truthy (piece :: pieces)) →
              (piece = "" → atBoundary rest = true) →
              (piece ≠ "" → atBoundary rest = false) →
              spelled (String c rest)
                (List.filter truthy (String c piece :: pieces))) as Hstep.
    { intros piece pieces Hsp Hempty Hfull.
      change (List.filter truthy (String c piece :: pieces))
        with (String c piece :: List.filter truthy pieces).
      destruct piece as [|d piece].
      - apply (spelled_name (String c "") rest); [|by apply Hempty|exact Hsp].
        by apply isName_String.
      - change (List.filter truthy (String d piece :: pieces))
          with (String d piece :: List.filter truthy pieces) in Hsp.
        specialize (Hfull ltac:(done)).
        inversion Hsp as [|s names Hrec Heq|part s names Hname Hs Hrec Heq];
          subst; [done|].
        apply andb_true_iff in Hname as [_ Hfree].
        apply (spelled_name (String c (String d piece)) s); [|done|done].
        by apply isName_String. }
    destruct rest as [|d rest].
    + by apply (Hstep "" []).
    + cbn [split_slash] in IH |- *. destruct (Ascii.eqb d "/") eqn:Hd.
      * apply (Hstep "" (split_slash rest)); [exact IH|done|done].
      * destruct (split_slash rest) as [|piece pieces].
        -- apply (Hstep (String d "") []); [exact IH|done|done].
        -- apply (Hstep (String d piece) pieces); [exact IH|done|done].
Qed.





Lemma written_app (cs cs' : list fs_call) :
  written (cs ++ cs') = written cs ++ written cs'.
Proof. apply omap_app. Qed.

Lemma written_mkdirs (ps : list string) : written (map Mkdir ps) = [].
Proof. induction ps as [|p ps IH]; [done | exact IH]. Qed.

Lemma written_entryCalls (data : list byte) (file : BundleFile) :
  written (entryCalls data file)
  = [(fullPath file, slice data (start file) (end_ file))].
Proof.
  unfold entryCalls. by rewrite written_app, written_mkdirs.
Qed.

Lemma written_flat_entryCalls (data : list byte) (fl : list BundleFile) :
  written (flat_map (entryCalls data) fl)
  = map (fun f => (fullPath f, slice data (start f) (end_ f))) fl.
Proof.
  induction fl as [|f fl IH]; [done|].
  simpl. by rewrite written_app, written_entryCalls, IH.
Qed.

Lemma prefix_append (p s t : string) :
  String.prefix p s = true → String.prefix p (s +:+ t) = true.
Proof.
  revert s. induction p as [|c p IH]; intros s.
  - intros _. by destruct (s +:+ t).
  - destruct s as [|d s]; simpl; [done|].
    destruct (Ascii.ascii_dec c d); [apply IH | done].
Qed.

Lemma prefix_append_same (p t : string) : String.prefix p (p +:+ t) = true.
Proof.
  induction p as [|c p IH]; simpl.
  - by destruct t.
  - by destruct (Ascii.ascii_dec c c).
Qed.

Lemma underTexlive_fullPath (file : BundleFile) :
  underTexlive (path file) = true → underTexlive (fullPath file) = true.
Proof. apply prefix_append. Qed.

Section FSFacts.
Context {FS : Type} `{EmscriptenFS FS}.

Lemma do_writeFile_calls (p : string) (d : list byte) (e : engine FS) :
  calls (snd (do_writeFile p d e)) = calls e ++ [WriteFile p d].
Proof. unfold do_writeFile. by destruct (FS_writeFile p d (fs e)). Qed.

Lemma do_unlink_calls (p : string) (e : engine FS) :
  calls (snd (do_unlink p e)) = calls e ++ [Unlink p].
Proof. unfold do_unlink. by destruct (FS_unlink p (fs e)). Qed.

Lemma ensureDirectory_loop_calls (parts : list string) :
  ∀ (current : string) (e : engine FS),
    calls (snd (fold_left
                  (fun (acc : string * engine FS) part =>
                     let current := fst acc +:+ "/" +:+ part in
                     (current, try_mkdir current (snd acc)))
                  parts (current, e)))
    = calls e ++ map Mkdir (chainFrom current parts).
Proof.
  induction parts as [|part parts IH]; intros current e.
  - simpl. by rewrite app_nil_r.
  - cbn [fold_left chainFrom map fst snd]. rewrite IH.
    cbn [try_mkdir calls]. by rewrite <- app_assoc.
Qed.

(** Whatever [FS.mkdir] does, [ensureDirectory] calls it once for each
    directory of the chain, in order. *)
Lemma ensureDirectory_calls (dirPath : string) (e : engine FS) :
  calls (ensureDirectory dirPath e) = calls e ++ map Mkdir (directoryChain dirPath).
Proof. apply ensureDirectory_loop_calls. Qed.

End FSFacts.

(** * BundleLoader (packages/bundle-loader.ts) *)

Module BundleLoader.

Record BundleMetadata := {
  bundle_name : string;
  files : list BundleFile;
  totalSize : Z
}.

(** The loader's state that [mountBundle] reads and writes: the set of
    mounted bundles, the engine module (or [null]), and what [onLog] has
    received. *)
Record loader (FS : Type) := {
  loadedBundles : list string;
  emscriptenModule : option (engine FS);
  log : list string
}.
Arguments loadedBundles {FS} _.
Arguments emscriptenModule {FS} _.
Arguments log {FS} _.

(** How the promise of an [async] method settles. *)
Inductive settled (A : Type) :=
| Resolved (value : A)
| Rejected (error : string).
Arguments Resolved {A} _.
Arguments Rejected {A} _.

Section Mount.
Context {FS : Type} `{EmscriptenFS FS}.

(** One turn of the loop over [metadata.files]. *)
Definition mountFile (data : list byte) (acc : engine FS * list string)
    (file : BundleFile) : engine FS * list string :=
  let fullPath := fullPath file in
  let e1 := ensureDirectory (path file) (fst acc) in
  let fileData := slice data (start file) (end_ file) in
  match do_writeFile fullPath fileData e1 with
  | (None, e2) => (e2, snd acc)
  | (Some err, e2) =>
      if String.eqb (code err) "EEXIST" then (e2, snd acc)
      else (e2, snd acc ++ ["Warning: Could not write " +:+ fullPath +:+ ": "
                              +:+ message err])
  end.

(** [mountBundle(bundleName)], given what [loadMetadata(bundleName)] and
    [loadBundleData(bundleName)] resolve to. *)
Definition mountBundle (bundleName : string) (metadata : BundleMetadata)
    (data : list byte) (st : loader FS) : settled (loader FS) :=
  if bool_decide (bundleName ∈ loadedBundles st) then Resolved st
  else
    match emscriptenModule st with
    | None =>
        Rejected "Emscripten module not set. Call setEmscriptenModule() first."
    | Some e =>
        let r := fold_left (mountFile data) (files metadata) (e, log st) in
        Resolved
          {| loadedBundles := set_add bundleName (loadedBundles st);
             emscriptenModule := Some (fst r);
             log := snd r ++ ["Mounted bundle: " +:+ bundleName +:+ " ("
                                +:+ pretty (length (files metadata))
                                +:+ " files)"] |}
    end.

(** *** Facts about mounting *)

Lemma mountFile_calls (data : list byte) (acc : engine FS * list string)
    (file : BundleFile) :
  calls (fst (mountFile data acc file)) = calls (fst acc) ++ entryCalls data file.
Proof.
  unfold mountFile, entryCalls.
  pose proof (do_writeFile_calls (fullPath file)
                (slice data (start file) (end_ file))
                (ensureDirectory (path file) (fst acc))) as Hw.
  rewrite ensureDirectory_calls in Hw. rewrite <- app_assoc in Hw.
  destruct (do_writeFile _ _ _) as [[err|] e2]; simpl in Hw |- *; [|done].
  by destruct (String.eqb (code err) "EEXIST").
Qed.

Lemma mountFiles_calls (data : list byte) (fl : list BundleFile) :
  ∀ acc : engine FS * list string,
    calls (fst (fold_left (mountFile data) fl acc))
    = calls (fst acc) ++ flat_map (entryCalls data) fl.
Proof.
  induction fl as [|f fl IH]; intros acc; simpl.
  - by rewrite app_nil_r.
  - by rewrite IH, mountFile_calls, <- app_assoc.
Qed.

(** For a bundle that is not mounted yet, with the engine module set,
    [mountBundle] resolves whatever the file system answers, and its calls
    are the entries' calls, in the order of [metadata.files]. *)
Lemma mountBundle_calls (bundleName : string)
    (metadata : BundleMetadata) (data : list byte) (st : loader FS)
    (e : engine FS) :
  bundleName ∉ loadedBundles st →
  emscriptenModule st = Some e →
  ∃ (st' : loader FS) (e' : engine FS),
    mountBundle bundleName metadata data st = Resolved st'
    ∧ emscriptenModule st' = Some e'
    ∧ calls e' = calls e ++ flat_map (entryCalls data) (files metadata)
    ∧ written (calls e')
      = written (calls e)
        ++ map (fun f => (path f +:+ "/" +:+ name f,
                          slice data (start f) (end_ f)))
             (files metadata).
Proof.
  intros Hnew He. unfold mountBundle.
  rewrite bool_decide_eq_false_2 by done. rewrite He.
  eexists _, _. split; [reflexivity|]. split; [reflexivity|].
  simpl. rewrite mountFiles_calls. simpl. split; [done|].
  by rewrite written_app, written_flat_entryCalls.
Qed.


(** A bundle already mounted is left alone, and without the engine module
    the call rejects. *)
Lemma mountBundle_already_loaded (bundleName : string)
    (metadata : BundleMetadata) (data : list byte) (st : loader FS) :
  bundleName ∈ loadedBundles st →
  mountBundle bundleName metadata data st = Resolved st.
Proof. intros Hin. unfold mountBundle. by rewrite bool_decide_eq_true_2. Qed.

(** What [onLog] receives from the loop: nothing but warnings for writes
    that threw something other than [EEXIST]. *)
Lemma mountFiles_log (data : list byte) (fl : list BundleFile) :
  ∀ acc : engine FS * list string,
    ∃ warnings : list string,
      snd (fold_left (mountFile data) fl acc) = snd acc ++ warnings
      ∧ Forall (fun w => String.prefix "Warning: Could not write " w = true)
          warnings.
Proof.
  induction fl as [|f fl IH]; intros acc; simpl.
  - exists []. by rewrite app_nil_r.
  - destruct (IH (mountFile data acc f)) as (ws & -> & Hws).
    unfold mountFile.
    destruct (do_writeFile _ _ _) as [[err|] e2]; simpl.
    + destruct (String.eqb (code err) "EEXIST"); simpl.
      * by exists ws.
      * eexists (_ :: ws). rewrite <- app_assoc. split; [reflexivity|].
        constructor; [|done]. apply prefix_append_same.
    + by exists ws.
Qed.

End Mount.

(** *** A bundle mounted on the in-memory file system *)

Definition demoData : list byte :=
  list_byte_of_string "\ProvidesPackage{demo}\ProvidesClass{demo}".

Definition demoMetadata : BundleMetadata := {|
  bundle_name := "demo";
  files :=
    [ {| path := "/texlive/texmf-dist/tex/latex/demo"; name := "demo.sty";
         start := 0; end_ := 22 |};
      {| path := "/texlive/texmf-dist/tex/latex/demo"; name := "demo.cls";
         start := 22; end_ := 42 |} ];
  totalSize := 42
|}.

Definition freshLoader : loader MemFS := {|
  loadedBundles := [];
  emscriptenModule := Some {| fs := emptyFS; calls := [] |};
  log := []
|}.

Example mountBundle_demo :
  ∃ st' e',
    mountBundle "demo" demoMetadata demoData freshLoader = Resolved st'
    ∧ emscriptenModule st' = Some e'
    ∧ contents (fs e') !! "/texlive/texmf-dist/tex/latex/demo/demo.sty"
      = Some (list_byte_of_string "\ProvidesPackage{demo}")
    ∧ contents (fs e') !! "/texlive/texmf-dist/tex/latex/demo/demo.cls"
      = Some (list_byte_of_string "\ProvidesClass{demo}")
    ∧ dirs (fs e')
      = list_to_set ["/texlive"; "/texlive/texmf-dist"; "/texlive/texmf-dist/tex";
                     "/texlive/texmf-dist/tex/latex";
                     "/texlive/texmf-dist/tex/latex/demo"]
    ∧ loadedBundles st' = ["demo"]
    ∧ log st' = ["Mounted bundle: demo (2 files)"].
Proof.
  eexists _, _. split; [reflexivity|]. split; [reflexivity|].
  repeat split; vm_compute; reflexivity.
Qed.




End BundleLoader.

(** * PackageManager (the LaTeX package manager) *)

Module PackageManager.

(** The fields of [BundleMetadata] that mounting reads. *)
Record BundleMetadata := {
  bundle_name : string;
  files : list BundleFile
}.

Section Mount.
Context {FS : Type} `{EmscriptenFS FS}.

(** One turn of the loop of [mountBundle]: a write that throws is retried
    once after [FS.unlink]; when the retry (or the unlink) throws too,
    [console.warn] gets a line. *)
Definition mountFile (data : list byte) (acc : engine FS * list string)
    (file : BundleFile) : engine FS * list string :=
  let dir := path file in
  let target := dir +:+ "/" +:+ name file in
  let e1 := ensureDirectory dir (fst acc) in
  let fileData := slice data (start file) (end_ file) in
  let warned := snd acc ++ ["Failed to write " +:+ target +:+ ":"] in
  match do_writeFile target fileData e1 with
  | (None, e2) => (e2, snd acc)
  | (Some _, e2) =>
      match do_unlink target e2 with
      | (Some _, e3) => (e3, warned)
      | (None, e3) =>
          match do_writeFile target fileData e3 with
          | (None, e4) => (e4, snd acc)
          | (Some _, e4) => (e4, warned)
          end
      end
  end.

(** [mountBundle(metadata, data)]; the second component is what
    [console.warn] received. *)
Definition mountBundle (metadata : BundleMetadata) (data : list byte)
    (e : engine FS) (warnings : list string) : engine FS * list string :=
  fold_left (mountFile data) (files metadata) (e, warnings).

(** *** Facts about mounting *)

(** The first calls of a turn are those of [entryCalls]; a failed write adds
    an unlink and possibly a second write of the same bytes at the same
    path. *)
Lemma mountFile_retry_calls (data : list byte) (acc : engine FS * list string)
    (file : BundleFile) :
  ∃ retry : list fs_call,
    calls (fst (mountFile data acc file))
    = calls (fst acc) ++ entryCalls data file ++ retry
    ∧ (retry = []
       ∨ retry = [Unlink (fullPath file)]
       ∨ retry = [Unlink (fullPath file);
                  WriteFile (fullPath file) (slice data (start file) (end_ file))]).
Proof.
  unfold mountFile, entryCalls. fold (fullPath file).
  set (target := fullPath file).
  set (fileData := slice data (start file) (end_ file)).
  pose proof (do_writeFile_calls target fileData
                (ensureDirectory (path file) (fst acc))) as Hw.
  rewrite ensureDirectory_calls in Hw.
  destruct (do_writeFile target fileData _) as [[err|] e2]; simpl in Hw |- *.
  - pose proof (do_unlink_calls target e2) as Hu.
    destruct (do_unlink target e2) as [[err'|] e3]; simpl in Hu |- *.
    + exists [Unlink target]. split; [|auto].
      rewrite Hu, Hw. by rewrite <- !app_assoc.
    + pose proof (do_writeFile_calls target fileData e3) as Hw'.
      exists [Unlink target; WriteFile target fileData]. split; [|auto].
      assert (Hc : ∀ e4 : engine FS, calls e4 = calls e3 ++ [WriteFile target fileData] →
                calls e4 = calls (fst acc)
                  ++ (map Mkdir (directoryChain (path file)) ++ [WriteFile target fileData])
                  ++ [Unlink target; WriteFile target fileData]).
      { intros e4 ->. rewrite Hu, Hw. by rewrite <- !app_assoc. }
      destruct (do_writeFile target fileData e3) as [[err''|] e4]; simpl in *;
        by apply Hc.
  - exists []. split; [|auto]. rewrite Hw. by rewrite <- !app_assoc.
Qed.

(** The paths written during a turn are the entry's full path, and nothing
    else. *)
Lemma mountFile_written_paths (data : list byte) (acc : engine FS * list string)
    (file : BundleFile) :
  ∃ again : list string,
    map fst (written (calls (fst (mountFile data acc file))))
    = map fst (written (calls (fst acc))) ++ fullPath file :: again
    ∧ Forall (fun p => p = fullPath file) again.
Proof.
  destruct (mountFile_retry_calls data acc file) as (retry & -> & Hretry).
  rewrite !written_app, written_entryCalls, !map_app. simpl.
  destruct Hretry as [-> | [-> | ->]]; simpl.
  - by exists [].
  - by exists [].
  - exists [fullPath file]. split; [done|]. by constructor.
Qed.

Lemma mountBundle_written_paths (data : list byte) (fl : list BundleFile) :
  ∀ acc : engine FS * list string,
    ∃ ps : list string,
      map fst (written (calls (fst (fold_left (mountFile data) fl acc))))
      = map fst (written (calls (fst acc))) ++ ps
      ∧ ∀ p, p ∈ ps ↔ p ∈ map fullPath fl.
Proof.
  induction fl as [|f fl IH]; intros acc; simpl.
  - exists []. by rewrite app_nil_r.
  - destruct (IH (mountFile data acc f)) as (ps & -> & Hps).
    destruct (mountFile_written_paths data acc f) as (again & -> & Hagain).
    exists ((fullPath f :: again) ++ ps). split; [by rewrite <- app_assoc|].
    intros p. rewrite elem_of_app, !elem_of_cons, Hps.
    rewrite Forall_forall in Hagain. split.
    + intros [[Hp | Hin] | Hin]; auto.
    + intros [Hp | Hin]; auto.
Qed.

End Mount.

(** *** Paths are not validated *)

(** A bundle whose metadata uses the path of the [BundleFile] doc comment,
    ["/texmf/tex/latex/amsmath"]. *)
Definition texmfData : list byte := list_byte_of_string "\ProvidesPackage{amsmath}".

Definition texmfFile : BundleFile := {|
  path := "/texmf/tex/latex/amsmath"; name := "amsmath.sty";
  start := 0; end_ := 25
|}.

(** C4 (as stated, refuted).  An entry whose path does not start with
    [/texlive/] is neither rejected nor skipped: [BundleLoader.mountBundle]
    writes it, the file is in the file system afterwards, and the only log
    line is the one that reports the mount; [PackageManager.mountBundle]
    writes it as well, without a warning. *)
Lemma mountBundle_writes_outside_texlive :
  underTexlive (fullPath texmfFile) = false
  ∧ (∃ st' e',
       BundleLoader.mountBundle "math"
         {| BundleLoader.bundle_name := "math";
            BundleLoader.files := [texmfFile];
            BundleLoader.totalSize := 25 |}
         texmfData BundleLoader.freshLoader = BundleLoader.Resolved st'
       ∧ BundleLoader.emscriptenModule st' = Some e'
       ∧ contents (fs e') !! "/texmf/tex/latex/amsmath/amsmath.sty" = Some texmfData
       ∧ BundleLoader.log st' = ["Mounted bundle: math (1 files)"])
  ∧ (let r := mountBundle {| bundle_name := "math"; files := [texmfFile] |}
                texmfData {| fs := emptyFS; calls := [] |} [] in
     contents (fs (fst r)) !! "/texmf/tex/latex/amsmath/amsmath.sty" = Some texmfData
     ∧ snd r = []).
Proof.
  split; [reflexivity|]. split.
  - eexists _, _. split; [reflexivity|]. split; [reflexivity|].
    split; vm_compute; reflexivity.
  - split; vm_compute; reflexivity.
Qed.

(** C4 (amended).  Neither loader looks at the prefix of a path.  For every
    metadata and payload, [BundleLoader.mountBundle] (on a bundle not mounted
    yet, with the engine module set) hands [FS.writeFile] the path
    [file.path + "/" + file.name] of every entry, in order and nothing else,
    and [PackageManager.mountBundle] hands it exactly the same set of paths;
    no entry is rejected or skipped.  Hence every mounted path starts with
    [/texlive/] whenever every entry's path does. *)
Theorem mountBundle_paths_not_validated {FS : Type} `{EmscriptenFS FS}
    (bundleName : string) (fl : list BundleFile) (totalSize : Z)
    (data : list byte) (st : BundleLoader.loader FS) (e : engine FS)
    (warnings : list string) :
  bundleName ∉ BundleLoader.loadedBundles st →
  BundleLoader.emscriptenModule st = Some e →
  (∃ st' e',
     BundleLoader.mountBundle bundleName
       {| BundleLoader.bundle_name := bundleName;
          BundleLoader.files := fl;
          BundleLoader.totalSize := totalSize |} data st
     = BundleLoader.Resolved st'
     ∧ BundleLoader.emscriptenModule st' = Some e'
     ∧ map fst (written (calls e'))
       = map fst (written (calls e)) ++ map fullPath fl)
  ∧ (∃ ps,
       map fst (written (calls (fst
         (mountBundle {| bundle_name := bundleName; files := fl |}
            data e warnings))))
       = map fst (written (calls e)) ++ ps
       ∧ ∀ p, p ∈ ps ↔ p ∈ map fullPath fl)
  ∧ (Forall (fun f => underTexlive (path f) = true) fl →
     Forall (fun p => underTexlive p = true) (map fullPath fl)).
Proof.
  intros Hnew He. split; [|split].
  - destruct (BundleLoader.mountBundle_calls bundleName
                {| BundleLoader.bundle_name := bundleName;
                   BundleLoader.files := fl;
                   BundleLoader.totalSize := totalSize |} data st e Hnew He)
      as (st' & e' & Hrun & He' & _ & Hw).
    exists st', e'. split; [done|]. split; [done|].
    rewrite Hw, map_app, map_map. simpl. done.
  - apply mountBundle_written_paths.
  - intros Hall. apply Forall_map. eapply Forall_impl; [exact Hall|].
    intros f. apply underTexlive_fullPath.
Qed.

Lemma mountBundle_paths_not_validated_witness :
  ("math" ∉ BundleLoader.loadedBundles BundleLoader.freshLoader)
  ∧ BundleLoader.emscriptenModule BundleLoader.freshLoader
    = Some {| fs := emptyFS; calls := [] |}
  ∧ (∃ st' e',
       BundleLoader.mountBundle "math"
         {| BundleLoader.bundle_name := "math";
            BundleLoader.files := [texmfFile];
            BundleLoader.totalSize := 25 |} texmfData BundleLoader.freshLoader
       = BundleLoader.Resolved st'
       ∧ BundleLoader.emscriptenModule st' = Some e'
       ∧ map fst (written (calls e'))
         = map fst (written []) ++ map fullPath [texmfFile])
  ∧ (∃ ps,
       map fst (written (calls (fst
         (mountBundle {| bundle_name := "math"; files := [texmfFile] |}
            texmfData {| fs := emptyFS; calls := [] |} []))))
       = map fst (written []) ++ ps
       ∧ ∀ p, p ∈ ps ↔ p ∈ map fullPath [texmfFile])
  ∧ (Forall (fun f => underTexlive (path f) = true) [texmfFile] →
     Forall (fun p => underTexlive p = true) (map fullPath [texmfFile])).
Proof.
  assert (Hnew : "math" ∉ BundleLoader.loadedBundles BundleLoader.freshLoader)
    by apply not_elem_of_nil.
  split; [exact Hnew|]. split; [reflexivity|].
  exact (mountBundle_paths_not_validated "math" [texmfFile] 25 texmfData
           BundleLoader.freshLoader {| fs := emptyFS; calls := [] |} []
           Hnew eq_refl).
Defined.

(** ** Loading a bundle, with the map of loads in flight *)

(** [BUNDLE_DEPENDENCIES] *)
Definition BUNDLE_DEPENDENCIES : list (string * list string) :=
  [ ("core", []);
    ("math", ["core"]);
    ("graphics", ["core"]);
    ("tikz", ["core"; "graphics"]);
    ("tables", ["core"]);
    ("bibliography", ["core"]);
    ("fonts-basic", ["core"]);
    ("fonts-extra", ["core"; "fonts-basic"]);
    ("code", ["core"]);
    ("beamer", ["core"; "graphics"; "tikz"]);
    ("science", ["core"; "math"]);
    ("layout", ["core"]);
    ("hyperref", ["core"]);
    ("utilities", ["core"]);
    ("languages", ["core"]) ].

(** [BUNDLE_DEPENDENCIES[name] || []] *)
Definition dependenciesOf (name : string) : list string :=
  match List.find (fun entry => String.eqb (fst entry) name) BUNDLE_DEPENDENCIES with
  | Some entry => snd entry
  | None => []
  end.

(** The state of a promise. *)
Inductive promise := Pending | Fulfilled | Rejected.

(** What a call of [loadBundle(name)] gives its caller: nothing to wait for
    (the bundle is loaded), the promise of the load in flight, or the
    promise of the call itself, which has started a load. *)
Inductive handle :=
| AlreadyLoaded
| Joined (p : nat)
| Started (q : nat).

(** The suspended [async] calls: [_loadBundle(name)] at
    [await Promise.all(...)], whose promise is [p]; [loadBundle(name)] at
    [await loadPromise], where [loadPromise] is [p] and the promise of the
    call is [q]. *)
Inductive task :=
| AwaitDeps (name : string) (p : nat) (deps : list handle)
| AwaitLoad (name : string) (p q : nat)
| Finished.

(** The manager: its two collections, the browser cache ([null] when there
    is none), the promises made so far (a promise is its index), the
    suspended calls, and the URLs requested from the network. *)
Record manager := {
  loadedBundles : list string;
  loadingBundles : gmap string nat;
  cache : option (gset string);
  promises : list promise;
  tasks : list task;
  requests : list string
}.

(** [deps.map(d => this.loadBundle(d))], given [loadBundle]. *)
Definition loadAll (load : string → manager → option (manager * handle))
    (deps : list string) (m : manager) : option (manager * list handle) :=
  fold_left
    (fun acc d =>
       match acc with
       | Some (m', hs) =>
           match load d m' with
           | Some (m'', h) => Some (m'', hs ++ [h])
           | None => None
           end
       | None => None
       end)
    deps (Some (m, [])).

(** The call [loadBundle(name)], up to its [await]: it returns at once when
    the bundle is loaded or its load is in flight; otherwise it calls
    [_loadBundle(name)], which calls [loadBundle] for each dependency and
    suspends, and then registers the promise in [loadingBundles] and
    suspends itself.  [fuel] bounds the depth of the calls; [None] when the
    bound is hit. *)
Fixpoint loadBundle (fuel : nat) (name : string) (m : manager)
  : option (manager * handle) :=
  match fuel with
  | O => None
  | S fuel' =>
      if bool_decide (name ∈ loadedBundles m) then Some (m, AlreadyLoaded)
      else
        match loadingBundles m !! name with
        | Some p => Some (m, Joined p)
        | None =>
            match loadAll (loadBundle fuel') (dependenciesOf name) m with
            | None => None
            | Some (m1, hs) =>
                let p := length (promises m1) in
                let q := S p in
                Some ({| loadedBundles := loadedBundles m1;
                         loadingBundles := <[name := p]> (loadingBundles m1);
                         cache := cache m1;
                         promises := promises m1 ++ [Pending; Pending];
                         tasks := tasks m1
                                  ++ [AwaitDeps name p hs; AwaitLoad name p q];
                         requests := requests m1 |},
                      Started q)
            end
        end
  end.

Section Resume.
(** [this.config.cdnBase] *)
Variable cdnBase : string.
(** Does the server answer the URL with a usable response? *)
Variable server : string → bool.

(** [fetchWithCache(url)]: a cached response is returned without a request;
    otherwise the request is made, and a good response is put in the cache.
    The result tells whether a response came back. *)
Definition fetchWithCache (url : string) (m : manager) : manager * bool :=
  if match cache m with
     | Some c => bool_decide (url ∈ c)
     | None => false
     end
  then (m, true)
  else
    let m' := {| loadedBundles := loadedBundles m;
                 loadingBundles := loadingBundles m;
                 cache := if server url then (fun c => {[url]} ∪ c) <$> cache m
                          else cache m;
                 promises := promises m;
                 tasks := tasks m;
                 requests := requests m ++ [url] |} in
    (m', server url).

(** How the promise behind a handle stands. *)
Definition state (m : manager) (h : handle) : promise :=
  match h with
  | AlreadyLoaded => Fulfilled
  | Joined p | Started p => default Pending (promises m !! p)
  end.

Definition isRejected (p : promise) : bool :=
  match p with Rejected => true | _ => false end.

Definition isFulfilled (p : promise) : bool :=
  match p with Fulfilled => true | _ => false end.

(** Task [i] is done, and promise [p] settles. *)
Definition settle (i p : nat) (fulfilled : bool) (m : manager) : manager :=
  {| loadedBundles := loadedBundles m;
     loadingBundles := loadingBundles m;
     cache := cache m;
     promises := <[p := if fulfilled then Fulfilled else Rejected]> (promises m);
     tasks := <[i := Finished]> (tasks m);
     requests := requests m |}.

(** Task [i] resumed, when what it awaits has settled; [None] when it has
    not.  The rest of [_loadBundle] (the metadata, the data, decompression
    and mounting) is taken as one step. *)
Definition resume (i : nat) (m : manager) : option manager :=
  match tasks m !! i with
  | Some (AwaitDeps name p deps) =>
      if existsb (fun h => isRejected (state m h)) deps then
        Some (settle i p false m)
      else if forallb (fun h => isFulfilled (state m h)) deps then
        let (m1, gotMeta) := fetchWithCache (cdnBase +:+ "/" +:+ name +:+ ".meta.json") m in
        if gotMeta then
          let (m2, gotData) := fetchWithCache (cdnBase +:+ "/" +:+ name +:+ ".data") m1 in
          Some (settle i p gotData m2)
        else Some (settle i p false m1)
      else None
  | Some (AwaitLoad name p q) =>
      match default Pending (promises m !! p) with
      | Pending => None
      | Fulfilled =>
          Some (settle i q true
                  {| loadedBundles := set_add name (loadedBundles m);
                     loadingBundles := delete name (loadingBundles m);
                     cache := cache m;
                     promises := promises m;
                     tasks := tasks m;
                     requests := requests m |})
      | Rejected =>
          Some (settle i q false
                  {| loadedBundles := loadedBundles m;
                     loadingBundles := delete name (loadingBundles m);
                     cache := cache m;
                     promises := promises m;
                     tasks := tasks m;
                     requests := requests m |})
      end
  | _ => None
  end.

End Resume.

(** *** Facts about loads in flight *)

Lemma loadAll_Some (load : string → manager → option (manager * handle))
    (deps : list string) :
  ∀ (m : manager) (hs0 : list handle) (r : manager * list handle),
    fold_left
      (fun acc d =>
         match acc with
         | Some (m', hs) =>
             match load d m' with
             | Some (m'', h) => Some (m'', hs ++ [h])
             | None => None
             end
         | None => None
         end)
      deps (Some (m, hs0)) = Some r →
    deps = [] ∧ r = (m, hs0)
    ∨ ∃ d deps' m' h, deps = d :: deps' ∧ load d m = Some (m', h)
        ∧ fold_left
            (fun acc d =>
               match acc with
               | Some (m', hs) =>
                   match load d m' with
                   | Some (m'', h) => Some (m'', hs ++ [h])
                   | None => None
                   end
               | None => None
               end)
            deps' (Some (m', hs0 ++ [h])) = Some r.
Proof.
  destruct deps as [|d deps]; intros m hs0 r; simpl.
  - intros [= <-]. by left.
  - destruct (load d m) as [[m' h]|] eqn:Hd.
    + intros Hr. right. by exists d, deps, m', h.
    + intros Hr. exfalso. clear -Hr.
      induction deps as [|? ? IH]; simpl in Hr; [done | auto].
Qed.

(** Two states of the manager with the same loaded bundles, requests and
    cache. *)
Definition sameOutside (m m' : manager) : Prop :=
  loadedBundles m' = loadedBundles m
  ∧ requests m' = requests m
  ∧ cache m' = cache m.

Lemma loadAll_frame (load : string → manager → option (manager * handle))
    (deps : list string) :
  (∀ d m m' h, load d m = Some (m', h) → sameOutside m m') →
  ∀ (m : manager) (hs0 : list handle) (r : manager * list handle),
    fold_left
      (fun acc d =>
         match acc with
         | Some (m', hs) =>
             match load d m' with
             | Some (m'', h) => Some (m'', hs ++ [h])
             | None => None
             end
         | None => None
         end)
      deps (Some (m, hs0)) = Some r →
    sameOutside m (fst r).
Proof.
  intros Hload. induction deps as [|d deps IHd]; intros m hs0 r Hall.
  - simpl in Hall. by injection Hall as <-.
  - apply loadAll_Some in Hall
      as [[? _] | (d' & deps' & m2 & h2 & [= <- <-] & Hd & Hrest)]; [done|].
    destruct (Hload _ _ _ _ Hd) as (Hl & Hr & Hc).
    destruct (IHd _ _ _ Hrest) as (Hl' & Hr' & Hc').
    unfold sameOutside. split_and!; congruence.
Qed.

(** A call makes no request and loads nothing: it only registers loads. *)
Lemma loadBundle_frame (fuel : nat) :
  ∀ (name : string) (m m' : manager) (h : handle),
    loadBundle fuel name m = Some (m', h) → sameOutside m m'.
Proof.
  induction fuel as [|fuel IH]; intros name m m' h; simpl; [done|].
  case_bool_decide; [by intros [= <- <-]|].
  destruct (loadingBundles m !! name); [by intros [= <- <-]|].
  destruct (loadAll (loadBundle fuel) (dependenciesOf name) m)
    as [[m1 hs]|] eqn:Hall; [|done].
  intros [= <- <-].
  apply (loadAll_frame (loadBundle fuel) _ IH) in Hall. exact Hall.
Qed.

(** The second caller joins.  A call for a bundle whose load is in flight
    returns the promise of that load and changes nothing: it starts no load
    and makes no request. *)
Lemma loadBundle_joins (fuel : nat) (name : string) (m : manager) (p : nat) :
  name ∉ loadedBundles m →
  loadingBundles m !! name = Some p →
  loadBundle (S fuel) name m = Some (m, Joined p).
Proof.
  intros Hnot Hp. simpl. rewrite bool_decide_eq_false_2 by done. by rewrite Hp.
Qed.

(** The first caller registers.  A call that starts a load leaves its
    promise in [loadingBundles] under the name, and has made no request
    yet. *)
Lemma loadBundle_registers (fuel : nat) (name : string) (m m' : manager)
    (q : nat) :
  loadBundle fuel name m = Some (m', Started q) →
  ∃ p, loadingBundles m' !! name = Some p
       ∧ q = S p
       ∧ AwaitLoad name p q ∈ tasks m'
       ∧ (name ∉ loadedBundles m')
       ∧ requests m' = requests m.
Proof.
  intros Hcall. destruct (loadBundle_frame fuel name m m' _ Hcall) as (Hl & Hr & _).
  destruct fuel as [|fuel]; simpl in Hcall; [done|].
  case_bool_decide as Hnot; [done|].
  destruct (loadingBundles m !! name); [done|].
  destruct (loadAll (loadBundle fuel) (dependenciesOf name) m)
    as [[m1 hs]|]; [|done].
  injection Hcall as <- <-. eexists. split; [apply lookup_insert_eq|].
  split; [done|]. split.
  - simpl. apply elem_of_app. right. right. left.
  - split; [by rewrite Hl | done].
Qed.

(** The entry is cleared on completion.  When the call that started the
    load is resumed, after the load has settled either way, the name is no
    longer in [loadingBundles]; the bundle counts as loaded exactly when the
    load succeeded (or it was loaded before). *)
Lemma resume_clears_entry (cdnBase : string) (server : string → bool)
    (i : nat) (name : string) (p q : nat) (m m' : manager) :
  tasks m !! i = Some (AwaitLoad name p q) →
  resume cdnBase server i m = Some m' →
  loadingBundles m' !! name = None
  ∧ default Pending (promises m !! p) ≠ Pending
  ∧ (name ∈ loadedBundles m'
     ↔ name ∈ loadedBundles m ∨ default Pending (promises m !! p) = Fulfilled)
  ∧ requests m' = requests m.
Proof.
  intros Ht. unfold resume. rewrite Ht.
  destruct (default Pending (promises m !! p)); [done | |];
    intros [= <-]; simpl; (split; [apply lookup_delete_eq|]); (split; [done|]);
    (split; [|done]).
  - rewrite elem_of_set_add. split; [by right | by left].
  - split; [by left | by intros [? | ?]].
Qed.

(** *** The calls return *)

(** The length of the longest chain of dependencies below a bundle. *)
Fixpoint rankWithin (fuel : nat) (name : string) : nat :=
  match fuel with
  | O => 0
  | S fuel' =>
      match dependenciesOf name with
      | [] => 0
      | deps => S (list_max (map (rankWithin fuel') deps))
      end
  end.

Definition rank (name : string) : nat :=
  rankWithin (length BUNDLE_DEPENDENCIES) name.

Lemma dependenciesOf_entry (name : string) (d : string) :
  d ∈ dependenciesOf name →
  ∃ entry, entry ∈ BUNDLE_DEPENDENCIES ∧ fst entry = name ∧ d ∈ snd entry.
Proof.
  unfold dependenciesOf.
  destruct (List.find _ BUNDLE_DEPENDENCIES) as [entry|] eqn:Hfind.
  - intros Hd. apply find_some in Hfind as [Hin Heq].
    apply String.eqb_eq in Heq. exists entry.
    split; [by apply list_elem_of_In | done].
  - intros Hd. by apply elem_of_nil in Hd.
Qed.

(** [BUNDLE_DEPENDENCIES] has no cycle: a dependency ranks below the bundle
    that needs it, and no bundle ranks above 3. *)
Lemma dependenciesOf_rank (name d : string) :
  d ∈ dependenciesOf name → rank d < rank name ∧ rank name ≤ 3.
Proof.
  intros Hd. destruct (dependenciesOf_entry name d Hd) as (entry & Hin & <- & Hd').
  assert (Hall : forallb
            (fun e => forallb (fun d => (rank d <? rank (fst e)) && (rank (fst e) <=? 3))
                        (snd e))
            BUNDLE_DEPENDENCIES = true) by (by vm_compute).
  rewrite forallb_forall in Hall. apply list_elem_of_In in Hin.
  specialize (Hall entry Hin). rewrite forallb_forall in Hall.
  apply list_elem_of_In in Hd'. specialize (Hall d Hd').
  apply andb_true_iff in Hall as [Hlt Hle].
  apply Nat.ltb_lt in Hlt. apply Nat.leb_le in Hle. done.
Qed.

Lemma loadAll_returns_from (load : string → manager → option (manager * handle))
    (deps : list string) :
  (∀ d m, d ∈ deps → is_Some (load d m)) →
  ∀ (m : manager) (hs0 : list handle),
    is_Some
      (fold_left
         (fun acc d =>
            match acc with
            | Some (m', hs) =>
                match load d m' with
                | Some (m'', h) => Some (m'', hs ++ [h])
                | None => None
                end
            | None => None
            end)
         deps (Some (m, hs0))).
Proof.
  induction deps as [|d deps IH]; intros Hload m hs0; simpl; [done|].
  destruct (Hload d m ltac:(left)) as [[m' h] ->].
  apply IH. intros d' m'' Hd'. apply Hload. by right.
Qed.

Lemma loadAll_returns (load : string → manager → option (manager * handle))
    (deps : list string) :
  (∀ d m, d ∈ deps → is_Some (load d m)) →
  ∀ m, is_Some (loadAll load deps m).
Proof. intros Hload m. by apply loadAll_returns_from. Qed.

Lemma loadBundle_returns_within (fuel : nat) :
  ∀ (name : string) (m : manager),
    rank name < fuel → is_Some (loadBundle fuel name m).
Proof.
  induction fuel as [|fuel IH]; intros name m Hrank; [lia|]. simpl.
  case_bool_decide; [done|].
  destruct (loadingBundles m !! name); [done|].
  destruct (loadAll_returns (loadBundle fuel) (dependenciesOf name)) with (m := m)
    as [[m1 hs] ->]; [|done].
  intros d m' Hd. apply IH.
  destruct (dependenciesOf_rank name d Hd). lia.
Qed.

(** With four frames every call returns. *)
Lemma loadBundle_returns (name : string) (m : manager) :
  is_Some (loadBundle 4 name m).
Proof.
  apply loadBundle_returns_within.
  destruct (dependenciesOf name) as [|d deps] eqn:Hdeps.
  - unfold rank. simpl. rewrite Hdeps. lia.
  - destruct (dependenciesOf_rank name d); [rewrite Hdeps; left | lia].
Qed.

(** Deduplication by name, as [PackageManager.loadBundle] does it: after a
    first call for a bundle that is neither loaded nor loading, the name is
    in [loadingBundles]; a second call before the load settles returns that
    very promise, starts nothing and requests nothing. *)
Lemma loadBundle_second_caller_joins (name : string) (m : manager) :
  name ∉ loadedBundles m →
  loadingBundles m !! name = None →
  ∃ m1 p,
    loadBundle 4 name m = Some (m1, Started (S p))
    ∧ loadingBundles m1 !! name = Some p
    ∧ requests m1 = requests m
    ∧ loadBundle 4 name m1 = Some (m1, Joined p).
Proof.
  intros Hnot Hnone.
  destruct (loadBundle_returns name m) as [[m1 h] Hcall].
  assert (Hstarted : ∃ q, h = Started q).
  { simpl in Hcall. rewrite bool_decide_eq_false_2, Hnone in Hcall by done.
    destruct (loadAll _ _ _) as [[? ?]|]; [|done].
    injection Hcall as <- <-. eauto. }
  destruct Hstarted as [q ->].
  destruct (loadBundle_registers 4 name m m1 q Hcall)
    as (p & Hp & -> & _ & Hnot1 & Hreq).
  exists m1, p. split_and!; try done.
  by apply loadBundle_joins.
Qed.

(** *** Two callers for [tikz] *)

Definition emptyManager : manager := {|
  loadedBundles := []; loadingBundles := ∅; cache := Some ∅;
  promises := []; tasks := []; requests := []
|}.

(** The tasks resumed in the order of [schedule]; one that cannot run yet
    is passed over. *)
Definition runAll (cdnBase : string) (server : string → bool)
    (schedule : list nat) (m : manager) : manager :=
  fold_left (fun m i => default m (resume cdnBase server i m)) schedule m.

(** Two calls for the same bundle, one right after the other. *)
Definition twoCallers (name : string) : option (manager * handle * handle) :=
  match loadBundle 4 name emptyManager with
  | Some (m1, h1) =>
      match loadBundle 4 name m1 with
      | Some (m2, h2) => Some (m2, h1, h2)
      | None => None
      end
  | None => None
  end.

(** The second caller joins promise 4, the load of [tikz]; [graphics] joins
    the load of [core].  Run to the end, every URL has been requested once
    and [loadingBundles] is empty, whether the loads succeed or one
    fails. *)
Example twoCallers_tikz :
  match twoCallers "tikz" with
  | Some (m, h1, h2) =>
      h1 = Started 5 ∧ h2 = Joined 4
      ∧ tasks m = [AwaitDeps "core" 0 []; AwaitLoad "core" 0 1;
                   AwaitDeps "graphics" 2 [Joined 0]; AwaitLoad "graphics" 2 3;
                   AwaitDeps "tikz" 4 [Started 1; Started 3];
                   AwaitLoad "tikz" 4 5]
      ∧ (let m' := runAll "cdn" (fun _ => true) [0; 1; 2; 3; 4; 5] m in
         requests m' = ["cdn/core.meta.json"; "cdn/core.data";
                        "cdn/graphics.meta.json"; "cdn/graphics.data";
                        "cdn/tikz.meta.json"; "cdn/tikz.data"]
         ∧ loadedBundles m' = ["core"; "graphics"; "tikz"]
         ∧ loadingBundles m' = ∅)
      ∧ (let m' := runAll "cdn"
                     (fun url => negb (String.eqb url "cdn/graphics.data"))
                     [0; 1; 2; 3; 4; 5] m in
         requests m' = ["cdn/core.meta.json"; "cdn/core.data";
                        "cdn/graphics.meta.json"; "cdn/graphics.data"]
         ∧ loadedBundles m' = ["core"]
         ∧ loadingBundles m' = ∅)
  | None => False
  end.
Proof. vm_compute. repeat split. Qed.

End PackageManager.

(** * CTANFetcher (the CTAN package fetching module) *)

Module CTANFetcher.

(** A package record as the storage module keeps it.  A field that is absent
    is [None]; [notFound] is read for its truthiness only. *)
Record PackageMeta := {
  meta_name : option string;
  meta_files : option (list string);
  meta_dependencies : option (list string);
  cacheVersion : option Z;
  notFound : bool
}.

(** The storage module ([./storage.js]) as the fetcher uses it: four
    asynchronous functions, each of which may reject. *)
Class Storage (St : Type) := {
  getPackageMeta : string → St → string + option PackageMeta;
  savePackageMeta : string → PackageMeta → St → string + St;
  readFromOPFS : string → St → string + option (list byte);
  writeToOPFS : string → list byte → St → string + St
}.

(** [info.content]: a string, or anything else [new Uint8Array(...)] turns
    into bytes. *)
Inductive content :=
| ContentString (s : string)
| ContentBytes (bs : list byte).

Record FileInfo := {
  info_content : content;
  encoding : option string
}.

(** The body of a response of [/api/fetch/<name>] once parsed.  A field that
    is absent is [None]; [files] lists the entries of the [files] object. *)
Record FetchData := {
  error : option string;
  data_files : option (list (string * FileInfo));
  dependencies : option (list string)
}.

(** What [fetch(url)] settles to: a rejection (network down, timeout), or a
    response with its status and its body ([None] when [response.json()]
    rejects). *)
Inductive fetchResult :=
| TransportError (message : string)
| Response (status : Z) (body : option FetchData).

(** [response.ok] *)
Definition ok (status : Z) : bool := (200 <=? status)%Z && (status <=? 299)%Z.

(** What a call of the fetcher resolves to besides [null]. *)
Record package := {
  pkg_files : list (string * list byte);
  pkg_dependencies : list string
}.

Inductive cached :=
| CachedNotFound
| CachedPackage (p : package).

(** The fetcher and its surroundings: the storage, the URLs requested from
    the network, the records handed to [savePackageMeta], and the fetcher's
    own fields. *)
Record world (St : Type) := {
  store : St;
  requests : list string;
  saved : list (string * PackageMeta);
  mountedFiles : list string;
  fetchCount : nat;
  log : list string
}.
Arguments store {St} _.
Arguments requests {St} _.
Arguments saved {St} _.
Arguments mountedFiles {St} _.
Arguments fetchCount {St} _.
Arguments log {St} _.

(** ** Asynchronous code that may throw *)

Inductive result (A : Type) :=
| Value (a : A)
| Thrown (message : string).
Arguments Value {A} _.
Arguments Thrown {A} _.

Definition M (St A : Type) : Type := world St → result A * world St.

Definition ret {St A : Type} (a : A) : M St A := fun w => (Value a, w).

Definition bind {St A B : Type} (m : M St A) (k : A → M St B) : M St B :=
  fun w =>
    match m w with
    | (Value a, w') => k a w'
    | (Thrown msg, w') => (Thrown msg, w')
    end.

Definition throw {St A : Type} (msg : string) : M St A := fun w => (Thrown msg, w).

(** [try { m } catch (e) { handler(e) }] *)
Definition try_catch {St A : Type} (m : M St A) (handler : string → M St A) : M St A :=
  fun w =>
    match m w with
    | (Value a, w') => (Value a, w')
    | (Thrown msg, w') => handler msg w'
    end.

Definition modify {St : Type} (f : world St → world St) : M St unit :=
  fun w => (Value tt, f w).

Notation "'let!' x := m 'in' k" := (bind m (fun x => k))
  (at level 10, x name, m at level 100, k at level 200).
Notation "'do!' m 'in' k" := (bind m (fun _ => k))
  (at level 10, m at level 100, k at level 200).

(** [map.set(key, value)] on an insertion-ordered [Map]. *)
Fixpoint map_set {V : Type} (key : string) (value : V) (m : list (string * V))
  : list (string * V) :=
  match m with
  | [] => [(key, value)]
  | (k, v) :: rest =>
      if String.eqb k key then (k, value) :: rest
      else (k, v) :: map_set key value rest
  end.

(** A [for ... of] loop with [await]s in its body, threading what the body
    builds. *)
Fixpoint for_of {St A B : Type} (body : B → A → M St B) (l : list A) (b : B)
  : M St B :=
  match l with
  | [] => ret b
  | a :: rest => let! b' := body b a in for_of body rest b'
  end.

(** A storage that reads back what was written: a saved record is what
    [getPackageMeta] returns, a written file is what [readFromOPFS] returns,
    and neither write disturbs the files written before. *)
Class LawfulStorage (St : Type) `{Storage St} := {
  get_save (n : string) (meta : PackageMeta) (s s' : St) :
    savePackageMeta n meta s = inr s' → getPackageMeta n s' = inr (Some meta);
  read_save (n : string) (meta : PackageMeta) (s s' : St) (p : string) :
    savePackageMeta n meta s = inr s' → readFromOPFS p s' = readFromOPFS p s;
  read_write (p : string) (c : list byte) (s s' : St) :
    writeToOPFS p c s = inr s' → readFromOPFS p s' = inr (Some c);
  read_write_ne (p : string) (c : list byte) (s s' : St) (q : string) :
    writeToOPFS p c s = inr s' → q ≠ p → readFromOPFS q s' = readFromOPFS q s
}.

Section Fetcher.
Context {St : Type} `{Storage St}.

(** The constant [CTAN_CACHE_VERSION] of the storage module. *)
Variable CTAN_CACHE_VERSION : Z.
(** [this.proxyUrl] *)
Variable proxyUrl : string.
(** What the network answers to [fetch(url)]. *)
Variable network : string → fetchResult.
(** [atob(info.content)]; [None] when it throws. *)
Variable atob : content → option (list byte).

Definition onLog (line : string) : M St unit :=
  modify (fun w =>
    {| store := store w; requests := requests w; saved := saved w;
       mountedFiles := mountedFiles w; fetchCount := fetchCount w;
       log := log w ++ [line] |}).

(** [this.mountedFiles.add(path)] *)
Definition mountedFiles_add (path : string) : M St unit :=
  modify (fun w =>
    {| store := store w; requests := requests w; saved := saved w;
       mountedFiles := set_add path (mountedFiles w);
       fetchCount := fetchCount w; log := log w |}).

(** [this.fetchCount++] *)
Definition fetchCount_incr : M St unit :=
  modify (fun w =>
    {| store := store w; requests := requests w; saved := saved w;
       mountedFiles := mountedFiles w; fetchCount := S (fetchCount w);
       log := log w |}).

Definition with_store (s : St) (w : world St) : world St :=
  {| store := s; requests := requests w; saved := saved w;
     mountedFiles := mountedFiles w; fetchCount := fetchCount w;
     log := log w |}.

(** [await getPackageMeta(packageName)] *)
Definition await_getPackageMeta (packageName : string)
  : M St (option PackageMeta) :=
  fun w =>
    match getPackageMeta packageName (store w) with
    | inl msg => (Thrown msg, w)
    | inr meta => (Value meta, w)
    end.

(** [await readFromOPFS(filePath)] *)
Definition await_readFromOPFS (filePath : string) : M St (option (list byte)) :=
  fun w =>
    match readFromOPFS filePath (store w) with
    | inl msg => (Thrown msg, w)
    | inr c => (Value c, w)
    end.

(** [await writeToOPFS(path, content)] *)
Definition await_writeToOPFS (path : string) (c : list byte) : M St unit :=
  fun w =>
    match writeToOPFS path c (store w) with
    | inl msg => (Thrown msg, w)
    | inr s => (Value tt, with_store s w)
    end.

(** [await savePackageMeta(packageName, meta)]: the call is recorded in
    [saved], whether the storage takes the record or throws. *)
Definition await_savePackageMeta (packageName : string) (meta : PackageMeta)
  : M St unit :=
  fun w =>
    let w1 :=
      {| store := store w; requests := requests w;
         saved := saved w ++ [(packageName, meta)];
         mountedFiles := mountedFiles w; fetchCount := fetchCount w;
         log := log w |} in
    match savePackageMeta packageName meta (store w) with
    | inl msg => (Thrown msg, w1)
    | inr s => (Value tt, with_store s w1)
    end.

(** [await fetch(url)]: the request is recorded in [requests]; a transport
    error rejects. *)
Definition await_fetch (url : string) : M St (Z * option FetchData) :=
  fun w =>
    let w1 :=
      {| store := store w; requests := requests w ++ [url]; saved := saved w;
         mountedFiles := mountedFiles w; fetchCount := fetchCount w;
         log := log w |} in
    match network url with
    | TransportError msg => (Thrown msg, w1)
    | Response status body => (Value (status, body), w1)
    end.

(** The body of the loop over [meta.files]. *)
Definition readCachedFile (files : list (string * list byte)) (filePath : string)
  : M St (list (string * list byte)) :=
  let! c := await_readFromOPFS filePath in
  match c with
  | Some bytes =>
      do! mountedFiles_add filePath in
      ret (map_set filePath bytes files)
  | None => ret files
  end.

Definition loadPackageFromCache (packageName : string) : M St (option cached) :=
  try_catch
    (let! meta := await_getPackageMeta packageName in
     match meta with
     | None => ret None
     | Some meta =>
         if negb (bool_decide (cacheVersion meta = Some CTAN_CACHE_VERSION))
         then ret None
         else if notFound meta then ret (Some CachedNotFound)
         else
           let! files :=
             match meta_files meta with
             | Some paths => for_of readCachedFile paths []
             | None => ret []
             end in
           ret (Some (CachedPackage
                        {| pkg_files := files;
                           pkg_dependencies :=
                             default [] (meta_dependencies meta) |}))
     end)
    (fun _ => ret None).

(** The record both negative branches of [fetchPackage] save. *)
Definition notFoundRecord : PackageMeta := {|
  meta_name := None; meta_files := None; meta_dependencies := None;
  cacheVersion := Some CTAN_CACHE_VERSION; notFound := true
|}.

(** The bytes of one entry of [data.files]. *)
Definition decode (info : FileInfo) : M St (list byte) :=
  if bool_decide (encoding info = Some "base64") then
    match atob (info_content info) with
    | Some bytes => ret bytes
    | None => throw "InvalidCharacterError"
    end
  else
    match info_content info with
    | ContentString s => ret (list_byte_of_string s)
    | ContentBytes bs => ret bs
    end.

(** The body of the loop over [Object.entries(data.files)]. *)
Definition storeFile (files : list (string * list byte))
    (entry : string * FileInfo) : M St (list (string * list byte)) :=
  let! c := decode (snd entry) in
  do! mountedFiles_add (fst entry) in
  do! await_writeToOPFS (fst entry) c in
  ret (map_set (fst entry) c files).

(** The [try] block of [fetchPackage]. *)
Definition fetchFromProxy (packageName : string) : M St (option package) :=
  let! response := await_fetch (proxyUrl +:+ "/api/fetch/" +:+ packageName) in
  if negb (ok (fst response)) then
    do! await_savePackageMeta packageName notFoundRecord in
    ret None
  else
    let! data :=
      match snd response with
      | Some d => ret d
      | None => throw "SyntaxError"
      end in
    if truthy (default "" (error data)) then
      do! await_savePackageMeta packageName notFoundRecord in
      ret None
    else
      let! entries :=
        match data_files data with
        | Some es => ret es
        | None => throw "TypeError"
        end in
      let! files := for_of storeFile entries [] in
      do! await_savePackageMeta packageName
            {| meta_name := Some packageName;
               meta_files := Some (map fst files);
               meta_dependencies := Some (default [] (dependencies data));
               cacheVersion := Some CTAN_CACHE_VERSION;
               notFound := false |} in
      do! fetchCount_incr in
      ret (Some {| pkg_files := files;
                   pkg_dependencies := default [] (dependencies data) |}).

(** [fetchPackage] from its comment "Fetch from CTAN proxy" on: what runs
    when the cache gave nothing. *)
Definition fetchUncached (packageName : string) : M St (option package) :=
  do! onLog ("Fetching " +:+ packageName +:+ " from CTAN...") in
  try_catch (fetchFromProxy packageName)
    (fun msg => do! onLog ("CTAN fetch error: " +:+ msg) in ret None).

(** [fetchPackage(packageName)]; [None] is [null]. *)
Definition fetchPackage (packageName : string) : M St (option package) :=
  let! c := loadPackageFromCache packageName in
  match c with
  | Some CachedNotFound =>
      do! onLog ("Package " +:+ packageName +:+ " marked as not found in cache") in
      ret None
  | Some (CachedPackage p) =>
      do! onLog ("Package " +:+ packageName +:+ " loaded from cache") in
      ret (Some p)
  | None => fetchUncached packageName
  end.

(** A response that makes [fetchPackage] save a negative record: its status
    is not OK, or its body parses and has a truthy [error]. *)
Definition negative (status : Z) (body : option FetchData) : bool :=
  negb (ok status)
  || match body with
     | Some d => truthy (default "" (error d))
     | None => false
     end.

(** *** What a computation leaves alone *)

(** [keeps proj m]: running [m] never changes the component [proj] of the
    world, whether it returns or throws. *)
Definition keeps {X A : Type} (proj : world St → X) (m : M St A) : Prop :=
  ∀ w, proj (snd (m w)) = proj w.

Lemma keeps_ret {X A : Type} (proj : world St → X) (a : A) : keeps proj (ret a).
Proof. by intros w. Qed.

Lemma keeps_throw {X A : Type} (proj : world St → X) (msg : string) :
  keeps proj (throw (A := A) msg).
Proof. by intros w. Qed.

Lemma keeps_bind {X A B : Type} (proj : world St → X) (m : M St A)
    (k : A → M St B) :
  keeps proj m → (∀ a, keeps proj (k a)) → keeps proj (bind m k).
Proof.
  intros Hm Hk w. unfold bind. specialize (Hm w).
  destruct (m w) as [[a|msg] w']; simpl in *; [|done].
  by rewrite Hk.
Qed.

Lemma keeps_try_catch {X A : Type} (proj : world St → X) (m : M St A)
    (handler : string → M St A) :
  keeps proj m → (∀ msg, keeps proj (handler msg)) →
  keeps proj (try_catch m handler).
Proof.
  intros Hm Hh w. unfold try_catch. specialize (Hm w).
  destruct (m w) as [[a|msg] w']; simpl in *; [done|].
  by rewrite Hh.
Qed.

Lemma keeps_for_of {X A B : Type} (proj : world St → X)
    (body : B → A → M St B) (l : list A) :
  (∀ b a, keeps proj (body b a)) → ∀ b, keeps proj (for_of body l b).
Proof.
  intros Hbody. induction l as [|a l IH]; intros b; simpl.
  - apply keeps_ret.
  - apply keeps_bind; [apply Hbody | apply IH].
Qed.

Lemma keeps_getPackageMeta {X : Type} (proj : world St → X) (n : string) :
  keeps proj (await_getPackageMeta n).
Proof.
  intros w. unfold await_getPackageMeta. by destruct (getPackageMeta n (store w)).
Qed.

Lemma keeps_readFromOPFS {X : Type} (proj : world St → X) (p : string) :
  keeps proj (await_readFromOPFS p).
Proof.
  intros w. unfold await_readFromOPFS. by destruct (readFromOPFS p (store w)).
Qed.

Lemma keeps_requests_writeToOPFS (p : string) (c : list byte) :
  keeps requests (await_writeToOPFS p c).
Proof.
  intros w. unfold await_writeToOPFS. by destruct (writeToOPFS p c (store w)).
Qed.

Lemma keeps_saved_writeToOPFS (p : string) (c : list byte) :
  keeps saved (await_writeToOPFS p c).
Proof.
  intros w. unfold await_writeToOPFS. by destruct (writeToOPFS p c (store w)).
Qed.

Lemma keeps_requests_savePackageMeta (n : string) (meta : PackageMeta) :
  keeps requests (await_savePackageMeta n meta).
Proof.
  intros w. unfold await_savePackageMeta.
  by destruct (savePackageMeta n meta (store w)).
Qed.

Lemma keeps_decode {X : Type} (proj : world St → X) (info : FileInfo) :
  keeps proj (decode info).
Proof.
  unfold decode. case_bool_decide.
  - destruct (atob (info_content info)); [apply keeps_ret | apply keeps_throw].
  - destruct (info_content info); apply keeps_ret.
Qed.

Lemma keeps_requests_storeFile (files : list (string * list byte))
    (entry : string * FileInfo) :
  keeps requests (storeFile files entry).
Proof.
  unfold storeFile. apply keeps_bind; [apply keeps_decode|]. intros c.
  apply keeps_bind; [by intros w|]. intros _.
  apply keeps_bind; [apply keeps_requests_writeToOPFS|]. intros _.
  apply keeps_ret.
Qed.

Lemma keeps_saved_storeFile (files : list (string * list byte))
    (entry : string * FileInfo) :
  keeps saved (storeFile files entry).
Proof.
  unfold storeFile. apply keeps_bind; [apply keeps_decode|]. intros c.
  apply keeps_bind; [by intros w|]. intros _.
  apply keeps_bind; [apply keeps_saved_writeToOPFS|]. intros _.
  apply keeps_ret.
Qed.

(** Reading the cache makes no request and saves no record. *)
Lemma keeps_loadPackageFromCache {X : Type} (proj : world St → X)
    (packageName : string) :
  (∀ p, keeps proj (mountedFiles_add p)) →
  keeps proj (loadPackageFromCache packageName).
Proof.
  intros Hadd. unfold loadPackageFromCache.
  apply keeps_try_catch; [|intros; apply keeps_ret].
  apply keeps_bind; [apply keeps_getPackageMeta|]. intros [meta|]; [|apply keeps_ret].
  destruct (negb _); [apply keeps_ret|].
  destruct (notFound meta); [apply keeps_ret|].
  apply keeps_bind; [|intros; apply keeps_ret].
  destruct (meta_files meta) as [paths|]; [|apply keeps_ret].
  apply keeps_for_of. intros files filePath. unfold readCachedFile.
  apply keeps_bind; [apply keeps_readFromOPFS|]. intros [bytes|]; [|apply keeps_ret].
  apply keeps_bind; [apply Hadd | intros; apply keeps_ret].
Qed.

(** *** The cache is consulted first *)

Lemma loadPackageFromCache_notFound (packageName : string)
    (meta : PackageMeta) (w : world St) :
  getPackageMeta packageName (store w) = inr (Some meta) →
  cacheVersion meta = Some CTAN_CACHE_VERSION →
  notFound meta = true →
  loadPackageFromCache packageName w = (Value (Some CachedNotFound), w).
Proof.
  intros Hget Hv Hnf.
  unfold loadPackageFromCache, try_catch, bind, await_getPackageMeta.
  rewrite Hget. rewrite bool_decide_eq_true_2 by done. simpl. by rewrite Hnf.
Qed.

Lemma loadPackageFromCache_stale (packageName : string)
    (meta : PackageMeta) (w : world St) :
  getPackageMeta packageName (store w) = inr (Some meta) →
  cacheVersion meta ≠ Some CTAN_CACHE_VERSION →
  loadPackageFromCache packageName w = (Value None, w).
Proof.
  intros Hget Hv.
  unfold loadPackageFromCache, try_catch, bind, await_getPackageMeta.
  rewrite Hget. by rewrite bool_decide_eq_false_2 by done.
Qed.

Lemma loadPackageFromCache_absent (packageName : string) (w : world St) :
  getPackageMeta packageName (store w) = inr None →
  loadPackageFromCache packageName w = (Value None, w).
Proof.
  intros Hget.
  unfold loadPackageFromCache, try_catch, bind, await_getPackageMeta.
  by rewrite Hget.
Qed.

Lemma fetchPackage_miss (packageName : string) (w : world St) :
  loadPackageFromCache packageName w = (Value None, w) →
  fetchPackage packageName w = fetchUncached packageName w.
Proof. intros Hload. unfold fetchPackage, bind. by rewrite Hload. Qed.

(** [appends proj x m]: running [m] appends [x] to the component [proj]. *)
Definition appends {X A : Type} (proj : world St → list X) (x : list X)
    (m : M St A) : Prop :=
  ∀ w, proj (snd (m w)) = proj w ++ x.

Lemma appends_bind_keeps {X A B : Type} (proj : world St → list X)
    (x : list X) (m : M St A) (k : A → M St B) :
  appends proj x m → (∀ a, keeps proj (k a)) → appends proj x (bind m k).
Proof.
  intros Hm Hk w. unfold bind. specialize (Hm w).
  destruct (m w) as [[a|msg] w']; simpl in *; [|done].
  by rewrite Hk.
Qed.

Lemma appends_try_catch {X A : Type} (proj : world St → list X)
    (x : list X) (m : M St A) (handler : string → M St A) :
  appends proj x m → (∀ msg, keeps proj (handler msg)) →
  appends proj x (try_catch m handler).
Proof.
  intros Hm Hh w. unfold try_catch. specialize (Hm w).
  destruct (m w) as [[a|msg] w']; simpl in *; [done|].
  by rewrite Hh.
Qed.

Lemma appends_after_modify {X A : Type} (proj : world St → list X)
    (x : list X) (f : world St → world St) (m : M St A) :
  (∀ w, proj (f w) = proj w) → appends proj x m →
  appends proj x (bind (modify f) (fun _ => m)).
Proof.
  intros Hf Hm w. unfold bind, modify. simpl. by rewrite Hm, Hf.
Qed.

Lemma appends_fetch (url : string) : appends requests [url] (await_fetch url).
Proof. intros w. unfold await_fetch. by destruct (network url). Qed.

Lemma keeps_requests_after_fetch (packageName : string)
    (response : Z * option FetchData) :
  keeps requests
    (if negb (ok (fst response)) then
       do! await_savePackageMeta packageName notFoundRecord in
       ret (A := option package) None
     else
       let! data :=
         match snd response with
         | Some d => ret d
         | None => throw "SyntaxError"
         end in
       if truthy (default "" (error data)) then
         do! await_savePackageMeta packageName notFoundRecord in
         ret None
       else
         let! entries :=
           match data_files data with
           | Some es => ret es
           | None => throw "TypeError"
           end in
         let! files := for_of storeFile entries [] in
         do! await_savePackageMeta packageName
               {| meta_name := Some packageName;
                  meta_files := Some (map fst files);
                  meta_dependencies := Some (default [] (dependencies data));
                  cacheVersion := Some CTAN_CACHE_VERSION;
                  notFound := false |} in
         do! fetchCount_incr in
         ret (Some {| pkg_files := files;
                      pkg_dependencies := default [] (dependencies data) |})).
Proof.
  destruct (negb (ok (fst response))).
  - apply keeps_bind; [apply keeps_requests_savePackageMeta|].
    intros; apply keeps_ret.
  - apply keeps_bind.
    { destruct (snd response); [apply keeps_ret | apply keeps_throw]. }
    intros data. destruct (truthy _).
    + apply keeps_bind; [apply keeps_requests_savePackageMeta|].
      intros; apply keeps_ret.
    + apply keeps_bind.
      { destruct (data_files data); [apply keeps_ret | apply keeps_throw]. }
      intros entries. apply keeps_bind.
      { apply keeps_for_of. apply keeps_requests_storeFile. }
      intros files. apply keeps_bind; [apply keeps_requests_savePackageMeta|].
      intros _. apply keeps_bind; [by intros ?|]. intros; apply keeps_ret.
Qed.

(** The network path makes exactly one request, to
    [<proxy>/api/fetch/<name>]. *)
Lemma fetchUncached_requests (packageName : string) (w : world St) :
  requests (snd (fetchUncached packageName w))
  = requests w ++ [proxyUrl +:+ "/api/fetch/" +:+ packageName].
Proof.
  revert w. apply appends_after_modify; [done|].
  apply appends_try_catch.
  - unfold fetchFromProxy. apply appends_bind_keeps; [apply appends_fetch|].
    apply keeps_requests_after_fetch.
  - intros msg. apply keeps_bind; [by intros ?|]. intros; apply keeps_ret.
Qed.

(** C6.  [fetchPackage(name)] consults the stored record first.  When the
    record has [notFound] set and its [cacheVersion] is the current
    constant, the call returns [null] at once: no request is made, nothing
    is saved, the storage is untouched.  When the record's [cacheVersion]
    differs from the constant, the record is ignored: the call continues
    exactly as it does when there is no record at all, on the network path,
    which makes the request to the proxy. *)
Theorem fetchPackage_consults_record_first (packageName : string)
    (w : world St) :
  (∀ meta,
     getPackageMeta packageName (store w) = inr (Some meta) →
     cacheVersion meta = Some CTAN_CACHE_VERSION →
     notFound meta = true →
     ∃ w', fetchPackage packageName w = (Value None, w')
           ∧ requests w' = requests w
           ∧ saved w' = saved w
           ∧ store w' = store w)
  ∧ (∀ meta,
       getPackageMeta packageName (store w) = inr (Some meta) →
       cacheVersion meta ≠ Some CTAN_CACHE_VERSION →
       fetchPackage packageName w = fetchUncached packageName w
       ∧ requests (snd (fetchPackage packageName w))
         = requests w ++ [proxyUrl +:+ "/api/fetch/" +:+ packageName])
  ∧ (getPackageMeta packageName (store w) = inr None →
     fetchPackage packageName w = fetchUncached packageName w).
Proof.
  split; [|split].
  - intros meta Hget Hv Hnf. unfold fetchPackage, bind.
    rewrite (loadPackageFromCache_notFound packageName meta w Hget Hv Hnf).
    simpl. eexists. split; [reflexivity|]. done.
  - intros meta Hget Hv.
    pose proof (fetchPackage_miss packageName w
                  (loadPackageFromCache_stale packageName meta w Hget Hv)) as Hm.
    split; [exact Hm|]. rewrite Hm. apply fetchUncached_requests.
  - intros Hget. apply fetchPackage_miss.
    by apply loadPackageFromCache_absent.
Qed.

(** *** Which responses leave a negative record *)

Definition fetchUrl (packageName : string) : string :=
  proxyUrl +:+ "/api/fetch/" +:+ packageName.

(** What the [try] block of [fetchPackage] hands to [savePackageMeta], by
    the answer of the network. *)
Lemma bind_value {A B : Type} (m : M St A) (k : A → M St B)
    (w w' : world St) (a : A) :
  m w = (Value a, w') → bind m k w = k a w'.
Proof. intros Hm. unfold bind. by rewrite Hm. Qed.

Lemma bind_thrown {A B : Type} (m : M St A) (k : A → M St B)
    (w w' : world St) (msg : string) :
  m w = (Thrown msg, w') → bind m k w = (Thrown msg, w').
Proof. intros Hm. unfold bind. by rewrite Hm. Qed.

Lemma await_savePackageMeta_cases (packageName : string) (meta : PackageMeta)
    (w : world St) :
  ∃ w', saved w' = saved w ++ [(packageName, meta)]
        ∧ (await_savePackageMeta packageName meta w = (Value tt, w')
           ∨ ∃ msg, await_savePackageMeta packageName meta w = (Thrown msg, w')).
Proof.
  unfold await_savePackageMeta.
  destruct (savePackageMeta packageName meta (store w));
    eexists; (split; [|eauto]); reflexivity.
Qed.

Lemma await_fetch_cases (url : string) (w : world St) :
  ∃ w', saved w' = saved w
        ∧ match network url with
          | TransportError msg => await_fetch url w = (Thrown msg, w')
          | Response status body =>
              await_fetch url w = (Value (status, body), w')
          end.
Proof.
  unfold await_fetch.
  destruct (network url); eexists; (split; [|reflexivity]); reflexivity.
Qed.

(** What the [try] block of [fetchPackage] hands to [savePackageMeta], by
    the answer of the network. *)
Lemma fetchFromProxy_saved (packageName : string) (w : world St) :
  let r := fetchFromProxy packageName w in
  match network (fetchUrl packageName) with
  | TransportError _ =>
      (∃ msg, fst r = Thrown msg) ∧ saved (snd r) = saved w
  | Response status body =>
      if negative status body then
        (fst r = Value None ∨ ∃ msg, fst r = Thrown msg)
        ∧ saved (snd r) = saved w ++ [(packageName, notFoundRecord)]
      else
        ((∃ msg, fst r = Thrown msg) ∧ saved (snd r) = saved w)
        ∨ (∃ meta, notFound meta = false
                   ∧ saved (snd r) = saved w ++ [(packageName, meta)])
  end.
Proof.
  unfold fetchFromProxy. fold (fetchUrl packageName).
  destruct (await_fetch_cases (fetchUrl packageName) w) as (w1 & Hw1 & Hf).
  destruct (network (fetchUrl packageName)) as [msg|status body]; cbv zeta.
  { rewrite (bind_thrown _ _ _ _ _ Hf). simpl. eauto. }
  rewrite (bind_value _ _ _ _ _ Hf). cbn [fst snd]. rewrite <- Hw1.
  clear Hf Hw1 w. unfold negative.
  (* the status is not OK *)
  destruct (negb (ok status)); cbn [orb].
  { destruct (await_savePackageMeta_cases packageName notFoundRecord w1)
      as (w2 & Hw2 & [Hs | [msg Hs]]).
    - rewrite (bind_value _ _ _ _ _ Hs). simpl. eauto.
    - rewrite (bind_thrown _ _ _ _ _ Hs). simpl. eauto. }
  (* response.json() *)
  destruct body as [d|]; [|left; simpl; eauto].
  rewrite (bind_value _ _ w1 w1 d) by done.
  destruct (truthy (default "" (error d))).
  { destruct (await_savePackageMeta_cases packageName notFoundRecord w1)
      as (w2 & Hw2 & [Hs | [msg Hs]]).
    - rewrite (bind_value _ _ _ _ _ Hs). simpl. eauto.
    - rewrite (bind_thrown _ _ _ _ _ Hs). simpl. eauto. }
  (* Object.entries(data.files) *)
  destruct (data_files d) as [entries|]; [|left; simpl; eauto].
  rewrite (bind_value _ _ w1 w1 entries) by done.
  pose proof (keeps_for_of saved storeFile entries keeps_saved_storeFile [] w1)
    as Hloop.
  destruct (for_of storeFile entries [] w1) as [[files|msg] w2] eqn:Hfor;
    simpl in Hloop.
  2: { left. rewrite (bind_thrown _ _ _ _ _ Hfor). simpl. eauto. }
  rewrite (bind_value _ _ _ _ _ Hfor). right.
  match goal with |- context [await_savePackageMeta packageName ?meta] =>
    exists meta; split; [reflexivity|];
    destruct (await_savePackageMeta_cases packageName meta w2)
      as (w3 & Hw3 & [Hs | [msg Hs]])
  end.
  - rewrite (bind_value _ _ _ _ _ Hs). simpl. by rewrite Hw3, Hloop.
  - rewrite (bind_thrown _ _ _ _ _ Hs). simpl. by rewrite Hw3, Hloop.
Qed.

Lemma fetchUncached_saved (packageName : string) (w : world St) :
  let r := fetchUncached packageName w in
  match network (fetchUrl packageName) with
  | TransportError _ => fst r = Value None ∧ saved (snd r) = saved w
  | Response status body =>
      if negative status body then
        fst r = Value None
        ∧ saved (snd r) = saved w ++ [(packageName, notFoundRecord)]
      else
        (fst r = Value None ∧ saved (snd r) = saved w)
        ∨ (∃ meta, notFound meta = false
                   ∧ saved (snd r) = saved w ++ [(packageName, meta)])
  end.
Proof.
  cbv zeta.
  pose (w1 := {| store := store w; requests := requests w; saved := saved w;
                 mountedFiles := mountedFiles w; fetchCount := fetchCount w;
                 log := log w ++ ["Fetching " +:+ packageName +:+ " from CTAN..."] |}).
  change (fetchUncached packageName w)
    with (try_catch (fetchFromProxy packageName)
            (fun msg => do! onLog ("CTAN fetch error: " +:+ msg) in ret None) w1).
  pose proof (fetchFromProxy_saved packageName w1) as Hp.
  change (saved w1) with (saved w) in Hp. cbv zeta in Hp.
  unfold try_catch.
  destruct (fetchFromProxy packageName w1) as [[a|msg] w2]; simpl in Hp |- *.
  - destruct (network _) as [msg|status body].
    + by destruct Hp as [[msg' Hmsg] _].
    + destruct (negative status body).
      * destruct Hp as [[Ha | [msg' Hmsg]] Hs]; [|done]. by injection Ha as ->.
      * destruct Hp as [[[msg' Hmsg] _] | Hp]; [done | by right].
  - destruct (network _) as [msg'|status body].
    + by destruct Hp as [_ Hs].
    + destruct (negative status body).
      * by destruct Hp as [_ Hs].
      * destruct Hp as [[_ Hs] | Hp]; [by left | by right].
Qed.

(** C5 (amended).  When the cache gives nothing, [fetchPackage(name)] hands
    [savePackageMeta] the record [{notFound: true, cacheVersion:
    CTAN_CACHE_VERSION}] and returns [null] exactly when the network answers
    with a response that is negative: its status is not OK (any status
    outside 200-299, among them 404), or its body parses and has a truthy
    [error] field.  When [fetch] itself rejects (a transport error),
    [fetchPackage] returns [null] and hands nothing to [savePackageMeta]. *)
Theorem fetchPackage_negative_record (packageName : string) (w : world St) :
  fst (loadPackageFromCache packageName w) = Value None →
  let r := fetchPackage packageName w in
  ((fst r = Value None
    ∧ saved (snd r) = saved w ++ [(packageName, notFoundRecord)])
   ↔ ∃ status body,
       network (fetchUrl packageName) = Response status body
       ∧ negative status body = true)
  ∧ (∀ msg,
       network (fetchUrl packageName) = TransportError msg →
       fst r = Value None ∧ saved (snd r) = saved w).
Proof.
  intros Hmiss.
  pose proof (keeps_loadPackageFromCache saved packageName
                (fun p w => eq_refl) w) as Hkeep.
  unfold fetchPackage, bind.
  destruct (loadPackageFromCache packageName w) as [c w0]; simpl in *.
  subst c. pose proof (fetchUncached_saved packageName w0) as Hs.
  rewrite Hkeep in Hs. simpl in Hs.
  destruct (network (fetchUrl packageName)) as [msg|status body]; split.
  - split.
    + intros [_ Hsaved]. destruct Hs as [_ Hs]. rewrite Hs in Hsaved.
      apply (f_equal length) in Hsaved. rewrite length_app in Hsaved.
      simpl in Hsaved. lia.
    + by intros (? & ? & ? & _).
  - by intros msg' _.
  - destruct (negative status body) eqn:Hneg.
    + split; [eauto | by intros _].
    + split; [|by intros (? & ? & [= <- <-] & ?); congruence].
      intros [_ Hsaved]. destruct Hs as [[_ Hs] | (meta & Hnf & Hs)].
      * rewrite Hs in Hsaved. apply (f_equal length) in Hsaved.
        rewrite length_app in Hsaved. simpl in Hsaved. lia.
      * rewrite Hs in Hsaved. apply app_inv_head in Hsaved.
        injection Hsaved as ->. discriminate Hnf.
  - by intros msg' [=].
Qed.

(** *** A fetched package is served from the cache afterwards *)

(** What depends on the storage only: the result of [m] and the storage it
    leaves are the same from any two worlds with the same storage. *)
Definition storeOnly {A : Type} (m : M St A) : Prop :=
  ∀ w wa, store w = store wa →
          fst (m w) = fst (m wa) ∧ store (snd (m w)) = store (snd (m wa)).

Lemma storeOnly_ret {A : Type} (a : A) : storeOnly (ret a).
Proof. by intros w wa Hs. Qed.

Lemma storeOnly_bind {A B : Type} (m : M St A) (k : A → M St B) :
  storeOnly m → (∀ a, storeOnly (k a)) → storeOnly (bind m k).
Proof.
  intros Hm Hk w wa Hs. unfold bind. destruct (Hm w wa Hs) as [Hr Hs'].
  destruct (m w) as [[a|msg] w'], (m wa) as [[a'|msg'] wa']; simpl in *;
    try discriminate.
  - injection Hr as ->. by apply Hk.
  - by injection Hr as ->.
Qed.

Lemma storeOnly_try_catch {A : Type} (m : M St A) (handler : string → M St A) :
  storeOnly m → (∀ msg, storeOnly (handler msg)) → storeOnly (try_catch m handler).
Proof.
  intros Hm Hh w wa Hs. unfold try_catch. destruct (Hm w wa Hs) as [Hr Hs'].
  destruct (m w) as [[a|msg] w'], (m wa) as [[a'|msg'] wa']; simpl in *;
    try discriminate.
  - by injection Hr as ->.
  - injection Hr as ->. by apply Hh.
Qed.

Lemma storeOnly_for_of {A B : Type} (body : B → A → M St B) (l : list A) :
  (∀ b a, storeOnly (body b a)) → ∀ b, storeOnly (for_of body l b).
Proof.
  intros Hbody. induction l as [|a l IH]; intros b; simpl.
  - apply storeOnly_ret.
  - apply storeOnly_bind; [apply Hbody | apply IH].
Qed.

Lemma storeOnly_loadPackageFromCache (packageName : string) :
  storeOnly (loadPackageFromCache packageName).
Proof.
  unfold loadPackageFromCache.
  apply storeOnly_try_catch; [|intros; apply storeOnly_ret].
  apply storeOnly_bind.
  { intros w wa Hs. unfold await_getPackageMeta. rewrite Hs.
    by destruct (getPackageMeta packageName (store wa)). }
  intros [meta|]; [|apply storeOnly_ret].
  destruct (negb _); [apply storeOnly_ret|].
  destruct (notFound meta); [apply storeOnly_ret|].
  apply storeOnly_bind; [|intros; apply storeOnly_ret].
  destruct (meta_files meta) as [paths|]; [|apply storeOnly_ret].
  apply storeOnly_for_of. intros files filePath. unfold readCachedFile.
  apply storeOnly_bind.
  { intros w wa Hs. unfold await_readFromOPFS. rewrite Hs.
    by destruct (readFromOPFS filePath (store wa)). }
  intros [bytes|]; [|apply storeOnly_ret].
  apply storeOnly_bind; [by intros w wa Hs | intros; apply storeOnly_ret].
Qed.

(** Only [mountedFiles] and [log] may differ. *)
Definition quiet (w w' : world St) : Prop :=
  store w' = store w ∧ requests w' = requests w ∧ saved w' = saved w
  ∧ fetchCount w' = fetchCount w.

Lemma quiet_loadPackageFromCache (packageName : string) (w : world St) :
  quiet w (snd (loadPackageFromCache packageName w)).
Proof.
  split_and!; apply (keeps_loadPackageFromCache _ packageName); by intros p w'.
Qed.

(** The storage holds a package under a name: a current record that lists
    the files of the package, each of which reads back. *)
Definition holds (s : St) (packageName : string) (p : package) : Prop :=
  (∃ meta,
     getPackageMeta packageName s = inr (Some meta)
     ∧ cacheVersion meta = Some CTAN_CACHE_VERSION
     ∧ notFound meta = false
     ∧ meta_files meta = Some (map fst (pkg_files p))
     ∧ default [] (meta_dependencies meta) = pkg_dependencies p)
  ∧ NoDup (map fst (pkg_files p))
  ∧ ∀ k c, (k, c) ∈ pkg_files p → readFromOPFS k s = inr (Some c).

Lemma map_set_fresh {V : Type} (key : string) (value : V) (m : list (string * V)) :
  key ∉ map fst m → map_set key value m = m ++ [(key, value)].
Proof.
  induction m as [|[k v] m IH]; simpl; [done|]. intros Hk.
  destruct (String.eqb k key) eqn:Heq.
  - apply String.eqb_eq in Heq as ->. exfalso. apply Hk. by left.
  - f_equal. apply IH. intros Hin. apply Hk. by right.
Qed.

Lemma map_set_keys {V : Type} (key : string) (value : V) (m : list (string * V)) :
  map fst (map_set key value m)
  = if bool_decide (key ∈ map fst m) then map fst m else map fst m ++ [key].
Proof.
  induction m as [|[k v] m IH]; simpl; [done|].
  destruct (String.eqb k key) eqn:Heq.
  - apply String.eqb_eq in Heq as ->. simpl.
    by rewrite bool_decide_eq_true_2 by (by left).
  - apply String.eqb_neq in Heq. simpl. rewrite IH.
    destruct (decide (key ∈ map fst m)) as [Hin|Hin].
    + rewrite !bool_decide_eq_true_2; [done | by right | done].
    + rewrite !bool_decide_eq_false_2; [done | | done].
      intros [?|?]%elem_of_cons; [congruence | done].
Qed.

Lemma elem_of_map_set {V : Type} (key : string) (value : V)
    (m : list (string * V)) (k : string) (v : V) :
  NoDup (map fst m) →
  (k, v) ∈ map_set key value m →
  (k = key ∧ v = value) ∨ (k ≠ key ∧ (k, v) ∈ m).
Proof.
  induction m as [|[k0 v0] m IH]; simpl; intros Hnd.
  - intros [= -> ->]%list_elem_of_singleton. by left.
  - apply NoDup_cons in Hnd as [Hk0 Hnd].
    destruct (String.eqb k0 key) eqn:Heq.
    + apply String.eqb_eq in Heq as ->.
      intros [[= -> ->]|Hin]%elem_of_cons; [by left|].
      right. split; [|by right]. intros ->. apply Hk0.
      apply list_elem_of_fmap. by exists (key, v).
    + apply String.eqb_neq in Heq.
      intros [[= -> ->]|Hin]%elem_of_cons; [right; split; [done | by left]|].
      destruct (IH Hnd Hin) as [?|[? ?]];
        [by left | right; split; [done | by right]].
Qed.

Context `{!LawfulStorage St}.

(** The files built so far have distinct paths, and each reads back. *)
Definition readable (files : list (string * list byte)) (s : St) : Prop :=
  NoDup (map fst files)
  ∧ ∀ k c, (k, c) ∈ files → readFromOPFS k s = inr (Some c).

Lemma storeFile_readable (files : list (string * list byte))
    (entry : string * FileInfo) (w : world St)
    (files' : list (string * list byte)) (w' : world St) :
  storeFile files entry w = (Value files', w') →
  readable files (store w) → readable files' (store w').
Proof.
  unfold storeFile. intros Hrun [Hnd Hread].
  pose proof (keeps_decode store (snd entry) w) as Hkeep.
  destruct (decode (snd entry) w) as [[c|msg] wd] eqn:Hd; simpl in Hkeep.
  2: { rewrite (bind_thrown _ _ _ _ _ Hd) in Hrun. discriminate. }
  rewrite (bind_value _ _ _ _ _ Hd) in Hrun.
  unfold bind, mountedFiles_add, modify, await_writeToOPFS in Hrun.
  cbn [store] in Hrun.
  destruct (writeToOPFS (fst entry) c (store wd)) as [msg|s'] eqn:Hw;
    [discriminate|].
  injection Hrun as <- <-. cbn [with_store store]. rewrite Hkeep in Hw.
  split.
  - rewrite map_set_keys. case_bool_decide as Hin; [done|].
    apply NoDup_app. split_and!; [done | | apply NoDup_singleton].
    intros k Hk ->%list_elem_of_singleton. done.
  - intros k c' Hel.
    destruct (elem_of_map_set _ _ _ _ _ Hnd Hel) as [[-> ->]|[Hne Hin]].
    + by apply (read_write (fst entry) c (store w)).
    + rewrite (read_write_ne (fst entry) c (store w) s' k Hw Hne).
      by apply Hread.
Qed.

Lemma storeFiles_readable (entries : list (string * FileInfo)) :
  ∀ (files : list (string * list byte)) (w : world St)
    (files' : list (string * list byte)) (w' : world St),
    for_of storeFile entries files w = (Value files', w') →
    readable files (store w) → readable files' (store w').
Proof.
  induction entries as [|entry entries IH]; intros files w files' w' Hrun Hr.
  - by injection Hrun as <- <-.
  - cbn [for_of] in Hrun.
    destruct (storeFile files entry w) as [[files1|msg] w1] eqn:Hstep.
    + rewrite (bind_value _ _ _ _ _ Hstep) in Hrun.
      apply (IH files1 w1 files' w' Hrun).
      by apply (storeFile_readable files entry w files1 w1).
    + rewrite (bind_thrown _ _ _ _ _ Hstep) in Hrun. discriminate.
Qed.

Lemma quiet_refl (w : world St) : quiet w w.
Proof. by split_and!. Qed.

Lemma quiet_trans (w1 w2 w3 : world St) : quiet w1 w2 → quiet w2 w3 → quiet w1 w3.
Proof.
  intros (? & ? & ? & ?) (? & ? & ? & ?). split_and!; congruence.
Qed.

(** Files that read back are read in the order they are listed. *)
Lemma readCachedFiles (l : list (string * list byte)) :
  ∀ (acc : list (string * list byte)) (w : world St),
    NoDup (map fst acc ++ map fst l) →
    (∀ k c, (k, c) ∈ l → readFromOPFS k (store w) = inr (Some c)) →
    ∃ w', for_of readCachedFile (map fst l) acc w = (Value (acc ++ l), w')
          ∧ quiet w w'.
Proof.
  induction l as [|[k c] l IH]; intros acc w Hnd Hread.
  - exists w. rewrite app_nil_r. split; [done | apply quiet_refl].
  - cbn [map fst for_of].
    assert (Hstep : ∃ w1, readCachedFile acc k w = (Value (acc ++ [(k, c)]), w1)
                          ∧ quiet w w1).
    { unfold readCachedFile, bind, await_readFromOPFS.
      rewrite (Hread k c) by (by left).
      unfold mountedFiles_add, modify, ret. eexists.
      split; [rewrite map_set_fresh; [reflexivity|] | by split_and!].
      apply NoDup_app in Hnd as (_ & Hdisj & _). intros Hin.
      apply (Hdisj k Hin). by left. }
    destruct Hstep as (w1 & Hstep & Hq1).
    rewrite (bind_value _ _ _ _ _ Hstep).
    destruct (IH (acc ++ [(k, c)]) w1) as (w' & Hrun & Hq).
    + rewrite map_app, <- app_assoc. exact Hnd.
    + intros k' c' Hin. destruct Hq1 as [-> _]. apply Hread. by right.
    + exists w'. rewrite <- app_assoc in Hrun.
      split; [exact Hrun | by apply (quiet_trans w w1 w')].
Qed.

(** What the storage holds is what the cache serves, without a request. *)
Lemma loadPackageFromCache_holds (packageName : string) (p : package)
    (w : world St) :
  holds (store w) packageName p →
  ∃ w', loadPackageFromCache packageName w = (Value (Some (CachedPackage p)), w')
        ∧ quiet w w'.
Proof.
  intros [(meta & Hget & Hv & Hnf & Hfiles & Hdeps) [Hnd Hread]].
  destruct (readCachedFiles (pkg_files p) [] w) as (w' & Hrun & Hq);
    [exact Hnd | exact Hread |].
  exists w'. split; [|exact Hq].
  unfold loadPackageFromCache, try_catch.
  assert (Hmeta : await_getPackageMeta packageName w = (Value (Some meta), w)).
  { unfold await_getPackageMeta. by rewrite Hget. }
  rewrite (bind_value _ _ _ _ _ Hmeta).
  rewrite bool_decide_eq_true_2 by done. cbn [negb]. rewrite Hnf, Hfiles.
  rewrite (bind_value _ _ _ _ _ Hrun). rewrite Hdeps.
  by destruct p.
Qed.

(** A package [fetchFromProxy] returns is in the storage afterwards. *)
Lemma fetchFromProxy_holds (packageName : string) (w w1 : world St)
    (p : package) :
  fetchFromProxy packageName w = (Value (Some p), w1) →
  holds (store w1) packageName p.
Proof.
  unfold fetchFromProxy. intros Hrun.
  destruct (await_fetch (proxyUrl +:+ "/api/fetch/" +:+ packageName) w)
    as [[[status body]|msg] wa] eqn:Hfetch.
  2: { rewrite (bind_thrown _ _ _ _ _ Hfetch) in Hrun. discriminate. }
  rewrite (bind_value _ _ _ _ _ Hfetch) in Hrun. cbn [fst snd] in Hrun.
  destruct (negb (ok status)).
  { destruct (await_savePackageMeta_cases packageName notFoundRecord wa)
      as (w2 & _ & [Hs | [msg Hs]]).
    - rewrite (bind_value _ _ _ _ _ Hs) in Hrun. discriminate.
    - rewrite (bind_thrown _ _ _ _ _ Hs) in Hrun. discriminate. }
  destruct body as [d|]; [|discriminate].
  rewrite (bind_value _ _ wa wa d) in Hrun by done.
  destruct (truthy (default "" (error d))).
  { destruct (await_savePackageMeta_cases packageName notFoundRecord wa)
      as (w2 & _ & [Hs | [msg Hs]]).
    - rewrite (bind_value _ _ _ _ _ Hs) in Hrun. discriminate.
    - rewrite (bind_thrown _ _ _ _ _ Hs) in Hrun. discriminate. }
  destruct (data_files d) as [entries|]; [|discriminate].
  rewrite (bind_value _ _ wa wa entries) in Hrun by done.
  destruct (for_of storeFile entries [] wa) as [[files|msg] wf] eqn:Hfor.
  2: { rewrite (bind_thrown _ _ _ _ _ Hfor) in Hrun. discriminate. }
  rewrite (bind_value _ _ _ _ _ Hfor) in Hrun.
  destruct (storeFiles_readable entries [] wa files wf Hfor) as [Hnd Hread].
  { split; [apply NoDup_nil_2 | by intros k c Hin%not_elem_of_nil]. }
  unfold bind at 1 in Hrun. unfold await_savePackageMeta in Hrun.
  match type of Hrun with
  | context [savePackageMeta packageName ?m (store wf)] => set (meta := m) in *
  end.
  destruct (savePackageMeta packageName meta (store wf)) as [msg|s'] eqn:Hsave;
    [discriminate|].
  unfold bind, fetchCount_incr, modify, ret in Hrun.
  injection Hrun as <- <-. cbn [store with_store pkg_files pkg_dependencies].
  split; [|split].
  - exists meta. split_and!; try reflexivity.
    by apply (get_save packageName meta (store wf)).
  - exact Hnd.
  - intros k c Hin.
    rewrite (read_save packageName meta (store wf) s' k Hsave).
    by apply Hread.
Qed.

Lemma fetchPackage_hit (packageName : string) (p : package) (w w' : world St) :
  loadPackageFromCache packageName w = (Value (Some (CachedPackage p)), w') →
  quiet w w' →
  ∃ w2, fetchPackage packageName w = (Value (Some p), w2) ∧ quiet w w2.
Proof.
  intros Hload Hq. unfold fetchPackage. rewrite (bind_value _ _ _ _ _ Hload).
  unfold bind, onLog, modify, ret. eexists. split; [reflexivity|].
  destruct Hq as (? & ? & ? & ?). by split_and!.
Qed.

(** X11.  A package that [fetchPackage] has returned is served from the
    cache from then on: over a storage that reads back what was written,
    the next [fetchPackage] of the same name returns the same files and
    dependencies, makes no request, saves no record and leaves the storage
    and [fetchCount] as they are. *)
Theorem fetchPackage_then_cached (packageName : string) (w w1 : world St)
    (p : package) :
  fetchPackage packageName w = (Value (Some p), w1) →
  ∃ w2,
    fetchPackage packageName w1 = (Value (Some p), w2)
    ∧ requests w2 = requests w1 ∧ saved w2 = saved w1
    ∧ store w2 = store w1 ∧ fetchCount w2 = fetchCount w1.
Proof.
  intros Hrun.
  assert (Hhit : ∃ w', loadPackageFromCache packageName w1
                       = (Value (Some (CachedPackage p)), w') ∧ quiet w1 w').
  { unfold fetchPackage in Hrun.
    pose proof (quiet_loadPackageFromCache packageName w) as Hq.
    destruct (loadPackageFromCache packageName w) as [[c|msg] w'] eqn:Hload.
    2: { rewrite (bind_thrown _ _ _ _ _ Hload) in Hrun. discriminate. }
    rewrite (bind_value _ _ _ _ _ Hload) in Hrun. cbn [snd] in Hq.
    destruct c as [[|p0]|].
    - unfold bind, onLog, modify, ret in Hrun. discriminate.
    - unfold bind, onLog, modify, ret in Hrun. injection Hrun as -> <-.
      destruct (storeOnly_loadPackageFromCache packageName w
                  {| store := store w'; requests := requests w';
                     saved := saved w'; mountedFiles := mountedFiles w';
                     fetchCount := fetchCount w';
                     log := log w' ++ ["Package " +:+ packageName
                                       +:+ " loaded from cache"] |})
        as [Hfst _]; [by destruct Hq as [-> _]|].
      rewrite Hload in Hfst. cbn [fst] in Hfst.
      match goal with |- ∃ w0, loadPackageFromCache _ ?wl = _ ∧ _ =>
        pose proof (quiet_loadPackageFromCache packageName wl) as Hq2;
        destruct (loadPackageFromCache packageName wl) as [r w2]
      end.
      cbn [fst snd] in *. subst r. by exists w2.
    - unfold fetchUncached in Hrun. unfold bind at 1 in Hrun.
      unfold onLog, modify in Hrun. unfold try_catch in Hrun.
      match type of Hrun with
      | context [fetchFromProxy packageName ?wl] =>
          destruct (fetchFromProxy packageName wl) as [[r|msg] wp] eqn:Hp
      end.
      + injection Hrun as -> <-.
        apply loadPackageFromCache_holds.
        by apply (fetchFromProxy_holds packageName _ wp p Hp).
      + unfold bind, ret in Hrun. discriminate. }
  destruct Hhit as (w' & Hload & Hq).
  destruct (fetchPackage_hit packageName p w1 w' Hload Hq)
    as (w2 & Hfetch & Hs & Hr & Hsv & Hc).
  by exists w2.
Qed.

End Fetcher.

(** *** The fetcher on an in-memory storage *)

Record MemStorage := {
  records : gmap string PackageMeta;
  blobs : gmap string (list byte)
}.

#[export] Instance MemStorage_storage : Storage MemStorage := {|
  getPackageMeta n s := inr (records s !! n);
  savePackageMeta n meta s :=
    inr {| records := <[n := meta]> (records s); blobs := blobs s |};
  readFromOPFS p s := inr (blobs s !! p);
  writeToOPFS p c s :=
    inr {| records := records s; blobs := <[p := c]> (blobs s) |}
|}.

Definition worldWith (recs : gmap string PackageMeta) : world MemStorage := {|
  store := {| records := recs; blobs := ∅ |};
  requests := []; saved := []; mountedFiles := []; fetchCount := 0; log := []
|}.

(** A proxy that is up and answers every request with the given status and
    a body that is not JSON. *)
Definition answering (status : Z) : string → fetchResult :=
  fun _ => Response status None.

Definition noAtob : content → option (list byte) := fun _ => None.

(** C5 (as stated, refuted).  The proxy answers [500 Internal Server Error]:
    the response is neither a 404 nor a JSON body with an [error] field, yet
    [fetchPackage] saves the [notFound] record, which is in the storage
    afterwards, and returns [null]. *)
Lemma fetchPackage_persists_notFound_on_500 :
  let r := fetchPackage 3 "http://localhost:8081" (answering 500) noAtob
             "lingmacros" (worldWith ∅) in
  fst r = Value None
  ∧ requests (snd r) = ["http://localhost:8081/api/fetch/lingmacros"]
  ∧ saved (snd r) = [("lingmacros", notFoundRecord 3)]
  ∧ records (store (snd r)) !! "lingmacros" = Some (notFoundRecord 3)
  ∧ notFound (notFoundRecord 3) = true
  ∧ (500 ≠ 404)%Z.
Proof. cbv zeta. split_and!; try (vm_compute; reflexivity). lia. Qed.

Lemma fetchPackage_negative_record_witness :
  fst (loadPackageFromCache 3 "lingmacros" (worldWith ∅)) = Value None
  ∧ (let r := fetchPackage 3 "http://localhost:8081" (answering 404) noAtob
                "lingmacros" (worldWith ∅) in
     ((fst r = Value None
       ∧ saved (snd r) = saved (worldWith ∅) ++ [("lingmacros", notFoundRecord 3)])
      ↔ ∃ status body,
          answering 404 (fetchUrl "http://localhost:8081" "lingmacros")
          = Response status body
          ∧ negative status body = true)
     ∧ (∀ msg,
          answering 404 (fetchUrl "http://localhost:8081" "lingmacros")
          = TransportError msg →
          fst r = Value None ∧ saved (snd r) = saved (worldWith ∅))).
Proof.
  assert (Hmiss : fst (loadPackageFromCache 3 "lingmacros" (worldWith ∅))
                  = Value None) by reflexivity.
  split; [exact Hmiss|].
  exact (fetchPackage_negative_record 3 "http://localhost:8081" (answering 404)
           noAtob "lingmacros" (worldWith ∅) Hmiss).
Defined.

(** A record left by an earlier negative answer, under the current cache
    version 3 and under the older version 2. *)
Definition currentNegative : PackageMeta := notFoundRecord 3.
Definition staleNegative : PackageMeta := notFoundRecord 2.

Lemma fetchPackage_consults_record_first_witness :
  (∃ w',
     fetchPackage 3 "http://localhost:8081" (answering 200) noAtob "nope"
       (worldWith {[ "nope" := currentNegative ]}) = (Value None, w')
     ∧ requests w' = []
     ∧ saved w' = []
     ∧ store w' = store (worldWith {[ "nope" := currentNegative ]}))
  ∧ (fetchPackage 3 "http://localhost:8081" (answering 200) noAtob "nope"
       (worldWith {[ "nope" := staleNegative ]})
     = fetchUncached 3 "http://localhost:8081" (answering 200) noAtob "nope"
         (worldWith {[ "nope" := staleNegative ]})
     ∧ requests (snd (fetchPackage 3 "http://localhost:8081" (answering 200)
                        noAtob "nope" (worldWith {[ "nope" := staleNegative ]})))
       = [] ++ ["http://localhost:8081/api/fetch/nope"]).
Proof.
  split.
  - destruct (fetchPackage_consults_record_first 3 "http://localhost:8081"
                (answering 200) noAtob "nope"
                (worldWith {[ "nope" := currentNegative ]})) as [Hneg _].
    apply (Hneg currentNegative); reflexivity.
  - destruct (fetchPackage_consults_record_first 3 "http://localhost:8081"
                (answering 200) noAtob "nope"
                (worldWith {[ "nope" := staleNegative ]})) as (_ & Hstale & _).
    apply (Hstale staleNegative); [reflexivity | discriminate].
Defined.

(** *** A fetch followed by a fetch *)

#[export] Instance MemStorage_lawful : LawfulStorage MemStorage.
Proof.
  split.
  - intros n meta s s' [= <-]. simpl. by rewrite lookup_insert_eq.
  - by intros n meta s s' p [= <-].
  - intros p c s s' [= <-]. simpl. by rewrite lookup_insert_eq.
  - intros p c s s' q [= <-] Hne. simpl. by rewrite lookup_insert_ne.
Qed.

(** The proxy answers with a package of two files, one of them in base64,
    and one dependency. *)
Definition fooData : FetchData := {|
  error := None;
  data_files :=
    Some [ ("/texlive/texmf-dist/tex/latex/foo/foo.sty",
            {| info_content := ContentString "\ProvidesPackage{foo}";
               encoding := None |});
           ("/texlive/texmf-dist/fonts/tfm/public/foo/foo.tfm",
            {| info_content := ContentString "AAEC"; encoding := Some "base64" |}) ];
  dependencies := Some ["bar"]
|}.

(** [atob] on the one base64 text of [fooData]. *)
Definition fooAtob (c : content) : option (list byte) :=
  match c with
  | ContentString "AAEC" => Some [x00; x01; x02]
  | _ => None
  end.

Definition fooPackage : package := {|
  pkg_files :=
    [ ("/texlive/texmf-dist/tex/latex/foo/foo.sty",
       list_byte_of_string "\ProvidesPackage{foo}");
      ("/texlive/texmf-dist/fonts/tfm/public/foo/foo.tfm", [x00; x01; x02]) ];
  pkg_dependencies := ["bar"]
|}.

Lemma fetchPackage_then_cached_witness :
  let fetch :=
    fetchPackage 3 "http://localhost:8081" (fun _ => Response 200 (Some fooData))
      fooAtob "foo" in
  let w1 := snd (fetch (worldWith ∅)) in
  fetch (worldWith ∅) = (Value (Some fooPackage), w1)
  ∧ requests w1 = ["http://localhost:8081/api/fetch/foo"]
  ∧ ∃ w2,
      fetch w1 = (Value (Some fooPackage), w2)
      ∧ requests w2 = requests w1 ∧ saved w2 = saved w1
      ∧ store w2 = store w1 ∧ fetchCount w2 = fetchCount w1.
Proof.
  cbv zeta.
  assert (Hrun :
    fetchPackage 3 "http://localhost:8081" (fun _ => Response 200 (Some fooData))
      fooAtob "foo" (worldWith ∅)
    = (Value (Some fooPackage),
       snd (fetchPackage 3 "http://localhost:8081"
              (fun _ => Response 200 (Some fooData)) fooAtob "foo" (worldWith ∅))))
    by (vm_compute; reflexivity).
  split; [exact Hrun|]. split; [vm_compute; reflexivity|].
  exact (fetchPackage_then_cached 3 "http://localhost:8081"
           (fun _ => Response 200 (Some fooData)) fooAtob "foo" (worldWith ∅)
           _ fooPackage Hrun).
Defined.

End CTANFetcher.

(** * Doubles: when an operation does not round

    JavaScript numbers are IEEE-754 binary64; the library specifies their
    operations on [spec_float].  An operation whose exact result is itself
    a double returns that double. *)

Module Double.

Local Open Scope Z_scope.

(** ** Mantissas *)







(** ** Shifting right without losing a bit *)





(** ** Rounding what needs no rounding *)


(** ** Values *)

(** The rational [m * 2 ^ e]. *)
Definition scaled (m e : Z) : Q := inject_Z m * Qpower 2 e.













(** ** The operations on positive doubles *)







(** ** The value of a double *)

Local Open Scope Q_scope.

(** The value of a double; the infinities and NaN have none. *)
Definition SF2Q (x : spec_float) : option Q :=
  match x with
  | S754_zero _ => Some 0
  | S754_finite s m e => Some (scaled (if s then Z.neg m else Z.pos m) e)
  | S754_infinity _ | S754_nan => None
  end.

Definition F2Q (x : float) : option Q := SF2Q (Prim2SF x).

(** [x] is a finite double, and its value is [q]. *)
Definition hasValue (x : float) (q : Q) : Prop :=
  ∃ v, F2Q x = Some v ∧ v == q.




Lemma hasValue_unique (x : float) (q q' : Q) : hasValue x q → hasValue x q' → q == q'.
Proof.
  intros (v & Hv & Hq) (v' & Hv' & Hq'). rewrite Hv in Hv'.
  injection Hv' as <-. by rewrite <- Hq, <- Hq'.
Qed.






(** ** Operations that do not round *)




(** ** Whole numbers *)





End Double.

(** * EngineSelector (the LaTeX engine selector) *)

Module EngineSelector.

(** ** JavaScript strings and the regular expressions of the selector

    The selector looks at characters, so a source is the list of its UTF-16
    code units. *)

Definition jsstring : Type := list N.

(** An ASCII literal as a JavaScript string. *)
Definition js (s : string) : jsstring :=
  map (fun b => N.of_nat (Byte.to_nat b)) (list_byte_of_string s).

(** A line terminator: LF, CR, LS or PS.  The dot of a regular expression
    matches anything else, and [$] with the [m] flag holds before one. *)
Definition isLineTerminator (c : N) : bool :=
  (c =? 10)%N || (c =? 13)%N || (c =? 8232)%N || (c =? 8233)%N.

(** What [\s] matches, and what [trim] removes. *)
Definition isWhiteSpace (c : N) : bool :=
  ((9 <=? c)%N && (c <=? 13)%N)
  || (c =? 32)%N || (c =? 160)%N || (c =? 5760)%N
  || ((8192 <=? c)%N && (c <=? 8202)%N)
  || (c =? 8232)%N || (c =? 8233)%N || (c =? 8239)%N || (c =? 8287)%N
  || (c =? 12288)%N || (c =? 65279)%N.

(** What [\w] matches: [A-Za-z0-9_]. *)
Definition isWordChar (c : N) : bool :=
  ((97 <=? c)%N && (c <=? 122)%N)
  || ((65 <=? c)%N && (c <=? 90)%N)
  || ((48 <=? c)%N && (c <=? 57)%N)
  || (c =? 95)%N.

Definition percent : N := 37.

(** [s.replace(/%.*$/gm, '')], as a scan with one bit of state: [inComment]
    holds from a [%] up to, not including, the next line terminator. *)
Fixpoint strip (inComment : bool) (s : jsstring) : jsstring :=
  match s with
  | [] => []
  | c :: rest =>
      if inComment then
        if isLineTerminator c then c :: strip false rest else strip true rest
      else if (c =? percent)%N then strip true rest
      else c :: strip false rest
  end.

Definition stripComments (s : jsstring) : jsstring := strip false s.

(** The rest of [s] after the literal [lit], when [s] starts with it. *)
Fixpoint stripPrefix (lit s : jsstring) : option jsstring :=
  match lit with
  | [] => Some s
  | l :: lit' =>
      match s with
      | c :: rest => if (l =? c)%N then stripPrefix lit' rest else None
      | [] => None
      end
  end.

(** Is the first character of [s] a word character?  (No character is
    not.) *)
Definition startsWithWord (s : jsstring) : bool :=
  match s with
  | c :: _ => isWordChar c
  | [] => false
  end.

(** The regular expression [lit\b] anchored at the start of [s]: the literal,
    then a word boundary between its last character and what follows. *)
Definition commandAt (lit s : jsstring) : bool :=
  match stripPrefix lit s with
  | Some rest => xorb (isWordChar (List.last lit 0%N)) (startsWithWord rest)
  | None => false
  end.

(** [/lit\b/.test(s)] *)
Fixpoint testCommand (lit s : jsstring) : bool :=
  commandAt lit s
  || match s with
     | [] => false
     | _ :: rest => testCommand lit rest
     end.

(** A character class made of ranges, as the [scripts] of a requirement. *)
Definition inRanges (ranges : list (N * N)) (c : N) : bool :=
  existsb (fun r => (fst r <=? c)%N && (c <=? snd r)%N) ranges.

(** [/[ranges]/.test(s)]; the class without ranges is [(?!)], which never
    matches. *)
Definition testScripts (ranges : list (N * N)) (s : jsstring) : bool :=
  existsb (inRanges ranges) s.

(** ** Extracting packages and the preamble *)

Definition backslash : N := 92.

Fixpoint takeWhile {A : Type} (p : A → bool) (l : list A) : list A :=
  match l with
  | [] => []
  | x :: rest => if p x then x :: takeWhile p rest else []
  end.

Fixpoint dropWhile {A : Type} (p : A → bool) (l : list A) : list A :=
  match l with
  | [] => []
  | x :: rest => if p x then dropWhile p rest else l
  end.

(** [\{([^}]+)\}] anchored at the start of [s]: the capture and what
    follows the closing brace. *)
Definition braceGroup (s : jsstring) : option (jsstring * jsstring) :=
  match s with
  | 123%N :: r =>
      let capture := takeWhile (fun c => negb (c =? 125)%N) r in
      match capture, drop (length capture) r with
      | _ :: _, 125%N :: rest => Some (capture, rest)
      | _, _ => None
      end
  | _ => None
  end.

(** After an opening bracket: the lazy [.*?\]] followed by the brace group.
    The shortest run of characters other than line terminators is taken
    that ends in a bracket after which the brace group matches. *)
Fixpoint afterBracket (s : jsstring) : option (jsstring * jsstring) :=
  match s with
  | [] => None
  | c :: r =>
      match (if (c =? 93)%N then braceGroup r else None) with
      | Some res => Some res
      | None => if isLineTerminator c then None else afterBracket r
      end
  end.

(** [(?:\[.*?\])?\{([^}]+)\}] anchored at the start of [s]. *)
Definition optionsAndBraces (s : jsstring) : option (jsstring * jsstring) :=
  match s with
  | 91%N :: r =>
      match afterBracket r with
      | Some res => Some res
      | None => braceGroup s
      end
  | _ => braceGroup s
  end.

(** A command followed by its optional options and its braces, anchored at
    the start of [s]: the capture and the length of the whole match. *)
Definition commandWithBraces (command s : jsstring) : option (jsstring * nat) :=
  match stripPrefix command s with
  | Some afterCommand =>
      match optionsAndBraces afterCommand with
      | Some (capture, rest) => Some (capture, length s - length rest)
      | None => None
      end
  | None => None
  end.

(** All matches of a global regular expression, left to right: after a match
    the search goes on where the match ended ([skip] counts the characters
    of the last match still to pass). *)
Fixpoint allMatches (command : jsstring) (skip : nat) (s : jsstring)
  : list jsstring :=
  match s with
  | [] => []
  | _ :: rest =>
      match skip with
      | S k => allMatches command k rest
      | O =>
          match commandWithBraces command s with
          | Some (capture, len) => capture :: allMatches command (len - 1) rest
          | None => allMatches command 0 rest
          end
      end
  end.

(** The first match, as [String.prototype.match] without the [g] flag. *)
Fixpoint firstMatch (command s : jsstring) : option jsstring :=
  match commandWithBraces command s with
  | Some (capture, _) => Some capture
  | None =>
      match s with
      | [] => None
      | _ :: rest => firstMatch command rest
      end
  end.

(** [s.split(',')] *)
Fixpoint splitComma (s : jsstring) : list jsstring :=
  match s with
  | [] => [[]]
  | c :: rest =>
      if (c =? 44)%N then [] :: splitComma rest
      else match splitComma rest with
           | [] => [[c]]
           | p :: ps => (c :: p) :: ps
           end
  end.

(** [s.trim()] *)
Definition trim (s : jsstring) : jsstring :=
  let s1 := dropWhile isWhiteSpace s in
  rev (dropWhile isWhiteSpace (rev s1)).

Definition extractPackages (source : jsstring) : list jsstring :=
  let packages :=
    flat_map (fun capture => map trim (splitComma capture))
      (allMatches (backslash :: js "usepackage") 0 source) in
  match firstMatch (backslash :: js "documentclass") source with
  | Some capture => packages ++ [js "class:" ++ capture]
  | None => packages
  end.

(** The text before the first occurrence of [lit]. *)
Fixpoint before (lit s : jsstring) : option jsstring :=
  match stripPrefix lit s with
  | Some _ => Some []
  | None =>
      match s with
      | [] => None
      | c :: rest =>
          match before lit rest with
          | Some p => Some (c :: p)
          | None => None
          end
      end
  end.

Definition extractPreamble (source : jsstring) : jsstring :=
  match before (backslash :: js "begin{document}") source with
  | Some preamble => preamble
  | None => take 2000 source
  end.

(** [s.replace(/\s+/g, ' ')]: each run of white space becomes one space
    ([inRun] holds inside a run). *)
Fixpoint collapse (inRun : bool) (s : jsstring) : jsstring :=
  match s with
  | [] => []
  | c :: rest =>
      if isWhiteSpace c then
        if inRun then collapse true rest else 32%N :: collapse true rest
      else c :: collapse false rest
  end.

Definition collapseWhiteSpace (s : jsstring) : jsstring := collapse false s.

(** ** The preamble hash *)

(** [ToInt32]: a number wrapped into the signed 32-bit range. *)
Definition toInt32 (z : Z) : Z := ((z + 2 ^ 31) mod 2 ^ 32 - 2 ^ 31)%Z.

(** One turn of the djb2 loop:
    [hash = ((hash << 5) + hash) + c; hash = hash & hash]. *)
Definition djb2Step (hash : Z) (c : N) : Z :=
  toInt32 (toInt32 (Z.shiftl hash 5) + hash + Z.of_N c).

Definition djb2 (s : jsstring) : Z := fold_left djb2Step s 5381%Z.

(** The digit of [toString(36)]. *)
Definition digit36 (d : Z) : ascii :=
  if (d <? 10)%Z then ascii_of_N (48 + Z.to_N d)
  else ascii_of_N (97 + Z.to_N (d - 10)).

(** The radix-36 digits of [z], most significant first, below [acc]. *)
Fixpoint toString36_digits (fuel : nat) (z : Z) (acc : string) : string :=
  match fuel with
  | O => acc
  | S fuel' =>
      let acc' := String (digit36 (z mod 36)) acc in
      if (z <? 36)%Z then acc' else toString36_digits fuel' (z / 36) acc'
  end.

(** [n.toString(36)] for an integer [0 <= n <= 2^31] (seven digits at
    most). *)
Definition toString36 (n : Z) : string := toString36_digits 7 n "".

Definition hashPreamble (preamble : jsstring) : string :=
  let normalized := trim (collapseWhiteSpace (stripComments preamble)) in
  "p_" +:+ toString36 (Z.abs (djb2 normalized)).

(** The fingerprint under which [select] and [recordResult] keep what they
    learn about a source. *)
Definition preambleHash (source : jsstring) : string :=
  hashPreamble (extractPreamble source).

(** ** Numbers

    The statistics are JavaScript numbers.  The selector only adds,
    multiplies, divides and compares them, so it is written once over the
    operations it uses; [binary64] below is the arithmetic the code runs
    on, [exact] is arithmetic without rounding. *)

Class JSNumber (num : Type) := {
  zero : num;
  one : num;
  two : num;
  half : num;
  add : num → num → num;
  mul : num → num → num;
  div : num → num → num;
  (** [a < b] *)
  ltb : num → num → bool;
  (** [a <= b] *)
  leb : num → num → bool
}.

#[export] Instance binary64 : JSNumber float := {|
  zero := 0%float;
  one := 1%float;
  two := 2%float;
  half := 0.5%float;
  add := PrimFloat.add;
  mul := PrimFloat.mul;
  div := PrimFloat.div;
  ltb := PrimFloat.ltb;
  leb := PrimFloat.leb
|}.

#[export] Instance exact : JSNumber Q := {|
  zero := 0%Q;
  one := 1%Q;
  two := 2%Q;
  half := (1 # 2)%Q;
  add := Qplus;
  mul := Qmult;
  div := Qdiv;
  ltb := fun a b => negb (Qle_bool b a);
  leb := Qle_bool
|}.

(** ** The data of the selector *)

Inductive Engine := pdflatex | xelatex | lualatex.

#[export] Instance Engine_eq_dec : EqDecision Engine.
Proof. solve_decision. Defined.

Inductive Confidence := high | medium | low.

Record CompileResult (num : Type) := {
  result_engine : Engine;
  success : bool;
  timeMs : num;
  retries : nat;
  fetchedPackages : list jsstring;
  triggeredCmSuper : bool
}.
Arguments result_engine {num} _.
Arguments success {num} _.
Arguments timeMs {num} _.
Arguments retries {num} _.
Arguments fetchedPackages {num} _.
Arguments triggeredCmSuper {num} _.

Record EngineStats (num : Type) := {
  engine : Engine;
  compileCount : num;
  avgTimeMs : num;
  successRate : num;
  lastUsed : num
}.
Arguments engine {num} _.
Arguments compileCount {num} _.
Arguments avgTimeMs {num} _.
Arguments successRate {num} _.
Arguments lastUsed {num} _.

(** What the [reason] of a selection is made from; the text is put
    together from these parts. *)
Inductive Reason (num : Type) :=
| PackageRequires (pkg : jsstring) (e : Engine)
| CommandRequires (command : jsstring) (e : Engine)
| Description (text : string)
| HistoricalBest (avg : num)
| Avoiding (failed : list Engine)
| TriggersCmSuper
| PackagePrefers (pkg : jsstring) (text : string)
| DefaultEngine.
Arguments PackageRequires {num} _ _.
Arguments CommandRequires {num} _ _.
Arguments Description {num} _.
Arguments HistoricalBest {num} _.
Arguments Avoiding {num} _.
Arguments TriggersCmSuper {num}.
Arguments PackagePrefers {num} _ _.
Arguments DefaultEngine {num}.

Record SelectionResult (num : Type) := {
  selected : Engine;
  reason : Reason num;
  confidence : Confidence
}.
Arguments selected {num} _.
Arguments reason {num} _.
Arguments confidence {num} _.

(** An [EngineRequirement].  Each command stands for the regular expression
    made of that text followed by [\b]; [scripts] is a character class. *)
Record EngineRequirement := {
  req_packages : list jsstring;
  commands : list jsstring;
  scripts : list (N * N);
  description : string
}.

Record EnginePreference := {
  pref_packages : list jsstring;
  pref_description : string
}.

(** [getDefaultRequirements()], in the order of the [Map]. *)
Definition getDefaultRequirements : list (Engine * EngineRequirement) :=
  [ (xelatex,
     {| req_packages :=
          map js ["fontspec"; "unicode-math"; "polyglossia"; "xeCJK";
                  "xunicode"; "xltxtra"; "mathspec"; "realscripts";
                  "metalogo"; "xetex"];
        commands :=
          map (fun n => backslash :: js n)
            ["setmainfont"; "setsansfont"; "setmonofont"; "newfontfamily";
             "setmathfont"; "defaultfontfeatures"];
        scripts :=
          [(1536, 1791); (2304, 2431); (3584, 3711); (12288, 40959);
           (44032, 55215)]%N;
        description := "XeLaTeX required for Unicode/OpenType features" |});
    (lualatex,
     {| req_packages :=
          map js ["luacode"; "luatexbase"; "luaotfload"; "luamplib"; "luatextra"];
        commands :=
          map (fun n => backslash :: js n) ["directlua"; "luaexec"; "luadirect"];
        scripts := [];
        description := "LuaLaTeX required for Lua scripting" |}) ].

(** [getDefaultPreferences()] *)
Definition getDefaultPreferences : list (Engine * EnginePreference) :=
  [ (xelatex,
     {| pref_packages :=
          map js ["geometry"; "fancyhdr"; "titlesec"; "enumitem";
                  "babel"; "inputenc"; "fontenc"];
        pref_description := "XeLaTeX preferred for cleaner font handling" |}) ].

(** What the storage adapter holds under a key: the JSON text of a
    statistics array, identified with the array it parses to, or any other
    text (the flag ['true'], or text that parses to no statistics array). *)
Inductive stored (num : Type) :=
| StoredStats (stats : list (EngineStats num))
| StoredText (text : string).
Arguments StoredStats {num} _.
Arguments StoredText {num} _.

(** The selector: its two tables and its storage adapter, a key-value
    store. *)
Record selector (num : Type) := {
  requirements : list (Engine * EngineRequirement);
  preferences : list (Engine * EnginePreference);
  storage : gmap string (stored num)
}.
Arguments requirements {num} _.
Arguments preferences {num} _.
Arguments storage {num} _.

(** [new Set(engines)], in insertion order. *)
Definition engineSet (engines : list Engine) : list Engine :=
  fold_left (fun acc e => if bool_decide (e ∈ acc) then acc else acc ++ [e])
    engines [].

(** The first result a loop with a [return] in its body comes to. *)
Fixpoint firstSome {A B : Type} (f : A → option B) (l : list A) : option B :=
  match l with
  | [] => None
  | a :: rest =>
      match f a with
      | Some b => Some b
      | None => firstSome f rest
      end
  end.

Section Selector.
Context {num : Type} `{JSNumber num}.

(** The body of the loop of [checkRequirements] for one entry of
    [this.requirements]. *)
Definition checkRequirement (withoutComments : jsstring)
    (packages : list jsstring) (entry : Engine * EngineRequirement)
  : option (SelectionResult num) :=
  let engine := fst entry in
  let req := snd entry in
  match List.find (fun pkg => bool_decide (pkg ∈ req_packages req)) packages with
  | Some pkg =>
      Some {| selected := engine; reason := PackageRequires pkg engine;
              confidence := high |}
  | None =>
      match List.find (fun cmd => testCommand cmd withoutComments) (commands req) with
      | Some cmd =>
          Some {| selected := engine; reason := CommandRequires cmd engine;
                  confidence := high |}
      | None =>
          if testScripts (scripts req) withoutComments then
            Some {| selected := engine; reason := Description (description req);
                    confidence := high |}
          else None
      end
  end.

Definition checkRequirements (this : selector num) (source : jsstring)
    (packages : list jsstring) : option (SelectionResult num) :=
  let withoutComments := stripComments source in
  firstSome (checkRequirement withoutComments packages) (requirements this).

Definition checkPreferences (this : selector num) (packages : list jsstring)
  : option (SelectionResult num) :=
  firstSome
    (fun entry : Engine * EnginePreference =>
       match List.find (fun pkg => bool_decide (pkg ∈ pref_packages (snd entry)))
               packages with
       | Some pkg =>
           Some {| selected := fst entry;
                   reason := PackagePrefers pkg (pref_description (snd entry));
                   confidence := medium |}
       | None => None
       end)
    (preferences this).

(** [getStats(preambleHash)]; [None] is [null].  Text that [JSON.parse]
    rejects gives [null]; text that parses to a value other than a
    statistics array is not covered (the callers would throw on it), and
    the theorems on recorded statistics assume there is none under the
    key. *)
Definition getStats (this : selector num) (hash : string)
  : option (list (EngineStats num)) :=
  match storage this !! ("stats_" +:+ hash) with
  | Some (StoredStats stats) => Some stats
  | _ => None
  end.

(** [saveStats(preambleHash, stats)].  The array goes through
    [JSON.stringify] and comes back through [JSON.parse]: every finite
    double comes back as it was (a zero without its sign).  An infinity or
    a NaN would come back as [null]; the model keeps it as it is. *)
Definition saveStats (this : selector num) (hash : string)
    (stats : list (EngineStats num)) : selector num :=
  {| requirements := requirements this;
     preferences := preferences this;
     storage := <["stats_" +:+ hash := StoredStats stats]> (storage this) |}.

(** [s.successRate > 0.5 && s.compileCount >= 2] *)
Definition isSuccessful (s : EngineStats num) : bool :=
  ltb half (successRate s) && leb two (compileCount s).

(** [(a, b) => a.avgTimeMs < b.avgTimeMs ? a : b] *)
Definition faster (a b : EngineStats num) : EngineStats num :=
  if ltb (avgTimeMs a) (avgTimeMs b) then a else b.

(** Step 2 of [select] inside [if (stats && stats.length > 0)]: what the
    statistics of the preamble decide, if anything. *)
Definition fromStats (stats : list (EngineStats num))
  : option (SelectionResult num) :=
  match List.filter isSuccessful stats with
  | first :: others =>
      let fastest := fold_left faster others first in
      Some {| selected := engine fastest;
              reason := HistoricalBest (avgTimeMs fastest);
              confidence := high |}
  | [] =>
      match List.filter (fun s => ltb (successRate s) half) stats with
      | (_ :: _) as failed =>
          let failedEngines := engineSet (map engine failed) in
          let viable :=
            List.filter (fun e => negb (bool_decide (e ∈ failedEngines)))
              [pdflatex; xelatex; lualatex] in
          match viable with
          | e :: _ =>
              Some {| selected := e; reason := Avoiding failedEngines;
                      confidence := medium |}
          | [] => None
          end
      | [] => None
      end
  end.

Definition fromHistory (stats : option (list (EngineStats num)))
  : option (SelectionResult num) :=
  match stats with
  | Some ((_ :: _) as stats) => fromStats stats
  | _ => None
  end.

Definition select (this : selector num) (source : jsstring)
  : SelectionResult num :=
  let packages := extractPackages source in
  let hash := preambleHash source in
  match checkRequirements this source packages with
  | Some required => required
  | None =>
      match fromHistory (getStats this hash) with
      | Some r => r
      | None =>
          match storage this !! ("cmsuper_" +:+ hash) with
          | Some (StoredText "true") =>
              {| selected := xelatex; reason := TriggersCmSuper;
                 confidence := high |}
          | _ =>
              match checkPreferences this packages with
              | Some preferred => preferred
              | None =>
                  {| selected := pdflatex; reason := DefaultEngine;
                     confidence := low |}
              end
          end
      end
  end.

(** The update of the running averages of one entry. *)
Definition updateStats (result : CompileResult num) (now : num)
    (engineStats : EngineStats num) : EngineStats num :=
  let n := compileCount engineStats in
  {| engine := engine engineStats;
     compileCount := add n one;
     avgTimeMs :=
       div (add (mul (avgTimeMs engineStats) n) (timeMs result)) (add n one);
     successRate :=
       div (add (mul (successRate engineStats) n)
              (if success result then one else zero))
         (add n one);
     lastUsed := now |}.

(** [stats.find(s => s.engine === e)] followed by the update of the entry
    found, in place; [None] when there is no such entry. *)
Fixpoint updateFound (e : Engine) (f : EngineStats num → EngineStats num)
    (stats : list (EngineStats num)) : option (list (EngineStats num)) :=
  match stats with
  | [] => None
  | s :: rest =>
      if bool_decide (engine s = e) then Some (f s :: rest)
      else option_map (cons s) (updateFound e f rest)
  end.

(** The new statistics array of [recordResult]. *)
Definition recordStats (result : CompileResult num) (now : num)
    (stats : list (EngineStats num)) : list (EngineStats num) :=
  match updateFound (result_engine result) (updateStats result now) stats with
  | Some stats' => stats'
  | None =>
      stats ++ [updateStats result now
                  {| engine := result_engine result; compileCount := zero;
                     avgTimeMs := zero; successRate := zero; lastUsed := now |}]
  end.

(** [recordResult(source, result)]; [now] is what [Date.now()] returns. *)
Definition recordResult (this : selector num) (source : jsstring)
    (result : CompileResult num) (now : num) : selector num :=
  let hash := preambleHash source in
  let stats := default [] (getStats this hash) in
  let this' := saveStats this hash (recordStats result now stats) in
  if triggeredCmSuper result && bool_decide (result_engine result = pdflatex)
  then
    {| requirements := requirements this';
       preferences := preferences this';
       storage := <["cmsuper_" +:+ hash := StoredText "true"]> (storage this') |}
  else this'.

End Selector.

(** *** The helpers on concrete sources *)

Definition lf : jsstring := [10%N].

Example stripComments_example :
  stripComments (js "a % \setmainfont{X}" ++ lf ++ js "b\%c" ++ lf ++ js "d")
  = js "a " ++ lf ++ js "b\" ++ lf ++ js "d".
Proof. reflexivity. Qed.

Example extractPackages_example :
  extractPackages
    (js "\documentclass[a4paper]{article}" ++ lf
     ++ js "\usepackage[utf8]{inputenc}" ++ lf
     ++ js "\usepackage{amsmath, amssymb}" ++ lf
     ++ js "% \usepackage{fontspec}")
  = [js "inputenc"; js "amsmath"; js "amssymb"; js "fontspec";
     js "class:article"].
Proof. vm_compute. reflexivity. Qed.

Example hashPreamble_example :
  preambleHash
    (js "\documentclass{article} % the class" ++ lf
     ++ js "\usepackage{amsmath}" ++ lf ++ lf
     ++ js "\begin{document}Hi\end{document}")
  = "p_4ob8ra"
  ∧ hashPreamble [] = "p_45h".
Proof. split; vm_compute; reflexivity. Qed.

Example testCommand_example :
  testCommand (backslash :: js "setmainfont") (js "x \setmainfont{Arial}") = true
  ∧ testCommand (backslash :: js "setmainfont") (js "x \setmainfonts{Arial}") = false
  ∧ testCommand (backslash :: js "directlua") (js "\directlua") = true.
Proof. repeat split. Qed.

(** ** Comments and the hard requirements *)

(** Is position [i] of [s] inside a line comment: at a [%], or after one
    with no line terminator in between?  [inComment] tells whether the scan
    starts inside a comment. *)
Fixpoint commentFrom (inComment : bool) (s : jsstring) (i : nat) : bool :=
  match s with
  | [] => false
  | c :: rest =>
      let here :=
        if inComment then negb (isLineTerminator c) else (c =? percent)%N in
      match i with
      | O => here
      | S i' => commentFrom here rest i'
      end
  end.

Definition inLineComment (s : jsstring) (i : nat) : bool := commentFrom false s i.

(** The text of a command regular expression: not empty, and without line
    terminators. *)
Definition plainCommand (cmd : jsstring) : Prop :=
  cmd ≠ [] ∧ Forall (fun c => isLineTerminator c = false) cmd.

Lemma lineTerminator_not_word (c : N) :
  isLineTerminator c = true → isWordChar c = false.
Proof.
  unfold isLineTerminator, isWordChar. intros Hc.
  repeat (apply orb_prop in Hc; destruct Hc as [Hc|Hc]);
    apply N.eqb_eq in Hc; subst c; reflexivity.
Qed.

(** Inside a comment, what [strip] keeps starts with a line terminator. *)
Lemma strip_true_head (s : jsstring) :
  match strip true s with
  | [] => True
  | c :: _ => isLineTerminator c = true
  end.
Proof.
  induction s as [|c s IH]; simpl; [done|].
  destruct (isLineTerminator c) eqn:Hc; [done | exact IH].
Qed.

Lemma startsWithWord_strip (s : jsstring) :
  startsWithWord (strip false s) = startsWithWord s.
Proof.
  destruct s as [|c s]; simpl; [done|].
  destruct (N.eqb_spec c percent) as [-> | Hc]; [|done].
  pose proof (strip_true_head s) as Hh.
  destruct (strip true s) as [|d t]; simpl; [done|].
  by rewrite (lineTerminator_not_word d Hh).
Qed.

(** A plain text found at the start of the stripped source stands at the
    start of the source itself, and the source does not start with a
    comment. *)
Lemma stripPrefix_strip (lit : jsstring) :
  lit ≠ [] → Forall (fun c => isLineTerminator c = false) lit →
  ∀ (s rest' : jsstring),
    stripPrefix lit (strip false s) = Some rest' →
    ∃ rest, stripPrefix lit s = Some rest
            ∧ rest' = strip false rest
            ∧ commentFrom false s 0 = false.
Proof.
  induction lit as [|l lit IH]; [done|]. intros _ Hplain s rest' Hm.
  apply Forall_cons in Hplain as [Hl Hplain].
  destruct s as [|c s]; [done|]. simpl in Hm |- *.
  destruct (N.eqb_spec c percent) as [-> | Hc].
  - exfalso. pose proof (strip_true_head s) as Hh.
    destruct (strip true s) as [|d t]; [done|].
    destruct (N.eqb_spec l d) as [-> | Hne]; [congruence | done].
  - destruct (N.eqb_spec l c) as [-> | Hne]; [|done].
    destruct lit as [|l2 lit].
    + simpl in Hm |- *. injection Hm as <-. by exists s.
    + destruct (IH ltac:(done) Hplain s rest' Hm) as (rest & Hrest & -> & _).
      by exists rest.
Qed.

Lemma commandAt_strip (cmd s : jsstring) :
  plainCommand cmd →
  commandAt cmd (strip false s) = true →
  commandAt cmd s = true ∧ commentFrom false s 0 = false.
Proof.
  intros [Hne Hplain]. unfold commandAt.
  destruct (stripPrefix cmd (strip false s)) as [rest'|] eqn:Hm; [|done].
  destruct (stripPrefix_strip cmd Hne Hplain s rest' Hm) as (rest & -> & -> & Hk).
  by rewrite startsWithWord_strip.
Qed.

Lemma commandAt_lineTerminator (cmd : jsstring) (c : N) (s : jsstring) :
  plainCommand cmd → isLineTerminator c = true → commandAt cmd (c :: s) = false.
Proof.
  intros [Hne Hplain] Hc. unfold commandAt.
  destruct cmd as [|l cmd]; [done|]. simpl.
  apply Forall_cons in Hplain as [Hl _].
  destruct (N.eqb_spec l c) as [-> | ?]; [congruence | done].
Qed.

Lemma commandAt_nil (cmd : jsstring) : cmd ≠ [] → commandAt cmd [] = false.
Proof. by destruct cmd. Qed.

(** A command found in the stripped source is found in the source at a
    position that is not inside a comment. *)
Lemma testCommand_strip (cmd : jsstring) :
  plainCommand cmd →
  ∀ (s : jsstring) (inComment : bool),
    testCommand cmd (strip inComment s) = true →
    ∃ i, commandAt cmd (drop i s) = true ∧ commentFrom inComment s i = false.
Proof.
  intros Hcmd. induction s as [|c s IH]; intros inComment Ht.
  - simpl in Ht. rewrite (commandAt_nil cmd (proj1 Hcmd)) in Ht. done.
  - simpl in Ht. destruct inComment.
    + destruct (isLineTerminator c) eqn:Hc.
      * simpl in Ht. rewrite (commandAt_lineTerminator cmd c _ Hcmd Hc) in Ht.
        destruct (IH false Ht) as (i & Hi & Hk).
        exists (S i). simpl. by rewrite Hc.
      * destruct (IH true Ht) as (i & Hi & Hk).
        exists (S i). simpl. by rewrite Hc.
    + destruct (N.eqb_spec c percent) as [-> | Hc].
      * destruct (IH true Ht) as (i & Hi & Hk). exists (S i). by simpl.
      * simpl in Ht. apply orb_prop in Ht as [Ht|Ht].
        -- assert (Hs : commandAt cmd (strip false (c :: s)) = true).
           { simpl. by rewrite (proj2 (N.eqb_neq c percent) Hc). }
           apply (commandAt_strip cmd (c :: s) Hcmd) in Hs as [Hs Hk].
           by exists 0.
        -- destruct (IH false Ht) as (i & Hi & Hk).
           exists (S i). simpl. by rewrite (proj2 (N.eqb_neq c percent) Hc).
Qed.

(** A character of the stripped source is a character of the source that is
    not inside a comment. *)
Lemma testScripts_strip (ranges : list (N * N)) :
  ∀ (s : jsstring) (inComment : bool),
    testScripts ranges (strip inComment s) = true →
    ∃ i c, s !! i = Some c ∧ inRanges ranges c = true
           ∧ commentFrom inComment s i = false.
Proof.
  unfold testScripts. induction s as [|c s IH]; intros inComment Ht; [done|].
  simpl in Ht. destruct inComment.
  - destruct (isLineTerminator c) eqn:Hc.
    + simpl in Ht. apply orb_prop in Ht as [Ht|Ht].
      * exists 0, c. simpl. by rewrite Hc.
      * destruct (IH false Ht) as (i & d & Hi & Hd & Hk).
        exists (S i), d. simpl. by rewrite Hc.
    + destruct (IH true Ht) as (i & d & Hi & Hd & Hk).
      exists (S i), d. simpl. by rewrite Hc.
  - destruct (N.eqb_spec c percent) as [-> | Hc].
    + destruct (IH true Ht) as (i & d & Hi & Hd & Hk). exists (S i), d. by simpl.
    + simpl in Ht. apply orb_prop in Ht as [Ht|Ht].
      * exists 0, c. simpl. by rewrite (proj2 (N.eqb_neq c percent) Hc).
      * destruct (IH false Ht) as (i & d & Hi & Hd & Hk).
        exists (S i), d. simpl. by rewrite (proj2 (N.eqb_neq c percent) Hc).
Qed.

(** [commentFrom] in terms of positions: [i] is inside a comment when the
    scan started in one and no line terminator came up to [i], or when there
    is a [%] at some [j <= i] with no line terminator after it up to [i]. *)
Lemma commentFrom_spec (s : jsstring) :
  ∀ (inComment : bool) (i : nat),
    commentFrom inComment s i = true
    ↔ i < length s
      ∧ ((inComment = true
          ∧ ∀ k c, k ≤ i → s !! k = Some c → isLineTerminator c = false)
         ∨ ∃ j, j ≤ i ∧ s !! j = Some percent
                ∧ ∀ k c, j < k ≤ i → s !! k = Some c → isLineTerminator c = false).
Proof.
  induction s as [|c s IH]; intros inComment i.
  { simpl. split; [done | intros [Hi _]; lia]. }
  destruct i as [|i]; simpl.
  - split.
    + intros Hhere. split; [lia|]. destruct inComment.
      * left. split; [done|]. intros k d Hk Hd.
        assert (k = 0) as -> by lia. simpl in Hd. injection Hd as <-.
        by apply negb_true_iff.
      * right. exists 0. split; [lia|]. apply N.eqb_eq in Hhere as ->.
        split; [done|]. intros k d Hk. lia.
    + intros [_ [[-> Hno] | (j & Hj & Hp & _)]].
      * apply negb_true_iff. by apply (Hno 0 c).
      * assert (j = 0) as -> by lia. simpl in Hp. injection Hp as ->.
        by destruct inComment.
  - rewrite IH. split.
    + intros [Hi [[Hhere Hno] | (j & Hj & Hp & Hno)]]; (split; [lia|]).
      * destruct inComment.
        -- left. split; [done|]. intros k d Hk Hd. destruct k as [|k].
           ++ simpl in Hd. injection Hd as <-. by apply negb_true_iff.
           ++ simpl in Hd. apply (Hno k d); [lia | done].
        -- right. exists 0. apply N.eqb_eq in Hhere as ->.
           split; [lia|]. split; [done|]. intros k d Hk Hd.
           destruct k as [|k]; [lia|]. simpl in Hd. apply (Hno k d); [lia | done].
      * right. exists (S j). split; [lia|]. split; [done|].
        intros k d Hk Hd. destruct k as [|k]; [lia|].
        simpl in Hd. apply (Hno k d); [lia | done].
    + intros [Hi [[-> Hno] | (j & Hj & Hp & Hno)]]; (split; [lia|]).
      * left. split.
        -- apply negb_true_iff. by apply (Hno 0 c); [lia|].
        -- intros k d Hk Hd. apply (Hno (S k) d); [lia | done].
      * destruct j as [|j].
        -- left. simpl in Hp. injection Hp as ->. split.
           ++ by destruct inComment.
           ++ intros k d Hk Hd. apply (Hno (S k) d); [lia | done].
        -- right. exists j. split; [lia|]. split; [done|].
           intros k d Hk Hd. apply (Hno (S k) d); [lia | done].
Qed.

Lemma inLineComment_spec (s : jsstring) (i : nat) :
  inLineComment s i = true
  ↔ i < length s
    ∧ ∃ j, j ≤ i ∧ s !! j = Some percent
           ∧ ∀ k c, j < k ≤ i → s !! k = Some c → isLineTerminator c = false.
Proof.
  unfold inLineComment. rewrite commentFrom_spec. split.
  - intros [Hi [[? _] | Hj]]; [done | by split].
  - intros [Hi Hj]. split; [done | by right].
Qed.

Lemma firstSome_Some {A B : Type} (f : A → option B) (l : list A) (b : B) :
  firstSome f l = Some b → ∃ a, a ∈ l ∧ f a = Some b.
Proof.
  induction l as [|a l IH]; simpl; [done|].
  destruct (f a) as [b'|] eqn:Ha.
  - intros [= ->]. exists a. split; [left | done].
  - intros Hl. destruct (IH Hl) as (a' & Hin & Ha'). exists a'.
    split; [by right | done].
Qed.

(** C10.  [checkRequirements] tests the command and the script regular
    expressions against the source without its line comments.  So, for an
    engine whose requirement (an entry of [this.requirements] with plain
    command texts, as all the default ones are) has none of its packages
    among [packages], whose commands occur in the source only at positions
    inside line comments, and whose script characters stand in the source
    only inside line comments: whatever [checkRequirements] returns, it does
    not select that engine. *)
Theorem checkRequirements_ignores_comments {num : Type}
    (this : selector num) (source : jsstring) (packages : list jsstring)
    (e : Engine) :
  (∀ req, (e, req) ∈ requirements this →
     Forall plainCommand (commands req)
     ∧ (∀ pkg, pkg ∈ packages → pkg ∉ req_packages req)
     ∧ (∀ cmd i, cmd ∈ commands req →
          commandAt cmd (drop i source) = true → inLineComment source i = true)
     ∧ (∀ i c, source !! i = Some c →
          inRanges (scripts req) c = true → inLineComment source i = true)) →
  ∀ r, checkRequirements this source packages = Some r → selected r ≠ e.
Proof.
  intros Hreq r Hr. unfold checkRequirements in Hr.
  apply firstSome_Some in Hr as ([e' req] & Hin & Hcheck).
  unfold checkRequirement in Hcheck. simpl in Hcheck.
  intros <-.
  assert (He : selected r = e').
  { destruct (List.find _ packages); [by injection Hcheck as <-|].
    destruct (List.find _ (commands req)); [by injection Hcheck as <-|].
    destruct (testScripts _ _); [by injection Hcheck as <-|done]. }
  rewrite <- He in Hin.
  destruct (Hreq req Hin) as (Hplain & Hpkgs & Hcmds & Hscripts).
  destruct (List.find _ packages) as [pkg|] eqn:Hpkg.
  { apply find_some in Hpkg as [Hpkg Hmem].
    apply bool_decide_eq_true in Hmem.
    apply (Hpkgs pkg); [by apply list_elem_of_In | done]. }
  destruct (List.find _ (commands req)) as [cmd|] eqn:Hcmd.
  { apply find_some in Hcmd as [Hcmd Htest].
    apply list_elem_of_In in Hcmd.
    rewrite Forall_forall in Hplain.
    destruct (testCommand_strip cmd (Hplain cmd Hcmd) source false Htest)
      as (i & Hi & Hk).
    pose proof (Hcmds cmd i Hcmd Hi) as Hc. unfold inLineComment in Hc.
    congruence. }
  destruct (testScripts (scripts req) (stripComments source)) eqn:Hs; [|done].
  destruct (testScripts_strip (scripts req) source false Hs)
    as (i & c & Hi & Hc & Hk).
  pose proof (Hscripts i c Hi Hc) as Hc'. unfold inLineComment in Hc'.
  congruence.
Qed.

(** *** Checking a concrete source *)

(** Does every occurrence of [cmd] in [s] start inside a comment? *)
Definition commandOnlyInComments (cmd s : jsstring) : bool :=
  forallb (fun i => implb (commandAt cmd (drop i s)) (inLineComment s i))
    (seq 0 (length s)).

(** Does every character of [s] that is in [ranges] stand inside a
    comment? *)
Definition scriptsOnlyInComments (ranges : list (N * N)) (s : jsstring) : bool :=
  forallb
    (fun i =>
       match s !! i with
       | Some c => implb (inRanges ranges c) (inLineComment s i)
       | None => true
       end)
    (seq 0 (length s)).

Lemma commandOnlyInComments_sound (cmd s : jsstring) :
  cmd ≠ [] → commandOnlyInComments cmd s = true →
  ∀ i, commandAt cmd (drop i s) = true → inLineComment s i = true.
Proof.
  intros Hne Hall i Hi. unfold commandOnlyInComments in Hall.
  rewrite forallb_forall in Hall.
  destruct (decide (i < length s)) as [Hlt|Hge].
  - specialize (Hall i). rewrite Hi in Hall. apply Hall.
    apply in_seq. lia.
  - rewrite drop_ge in Hi by lia. by rewrite commandAt_nil in Hi.
Qed.

Lemma scriptsOnlyInComments_sound (ranges : list (N * N)) (s : jsstring) :
  scriptsOnlyInComments ranges s = true →
  ∀ i c, s !! i = Some c → inRanges ranges c = true → inLineComment s i = true.
Proof.
  intros Hall i c Hi Hc. unfold scriptsOnlyInComments in Hall.
  rewrite forallb_forall in Hall. specialize (Hall i).
  rewrite Hi, Hc in Hall. apply Hall. apply in_seq.
  apply lookup_lt_Some in Hi. lia.
Qed.

(** The commands of the default requirements are plain. *)
Lemma getDefaultRequirements_plain :
  Forall (fun entry => Forall plainCommand (commands (snd entry)))
    getDefaultRequirements.
Proof.
  repeat constructor; try discriminate; reflexivity.
Qed.

(** A new selector: the default tables, nothing learned. *)
Definition newSelector (num : Type) : selector num := {|
  requirements := getDefaultRequirements;
  preferences := getDefaultPreferences;
  storage := ∅
|}.

(** A source whose only font command and whose only Arabic letter are in
    line comments. *)
Definition commentedSource : jsstring :=
  js "\documentclass{article}" ++ lf
  ++ js "% \setmainfont{Amiri} " ++ [1587%N] ++ lf
  ++ js "\begin{document}100\% plain\end{document}".

Lemma checkRequirements_ignores_comments_witness :
  testCommand (backslash :: js "setmainfont") commentedSource = true
  ∧ testScripts [(1536, 1791)%N] commentedSource = true
  ∧ ∀ r : SelectionResult Q,
      checkRequirements (newSelector Q) commentedSource
        (extractPackages commentedSource) = Some r →
      selected r ≠ xelatex.
Proof.
  split; [by vm_compute|]. split; [by vm_compute|].
  apply (checkRequirements_ignores_comments (newSelector Q) commentedSource
           (extractPackages commentedSource) xelatex).
  intros req Hin. simpl in Hin.
  apply elem_of_cons in Hin as [Hin | Hin].
  2: { apply elem_of_cons in Hin as [Hin | Hin]; [discriminate Hin|].
       by apply elem_of_nil in Hin. }
  injection Hin as ->. split; [|split; [|split]].
  - by pose proof getDefaultRequirements_plain as [Hx _]%Forall_cons.
  - intros pkg Hpkg Hmem.
    assert (Hcheck : forallb
              (fun p => negb (bool_decide
                 (p ∈ req_packages (snd (xelatex,
                        default {| req_packages := []; commands := [];
                                   scripts := []; description := "" |}
                          (snd <$> head getDefaultRequirements))))))
              (extractPackages commentedSource) = true) by (by vm_compute).
    rewrite forallb_forall in Hcheck.
    apply list_elem_of_In in Hpkg. specialize (Hcheck pkg Hpkg).
    apply negb_true_iff, bool_decide_eq_false in Hcheck. by apply Hcheck.
  - intros cmd i Hcmd. simpl in Hcmd.
    apply commandOnlyInComments_sound.
    + repeat (apply elem_of_cons in Hcmd as [-> | Hcmd]; [discriminate|]).
      by apply elem_of_nil in Hcmd.
    + repeat (apply elem_of_cons in Hcmd as [-> | Hcmd]; [by vm_compute|]).
      by apply elem_of_nil in Hcmd.
  - apply scriptsOnlyInComments_sound. by vm_compute.
Defined.

(** ** Learning from the history *)

(** The order the selector relies on: [<] is asymmetric and its negation is
    transitive.  It holds of numbers other than [NaN], which is all that
    [JSON.parse] produces. *)
Class JSNumberOrder (num : Type) `{JSNumber num} := {
  ltb_asym : ∀ a b : num, ltb a b = true → ltb b a = false;
  ltb_negtrans : ∀ a b c : num, ltb a b = false → ltb b c = false → ltb a c = false
}.

#[export] Instance exact_order : JSNumberOrder Q.
Proof.
  split; simpl.
  - intros a b Hab. apply negb_true_iff in Hab. apply negb_false_iff.
    apply Qle_bool_iff. destruct (Qlt_le_dec b a) as [Hlt|Hle].
    + apply Qlt_le_weak in Hlt. apply Qle_bool_iff in Hlt. congruence.
    + done.
  - intros a b c Hab Hbc. apply negb_false_iff in Hab, Hbc.
    apply negb_false_iff. apply Qle_bool_iff in Hab, Hbc. apply Qle_bool_iff.
    by apply (Qle_trans _ b).
Qed.

Section History.
Context {num : Type} `{JSNumberOrder num}.

Lemma ltb_irrefl (a : num) : ltb a a = false.
Proof.
  destruct (ltb a a) eqn:Ha; [|done].
  pose proof (ltb_asym a a Ha). congruence.
Qed.

(** [reduce(faster)] returns an entry of the array that no entry beats. *)
Lemma reduce_faster_min (others : list (EngineStats num)) :
  ∀ first : EngineStats num,
    let fastest := fold_left faster others first in
    fastest ∈ first :: others
    ∧ ∀ s, s ∈ first :: others → ltb (avgTimeMs s) (avgTimeMs fastest) = false.
Proof.
  induction others as [|b others IH]; intros first; simpl.
  - split; [left|]. intros s Hs. apply list_elem_of_singleton in Hs as ->.
    apply ltb_irrefl.
  - destruct (IH (faster first b)) as [Hin Hmin]. split.
    + apply elem_of_cons in Hin as [Hin | Hin]; [|by do 2 right].
      rewrite Hin. unfold faster.
      destruct (ltb (avgTimeMs first) (avgTimeMs b)); [left | right; left].
    + intros s Hs. apply elem_of_cons in Hs as [-> | Hs].
      * assert (Hf : ltb (avgTimeMs first) (avgTimeMs (faster first b)) = false).
        { unfold faster. destruct (ltb (avgTimeMs first) (avgTimeMs b)) eqn:Hfb;
            [apply ltb_irrefl | done]. }
        apply (ltb_negtrans _ (avgTimeMs (faster first b))); [done|].
        apply Hmin. left.
      * apply elem_of_cons in Hs as [-> | Hs]; [|apply Hmin; by right].
        assert (Hf : ltb (avgTimeMs b) (avgTimeMs (faster first b)) = false).
        { unfold faster. destruct (ltb (avgTimeMs first) (avgTimeMs b)) eqn:Hfb;
            [by apply ltb_asym | apply ltb_irrefl]. }
        apply (ltb_negtrans _ (avgTimeMs (faster first b))); [done|].
        apply Hmin. left.
Qed.

(** C7.  When [checkRequirements] finds no hard requirement in the source
    and the statistics stored under the source's preamble hash have an entry
    with [successRate > 0.5] and [compileCount >= 2], [select] returns, with
    confidence [high], the engine of such an entry whose average time no
    other such entry beats. *)
Theorem select_historical_best (this : selector num) (source : jsstring)
    (stats : list (EngineStats num)) :
  checkRequirements this source (extractPackages source) = None →
  getStats this (preambleHash source) = Some stats →
  (∃ s, s ∈ stats ∧ ltb half (successRate s) = true
        ∧ leb two (compileCount s) = true) →
  ∃ fastest,
    fastest ∈ stats
    ∧ ltb half (successRate fastest) = true
    ∧ leb two (compileCount fastest) = true
    ∧ (∀ s, s ∈ stats → ltb half (successRate s) = true →
         leb two (compileCount s) = true →
         ltb (avgTimeMs s) (avgTimeMs fastest) = false)
    ∧ select this source
      = {| selected := engine fastest;
           reason := HistoricalBest (avgTimeMs fastest);
           confidence := high |}.
Proof.
  intros Hreq Hstats (s0 & Hs0 & Hrate & Hcount).
  unfold select. rewrite Hreq, Hstats.
  assert (Hhist : fromHistory (Some stats) = fromStats stats).
  { destruct stats; [by apply elem_of_nil in Hs0 | reflexivity]. }
  rewrite Hhist. unfold fromStats.
  assert (Hfilter : ∀ s, s ∈ List.filter isSuccessful stats
                         ↔ s ∈ stats ∧ isSuccessful s = true).
  { intros s. rewrite !list_elem_of_In. apply filter_In. }
  assert (Hsucc : ∀ s, isSuccessful s = true
                       ↔ ltb half (successRate s) = true
                         ∧ leb two (compileCount s) = true).
  { intros s. unfold isSuccessful. apply andb_true_iff. }
  destruct (List.filter isSuccessful stats) as [|first others] eqn:Hf.
  { exfalso. apply (not_elem_of_nil s0). apply Hfilter.
    split; [done|]. by apply Hsucc. }
  destruct (reduce_faster_min others first) as [Hin Hmin].
  exists (fold_left faster others first).
  apply Hfilter in Hin as [Hin Hok]. apply Hsucc in Hok as [Hr Hc].
  split_and!; try done.
  intros s Hs Hsr Hsc. apply Hmin. apply Hfilter. split; [done|].
  by apply Hsucc.
Qed.

End History.

(** *** A history on which xelatex is fastest *)

Definition helloSource : jsstring :=
  js "\documentclass{article}" ++ lf ++ js "\begin{document}Hi\end{document}".

Definition helloStats : list (EngineStats Q) :=
  [ {| engine := pdflatex; compileCount := 3; avgTimeMs := 1200;
       successRate := 1; lastUsed := 0 |};
    {| engine := xelatex; compileCount := 2; avgTimeMs := 900;
       successRate := 1; lastUsed := 0 |};
    {| engine := lualatex; compileCount := 5; avgTimeMs := 500;
       successRate := 1 # 5; lastUsed := 0 |} ]%Q.

Definition helloSelector : selector Q := {|
  requirements := getDefaultRequirements;
  preferences := getDefaultPreferences;
  storage := {[ "stats_" +:+ preambleHash helloSource := StoredStats helloStats ]}
|}.

Example select_hello :
  select helloSelector helloSource
  = {| selected := xelatex; reason := HistoricalBest 900%Q; confidence := high |}
  ∧ select (newSelector Q) helloSource
    = {| selected := pdflatex; reason := DefaultEngine; confidence := low |}.
Proof. split; vm_compute; reflexivity. Qed.

Lemma select_historical_best_witness :
  checkRequirements helloSelector helloSource (extractPackages helloSource) = None
  ∧ getStats helloSelector (preambleHash helloSource) = Some helloStats
  ∧ ∃ fastest,
      fastest ∈ helloStats
      ∧ ltb half (successRate fastest) = true
      ∧ leb two (compileCount fastest) = true
      ∧ (∀ s, s ∈ helloStats → ltb half (successRate s) = true →
           leb two (compileCount s) = true →
           ltb (avgTimeMs s) (avgTimeMs fastest) = false)
      ∧ select helloSelector helloSource
        = {| selected := engine fastest;
             reason := HistoricalBest (avgTimeMs fastest);
             confidence := high |}.
Proof.
  assert (Hreq : checkRequirements helloSelector helloSource
                   (extractPackages helloSource) = None) by (by vm_compute).
  assert (Hstats : getStats helloSelector (preambleHash helloSource)
                   = Some helloStats) by (by vm_compute).
  split; [exact Hreq|]. split; [exact Hstats|].
  apply (select_historical_best helloSelector helloSource helloStats Hreq Hstats).
  exists {| engine := pdflatex; compileCount := 3%Q; avgTimeMs := 1200%Q;
            successRate := 1%Q; lastUsed := 0%Q |}.
  split; [left|]. split; reflexivity.
Defined.

Example select_avoiding :
  select
    {| requirements := getDefaultRequirements;
       preferences := getDefaultPreferences;
       storage :=
         {[ "stats_" +:+ preambleHash helloSource :=
              StoredStats
                [ {| engine := pdflatex; compileCount := 3; avgTimeMs := 1200;
                     successRate := 1 # 5; lastUsed := 0 |} ]%Q ]} |}
    helloSource
  = {| selected := xelatex; reason := Avoiding [pdflatex]; confidence := medium |}.
Proof. vm_compute. reflexivity. Qed.

(** ** Recording results *)

Section Recording.
Context {num : Type} `{JSNumber num}.

(** [stats.find(s => s.engine === e)] *)
Definition findEngine (e : Engine) (stats : list (EngineStats num))
  : option (EngineStats num) :=
  List.find (fun s => bool_decide (engine s = e)) stats.

(** The entry [recordResult] starts from when [find] finds none. *)
Definition freshStats (e : Engine) (now : num) : EngineStats num :=
  {| engine := e; compileCount := zero; avgTimeMs := zero;
     successRate := zero; lastUsed := now |}.

(** A sequence of calls of [recordResult] for one source, each with what
    [Date.now()] returned. *)
Definition recordAll (this : selector num) (source : jsstring)
    (results : list (CompileResult num * num)) : selector num :=
  fold_left (fun st rn => recordResult st source (fst rn) (snd rn)) results this.

Lemma getStats_recordResult (this : selector num) (source : jsstring)
    (result : CompileResult num) (now : num) :
  getStats (recordResult this source result now) (preambleHash source)
  = Some (recordStats result now
            (default [] (getStats this (preambleHash source)))).
Proof.
  unfold recordResult.
  destruct (triggeredCmSuper result && bool_decide (result_engine result = pdflatex)).
  - unfold getStats at 1. simpl.
    rewrite lookup_insert_ne by (simpl; discriminate).
    by rewrite lookup_insert_eq.
  - unfold getStats at 1. simpl. by rewrite lookup_insert_eq.
Qed.

Lemma updateFound_None (e : Engine) (f : EngineStats num → EngineStats num)
    (stats : list (EngineStats num)) :
  findEngine e stats = None → updateFound e f stats = None.
Proof.
  induction stats as [|s stats IH]; simpl; [done|].
  case_bool_decide; [done|]. intros Hf. by rewrite IH.
Qed.

Lemma updateFound_Some (e : Engine) (f : EngineStats num → EngineStats num)
    (stats : list (EngineStats num)) (entry : EngineStats num) :
  (∀ s, engine (f s) = engine s) →
  findEngine e stats = Some entry →
  ∃ stats', updateFound e f stats = Some stats'
            ∧ findEngine e stats' = Some (f entry)
            ∧ ∀ e', e' ≠ e → findEngine e' stats' = findEngine e' stats.
Proof.
  intros Hf. induction stats as [|s stats IH]; simpl; [done|].
  case_bool_decide as Hs.
  - intros [= ->]. eexists. split; [reflexivity|]. split.
    + simpl. by rewrite Hf, bool_decide_eq_true_2.
    + intros e' He'. simpl. rewrite Hf.
      by rewrite !bool_decide_eq_false_2 by congruence.
  - intros Hfind. destruct (IH Hfind) as (stats' & -> & Hsame & Hother).
    eexists. split; [reflexivity|]. split.
    + simpl. by rewrite bool_decide_eq_false_2.
    + intros e' He'. simpl. by rewrite Hother.
Qed.

Lemma findEngine_snoc (e : Engine) (stats : list (EngineStats num))
    (s : EngineStats num) :
  findEngine e (stats ++ [s])
  = match findEngine e stats with
    | Some entry => Some entry
    | None => if bool_decide (engine s = e) then Some s else None
    end.
Proof.
  unfold findEngine. induction stats as [|s' stats IH]; simpl.
  - by destruct (bool_decide (engine s = e)).
  - by destruct (bool_decide (engine s' = e)).
Qed.

(** The entry of an engine after one more result: the old one (or a fresh
    one) updated when the result is of that engine, the old one as it was
    when it is not. *)
Lemma findEngine_recordStats (e : Engine) (result : CompileResult num)
    (now : num) (stats : list (EngineStats num)) :
  findEngine e (recordStats result now stats)
  = if bool_decide (result_engine result = e) then
      Some (updateStats result now
              (default (freshStats e now) (findEngine e stats)))
    else findEngine e stats.
Proof.
  unfold recordStats.
  destruct (findEngine (result_engine result) stats) as [entry|] eqn:Hfind.
  - destruct (updateFound_Some (result_engine result) (updateStats result now)
                stats entry ltac:(done) Hfind) as (stats' & -> & Hsame & Hother).
    case_bool_decide as He.
    + subst e. by rewrite Hsame, Hfind.
    + apply Hother. congruence.
  - rewrite (updateFound_None _ _ _ Hfind). rewrite findEngine_snoc. simpl.
    case_bool_decide as He.
    + subst e. by rewrite Hfind.
    + by destruct (findEngine e stats).
Qed.

End Recording.

(** ** The fingerprint of a source *)

(** The text [extractPreamble] looks for. *)
Definition beginDocument : jsstring := backslash :: js "begin{document}".

Lemma stripPrefix_app (lit s t : jsstring) :
  length lit ≤ length s →
  stripPrefix lit (s ++ t) = (fun rest => rest ++ t) <$> stripPrefix lit s.
Proof.
  revert s. induction lit as [|l lit IH]; intros s Hlen; simpl; [done|].
  destruct s as [|c s]; simpl in *; [lia|].
  destruct (l =? c)%N; [|done]. apply IH. lia.
Qed.

Lemma stripPrefix_same (lit t : jsstring) : stripPrefix lit (lit ++ t) = Some t.
Proof.
  induction lit as [|l lit IH]; simpl; [done|]. by rewrite N.eqb_refl.
Qed.

Lemma before_unfold (lit s : jsstring) :
  before lit s
  = match stripPrefix lit s with
    | Some _ => Some []
    | None =>
        match s with
        | [] => None
        | c :: rest =>
            match before lit rest with
            | Some p => Some (c :: p)
            | None => None
            end
        end
    end.
Proof. by destruct s. Qed.

(** Where the first occurrence of [lit] is does not depend on what follows
    an occurrence. *)
Lemma before_app (lit pre t t' : jsstring) :
  before lit (pre ++ lit ++ t) = before lit (pre ++ lit ++ t')
  ∧ is_Some (before lit (pre ++ lit ++ t)).
Proof.
  induction pre as [|c pre [IH Hsome]].
  - rewrite !app_nil_l, !before_unfold, !stripPrefix_same.
    by split; [|eexists].
  - assert (Hstrip : ∀ u,
      stripPrefix lit ((c :: pre) ++ lit ++ u)
      = (fun rest => rest ++ u) <$> stripPrefix lit ((c :: pre) ++ lit)).
    { intros u. rewrite (app_assoc (c :: pre) lit u). apply stripPrefix_app.
      rewrite length_app. lia. }
    rewrite (before_unfold lit ((c :: pre) ++ lit ++ t)).
    rewrite (before_unfold lit ((c :: pre) ++ lit ++ t')).
    rewrite !Hstrip.
    destruct (stripPrefix lit ((c :: pre) ++ lit)) as [rest|]; simpl;
      [by split; [|eexists]|].
    rewrite <- IH. destruct Hsome as [p ->]. by split; [|eexists].
Qed.

(** X5.  The fingerprint of a source depends on nothing after the first
    [\begin{document}]: two sources with the same text up to and including
    an occurrence of it have the same preamble and the same fingerprint,
    and a compile result recorded for one is recorded for the other. *)
Theorem preambleHash_ignores_body {num : Type} `{JSNumber num}
    (pre body body' : jsstring) :
  extractPreamble (pre ++ beginDocument ++ body)
  = extractPreamble (pre ++ beginDocument ++ body')
  ∧ preambleHash (pre ++ beginDocument ++ body)
    = preambleHash (pre ++ beginDocument ++ body')
  ∧ ∀ (this : selector num) (result : CompileResult num) (now : num),
      recordResult this (pre ++ beginDocument ++ body) result now
      = recordResult this (pre ++ beginDocument ++ body') result now.
Proof.
  assert (Hpre : extractPreamble (pre ++ beginDocument ++ body)
                 = extractPreamble (pre ++ beginDocument ++ body')).
  { unfold extractPreamble. fold beginDocument.
    destruct (before_app beginDocument pre body body') as [Heq [p Hp]].
    by rewrite <- Heq, Hp. }
  assert (Hhash : preambleHash (pre ++ beginDocument ++ body)
                  = preambleHash (pre ++ beginDocument ++ body')).
  { unfold preambleHash. by rewrite Hpre. }
  split_and!; [done | done |].
  intros this result now. unfold recordResult. by rewrite Hhash.
Qed.

(** A preamble that itself has a [\begin{document}] in a comment: the
    preamble ends there. *)
Example extractPreamble_first_occurrence :
  extractPreamble
    (js "\usepackage{a}% \begin{document}" ++ lf ++ js "\begin{document}x")
  = js "\usepackage{a}% ".
Proof. vm_compute. reflexivity. Qed.

(** ** What [select] answers, step by step *)

Section Steps.
Context {num : Type} `{JSNumber num}.

(** A requirement fires on a source: one of its packages is loaded, one of
    its commands or a character of its scripts occurs outside the
    comments. *)
Definition fires (req : EngineRequirement) (source : jsstring) : Prop :=
  (∃ pkg, pkg ∈ extractPackages source ∧ pkg ∈ req_packages req)
  ∨ (∃ cmd, cmd ∈ commands req ∧ testCommand cmd (stripComments source) = true)
  ∨ testScripts (scripts req) (stripComments source) = true.

Lemma find_elem {A : Type} (P : A → bool) (l : list A) (x : A) :
  x ∈ l → P x = true → is_Some (List.find P l).
Proof.
  intros Hx HP. destruct (List.find P l) as [y|] eqn:Hfind; [by eexists|].
  apply list_elem_of_In in Hx.
  pose proof (find_none P l Hfind x Hx). congruence.
Qed.

Lemma checkRequirement_fires (source : jsstring) (e : Engine)
    (req : EngineRequirement) :
  fires req source →
  ∃ r : SelectionResult num,
    checkRequirement (stripComments source) (extractPackages source) (e, req)
    = Some r
    ∧ selected r = e ∧ confidence r = high.
Proof.
  intros Hfires. unfold checkRequirement. simpl.
  destruct (List.find (fun pkg => bool_decide (pkg ∈ req_packages req))
              (extractPackages source)) as [pkg|] eqn:Hpkg; [by eexists|].
  destruct (List.find (fun cmd => testCommand cmd (stripComments source))
              (commands req)) as [cmd|] eqn:Hcmd; [by eexists|].
  destruct (testScripts (scripts req) (stripComments source)) eqn:Hs;
    [by eexists|].
  exfalso. destruct Hfires as [(pkg & Hin & Hreq)|[(cmd & Hin & Htest)|Hscripts]].
  - destruct (find_elem (fun pkg => bool_decide (pkg ∈ req_packages req))
                (extractPackages source) pkg Hin) as [? ?];
      [by apply bool_decide_eq_true_2 | congruence].
  - destruct (find_elem (fun cmd => testCommand cmd (stripComments source))
                (commands req) cmd Hin Htest) as [? ?]. congruence.
  - congruence.
Qed.

(** X6.  The first requirement of the table (XeLaTeX's, in the default
    table) overrides everything else: when it fires on a source, [select]
    returns its engine with confidence [high], whatever the selector has
    learned and whatever the later requirements and the preferences say. *)
Theorem select_first_requirement (this : selector num) (source : jsstring)
    (e : Engine) (req : EngineRequirement)
    (rest : list (Engine * EngineRequirement)) :
  requirements this = (e, req) :: rest →
  fires req source →
  selected (select this source) = e ∧ confidence (select this source) = high.
Proof.
  intros Hreqs Hfires.
  destruct (checkRequirement_fires source e req Hfires) as (r & Hr & He & Hc).
  unfold select, checkRequirements. rewrite Hreqs. simpl. by rewrite Hr.
Qed.

(** *** What [recordResult] touches *)

Lemma append_inj (p s t : string) : p +:+ s = p +:+ t → s = t.
Proof. induction p as [|a p IH]; simpl; [done|]. intros [= Heq]. by apply IH. Qed.

Lemma requirements_recordResult (this : selector num) (source : jsstring)
    (result : CompileResult num) (now : num) :
  requirements (recordResult this source result now) = requirements this.
Proof. unfold recordResult. by destruct (_ && _). Qed.

Lemma preferences_recordResult (this : selector num) (source : jsstring)
    (result : CompileResult num) (now : num) :
  preferences (recordResult this source result now) = preferences this.
Proof. unfold recordResult. by destruct (_ && _). Qed.

Lemma storage_recordResult (this : selector num) (source : jsstring)
    (result : CompileResult num) (now : num) (key : string) :
  key ≠ "stats_" +:+ preambleHash source →
  key ≠ "cmsuper_" +:+ preambleHash source →
  storage (recordResult this source result now) !! key = storage this !! key.
Proof.
  intros Hs Hc. unfold recordResult.
  destruct (_ && _); simpl.
  - rewrite lookup_insert_ne by done. by rewrite lookup_insert_ne by done.
  - by rewrite lookup_insert_ne by done.
Qed.

(** X7.  What is recorded for one source is kept under the fingerprint of
    that source only: [recordResult] for a source leaves the answer of
    [select] unchanged for every source with another fingerprint. *)
Theorem recordResult_other_fingerprint (this : selector num)
    (recorded source : jsstring) (result : CompileResult num) (now : num) :
  preambleHash recorded ≠ preambleHash source →
  select (recordResult this recorded result now) source = select this source.
Proof.
  intros Hne. unfold select, checkRequirements, checkPreferences, getStats.
  rewrite requirements_recordResult, preferences_recordResult.
  rewrite !(storage_recordResult this recorded result now);
    [done | intros Heq; first [discriminate Heq | apply append_inj in Heq; congruence] ..].
Qed.

(** *** Forgetting *)

(** Is [key] one of the keys the selector learns under? *)
Definition learned (key : string) : bool :=
  String.prefix "stats_" key || String.prefix "cmsuper_" key.

(** [clearHistory()]: every key of the storage that starts with [stats_]
    or [cmsuper_] is deleted. *)
Definition clearHistory (this : selector num) : selector num :=
  let keys := elements (dom (storage this)) in
  {| requirements := requirements this;
     preferences := preferences this;
     storage :=
       fold_left (fun st key => if learned key then delete key st else st)
         keys (storage this) |}.

Lemma lookup_clear (keys : list string) :
  ∀ (st : gmap string (stored num)) (key : string),
    fold_left (fun st key => if learned key then delete key st else st) keys st
      !! key
    = if learned key && bool_decide (key ∈ keys) then None else st !! key.
Proof.
  induction keys as [|k keys IH]; intros st key.
  - cbn [fold_left]. destruct (learned key); cbn [andb]; [|done].
    case_bool_decide as Hin; [by apply not_elem_of_nil in Hin | done].
  - cbn [fold_left]. rewrite IH.
    destruct (learned key) eqn:Hkey; cbn [andb].
    + destruct (decide (key ∈ keys)) as [Hin|Hin].
      * rewrite (bool_decide_eq_true_2 (key ∈ keys)) by done.
        by rewrite (bool_decide_eq_true_2 (key ∈ k :: keys)) by (by right).
      * rewrite (bool_decide_eq_false_2 (key ∈ keys)) by done.
        destruct (decide (key = k)) as [->|Hne].
        -- rewrite (bool_decide_eq_true_2 (k ∈ k :: keys)) by (by left).
           rewrite Hkey. apply lookup_delete_eq.
        -- rewrite (bool_decide_eq_false_2 (key ∈ k :: keys))
             by (intros [?|?]%elem_of_cons; contradiction).
           destruct (learned k); [by rewrite lookup_delete_ne|done].
    + destruct (learned k) eqn:Hk; [|done].
      rewrite lookup_delete_ne; [done | intros ->; congruence].
Qed.

Lemma storage_clearHistory (this : selector num) (key : string) :
  storage (clearHistory this) !! key
  = if learned key then None else storage this !! key.
Proof.
  unfold clearHistory. simpl. rewrite lookup_clear.
  destruct (learned key); simpl; [|done].
  case_bool_decide as Hin; [done|].
  apply not_elem_of_dom. by rewrite <- elem_of_elements.
Qed.

(** X8.  [clearHistory] forgets all that was learned and nothing else:
    afterwards [select] answers every source as a selector with the same
    tables and an empty storage does, and every key of the storage that
    starts with neither [stats_] nor [cmsuper_] holds what it held. *)
Theorem clearHistory_forgets (this : selector num) :
  (∀ source,
     select (clearHistory this) source
     = select {| requirements := requirements this;
                 preferences := preferences this;
                 storage := ∅ |} source)
  ∧ (∀ key, learned key = false →
            storage (clearHistory this) !! key = storage this !! key).
Proof.
  split.
  - intros source. unfold select, checkRequirements, checkPreferences, getStats.
    rewrite !storage_clearHistory. unfold learned.
    rewrite !prefix_append_same, orb_true_r.
    cbn [orb clearHistory requirements preferences storage].
    by rewrite !lookup_empty.
  - intros key Hkey. by rewrite storage_clearHistory, Hkey.
Qed.

End Steps.

(** *** Learning, in the arithmetic of the code *)

(** The statistics of a preamble after its first recorded compile. *)
Lemma recordStats_first {num : Type} `{JSNumber num}
    (result : CompileResult num) (now : num) :
  recordStats result now []
  = [updateStats result now (freshStats (result_engine result) now)].
Proof. reflexivity. Qed.

(** One compile is never enough for the history to recommend an engine. *)
Lemma first_not_successful (result : CompileResult float) (now : float) :
  isSuccessful (updateStats result now (freshStats (result_engine result) now))
  = false.
Proof.
  unfold isSuccessful. apply andb_false_intro2. vm_compute. reflexivity.
Qed.

Lemma first_successRate (result : CompileResult float) (now : float) :
  successRate (updateStats result now (freshStats (result_engine result) now))
  = if success result then 1%float else 0%float.
Proof. cbn. by destruct (success result); vm_compute. Qed.

(** X9.  The selector learns from a first compile that pulled in the
    cm-super fonts: for a source with no hard requirement and no history
    under its fingerprint, after [recordResult] of a pdflatex compile with
    [triggeredCmSuper], [select] answers xelatex, whether the compile
    succeeded (the learned flag decides) or failed (pdflatex is avoided). *)
Theorem select_after_cmSuper (this : selector float) (source : jsstring)
    (result : CompileResult float) (now : float) :
  checkRequirements this source (extractPackages source) = None →
  getStats this (preambleHash source) = None →
  result_engine result = pdflatex →
  triggeredCmSuper result = true →
  select (recordResult this source result now) source
  = if success result then
      {| selected := xelatex; reason := TriggersCmSuper; confidence := high |}
    else
      {| selected := xelatex; reason := Avoiding [pdflatex];
         confidence := medium |}.
Proof.
  intros Hreq Hstats Hengine Hcm.
  assert (Hreq' : checkRequirements (recordResult this source result now) source
                    (extractPackages source) = None).
  { unfold checkRequirements in *. by rewrite requirements_recordResult. }
  unfold select. rewrite Hreq', getStats_recordResult, Hstats.
  cbn [default]. rewrite recordStats_first.
  cbn [fromHistory]. unfold fromStats. cbn [List.filter].
  rewrite first_not_successful, first_successRate.
  destruct (success result) eqn:Hok.
  - replace (ltb 1%float half) with false by (vm_compute; reflexivity).
    unfold recordResult. rewrite Hcm, Hengine. cbn [andb].
    rewrite bool_decide_eq_true_2 by done.
    cbn [storage]. by rewrite lookup_insert_eq.
  - replace (ltb 0%float half) with true by (vm_compute; reflexivity).
    cbn [map engine updateStats freshStats]. rewrite Hengine. reflexivity.
Qed.

(** The statistics after a second compile with the same engine. *)
Lemma recordStats_second {num : Type} `{JSNumber num}
    (first second : CompileResult num) (now now' : num) :
  result_engine second = result_engine first →
  recordStats second now' (recordStats first now [])
  = [updateStats second now'
       (updateStats first now (freshStats (result_engine first) now))].
Proof.
  intros He. rewrite recordStats_first. unfold recordStats. cbn [updateFound].
  cbn [engine updateStats freshStats].
  by rewrite bool_decide_eq_true_2 by done.
Qed.

Lemma second_successful (first second : CompileResult float) (now now' : float) :
  success first = true → success second = true →
  isSuccessful
    (updateStats second now'
       (updateStats first now (freshStats (result_engine first) now)))
  = true.
Proof.
  intros H1 H2. unfold isSuccessful. cbn. rewrite H1, H2.
  vm_compute. reflexivity.
Qed.

(** X10.  Two successful compiles are enough to learn an engine: for a
    source with no hard requirement and no history under its fingerprint,
    after two successful compiles with the same engine have been recorded,
    [select] answers that engine with confidence [high]. *)
Theorem select_after_two_successes (this : selector float) (source : jsstring)
    (first second : CompileResult float) (now now' : float) :
  checkRequirements this source (extractPackages source) = None →
  getStats this (preambleHash source) = None →
  result_engine second = result_engine first →
  success first = true → success second = true →
  let answer :=
    select (recordResult (recordResult this source first now) source second now')
      source in
  selected answer = result_engine first ∧ confidence answer = high.
Proof.
  intros Hreq Hstats He H1 H2.
  set (this1 := recordResult this source first now).
  set (this2 := recordResult this1 source second now').
  assert (Hreq' : checkRequirements this2 source (extractPackages source) = None).
  { unfold checkRequirements in *. subst this2 this1.
    by rewrite !requirements_recordResult. }
  cbv zeta. unfold select. rewrite Hreq'. subst this2.
  rewrite getStats_recordResult. subst this1.
  rewrite getStats_recordResult, Hstats. unfold default. cbn [from_option id].
  rewrite (recordStats_second first second now now' He).
  cbn [fromHistory]. unfold fromStats. cbn [List.filter].
  rewrite (second_successful first second now now' H1 H2).
  cbn [fold_left selected confidence]. done.
Qed.

(** *** The steps on concrete sources *)

(** The requirement of XeLaTeX in the default table. *)
Definition xelatexRequirement : EngineRequirement :=
  match getDefaultRequirements with
  | (_, req) :: _ => req
  | [] => {| req_packages := []; commands := []; scripts := [];
             description := "" |}
  end.

Definition fontspecSource : jsstring :=
  js "\documentclass{article}\usepackage{fontspec}\begin{document}Hi\end{document}".

Lemma select_first_requirement_witness :
  requirements (newSelector Q)
  = (xelatex, xelatexRequirement) :: tail getDefaultRequirements
  ∧ fires xelatexRequirement fontspecSource
  ∧ selected (select (newSelector Q) fontspecSource) = xelatex
  ∧ confidence (select (newSelector Q) fontspecSource) = high.
Proof.
  assert (Hreqs : requirements (newSelector Q)
                  = (xelatex, xelatexRequirement) :: tail getDefaultRequirements)
    by reflexivity.
  assert (Hfires : fires xelatexRequirement fontspecSource).
  { left. exists (js "fontspec").
    split; apply list_elem_of_In; vm_compute; tauto. }
  split; [exact Hreqs|]. split; [exact Hfires|].
  exact (select_first_requirement (newSelector Q) fontspecSource xelatex
           xelatexRequirement (tail getDefaultRequirements) Hreqs Hfires).
Defined.

(** A pdflatex compile of 1.5 s that pulled in the cm-super fonts. *)
Definition cmSuperRun (ok : bool) : CompileResult float := {|
  result_engine := pdflatex; success := ok; timeMs := 1500%float;
  retries := 1; fetchedPackages := [js "cm-super"]; triggeredCmSuper := true
|}.

Lemma recordResult_other_fingerprint_witness :
  preambleHash helloSource ≠ preambleHash fontspecSource
  ∧ select (recordResult (newSelector float) helloSource (cmSuperRun true) 0%float)
      fontspecSource
    = select (newSelector float) fontspecSource.
Proof.
  assert (Hne : preambleHash helloSource ≠ preambleHash fontspecSource)
    by (vm_compute; discriminate).
  split; [exact Hne|].
  exact (recordResult_other_fingerprint (newSelector float) helloSource
           fontspecSource (cmSuperRun true) 0%float Hne).
Defined.

Lemma select_after_cmSuper_witness :
  checkRequirements (newSelector float) helloSource (extractPackages helloSource)
  = None
  ∧ getStats (newSelector float) (preambleHash helloSource) = None
  ∧ select (recordResult (newSelector float) helloSource (cmSuperRun true) 0%float)
      helloSource
    = {| selected := xelatex; reason := TriggersCmSuper; confidence := high |}.
Proof.
  assert (Hreq : checkRequirements (newSelector float) helloSource
                   (extractPackages helloSource) = None)
    by (vm_compute; reflexivity).
  assert (Hstats : getStats (newSelector float) (preambleHash helloSource) = None)
    by reflexivity.
  split; [exact Hreq|]. split; [exact Hstats|].
  exact (select_after_cmSuper (newSelector float) helloSource (cmSuperRun true)
           0%float Hreq Hstats eq_refl eq_refl).
Defined.

(** Two successful xelatex compiles. *)
Definition xelatexRun (t : float) : CompileResult float := {|
  result_engine := xelatex; success := true; timeMs := t;
  retries := 0; fetchedPackages := []; triggeredCmSuper := false
|}.

Lemma select_after_two_successes_witness :
  checkRequirements (newSelector float) helloSource (extractPackages helloSource)
  = None
  ∧ getStats (newSelector float) (preambleHash helloSource) = None
  ∧ selected
      (select
         (recordResult
            (recordResult (newSelector float) helloSource (xelatexRun 900) 1%float)
            helloSource (xelatexRun 1100) 2%float)
         helloSource)
    = xelatex
  ∧ confidence
      (select
         (recordResult
            (recordResult (newSelector float) helloSource (xelatexRun 900) 1%float)
            helloSource (xelatexRun 1100) 2%float)
         helloSource)
    = high.
Proof.
  assert (Hreq : checkRequirements (newSelector float) helloSource
                   (extractPackages helloSource) = None)
    by (vm_compute; reflexivity).
  assert (Hstats : getStats (newSelector float) (preambleHash helloSource) = None)
    by reflexivity.
  split; [exact Hreq|]. split; [exact Hstats|].
  exact (select_after_two_successes (newSelector float) helloSource
           (xelatexRun 900) (xelatexRun 1100) 1%float 2%float
           Hreq Hstats eq_refl eq_refl eq_refl).
Defined.

(** *** Running averages *)

Local Open Scope Q_scope.

(** The results of one engine among a sequence of results. *)
Definition resultsOf {num : Type} (e : Engine)
    (results : list (CompileResult num * num))
  : list (CompileResult num * num) :=
  List.filter (fun rn => bool_decide (result_engine (fst rn) = e)) results.

(** How many results of a sequence are successes. *)
Definition successes {num : Type} (results : list (CompileResult num * num))
  : nat :=
  length (List.filter (fun rn => success (fst rn)) results).

(** The number of elements of a list, as a number. *)
Definition count {A : Type} (l : list A) : Q := inject_Z (Z.of_nat (length l)).

Lemma count_snoc {A : Type} (l : list A) (x : A) : count (l ++ [x]) == count l + 1.
Proof.
  unfold count. rewrite length_app. simpl.
  rewrite Nat2Z.inj_add, inject_Z_plus. reflexivity.
Qed.

Lemma count_nonneg {A : Type} (l : list A) : 0 <= count l.
Proof.
  unfold count. change 0 with (inject_Z 0). rewrite <- Zle_Qle.
  apply Nat2Z.is_nonneg.
Qed.

Lemma count_pos {A : Type} (l : list A) : l ≠ [] → ¬ count l == 0.
Proof.
  intros Hl Hc. unfold count in Hc. change 0 with (inject_Z 0) in Hc.
  apply inject_Z_injective in Hc. destruct l; [done | discriminate Hc].
Qed.

Lemma successes_snoc {num : Type} (mine : list (CompileResult num * num))
    (rn : CompileResult num * num) :
  successes (mine ++ [rn])
  = (successes mine + (if success (fst rn) then 1 else 0))%nat.
Proof.
  unfold successes. rewrite List.filter_app, length_app. simpl.
  by destruct (success (fst rn)).
Qed.


Lemma resultsOf_snoc {num : Type} (e : Engine)
    (results : list (CompileResult num * num)) (rn : CompileResult num * num) :
  resultsOf e (results ++ [rn])
  = resultsOf e results
    ++ (if bool_decide (result_engine (fst rn) = e) then [rn] else []).
Proof.
  unfold resultsOf. rewrite List.filter_app. simpl.
  by destruct (bool_decide (result_engine (fst rn) = e)).
Qed.

(** **** In exact arithmetic *)

(** The sum of the times of a sequence of results. *)
Definition sumTime (results : list (CompileResult Q * Q)) : Q :=
  fold_left (fun acc rn => acc + timeMs (fst rn)) results 0.

(** An entry that holds the count, the mean time and the success rate of
    the results [mine] (the means in the form [mean * count = sum]). *)
Definition summarises (mine : list (CompileResult Q * Q)) (s : EngineStats Q)
  : Prop :=
  compileCount s == count mine
  ∧ avgTimeMs s * count mine == sumTime mine
  ∧ successRate s * count mine == inject_Z (Z.of_nat (successes mine)).

Lemma summarises_fresh (e : Engine) (now : Q) : summarises [] (freshStats e now).
Proof. unfold summarises. simpl. split_and!; reflexivity. Qed.

(** One call of [recordResult] turns the summary of [mine] into the summary
    of [mine] and the new result. *)
Lemma summarises_update (mine : list (CompileResult Q * Q))
    (s : EngineStats Q) (rn : CompileResult Q * Q) :
  summarises mine s →
  summarises (mine ++ [rn]) (updateStats (fst rn) (snd rn) s).
Proof.
  intros (Hn & Havg & Hrate). unfold summarises. simpl.
  assert (Hk : ¬ compileCount s + 1 == 0).
  { pose proof (count_nonneg mine) as Hc. lra. }
  assert (Hc : count (mine ++ [rn]) == compileCount s + 1).
  { rewrite count_snoc, Hn. reflexivity. }
  split_and!.
  - rewrite count_snoc, Hn. reflexivity.
  - rewrite Hc. unfold sumTime. rewrite fold_left_app. simpl.
    fold (sumTime mine). rewrite <- Havg, <- Hn. field. exact Hk.
  - rewrite Hc. rewrite successes_snoc.
    rewrite Nat2Z.inj_add, inject_Z_plus.
    rewrite <- Hrate, <- Hn.
    destruct (success (fst rn)); simpl; field; exact Hk.
Qed.

(** After any sequence of calls, the entry of an engine that had none before
    is absent while the engine has no result, and summarises the engine's
    results once it has one. *)
Lemma recordAll_summarises (this : selector Q) (source : jsstring) (e : Engine)
    (results : list (CompileResult Q * Q)) :
  findEngine e (default [] (getStats this (preambleHash source))) = None →
  match findEngine e
          (default [] (getStats (recordAll this source results)
                         (preambleHash source))) with
  | None => resultsOf e results = []
  | Some entry => resultsOf e results ≠ [] ∧ summarises (resultsOf e results) entry
  end.
Proof.
  intros Hnone. induction results as [|rn results IH] using rev_ind.
  - simpl. by rewrite Hnone.
  - unfold recordAll. rewrite fold_left_app. simpl.
    fold (recordAll this source results).
    rewrite getStats_recordResult. simpl.
    rewrite findEngine_recordStats, resultsOf_snoc.
    case_bool_decide as He.
    + split; [by destruct (resultsOf e results)|].
      destruct (findEngine e
                  (default [] (getStats (recordAll this source results)
                                 (preambleHash source)))) as [entry|]; simpl.
      * apply summarises_update. apply IH.
      * rewrite IH. apply (summarises_update [] (freshStats e (snd rn)) rn).
        apply summarises_fresh.
    + rewrite app_nil_r. exact IH.
Qed.

(** Without rounding, the update formulas keep the count, the arithmetic
    mean of the times and the fraction of successes. *)
Lemma recordAll_exact_arithmetic (this : selector Q) (source : jsstring)
    (e : Engine) (results : list (CompileResult Q * Q)) :
  findEngine e (default [] (getStats this (preambleHash source))) = None →
  resultsOf e results ≠ [] →
  ∃ stats entry,
    getStats (recordAll this source results) (preambleHash source) = Some stats
    ∧ findEngine e stats = Some entry
    ∧ compileCount entry == count (resultsOf e results)
    ∧ avgTimeMs entry
      == sumTime (resultsOf e results) / count (resultsOf e results)
    ∧ successRate entry
      == inject_Z (Z.of_nat (successes (resultsOf e results)))
         / count (resultsOf e results).
Proof.
  intros Hnone Hmine.
  pose proof (recordAll_summarises this source e results Hnone) as Hsum.
  destruct (getStats (recordAll this source results) (preambleHash source))
    as [stats|]; simpl in Hsum; [|done].
  destruct (findEngine e stats) as [entry|] eqn:Hfind; [|done].
  destruct Hsum as (_ & Hn & Havg & Hrate).
  exists stats, entry. split_and!; try done.
  - rewrite <- Havg. symmetry. apply Qdiv_mult_l. by apply count_pos.
  - rewrite <- Hrate. symmetry. apply Qdiv_mult_l. by apply count_pos.
Qed.

Definition run {num : Type} (e : Engine) (ok : bool) (t now : num)
  : CompileResult num * num :=
  ({| result_engine := e; success := ok; timeMs := t; retries := 0%nat;
      fetchedPackages := []; triggeredCmSuper := false |}, now).

(** After three runs: pdflatex has 2 runs with mean 1100 ms and success
    rate 1/2, xelatex has 1 run of 900 ms. *)
Example recordAll_threeRuns :
  (λ stats,
     map (fun s => (engine s, Qred (compileCount s), Qred (avgTimeMs s),
                    Qred (successRate s), Qred (lastUsed s)))
       <$> stats)
    (getStats
       (recordAll (newSelector Q) helloSource
          [run pdflatex true 1200 1; run xelatex true 900 2;
           run pdflatex false 1000 3])
       (preambleHash helloSource))
  = Some [ (pdflatex, 2, 1100, 1 # 2, 3); (xelatex, 1, 900, 1, 2) ].
Proof. vm_compute. reflexivity. Qed.

(** **** On the doubles the code computes with *)

Import Double.



















(** *** Recorded runs *)

Definition threeRuns : list (CompileResult float * float) :=
  [run pdflatex true 1200 1; run xelatex true 900 2;
   run pdflatex false 1000 3]%float.




(** What the doubles are after the three runs. *)
Example recordAll_threeRuns_doubles :
  getStats (recordAll (newSelector float) helloSource threeRuns)
    (preambleHash helloSource)
  = Some [ {| engine := pdflatex; compileCount := 2; avgTimeMs := 1100;
              successRate := 0.5; lastUsed := 3 |};
           {| engine := xelatex; compileCount := 1; avgTimeMs := 900;
              successRate := 1; lastUsed := 2 |} ]%float.
Proof. vm_compute. reflexivity. Qed.



End EngineSelector.

(** * Finding the packages a LaTeX source loads

    The bundle loader, the package manager and the proxy all look for
    [\usepackage], [\RequirePackage] and [\documentclass] with regular
    expressions of one shape: the command, optional options in brackets, and
    the names in braces, with or without white space allowed in between. *)

Module Scan.
Import EngineSelector.

(** [new Set(items)], in insertion order. *)
Definition newSet {A : Type} `{EqDecision A} (items : list A) : list A :=
  fold_left (fun acc x => if bool_decide (x ∈ acc) then acc else acc ++ [x])
    items [].

Definition skipWhiteSpace (s : jsstring) : jsstring := dropWhile isWhiteSpace s.

(** [\[[^\]]*\]] anchored at the start of [s]: what follows the closing
    bracket, which is the first one there is. *)
Definition bracketGroup (s : jsstring) : option jsstring :=
  match s with
  | 91%N :: r =>
      match dropWhile (fun c => negb (c =? 93)%N) r with
      | 93%N :: rest => Some rest
      | _ => None
      end
  | _ => None
  end.

(** The part of the regular expressions after the command, anchored at the
    start of [s]:
    - [(?:\[[^\]]*\])?\{([^}]+)\}] when [spaced] is [false];
    - [\s*(?:\[[^\]]*\])?\s*\{([^}]+)\}] when it is [true]; the package
      manager's variant, which has the first [\s*] inside the optional group
      and captures the options as well, matches the same texts with the same
      names.
    The options are tried first; when the braces do not follow them, the
    match is tried again without options.  The result is the text between
    the braces and what follows the closing brace. *)
Definition optionsThenBraces (spaced : bool) (s : jsstring)
  : option (jsstring * jsstring) :=
  let skip := if spaced then skipWhiteSpace else (fun s => s) in
  let s1 := skip s in
  match bracketGroup s1 with
  | Some rest =>
      match braceGroup (skip rest) with
      | Some res => Some res
      | None => braceGroup s1
      end
  | None => braceGroup s1
  end.

(** A command with its options and braces, anchored at the start of [s]:
    the text between the braces and the length of the match. *)
Definition commandThenBraces (spaced : bool) (command s : jsstring)
  : option (jsstring * nat) :=
  match stripPrefix command s with
  | Some afterCommand =>
      match optionsThenBraces spaced afterCommand with
      | Some (capture, rest) => Some (capture, length s - length rest)
      | None => None
      end
  | None => None
  end.

(** All matches of a regular expression with the [g] flag, left to right,
    given its match anchored at a position: after a match the search goes on
    where the match ended ([skip] counts the characters of the last match
    still to pass). *)
Fixpoint matchAll (anchored : jsstring → option (jsstring * nat)) (skip : nat)
    (s : jsstring) : list jsstring :=
  match s with
  | [] => []
  | _ :: rest =>
      match skip with
      | S k => matchAll anchored k rest
      | O =>
          match anchored s with
          | Some (capture, len) => capture :: matchAll anchored (len - 1) rest
          | None => matchAll anchored 0 rest
          end
      end
  end.

(** The first match, as [exec] and [match] without the [g] flag. *)
Fixpoint matchFirst (anchored : jsstring → option (jsstring * nat))
    (s : jsstring) : option jsstring :=
  match anchored s with
  | Some (capture, _) => Some capture
  | None =>
      match s with
      | [] => None
      | _ :: rest => matchFirst anchored rest
      end
  end.

(** [match[1].split(',').map(p => p.trim())] for each match. *)
Definition namesOf (captures : list jsstring) : list jsstring :=
  flat_map (fun capture => map trim (splitComma capture)) captures.

Definition usepackage : jsstring := backslash :: js "usepackage".
Definition RequirePackage : jsstring := backslash :: js "RequirePackage".
Definition documentclass : jsstring := backslash :: js "documentclass".

(** [s.indexOf(lit)]; [None] is [-1]. *)
Fixpoint indexOf (lit s : jsstring) : option nat :=
  match stripPrefix lit s with
  | Some _ => Some 0
  | None =>
      match s with
      | [] => None
      | _ :: rest => S <$> indexOf lit rest
      end
  end.

(** [s.includes(lit)], and [/lit/.test(s)] for a literal. *)
Definition includes (lit s : jsstring) : bool :=
  match indexOf lit s with
  | Some _ => true
  | None => false
  end.

(** ** Facts about the scanners *)

Lemma braceGroup_eq (s : jsstring) :
  braceGroup s
  = match s with
    | c :: r =>
        if (c =? 123)%N then
          let capture := takeWhile (fun c => negb (c =? 125)%N) r in
          match capture, drop (length capture) r with
          | _ :: _, d :: rest => if (d =? 125)%N then Some (capture, rest) else None
          | _, _ => None
          end
        else None
    | [] => None
    end.
Proof.
  destruct s as [|c r]; [done|].
  destruct (c =? 123)%N eqn:Hc.
  - apply N.eqb_eq in Hc as ->. cbn [braceGroup]. cbv zeta.
    destruct (takeWhile (fun c => negb (c =? 125)%N) r) as [|x capture];
      [done|].
    destruct (drop (length (x :: capture)) r) as [|d rest]; [done|].
    destruct d as [|p]; [done|].
    do 7 (destruct p as [p|p|]; try done).
  - destruct c as [|p]; [done|].
    do 7 (destruct p as [p|p|]; try done).
Qed.

Lemma takeWhile_Forall {A : Type} (p : A → bool) (l : list A) :
  Forall (fun x => p x = true) (takeWhile p l).
Proof.
  induction l as [|x l IH]; simpl; [constructor|].
  destruct (p x) eqn:Hx; [by constructor | constructor].
Qed.

Lemma takeWhile_drop {A : Type} (p : A → bool) (l : list A) :
  takeWhile p l ++ drop (length (takeWhile p l)) l = l.
Proof.
  induction l as [|x l IH]; simpl; [done|].
  destruct (p x); simpl; [by rewrite IH | done].
Qed.

Lemma takeWhile_app_stop {A : Type} (p : A → bool) (l t : list A) (x : A) :
  Forall (fun y => p y = true) l → p x = false →
  takeWhile p (l ++ x :: t) = l.
Proof.
  intros Hl Hx. induction Hl as [|y l Hy _ IH]; simpl; [by rewrite Hx|].
  by rewrite Hy, IH.
Qed.

Lemma dropWhile_app_stop {A : Type} (p : A → bool) (l t : list A) (x : A) :
  Forall (fun y => p y = true) l → p x = false →
  dropWhile p (l ++ x :: t) = x :: t.
Proof.
  intros Hl Hx. induction Hl as [|y l Hy _ IH]; simpl; [by rewrite Hx|].
  by rewrite Hy, IH.
Qed.

(** What [braceGroup] matches: an opening brace, a text that is not empty
    and has no closing brace, and a closing brace. *)
Lemma braceGroup_Some (s capture rest : jsstring) :
  braceGroup s = Some (capture, rest) →
  s = 123%N :: capture ++ 125%N :: rest
  ∧ capture ≠ [] ∧ Forall (fun c => c ≠ 125%N) capture.
Proof.
  rewrite braceGroup_eq. destruct s as [|c r]; [done|].
  destruct (c =? 123)%N eqn:Hc; [|done]. apply N.eqb_eq in Hc as ->.
  cbv zeta.
  pose proof (takeWhile_Forall (fun c => negb (c =? 125)%N) r) as Hall.
  pose proof (takeWhile_drop (fun c => negb (c =? 125)%N) r) as Hsplit.
  destruct (takeWhile (fun c => negb (c =? 125)%N) r) as [|x cap] eqn:Hcap;
    [done|].
  destruct (drop (length (x :: cap)) r) as [|d rest'] eqn:Hdrop; [done|].
  destruct (d =? 125)%N eqn:Hd; [|done]. apply N.eqb_eq in Hd as ->.
  intros [= <- <-]. split_and!; [by rewrite Hsplit | done |].
  eapply Forall_impl; [exact Hall|]. simpl. intros c Hc ->. done.
Qed.

Lemma braceGroup_match (capture rest : jsstring) :
  capture ≠ [] → Forall (fun c => c ≠ 125%N) capture →
  braceGroup (123%N :: capture ++ 125%N :: rest) = Some (capture, rest).
Proof.
  intros Hne Hall. rewrite braceGroup_eq. cbn [N.eqb Pos.eqb]. cbv zeta.
  rewrite (takeWhile_app_stop _ capture rest 125%N); [| |done].
  - destruct capture as [|x capture]; [done|].
    by rewrite drop_app_length.
  - eapply Forall_impl; [exact Hall|]. simpl. intros c Hc.
    apply negb_true_iff, N.eqb_neq. done.
Qed.

Lemma optionsThenBraces_Some (spaced : bool) (s capture rest : jsstring) :
  optionsThenBraces spaced s = Some (capture, rest) →
  capture ≠ [] ∧ Forall (fun c => c ≠ 125%N) capture.
Proof.
  unfold optionsThenBraces. cbv zeta.
  destruct (bracketGroup _) as [r|].
  - destruct (braceGroup ((if spaced then skipWhiteSpace else _) r))
      as [[c r']|] eqn:Hb.
    + intros [= <- <-]. by destruct (braceGroup_Some _ _ _ Hb) as (_ & ? & ?).
    + intros Hb'. by destruct (braceGroup_Some _ _ _ Hb') as (_ & ? & ?).
  - intros Hb'. by destruct (braceGroup_Some _ _ _ Hb') as (_ & ? & ?).
Qed.

Lemma matchAll_Forall (anchored : jsstring → option (jsstring * nat))
    (P : jsstring → Prop) :
  (∀ s capture len, anchored s = Some (capture, len) → P capture) →
  ∀ (s : jsstring) (skip : nat), Forall P (matchAll anchored skip s).
Proof.
  intros Hanchored. induction s as [|c s IH]; intros skip; simpl; [constructor|].
  destruct skip as [|k]; [|apply IH].
  destruct (anchored (c :: s)) as [[capture len]|] eqn:Hm; [|apply IH].
  constructor; [by apply (Hanchored _ _ _ Hm) | apply IH].
Qed.

Lemma commandThenBraces_Some (spaced : bool) (command s capture : jsstring)
    (len : nat) :
  commandThenBraces spaced command s = Some (capture, len) →
  capture ≠ [] ∧ Forall (fun c => c ≠ 125%N) capture.
Proof.
  unfold commandThenBraces. destruct (stripPrefix command s) as [after|]; [|done].
  destruct (optionsThenBraces spaced after) as [[c r]|] eqn:Ho; [|done].
  intros [= <- _]. by apply (optionsThenBraces_Some spaced after c r).
Qed.

Lemma splitComma_pieces (s : jsstring) :
  Forall (fun piece => Forall (fun c => c ∈ s ∧ c ≠ 44%N) piece) (splitComma s).
Proof.
  induction s as [|c s IH]; simpl; [by repeat constructor|].
  assert (IH' : Forall (fun piece => Forall (fun x => x ∈ c :: s ∧ x ≠ 44%N) piece)
                  (splitComma s)).
  { eapply Forall_impl; [exact IH|]. simpl. intros piece Hp.
    eapply Forall_impl; [exact Hp|]. simpl. intros x [? ?].
    split; [by right | done]. }
  destruct (c =? 44)%N eqn:Hc; [by constructor|].
  apply N.eqb_neq in Hc.
  destruct (splitComma s) as [|p ps].
  { constructor; [|constructor].
    constructor; [split; [by left | done] | constructor]. }
  apply Forall_cons in IH' as [Hp Hps].
  constructor; [|done]. constructor; [split; [by left | done] | done].
Qed.

Lemma elem_of_dropWhile {A : Type} (p : A → bool) (l : list A) (x : A) :
  x ∈ dropWhile p l → x ∈ l.
Proof.
  induction l as [|y l IH]; simpl; [done|].
  destruct (p y); [intros Hx; right; by apply IH | done].
Qed.

Lemma dropWhile_head {A : Type} (p : A → bool) (l : list A) :
  match dropWhile p l with
  | c :: _ => p c = false
  | [] => True
  end.
Proof.
  induction l as [|y l IH]; simpl; [done|]. by destruct (p y) eqn:Hy.
Qed.

Lemma dropWhile_snoc {A : Type} (p : A → bool) (l : list A) (x : A) :
  p x = false → dropWhile p (l ++ [x]) = dropWhile p l ++ [x].
Proof.
  intros Hx. induction l as [|y l IH]; simpl; [by rewrite Hx|].
  by destruct (p y).
Qed.

Lemma elem_of_trim (s : jsstring) (c : N) : c ∈ trim s → c ∈ s.
Proof.
  unfold trim. rewrite list_elem_of_In, <- in_rev, <- list_elem_of_In.
  intros Hc%elem_of_dropWhile.
  rewrite list_elem_of_In, <- in_rev, <- list_elem_of_In in Hc.
  by apply elem_of_dropWhile in Hc.
Qed.

(** A text with no white space at either end. *)
Definition trimmed (s : jsstring) : Prop :=
  match s with
  | c :: _ => isWhiteSpace c = false
  | [] => True
  end
  ∧ match rev s with
    | c :: _ => isWhiteSpace c = false
    | [] => True
    end.

Lemma trim_trimmed (s : jsstring) : trimmed (trim s).
Proof.
  unfold trimmed, trim. split.
  - pose proof (dropWhile_head isWhiteSpace s) as Hhead.
    destruct (dropWhile isWhiteSpace s) as [|x t]; [done|].
    cbn [rev]. rewrite (dropWhile_snoc isWhiteSpace (rev t) x Hhead).
    by rewrite rev_app_distr.
  - rewrite rev_involutive. apply dropWhile_head.
Qed.

Lemma newSet_spec {A : Type} `{EqDecision A} (items : list A) :
  NoDup (newSet items) ∧ ∀ x, x ∈ newSet items ↔ x ∈ items.
Proof.
  unfold newSet.
  assert (Hgen : ∀ acc : list A,
    NoDup acc →
    NoDup (fold_left (fun acc x => if bool_decide (x ∈ acc) then acc else acc ++ [x])
             items acc)
    ∧ ∀ x, x ∈ fold_left
                 (fun acc x => if bool_decide (x ∈ acc) then acc else acc ++ [x])
                 items acc
           ↔ x ∈ acc ∨ x ∈ items).
  { induction items as [|y items IH]; intros acc Hacc; simpl.
    - split; [done|]. intros x. split; [auto | intros [?|Hx]; [done|]].
      by apply not_elem_of_nil in Hx.
    - case_bool_decide as Hy.
      + destruct (IH acc Hacc) as [Hnd Hin]. split; [done|].
        intros x. rewrite Hin, elem_of_cons. split; [tauto|].
        intros [?|[->|?]]; auto.
      + destruct (IH (acc ++ [y])) as [Hnd Hin].
        { apply NoDup_app. split_and!; [done | | apply NoDup_singleton].
          by intros z Hz ->%list_elem_of_singleton. }
        split; [done|]. intros x.
        rewrite Hin, elem_of_app, list_elem_of_singleton, elem_of_cons. tauto. }
  destruct (Hgen [] NoDup_nil_2) as [Hnd Hin]. split; [done|].
  intros x. rewrite Hin. split; [intros [Hx|?]; [|done] | auto].
  by apply not_elem_of_nil in Hx.
Qed.

(** The names of a list of captures that have no closing brace: each is
    trimmed and has neither a comma nor a closing brace. *)
Lemma namesOf_names (captures : list jsstring) :
  Forall (fun capture => Forall (fun c => c ≠ 125%N) capture) captures →
  Forall (fun name => trimmed name ∧ Forall (fun c => c ≠ 44%N ∧ c ≠ 125%N) name)
    (namesOf captures).
Proof.
  intros Hcaptures. unfold namesOf. apply Forall_forall. intros name Hname.
  apply list_elem_of_In, in_flat_map in Hname as (capture & Hcap & Hname).
  apply list_elem_of_In in Hcap. apply in_map_iff in Hname as (piece & <- & Hpiece).
  split; [apply trim_trimmed|].
  apply Forall_forall. intros c Hc%elem_of_trim.
  pose proof (splitComma_pieces capture) as Hpieces.
  rewrite Forall_forall in Hpieces.
  specialize (Hpieces piece ltac:(by apply list_elem_of_In)).
  rewrite Forall_forall in Hpieces. destruct (Hpieces c Hc) as [Hin Hcomma].
  split; [done|].
  rewrite Forall_forall in Hcaptures. specialize (Hcaptures capture Hcap).
  rewrite Forall_forall in Hcaptures. by apply Hcaptures.
Qed.

(** ** The first occurrence of a command is found *)

Lemma indexOf_unfold (lit s : jsstring) :
  indexOf lit s
  = match stripPrefix lit s with
    | Some _ => Some 0
    | None =>
        match s with
        | [] => None
        | _ :: rest => S <$> indexOf lit rest
        end
    end.
Proof. by destruct s. Qed.

Lemma stripPrefix_app_inv (lit p s r : jsstring) :
  stripPrefix lit (p ++ s) = Some r →
  is_Some (stripPrefix lit p)
  ∨ ∃ l2, l2 ≠ [] ∧ lit = p ++ l2 ∧ stripPrefix l2 s = Some r.
Proof.
  revert p. induction lit as [|l lit IH]; intros p; [by left; eexists|].
  destruct p as [|c p].
  - intros Hs. right. by exists (l :: lit).
  - cbn [app stripPrefix]. destruct (l =? c)%N eqn:Hl; [|done].
    apply N.eqb_eq in Hl as ->.
    intros [Hp|(l2 & Hne & -> & Hs)]%IH; [by left | right; by exists l2].
Qed.

Lemma includes_suffix (lit p1 p2 : jsstring) :
  is_Some (stripPrefix lit p2) → includes lit (p1 ++ p2) = true.
Proof.
  intros [r Hr]. unfold includes.
  assert (Hsome : is_Some (indexOf lit (p1 ++ p2))).
  { induction p1 as [|c p1 IH].
    - rewrite indexOf_unfold. cbn [app]. rewrite Hr. by eexists.
    - rewrite indexOf_unfold.
      destruct (stripPrefix lit ((c :: p1) ++ p2)); [by eexists|].
      cbn [app]. destruct IH as [i ->]. by eexists. }
  by destruct Hsome as [i ->].
Qed.

(** A command is a backslash and a name without one. *)
Definition commandNamed (name : jsstring) : jsstring := backslash :: name.

(** No occurrence of the command starts in [pre], also when a text that
    starts with a backslash follows. *)
Lemma stripPrefix_before (name p1 p2 s : jsstring) :
  Forall (fun c => c ≠ backslash) name →
  includes (commandNamed name) (p1 ++ p2) = false →
  p2 ≠ [] →
  stripPrefix (commandNamed name) (p2 ++ backslash :: s) = None.
Proof.
  intros Hname Hpre Hp2.
  destruct (stripPrefix (commandNamed name) (p2 ++ backslash :: s)) as [r|] eqn:Hs;
    [exfalso | done].
  apply stripPrefix_app_inv in Hs as [Hin|(l2 & Hl2 & Hsplit & Hs)].
  - rewrite (includes_suffix _ p1 p2 Hin) in Hpre. discriminate.
  - destruct p2 as [|c p2]; [done|].
    injection Hsplit as _ ->.
    destruct l2 as [|x l2]; [done|].
    apply Forall_app in Hname as [_ Hx]. apply Forall_cons in Hx as [Hx _].
    cbn [stripPrefix] in Hs. destruct (x =? backslash)%N eqn:Heq; [|done].
    by apply N.eqb_eq in Heq.
Qed.

Lemma matchAll_before (anchored : jsstring → option (jsstring * nat))
    (pre s : jsstring) :
  (∀ p1 p2, pre = p1 ++ p2 → p2 ≠ [] → anchored (p2 ++ s) = None) →
  matchAll anchored 0 (pre ++ s) = matchAll anchored 0 s.
Proof.
  induction pre as [|c pre IH]; intros Hnone; [done|].
  cbn [app matchAll].
  rewrite (Hnone [] (c :: pre) eq_refl ltac:(done) : anchored (c :: pre ++ s) = None).
  apply IH. intros p1 p2 -> Hp2. by apply (Hnone (c :: p1) p2).
Qed.

(** The text of a command with its names: white space, options in brackets
    when there are any, white space, and the names in braces. *)
Definition commandText (name ws : jsstring) (options : option jsstring)
    (ws' names : jsstring) : jsstring :=
  commandNamed name ++ ws
  ++ match options with
     | Some o => 91%N :: o ++ [93%N]
     | None => []
     end
  ++ ws' ++ 123%N :: names ++ [125%N].

Lemma optionsThenBraces_match (ws : jsstring) (options : option jsstring)
    (ws' names post : jsstring) :
  Forall (fun c => isWhiteSpace c = true) ws →
  Forall (fun c => isWhiteSpace c = true) ws' →
  (∀ o, options = Some o → Forall (fun c => c ≠ 93%N) o) →
  names ≠ [] → Forall (fun c => c ≠ 125%N) names →
  optionsThenBraces true
    (ws ++ match options with
           | Some o => 91%N :: o ++ [93%N]
           | None => []
           end
        ++ ws' ++ 123%N :: names ++ 125%N :: post)
  = Some (names, post).
Proof.
  intros Hws Hws' Hopts Hne Hnames. unfold optionsThenBraces. cbv zeta.
  unfold skipWhiteSpace. destruct options as [o|].
  - cbn [app]. rewrite (dropWhile_app_stop isWhiteSpace ws _ 91%N Hws eq_refl).
    cbn [bracketGroup]. rewrite <- app_assoc. cbn [app].
    rewrite (dropWhile_app_stop (fun c => negb (c =? 93)%N) o _ 93%N);
      [| | done].
    + rewrite (dropWhile_app_stop isWhiteSpace ws' _ 123%N Hws' eq_refl).
      by rewrite braceGroup_match.
    + eapply Forall_impl; [exact (Hopts o eq_refl)|]. simpl. intros c Hc.
      by apply negb_true_iff, N.eqb_neq.
  - cbn [app]. rewrite app_assoc.
    rewrite (dropWhile_app_stop isWhiteSpace (ws ++ ws') _ 123%N);
      [| by apply Forall_app | done].
    cbn [bracketGroup]. by apply braceGroup_match.
Qed.

(** The names of the first occurrence of a command in a source are the
    first match. *)
Lemma matchAll_first (name pre ws : jsstring) (options : option jsstring)
    (ws' names post : jsstring) :
  Forall (fun c => c ≠ backslash) name →
  includes (commandNamed name) pre = false →
  Forall (fun c => isWhiteSpace c = true) ws →
  Forall (fun c => isWhiteSpace c = true) ws' →
  (∀ o, options = Some o → Forall (fun c => c ≠ 93%N) o) →
  names ≠ [] → Forall (fun c => c ≠ 125%N) names →
  ∃ more,
    matchAll (commandThenBraces true (commandNamed name)) 0
      (pre ++ commandText name ws options ws' names ++ post)
    = names :: more.
Proof.
  intros Hname Hpre Hws Hws' Hopts Hne Hnames.
  unfold commandText, commandNamed.
  rewrite matchAll_before.
  - cbn [app matchAll].
    assert (Hmatch : ∃ len,
      commandThenBraces true (backslash :: name)
        (backslash :: (name ++ ws
           ++ match options with
              | Some o => 91%N :: o ++ [93%N]
              | None => []
              end
           ++ ws' ++ 123%N :: names ++ [125%N]) ++ post)
      = Some (names, len)).
    { unfold commandThenBraces.
      rewrite <- !app_assoc.
      change (backslash :: name ++ ?t) with ((backslash :: name) ++ t).
      rewrite stripPrefix_same. cbn [app].
      replace ((names ++ [125%N]) ++ post) with (names ++ 125%N :: post)
        by (by rewrite <- app_assoc).
      rewrite (optionsThenBraces_match ws options ws' names post
                 Hws Hws' Hopts Hne Hnames).
      by eexists. }
    destruct Hmatch as [len ->]. by eexists.
  - intros p1 p2 -> Hp2. unfold commandThenBraces. cbn [app].
    by rewrite (stripPrefix_before name p1 p2 _ Hname Hpre Hp2).
Qed.

(** ** Object literals used as tables *)

(** The members every object literal inherits from [Object.prototype]. *)
Definition objectPrototypeKeys : list string :=
  [ "constructor"; "__defineGetter__"; "__defineSetter__"; "hasOwnProperty";
    "__lookupGetter__"; "__lookupSetter__"; "isPrototypeOf";
    "propertyIsEnumerable"; "toString"; "valueOf"; "__proto__";
    "toLocaleString" ].

(** What [table[key]] evaluates to when [table] is an object literal: the
    value written under the key, the member of that name inherited from
    [Object.prototype] (a function, or the prototype itself: truthy, and
    neither a string nor an array), or [undefined]. *)
Inductive property (V : Type) :=
| Own (value : V)
| Inherited (key : string)
| Undefined.
Arguments Own {V} _.
Arguments Inherited {V} _.
Arguments Undefined {V}.

Definition getProperty {V : Type} (table : list (string * V)) (key : jsstring)
  : property V :=
  match List.find (fun entry => bool_decide (js (fst entry) = key)) table with
  | Some entry => Own (snd entry)
  | None =>
      match List.find (fun k => bool_decide (js k = key)) objectPrototypeKeys with
      | Some k => Inherited k
      | None => Undefined
      end
  end.

End Scan.

(** * BundleLoader: from a source to its bundles *)

Module BundleLoaderPackages.
Import EngineSelector Scan.

(** [parsePackages(latex)]: the names in the [\usepackage] commands, then
    those in the [\RequirePackage] commands, each once. *)
Definition parsePackages (latex : jsstring) : list jsstring :=
  let packages :=
    namesOf (matchAll (commandThenBraces true usepackage) 0 latex)
    ++ namesOf (matchAll (commandThenBraces true RequirePackage) 0 latex) in
  newSet packages.

(** [PACKAGE_TO_BUNDLE] *)
Definition PACKAGE_TO_BUNDLE : list (string * list string) :=
  [ ("article", ["core"]);
    ("report", ["core"]);
    ("book", ["core"]);
    ("letter", ["core"]);
    ("amsmath", ["amsmath"; "fonts-symbols"]);
    ("amssymb", ["amsmath"; "fonts-symbols"]);
    ("amsthm", ["amsmath"]);
    ("amsfonts", ["amsmath"; "fonts-symbols"]);
    ("graphicx", ["graphics"]);
    ("graphics", ["graphics"]);
    ("xcolor", ["graphics"]);
    ("color", ["graphics"]);
    ("hyperref", ["hyperref"]);
    ("url", ["hyperref"]);
    ("babel", ["babel"]);
    ("expl3", ["l3"]);
    ("xparse", ["l3"]);
    ("fontspec", ["fonts-lm-otf"; "tex-xelatex"]);
    ("lmodern", ["fonts-lm-tfm"; "fonts-lm-type1"]);
    ("mathptmx", ["fonts-misc"]);
    ("times", ["fonts-misc"]);
    ("euler", ["fonts-euler"]);
    ("natbib", ["bibtex"]);
    ("biblatex", ["bibtex"]) ].

(** The body of the loop of [resolveBundles]: [requiredBundles.forEach] adds
    the bundles of a package of the table; it is not a function when the
    name is one of an inherited member, and the call throws a
    [TypeError]. *)
Definition addRequired (acc : string + list string) (pkg : jsstring)
  : string + list string :=
  match acc with
  | inl e => inl e
  | inr bundles =>
      match getProperty PACKAGE_TO_BUNDLE pkg with
      | Own requiredBundles =>
          inr (fold_left (fun bs b => set_add b bs) requiredBundles bundles)
      | Inherited _ => inl "TypeError: requiredBundles.forEach is not a function"
      | Undefined => inr bundles
      end
  end.

(** [resolveBundles(packages)]; [inl] is the error thrown. *)
Definition resolveBundles (packages : list jsstring) : string + list string :=
  fold_left addRequired packages (inr []).

(** X12.  The names [parsePackages] returns are distinct; each has no white
    space at either end and contains neither a comma nor a closing
    brace. *)
Theorem parsePackages_names (latex : jsstring) :
  NoDup (parsePackages latex)
  ∧ Forall (fun name => trimmed name
                        ∧ Forall (fun c => c ≠ 44%N ∧ c ≠ 125%N) name)
      (parsePackages latex).
Proof.
  unfold parsePackages. cbv zeta.
  match goal with |- context [newSet ?l] =>
    destruct (newSet_spec l) as [Hnd Hin]; set (packages := l) in *
  end.
  split; [exact Hnd|].
  assert (Hall : Forall (fun name => trimmed name
                           ∧ Forall (fun c => c ≠ 44%N ∧ c ≠ 125%N) name)
                   packages).
  { subst packages. apply Forall_app. split; apply namesOf_names;
      apply matchAll_Forall; intros s capture len Hm;
      by destruct (commandThenBraces_Some _ _ _ _ _ Hm). }
  rewrite Forall_forall in Hall. apply Forall_forall.
  intros name Hname. apply Hall. by apply Hin.
Qed.

(** X13.  The first [\usepackage] of a source is always found: whatever
    comes before it, as long as it has no [\usepackage] itself, and whatever
    follows, every name between its braces is among the packages, trimmed.
    White space may stand before and after the options. *)
Theorem parsePackages_finds_first (pre ws : jsstring) (options : option jsstring)
    (ws' names post : jsstring) :
  includes usepackage pre = false →
  Forall (fun c => isWhiteSpace c = true) ws →
  Forall (fun c => isWhiteSpace c = true) ws' →
  (∀ o, options = Some o → Forall (fun c => c ≠ 93%N) o) →
  names ≠ [] → Forall (fun c => c ≠ 125%N) names →
  ∀ name, name ∈ splitComma names →
    trim name
    ∈ parsePackages
        (pre ++ commandText (js "usepackage") ws options ws' names ++ post).
Proof.
  intros Hpre Hws Hws' Hopts Hne Hnames name Hname.
  unfold parsePackages. cbv zeta.
  match goal with |- context [newSet ?l] =>
    destruct (newSet_spec l) as [_ Hin]
  end.
  apply Hin. apply elem_of_app. left.
  destruct (matchAll_first (js "usepackage") pre ws options ws' names post)
    as [more Hfirst]; try done.
  { vm_compute. repeat (constructor; [discriminate|]). constructor. }
  unfold usepackage. fold (commandNamed (js "usepackage")). rewrite Hfirst.
  unfold namesOf. cbn [flat_map]. apply elem_of_app. left.
  apply list_elem_of_fmap. by exists name.
Qed.

Lemma NoDup_adds (required bundles : list string) :
  NoDup bundles → NoDup (fold_left (fun bs b => set_add b bs) required bundles).
Proof.
  revert bundles. induction required as [|b required IH]; intros bundles Hnd;
    [done|].
  cbn [fold_left]. by apply IH, set_add_NoDup.
Qed.

Lemma elem_of_adds (required bundles : list string) (b : string) :
  b ∈ fold_left (fun bs b => set_add b bs) required bundles
  ↔ b ∈ bundles ∨ b ∈ required.
Proof.
  revert bundles. induction required as [|r required IH]; intros bundles;
    cbn [fold_left].
  - split; [auto | intros [?|Hb]; [done|]]. by apply not_elem_of_nil in Hb.
  - rewrite IH, elem_of_set_add, elem_of_cons. tauto.
Qed.

(** X14.  [resolveBundles] throws exactly when one of the packages has the
    name of a member that the table inherits from [Object.prototype]
    ([constructor], [toString], ...).  Otherwise it returns, each once, the
    bundles of those packages that are keys of [PACKAGE_TO_BUNDLE]; a
    package that is not a key adds nothing. *)
Theorem resolveBundles_known (packages : list jsstring) :
  match resolveBundles packages with
  | inl _ =>
      ∃ pkg key, pkg ∈ packages ∧ getProperty PACKAGE_TO_BUNDLE pkg = Inherited key
  | inr bundles =>
      (∀ pkg key, pkg ∈ packages →
                  getProperty PACKAGE_TO_BUNDLE pkg ≠ Inherited key)
      ∧ NoDup bundles
      ∧ ∀ b, b ∈ bundles
             ↔ ∃ pkg requiredBundles,
                 pkg ∈ packages
                 ∧ getProperty PACKAGE_TO_BUNDLE pkg = Own requiredBundles
                 ∧ b ∈ requiredBundles
  end.
Proof.
  unfold resolveBundles.
  assert (Hgen : ∀ (seen : list jsstring) (acc : string + list string),
    match acc with
    | inl _ =>
        ∃ pkg key, pkg ∈ seen ∧ getProperty PACKAGE_TO_BUNDLE pkg = Inherited key
    | inr bundles =>
        (∀ pkg key, pkg ∈ seen →
                    getProperty PACKAGE_TO_BUNDLE pkg ≠ Inherited key)
        ∧ NoDup bundles
        ∧ ∀ b, b ∈ bundles
               ↔ ∃ pkg requiredBundles,
                   pkg ∈ seen
                   ∧ getProperty PACKAGE_TO_BUNDLE pkg = Own requiredBundles
                   ∧ b ∈ requiredBundles
    end →
    match fold_left addRequired packages acc with
    | inl _ =>
        ∃ pkg key, pkg ∈ seen ++ packages
                   ∧ getProperty PACKAGE_TO_BUNDLE pkg = Inherited key
    | inr bundles =>
        (∀ pkg key, pkg ∈ seen ++ packages →
                    getProperty PACKAGE_TO_BUNDLE pkg ≠ Inherited key)
        ∧ NoDup bundles
        ∧ ∀ b, b ∈ bundles
               ↔ ∃ pkg requiredBundles,
                   pkg ∈ seen ++ packages
                   ∧ getProperty PACKAGE_TO_BUNDLE pkg = Own requiredBundles
                   ∧ b ∈ requiredBundles
    end).
  { induction packages as [|pkg packages IH]; intros seen acc Hacc.
    - cbn [fold_left]. by rewrite app_nil_r.
    - cbn [fold_left].
      replace (seen ++ pkg :: packages) with ((seen ++ [pkg]) ++ packages)
        by (by rewrite <- app_assoc).
      apply IH. destruct acc as [e|bundles]; cbn [addRequired].
      + destruct Hacc as (p & key & Hp & Hkey). exists p, key.
        split; [apply elem_of_app; by left | done].
      + destruct Hacc as (Hok & Hnd & Hin).
        destruct (getProperty PACKAGE_TO_BUNDLE pkg) as [required|key|] eqn:Hget.
        * split_and!.
          -- intros p key [Hp|Hp%list_elem_of_singleton]%elem_of_app;
               [by apply Hok | subst p; by rewrite Hget].
          -- by apply NoDup_adds.
          -- intros b. rewrite elem_of_adds, Hin. split.
             ++ intros [(p & r & Hp & Hr & Hb)|Hb].
                ** exists p, r. split; [apply elem_of_app; by left | done].
                ** exists pkg, required.
                   split; [apply elem_of_app; right; by left | done].
             ++ intros (p & r & [Hp|Hp%list_elem_of_singleton]%elem_of_app
                        & Hr & Hb).
                ** left. by exists p, r.
                ** right. subst p. rewrite Hget in Hr. by injection Hr as ->.
        * exists pkg, key. split; [apply elem_of_app; right; by left | done].
        * split_and!; [| done |].
          -- intros p key [Hp|Hp%list_elem_of_singleton]%elem_of_app;
               [by apply Hok | subst p; by rewrite Hget].
          -- intros b. rewrite Hin. split.
             ++ intros (p & r & Hp & Hr & Hb). exists p, r.
                split; [apply elem_of_app; by left | done].
             ++ intros (p & r & [Hp|Hp%list_elem_of_singleton]%elem_of_app
                        & Hr & Hb); [by exists p, r|].
                subst p. rewrite Hget in Hr. discriminate. }
  apply (Hgen [] (inr [])). split_and!.
  - by intros pkg key Hin%not_elem_of_nil.
  - apply NoDup_nil_2.
  - intros b. split; [by intros Hb%not_elem_of_nil|].
    by intros (p & r & Hp%not_elem_of_nil & _).
Qed.

Example resolveBundles_examples :
  resolveBundles [js "amsmath"; js "tikz"; js "hyperref"; js "amssymb"]
  = inr ["amsmath"; "fonts-symbols"; "hyperref"]
  ∧ resolveBundles [js "amsmath"; js "constructor"]
    = inl "TypeError: requiredBundles.forEach is not a function".
Proof. split; vm_compute; reflexivity. Qed.

Example parsePackages_example :
  parsePackages
    (js "\usepackage [utf8] {inputenc}% \usepackage{a, b}" ++ lf
     ++ js "\RequirePackage{b,inputenc}")
  = [js "inputenc"; js "a"; js "b"].
Proof. vm_compute. reflexivity. Qed.

Lemma parsePackages_finds_first_witness :
  let pre := js "% demo" ++ lf ++ js "\documentclass{article}" ++ lf in
  let names := js "inputenc, fontenc" in
  let post := lf ++ js "\begin{document}\end{document}" in
  includes usepackage pre = false
  ∧ js " fontenc" ∈ splitComma names
  ∧ trim (js " fontenc")
    ∈ parsePackages
        (pre ++ commandText (js "usepackage") [32%N] (Some (js "T1")) [] names
         ++ post).
Proof.
  cbv zeta.
  assert (Hpre : includes usepackage
                   (js "% demo" ++ lf ++ js "\documentclass{article}" ++ lf)
                 = false) by (vm_compute; reflexivity).
  assert (Hname : js " fontenc" ∈ splitComma (js "inputenc, fontenc")).
  { vm_compute. right. by left. }
  split; [exact Hpre|]. split; [exact Hname|].
  apply (parsePackages_finds_first _ [32%N] (Some (js "T1")) []
           (js "inputenc, fontenc")); try done.
  - by repeat constructor.
  - intros o [= <-]. vm_compute. by repeat constructor.
  - vm_compute. repeat (constructor; [discriminate|]). constructor.
Defined.

End BundleLoaderPackages.

(** * PackageManager: from a source to its bundles *)

Module PackageManagerPackages.
Import EngineSelector Scan.

(** [parseRequiredPackages(latex)]: the names in the [\usepackage] commands,
    those in the [\RequirePackage] commands, the class (and [beamer] again
    when it is the class), [tikz] when [\usetikzlibrary] occurs, [biblatex]
    when [\bibliography{] or [\addbibresource{] occurs; each once. *)
Definition parseRequiredPackages (latex : jsstring) : list jsstring :=
  let uses := namesOf (matchAll (commandThenBraces true usepackage) 0 latex) in
  let requires :=
    namesOf (matchAll (commandThenBraces true RequirePackage) 0 latex) in
  let class :=
    match matchFirst (commandThenBraces true documentclass) latex with
    | Some capture =>
        trim capture
        :: (if bool_decide (trim capture = js "beamer") then [js "beamer"] else [])
    | None => []
    end in
  let tikz :=
    if includes (backslash :: js "usetikzlibrary") latex then [js "tikz"] else [] in
  let bibliography :=
    if includes (backslash :: js "bibliography{") latex
       || includes (backslash :: js "addbibresource{") latex
    then [js "biblatex"] else [] in
  newSet (uses ++ requires ++ class ++ tikz ++ bibliography).

(** [PACKAGE_BUNDLE_MAP] *)
Definition PACKAGE_BUNDLE_MAP : list (string * string) :=
  [ ("article", "core");
    ("book", "core");
    ("report", "core");
    ("letter", "core");
    ("latex", "core");
    ("amsmath", "math");
    ("amssymb", "math");
    ("amsthm", "math");
    ("mathtools", "math");
    ("amsfonts", "math");
    ("amscd", "math");
    ("bm", "math");
    ("mathrsfs", "math");
    ("graphicx", "graphics");
    ("graphics", "graphics");
    ("xcolor", "graphics");
    ("color", "graphics");
    ("float", "graphics");
    ("wrapfig", "graphics");
    ("subfig", "graphics");
    ("subcaption", "graphics");
    ("epsfig", "graphics");
    ("tikz", "tikz");
    ("pgf", "tikz");
    ("pgfplots", "tikz");
    ("pgfpages", "tikz");
    ("tikz-cd", "tikz");
    ("circuitikz", "tikz");
    ("booktabs", "tables");
    ("tabularx", "tables");
    ("longtable", "tables");
    ("multirow", "tables");
    ("array", "tables");
    ("colortbl", "tables");
    ("tabu", "tables");
    ("biblatex", "bibliography");
    ("natbib", "bibliography");
    ("cite", "bibliography");
    ("bibentry", "bibliography");
    ("fontspec", "fonts");
    ("times", "fonts-basic");
    ("helvet", "fonts-basic");
    ("courier", "fonts-basic");
    ("mathptmx", "fonts-basic");
    ("palatino", "fonts-basic");
    ("libertine", "fonts-extra");
    ("sourcecodepro", "fonts-extra");
    ("listings", "code");
    ("minted", "code");
    ("verbatim", "code");
    ("fancyvrb", "code");
    ("algorithm", "code");
    ("algorithm2e", "code");
    ("algorithmicx", "code");
    ("beamer", "beamer");
    ("beamertheme", "beamer");
    ("siunitx", "science");
    ("physics", "science");
    ("chemfig", "science");
    ("mhchem", "science");
    ("units", "science");
    ("geometry", "layout");
    ("fancyhdr", "layout");
    ("titlesec", "layout");
    ("titling", "layout");
    ("setspace", "layout");
    ("parskip", "layout");
    ("enumitem", "layout");
    ("multicol", "layout");
    ("hyperref", "hyperref");
    ("url", "hyperref");
    ("bookmark", "hyperref");
    ("xparse", "utilities");
    ("etoolbox", "utilities");
    ("ifthen", "utilities");
    ("calc", "utilities");
    ("xstring", "utilities");
    ("inputenc", "core");
    ("fontenc", "core");
    ("babel", "languages");
    ("polyglossia", "languages") ].

(** What [bundles] holds: the name of a bundle or, when a package has the
    name of a member inherited from [Object.prototype], that member. *)
Inductive bundle :=
| Named (name : string)
| Member (key : string).

#[export] Instance bundle_eq_dec : EqDecision bundle.
Proof. solve_decision. Defined.

(** [bundles.add(b)] *)
Definition add (b : bundle) (bundles : list bundle) : list bundle :=
  if bool_decide (b ∈ bundles) then bundles else bundles ++ [b].

(** [addBundleDependencies(bundle, bundles)], with the depth of the calls
    bounded by [fuel]; [None] when the bound is hit.  It is called with names
    of [PACKAGE_BUNDLE_MAP] and [BUNDLE_DEPENDENCIES] only. *)
Fixpoint addBundleDependencies (fuel : nat) (name : string)
    (bundles : list bundle) : option (list bundle) :=
  match fuel with
  | O => None
  | S fuel' =>
      fold_left
        (fun acc dep =>
           match acc with
           | None => None
           | Some bs =>
               if bool_decide (Named dep ∈ bs) then Some bs
               else addBundleDependencies fuel' dep (bs ++ [Named dep])
           end)
        (PackageManager.dependenciesOf name) (Some bundles)
  end.

(** The body of the loop of [resolveBundles].  An inherited member is
    truthy, so it is added; converted to a key of [BUNDLE_DEPENDENCIES] it
    names no entry, so nothing is added for it. *)
Definition addPackage (fuel : nat) (acc : option (list bundle)) (pkg : jsstring)
  : option (list bundle) :=
  match acc with
  | None => None
  | Some bundles =>
      match getProperty PACKAGE_BUNDLE_MAP pkg with
      | Own name =>
          if truthy name then addBundleDependencies fuel name (add (Named name) bundles)
          else Some bundles
      | Inherited key => Some (add (Member key) bundles)
      | Undefined => Some bundles
      end
  end.

Definition resolveBundles_fuel (fuel : nat) (packages : list jsstring)
  : option (list bundle) :=
  add (Named "core") <$> fold_left (addPackage fuel) packages (Some []).

(** [resolveBundles(packages)]: no bundle of [BUNDLE_DEPENDENCIES] ranks
    above 3, so four frames suffice ([resolveBundles_returns]). *)
Definition resolveBundles (packages : list jsstring) : list bundle :=
  default [] (resolveBundles_fuel 4 packages).

(** ** The bundles are closed under dependencies *)

Lemma elem_of_add (b x : bundle) (bundles : list bundle) :
  x ∈ add b bundles ↔ x = b ∨ x ∈ bundles.
Proof.
  unfold add. case_bool_decide as Hb.
  - split; [auto | intros [->|?]; auto].
  - rewrite elem_of_app, list_elem_of_singleton. tauto.
Qed.

Lemma NoDup_add (b : bundle) (bundles : list bundle) :
  NoDup bundles → NoDup (add b bundles).
Proof.
  intros Hnd. unfold add. case_bool_decide as Hb; [done|].
  apply NoDup_app. split_and!; [done | | apply NoDup_singleton].
  by intros z Hz ->%list_elem_of_singleton.
Qed.

(** All that [name] depends on is among the bundles. *)
Definition closedAt (bundles : list bundle) (name : string) : Prop :=
  ∀ d, d ∈ PackageManager.dependenciesOf name → Named d ∈ bundles.

(** What a run from [bs] to [bs'] keeps and adds: nothing is lost, no
    inherited member is added, and every bundle added has its dependencies
    among the bundles. *)
Definition grows (bs bs' : list bundle) : Prop :=
  (∀ b, b ∈ bs → b ∈ bs')
  ∧ (NoDup bs → NoDup bs')
  ∧ (∀ key, Member key ∈ bs' → Member key ∈ bs)
  ∧ (∀ x, Named x ∈ bs' → Named x ∉ bs → closedAt bs' x).

Lemma closedAt_mono (bs bs' : list bundle) (name : string) :
  (∀ b, b ∈ bs → b ∈ bs') → closedAt bs name → closedAt bs' name.
Proof. intros Hsub Hc d Hd. by apply Hsub, Hc. Qed.

Lemma grows_refl (bs : list bundle) : grows bs bs.
Proof. by split_and!. Qed.

Lemma grows_trans (bs1 bs2 bs3 : list bundle) :
  grows bs1 bs2 → grows bs2 bs3 → grows bs1 bs3.
Proof.
  intros (Hs1 & Hn1 & Hm1 & Hc1) (Hs2 & Hn2 & Hm2 & Hc2). split_and!; auto.
  intros x Hx Hnx. destruct (decide (Named x ∈ bs2)) as [Hin|Hin]; [|auto].
  by apply (closedAt_mono bs2 bs3), Hc1.
Qed.

(** The loop of [addBundleDependencies] over the dependencies [deps]. *)
Definition addEach (fuel : nat) (deps : list string) (acc : option (list bundle))
  : option (list bundle) :=
  fold_left
    (fun acc dep =>
       match acc with
       | None => None
       | Some bs =>
           if bool_decide (Named dep ∈ bs) then Some bs
           else addBundleDependencies fuel dep (bs ++ [Named dep])
       end)
    deps acc.

Lemma addEach_None (fuel : nat) (deps : list string) : addEach fuel deps None = None.
Proof. induction deps as [|d deps IH]; [done | exact IH]. Qed.

Lemma addEach_grows (fuel : nat) (deps : list string) :
  (∀ name bs bs', addBundleDependencies fuel name bs = Some bs' →
                  grows bs bs' ∧ closedAt bs' name) →
  ∀ bs bs' : list bundle,
    addEach fuel deps (Some bs) = Some bs' →
    grows bs bs' ∧ ∀ d, d ∈ deps → Named d ∈ bs'.
Proof.
  intros Hfuel. induction deps as [|d deps IH]; intros bs bs' Hrun.
  - injection Hrun as <-. split; [apply grows_refl|].
    by intros d Hd%not_elem_of_nil.
  - change (addEach fuel deps
              (if bool_decide (Named d ∈ bs) then Some bs
               else addBundleDependencies fuel d (bs ++ [Named d])) = Some bs')
      in Hrun.
    destruct (bool_decide (Named d ∈ bs)) eqn:Hd.
    + apply bool_decide_eq_true_1 in Hd.
      destruct (IH bs bs' Hrun) as [Hg Hdeps]. split; [done|].
      intros x [->|Hx]%elem_of_cons; [by apply Hg | by apply Hdeps].
    + apply bool_decide_eq_false_1 in Hd.
      destruct (addBundleDependencies fuel d (bs ++ [Named d])) as [bs1|] eqn:Hv;
        [|by rewrite addEach_None in Hrun].
      destruct (Hfuel d _ bs1 Hv) as [(Hs & Hn & Hm & Hc) Hcd].
      destruct (IH bs1 bs' Hrun) as [Hg Hdeps].
      assert (Hg1 : grows bs bs1).
      { split_and!.
        - intros b Hb. apply Hs, elem_of_app. by left.
        - intros Hnd. apply Hn, NoDup_app.
          split_and!; [done | | apply NoDup_singleton].
          by intros z Hz ->%list_elem_of_singleton.
        - intros key [Hk|Hk%list_elem_of_singleton]%Hm%elem_of_app;
            [done | discriminate].
        - intros x Hx Hnx. destruct (decide (x = d)) as [->|Hne]; [done|].
          apply Hc; [done|].
          intros [?|[= ?]%list_elem_of_singleton]%elem_of_app; contradiction. }
      split; [by apply (grows_trans bs bs1 bs')|].
      intros x [->|Hx]%elem_of_cons; [|by apply Hdeps].
      apply Hg, Hs, elem_of_app. right. by left.
Qed.

Lemma addBundleDependencies_grows (fuel : nat) :
  ∀ (name : string) (bs bs' : list bundle),
    addBundleDependencies fuel name bs = Some bs' →
    grows bs bs' ∧ closedAt bs' name.
Proof.
  induction fuel as [|fuel IH]; intros name bs bs' Hrun; [done|].
  cbn [addBundleDependencies] in Hrun.
  by apply (addEach_grows fuel (PackageManager.dependenciesOf name) IH bs bs').
Qed.

(** [BUNDLE_DEPENDENCIES] has no cycle, so the recursion returns. *)
Lemma addEach_returns (fuel : nat) (deps : list string) :
  (∀ name bs, PackageManager.rank name < fuel →
              is_Some (addBundleDependencies fuel name bs)) →
  Forall (fun d => PackageManager.rank d < fuel) deps →
  ∀ bs, is_Some (addEach fuel deps (Some bs)).
Proof.
  intros Hfuel. induction deps as [|d deps IH]; intros Hdeps bs; [by eexists|].
  apply Forall_cons in Hdeps as [Hd Hdeps].
  change (is_Some (addEach fuel deps
                     (if bool_decide (Named d ∈ bs) then Some bs
                      else addBundleDependencies fuel d (bs ++ [Named d])))).
  case_bool_decide as Hin; [by apply IH|].
  destruct (Hfuel d (bs ++ [Named d]) Hd) as [bs1 ->]. by apply IH.
Qed.

Lemma addBundleDependencies_returns (fuel : nat) :
  ∀ (name : string) (bs : list bundle),
    PackageManager.rank name < fuel →
    is_Some (addBundleDependencies fuel name bs).
Proof.
  induction fuel as [|fuel IH]; intros name bs Hrank; [lia|].
  cbn [addBundleDependencies].
  apply (addEach_returns fuel (PackageManager.dependenciesOf name) IH).
  apply Forall_forall. intros d Hd.
  destruct (PackageManager.dependenciesOf_rank name d Hd) as [Hlt _]. lia.
Qed.

Lemma rank_le_3 (name : string) : PackageManager.rank name ≤ 3.
Proof.
  destruct (PackageManager.dependenciesOf name) as [|d deps] eqn:Hdeps.
  - unfold PackageManager.rank. cbn [length PackageManager.BUNDLE_DEPENDENCIES].
    cbn [PackageManager.rankWithin]. rewrite Hdeps. lia.
  - destruct (PackageManager.dependenciesOf_rank name d) as [_ Hle]; [|done].
    rewrite Hdeps. by left.
Qed.

(** Every bundle has its dependencies among the bundles. *)
Definition closed (bundles : list bundle) : Prop :=
  ∀ x, Named x ∈ bundles → closedAt bundles x.

(** What holds of the bundles once the packages [seen] have been looked
    at. *)
Definition resolved (seen : list jsstring) (acc : option (list bundle)) : Prop :=
  match acc with
  | None => False
  | Some bundles =>
      NoDup bundles ∧ closed bundles
      ∧ (∀ pkg name, pkg ∈ seen → getProperty PACKAGE_BUNDLE_MAP pkg = Own name →
                     Named name ∈ bundles)
      ∧ (∀ key, Member key ∈ bundles
                ↔ ∃ pkg, pkg ∈ seen ∧ getProperty PACKAGE_BUNDLE_MAP pkg = Inherited key)
  end.

Lemma PACKAGE_BUNDLE_MAP_truthy (pkg : jsstring) (name : string) :
  getProperty PACKAGE_BUNDLE_MAP pkg = Own name → truthy name = true.
Proof.
  unfold getProperty.
  destruct (List.find _ PACKAGE_BUNDLE_MAP) as [entry|] eqn:Hfind.
  - intros [= <-]. apply find_some in Hfind as [Hin _].
    assert (Hall : forallb (fun entry => truthy (snd entry)) PACKAGE_BUNDLE_MAP
                   = true) by (by vm_compute).
    rewrite forallb_forall in Hall. by apply Hall.
  - by destruct (List.find _ objectPrototypeKeys).
Qed.

Lemma addPackage_resolved (seen : list jsstring) (acc : option (list bundle))
    (pkg : jsstring) :
  resolved seen acc → resolved (seen ++ [pkg]) (addPackage 4 acc pkg).
Proof.
  destruct acc as [bs|]; [|done]. intros (Hnd & Hclosed & Hown & Hmember).
  cbn [addPackage].
  destruct (getProperty PACKAGE_BUNDLE_MAP pkg) as [name|key|] eqn:Hget.
  - rewrite (PACKAGE_BUNDLE_MAP_truthy pkg name Hget).
    destruct (addBundleDependencies_returns 4 name (add (Named name) bs))
      as [bs' Hrun]; [pose proof (rank_le_3 name); lia|].
    rewrite Hrun.
    destruct (addBundleDependencies_grows 4 name _ bs' Hrun)
      as [(Hs & Hn & Hm & Hc) Hcn].
    assert (Hsub : ∀ b, b ∈ bs → b ∈ bs').
    { intros b Hb. apply Hs, elem_of_add. by right. }
    split_and!.
    + by apply Hn, NoDup_add.
    + intros x Hx. destruct (decide (x = name)) as [->|Hne]; [done|].
      destruct (decide (Named x ∈ bs)) as [Hin|Hin].
      * by apply (closedAt_mono bs bs'), Hclosed.
      * apply Hc; [done|]. intros [[= ?]|?]%elem_of_add; contradiction.
    + intros p n [Hp|Hp%list_elem_of_singleton]%elem_of_app Hn'.
      * by apply Hsub, (Hown p).
      * subst p. rewrite Hget in Hn'. injection Hn' as <-.
        apply Hs, elem_of_add. by left.
    + intros key. split.
      * intros [[=]|Hk]%Hm%elem_of_add.
        apply Hmember in Hk as (p & Hp & Hk). exists p.
        split; [apply elem_of_app; by left | done].
      * intros (p & [Hp|Hp%list_elem_of_singleton]%elem_of_app & Hk).
        -- apply Hsub, Hmember. by exists p.
        -- subst p. rewrite Hget in Hk. discriminate.
  - split_and!.
    + by apply NoDup_add.
    + intros x [[=]|Hx]%elem_of_add d Hd. apply elem_of_add. right.
      by apply (Hclosed x).
    + intros p n [Hp|Hp%list_elem_of_singleton]%elem_of_app Hn'.
      * apply elem_of_add. right. by apply (Hown p).
      * subst p. rewrite Hget in Hn'. discriminate.
    + intros k. rewrite elem_of_add. split.
      * intros [[= ->]|Hk].
        -- exists pkg. split; [apply elem_of_app; right; by left | done].
        -- apply Hmember in Hk as (p & Hp & Hk). exists p.
           split; [apply elem_of_app; by left | done].
      * intros (p & [Hp|Hp%list_elem_of_singleton]%elem_of_app & Hk).
        -- right. apply Hmember. by exists p.
        -- subst p. rewrite Hget in Hk. injection Hk as ->. by left.
  - split_and!; [done | done | |].
    + intros p n [Hp|Hp%list_elem_of_singleton]%elem_of_app Hn'.
      * by apply (Hown p).
      * subst p. rewrite Hget in Hn'. discriminate.
    + intros k. rewrite Hmember. split.
      * intros (p & Hp & Hk). exists p.
        split; [apply elem_of_app; by left | done].
      * intros (p & [Hp|Hp%list_elem_of_singleton]%elem_of_app & Hk).
        -- by exists p.
        -- subst p. rewrite Hget in Hk. discriminate.
Qed.

Lemma addPackages_resolved (packages : list jsstring) :
  ∀ (seen : list jsstring) (acc : option (list bundle)),
    resolved seen acc →
    resolved (seen ++ packages) (fold_left (addPackage 4) packages acc).
Proof.
  induction packages as [|pkg packages IH]; intros seen acc Hacc.
  - by rewrite app_nil_r.
  - cbn [fold_left].
    replace (seen ++ pkg :: packages) with ((seen ++ [pkg]) ++ packages)
      by (by rewrite <- app_assoc).
    by apply IH, addPackage_resolved.
Qed.

(** [resolveBundles] returns: the bound of four frames is never hit. *)
Lemma resolveBundles_returns (packages : list jsstring) :
  ∃ bundles,
    fold_left (addPackage 4) packages (Some []) = Some bundles
    ∧ resolveBundles packages = add (Named "core") bundles
    ∧ resolved packages (Some bundles).
Proof.
  pose proof (addPackages_resolved packages [] (Some [])) as Hres.
  destruct (fold_left (addPackage 4) packages (Some [])) as [bundles|] eqn:Hrun.
  - exists bundles. split; [done|]. split.
    + unfold resolveBundles, resolveBundles_fuel. by rewrite Hrun.
    + apply Hres. split_and!.
      * apply NoDup_nil_2.
      * by intros x Hx%not_elem_of_nil.
      * by intros p n Hp%not_elem_of_nil.
      * intros key. split; [by intros Hk%not_elem_of_nil|].
        by intros (p & Hp%not_elem_of_nil & _).
  - exfalso. apply Hres. split_and!.
    + apply NoDup_nil_2.
    + by intros x Hx%not_elem_of_nil.
    + by intros p n Hp%not_elem_of_nil.
    + intros key. split; [by intros Hk%not_elem_of_nil|].
      by intros (p & Hp%not_elem_of_nil & _).
Qed.

(** X15.  The bundles [resolveBundles] returns are distinct, hold [core] and
    the bundle of every package that is a key of [PACKAGE_BUNDLE_MAP], and
    are closed under [BUNDLE_DEPENDENCIES]: every dependency of a bundle of
    the list, direct or not, is in the list.  A package that has the name
    of a member inherited from [Object.prototype] puts that member, which
    is no bundle name, in the list.  The recursion over the dependencies
    always returns: four frames suffice. *)
Theorem resolveBundles_closed (packages : list jsstring) :
  let bundles := resolveBundles packages in
  resolveBundles_fuel 4 packages = Some bundles
  ∧ Named "core" ∈ bundles
  ∧ NoDup bundles
  ∧ (∀ pkg name, pkg ∈ packages → getProperty PACKAGE_BUNDLE_MAP pkg = Own name →
                 Named name ∈ bundles)
  ∧ (∀ name d, Named name ∈ bundles → d ∈ PackageManager.dependenciesOf name →
               Named d ∈ bundles)
  ∧ (∀ key, Member key ∈ bundles
            ↔ ∃ pkg, pkg ∈ packages
                     ∧ getProperty PACKAGE_BUNDLE_MAP pkg = Inherited key).
Proof.
  cbv zeta.
  destruct (resolveBundles_returns packages)
    as (bs & Hrun & -> & Hnd & Hclosed & Hown & Hmember).
  split_and!.
  - unfold resolveBundles_fuel. by rewrite Hrun.
  - apply elem_of_add. by left.
  - by apply NoDup_add.
  - intros pkg name Hp Hn. apply elem_of_add. right. by apply (Hown pkg).
  - intros name d [[= ->]|Hin]%elem_of_add Hd.
    + by vm_compute in Hd; apply not_elem_of_nil in Hd.
    + apply elem_of_add. right. by apply (Hclosed name).
  - intros key. rewrite elem_of_add, Hmember. split; [|auto].
    by intros [[=]|?].
Qed.

(** X16.  A source that loads TikZ libraries gets the TikZ bundle and what
    it depends on, whether it has [\usepackage{tikz}] or not: when
    [\usetikzlibrary] occurs anywhere in the source, the bundles resolved
    for the packages parsed from it hold [tikz], [graphics] and [core]. *)
Theorem usetikzlibrary_bundles (latex : jsstring) :
  includes (backslash :: js "usetikzlibrary") latex = true →
  let bundles := resolveBundles (parseRequiredPackages latex) in
  Named "tikz" ∈ bundles ∧ Named "graphics" ∈ bundles ∧ Named "core" ∈ bundles.
Proof.
  intros Htikz. cbv zeta.
  assert (Hpkg : js "tikz" ∈ parseRequiredPackages latex).
  { unfold parseRequiredPackages. cbv zeta.
    match goal with |- context [newSet ?l] =>
      destruct (newSet_spec l) as [_ Hin]
    end.
    apply Hin. rewrite Htikz.
    rewrite !elem_of_app. do 3 right. left. by left. }
  destruct (resolveBundles_returns (parseRequiredPackages latex))
    as (bs & _ & -> & Hnd & Hclosed & Hown & Hmember).
  assert (Hin : Named "tikz" ∈ bs).
  { apply (Hown (js "tikz") "tikz" Hpkg). by vm_compute. }
  split_and!.
  - apply elem_of_add. by right.
  - apply elem_of_add. right. apply (Hclosed "tikz" Hin).
    vm_compute. right. by left.
  - apply elem_of_add. by left.
Qed.

Lemma usetikzlibrary_bundles_witness :
  let latex :=
    js "\documentclass{article}\usetikzlibrary{arrows}\begin{document}\end{document}" in
  includes (backslash :: js "usetikzlibrary") latex = true
  ∧ Named "tikz" ∈ resolveBundles (parseRequiredPackages latex)
  ∧ Named "graphics" ∈ resolveBundles (parseRequiredPackages latex)
  ∧ Named "core" ∈ resolveBundles (parseRequiredPackages latex).
Proof.
  cbv zeta. split; [vm_compute; reflexivity|].
  exact (usetikzlibrary_bundles
           (js "\documentclass{article}\usetikzlibrary{arrows}\begin{document}\end{document}")
           ltac:(vm_compute; reflexivity)).
Defined.

Example resolveBundles_dependencies_examples :
  resolveBundles (map js ["article"; "beamer"; "siunitx"; "nosuchpackage"])
  = map Named ["core"; "beamer"; "graphics"; "tikz"; "science"; "math"]
  ∧ resolveBundles [js "libertine"; js "toString"]
    = [Named "fonts-extra"; Named "core"; Named "fonts-basic"; Member "toString"].
Proof. split; vm_compute; reflexivity. Qed.

Example parseRequiredPackages_example :
  parseRequiredPackages
    (js "\documentclass[11pt]{ beamer }\usepackage{amsmath,graphicx}"
     ++ js "\bibliography{refs}")
  = map js ["amsmath"; "graphicx"; "beamer"; "biblatex"].
Proof. vm_compute. reflexivity. Qed.

End PackageManagerPackages.

(** * The helpers of the bundle module

    Next to [BundleManager], the bundle loading module exports three
    functions on the source of a document: [detectEngine],
    [extractPreamble] and [hashPreamble]. *)

Module BundleUtils.
Import EngineSelector Scan.

(** The texts whose presence makes [detectEngine] answer XeLaTeX, in the
    order of the test. *)
Definition xelatexIndicators : list jsstring :=
  [ usepackage ++ js "{fontspec}";
    usepackage ++ js "{unicode-math}";
    backslash :: js "setmainfont";
    backslash :: js "setsansfont";
    backslash :: js "setmonofont" ].

Definition detectEngine (source : jsstring) : Engine :=
  if includes (usepackage ++ js "{fontspec}") source
     || includes (usepackage ++ js "{unicode-math}") source
     || includes (backslash :: js "setmainfont") source
     || includes (backslash :: js "setsansfont") source
     || includes (backslash :: js "setmonofont") source
  then xelatex
  else pdflatex.

(** [source.substring(0, beginDocIdx)], or the empty string without a
    [\begin{document}]. *)
Definition extractPreamble (source : jsstring) : jsstring :=
  match indexOf beginDocument source with
  | None => []
  | Some beginDocIdx => take beginDocIdx source
  end.

(** The digit of [toString(16)]. *)
Definition digit16 (d : Z) : ascii :=
  if (d <? 10)%Z then ascii_of_N (48 + Z.to_N d)
  else ascii_of_N (97 + Z.to_N (d - 10)).

(** The hexadecimal digits of [z], most significant first, above [acc]. *)
Fixpoint toString16_digits (fuel : nat) (z : Z) (acc : string) : string :=
  match fuel with
  | O => acc
  | S fuel' =>
      let acc' := String (digit16 (z mod 16)) acc in
      if (z <? 16)%Z then acc' else toString16_digits fuel' (z / 16) acc'
  end.

(** [n.toString(16)] for a 32-bit integer: a minus sign for a negative
    one, then the digits of its absolute value (eight at most). *)
Definition toString16 (n : Z) : string :=
  if (n <? 0)%Z then "-" +:+ toString16_digits 8 (- n) ""
  else toString16_digits 8 n "".

(** The loop of [hashPreamble] is the one of the selector's hash, on the
    preamble as it is; the result is written in base 16 with its sign. *)
Definition hashPreamble (preamble : jsstring) : string :=
  toString16 (djb2 preamble).

(** ** Where the preamble ends *)

Lemma stripPrefix_Some (lit s rest : jsstring) :
  stripPrefix lit s = Some rest → s = lit ++ rest.
Proof.
  revert s. induction lit as [|l lit IH]; intros s; simpl.
  - by intros [= ->].
  - destruct s as [|c s]; [done|].
    destruct (l =? c)%N eqn:Hl; [|done].
    apply N.eqb_eq in Hl as ->. by intros ->%IH.
Qed.

(** [indexOf] finds the first occurrence. *)
Lemma indexOf_Some (lit s : jsstring) (i : nat) :
  indexOf lit s = Some i →
  (∃ rest, s = take i s ++ lit ++ rest)
  ∧ ∀ pre rest, s = pre ++ lit ++ rest → i ≤ length pre.
Proof.
  revert i. induction s as [|c s IH]; intros i; rewrite indexOf_unfold.
  - destruct (stripPrefix lit []) as [r|] eqn:Hr; [|done].
    intros [= <-]. apply stripPrefix_Some in Hr.
    split; [by exists r | intros; lia].
  - destruct (stripPrefix lit (c :: s)) as [r|] eqn:Hr.
    + intros [= <-]. apply stripPrefix_Some in Hr.
      split; [by exists r | intros; lia].
    + destruct (indexOf lit s) as [j|] eqn:Hj; [|done].
      intros [= <-]. destruct (IH j eq_refl) as [[rest Hrest] Hmin].
      split.
      * exists rest. cbn [take app]. by rewrite <- Hrest.
      * intros [|c' pre] rest' Heq.
        -- cbn [app] in Heq. rewrite Heq, stripPrefix_same in Hr. done.
        -- injection Heq as _ Heq. apply Hmin in Heq. simpl. lia.
Qed.

Lemma indexOf_None (lit s : jsstring) :
  indexOf lit s = None → ∀ pre rest, s ≠ pre ++ lit ++ rest.
Proof.
  intros Hnone pre rest ->.
  pose proof (includes_suffix lit pre (lit ++ rest)) as Hin.
  unfold includes in Hin. rewrite Hnone in Hin.
  rewrite stripPrefix_same in Hin. by specialize (Hin (mk_is_Some _ _ eq_refl)).
Qed.

(** The selector's scan for the end of the preamble finds the same place. *)
Lemma before_indexOf (lit s : jsstring) :
  before lit s = (fun i => take i s) <$> indexOf lit s.
Proof.
  induction s as [|c s IH]; rewrite before_unfold, indexOf_unfold.
  - by destruct (stripPrefix lit []).
  - destruct (stripPrefix lit (c :: s)); [done|].
    rewrite IH. by destruct (indexOf lit s).
Qed.

(** X17.  [extractPreamble] returns the text before the first
    [\begin{document}]: either the source has none and the preamble is
    empty, or the source is the preamble, then [\begin{document}], then a
    body, and no occurrence of [\begin{document}] starts earlier. *)
Theorem extractPreamble_first (source : jsstring) :
  (extractPreamble source = []
   ∧ ∀ pre body, source ≠ pre ++ beginDocument ++ body)
  ∨ (∃ body, source = extractPreamble source ++ beginDocument ++ body)
    ∧ ∀ pre body, source = pre ++ beginDocument ++ body →
        length (extractPreamble source) ≤ length pre.
Proof.
  unfold extractPreamble.
  destruct (indexOf beginDocument source) as [i|] eqn:Hi.
  - right. destruct (indexOf_Some _ _ _ Hi) as [[body Hbody] Hmin].
    split; [by exists body|].
    intros pre body' Heq. rewrite length_take. specialize (Hmin _ _ Heq). lia.
  - left. split; [done|]. by apply indexOf_None.
Qed.

(** X18.  The bundle module and the engine selector cut the preamble at the
    same place when the source has a [\begin{document}]; without one the
    selector's preamble is the first 2000 characters of the source (and the
    bundle module's is empty). *)
Theorem extractPreamble_selector (source : jsstring) :
  EngineSelector.extractPreamble source
  = if includes beginDocument source then extractPreamble source
    else take 2000 source.
Proof.
  unfold EngineSelector.extractPreamble, extractPreamble, includes.
  fold beginDocument. rewrite before_indexOf.
  by destruct (indexOf beginDocument source).
Qed.

(** ** The hash

    The loop computes the polynomial with the characters as coefficients at
    the point 33, started from 5381, wrapped to 32 bits at every turn. *)

Definition polynomial (s : jsstring) : Z :=
  fold_left (fun h c => (33 * h + Z.of_N c)%Z) s 5381%Z.

Lemma toInt32_eq (a b : Z) :
  toInt32 a = toInt32 b ↔ (a mod 2 ^ 32 = b mod 2 ^ 32)%Z.
Proof.
  unfold toInt32. split; intros Heq.
  - assert (Hm : ((a + 2 ^ 31) mod 2 ^ 32 = (b + 2 ^ 31) mod 2 ^ 32)%Z) by lia.
    replace a with (a + 2 ^ 31 - 2 ^ 31)%Z by lia.
    replace b with (b + 2 ^ 31 - 2 ^ 31)%Z by lia.
    rewrite (Zminus_mod (a + 2 ^ 31)), (Zminus_mod (b + 2 ^ 31)).
    by rewrite Hm.
  - by rewrite (Zplus_mod a), (Zplus_mod b), Heq.
Qed.

Lemma toInt32_mod (a : Z) : (toInt32 a mod 2 ^ 32 = a mod 2 ^ 32)%Z.
Proof.
  unfold toInt32. rewrite Zminus_mod, Zmod_mod, <- Zminus_mod.
  f_equal. lia.
Qed.

Lemma toInt32_range (a : Z) : (- 2 ^ 31 <= toInt32 a < 2 ^ 31)%Z.
Proof.
  unfold toInt32. pose proof (Z.mod_pos_bound (a + 2 ^ 31) (2 ^ 32)). lia.
Qed.

Lemma djb2Step_polynomial (h h' : Z) (c : N) :
  (h mod 2 ^ 32 = h' mod 2 ^ 32)%Z →
  djb2Step h c = toInt32 (33 * h' + Z.of_N c).
Proof.
  intros Hh. unfold djb2Step. apply toInt32_eq.
  rewrite Z.shiftl_mul_pow2 by lia.
  rewrite (Zplus_mod (toInt32 (h * 2 ^ 5) + h)), (Zplus_mod (toInt32 (h * 2 ^ 5))).
  rewrite toInt32_mod, <- (Zplus_mod (h * 2 ^ 5) h), <- Zplus_mod.
  replace (h * 2 ^ 5 + h + Z.of_N c)%Z with (33 * h + Z.of_N c)%Z by lia.
  rewrite (Zplus_mod (33 * h)), (Zplus_mod (33 * h')).
  rewrite (Zmult_mod 33 h), (Zmult_mod 33 h'). by rewrite Hh.
Qed.

Lemma djb2_polynomial (s : jsstring) : djb2 s = toInt32 (polynomial s).
Proof.
  unfold djb2, polynomial. induction s as [|c s IH] using rev_ind; [done|].
  rewrite !fold_left_app. cbn [fold_left].
  apply djb2Step_polynomial. by rewrite IH, toInt32_mod.
Qed.

(** *** Hexadecimal numerals can be read back *)

(** The value of a hexadecimal digit, and of a numeral read after [acc]. *)
Definition digitValue (c : ascii) : Z :=
  let n := Z.of_N (N_of_ascii c) in
  if (n <? 97)%Z then (n - 48)%Z else (n - 87)%Z.

Fixpoint value16 (acc : Z) (s : string) : Z :=
  match s with
  | EmptyString => acc
  | String c rest => value16 (16 * acc + digitValue c) rest
  end.

Lemma digit16_value (d : Z) :
  (0 <= d < 16)%Z → digitValue (digit16 d) = d ∧ digit16 d ≠ "-"%char.
Proof.
  intros Hd. rewrite <- (Z2Nat.id d) by lia.
  assert (Hn : (Z.to_nat d < 16)%nat) by lia.
  generalize dependent (Z.to_nat d). intros n Hn.
  do 16 (destruct n as [|n]; [by split; [vm_compute | intros [=]]|]). lia.
Qed.

Lemma append_assoc (x y z : string) : (x +:+ y) +:+ z = x +:+ y +:+ z.
Proof.
  induction x as [|c x IH]; [done|].
  change (String c ((x +:+ y) +:+ z) = String c (x +:+ y +:+ z)).
  by rewrite IH.
Qed.

Lemma value16_append (x y : string) :
  ∀ acc, value16 acc (x +:+ y) = value16 (value16 acc x) y.
Proof. induction x as [|c x IH]; intros acc; simpl; [done|]. apply IH. Qed.

Lemma toString16_digits_acc (fuel : nat) :
  ∀ z acc, toString16_digits fuel z acc = toString16_digits fuel z "" +:+ acc.
Proof.
  induction fuel as [|fuel IH]; intros z acc; simpl; [done|].
  destruct (z <? 16)%Z; [done|].
  rewrite (IH _ (String _ acc)), (IH _ (String _ "")).
  by rewrite append_assoc.
Qed.

Lemma toString16_digits_value (fuel : nat) :
  ∀ z, (0 <= z < 16 ^ Z.of_nat fuel)%Z →
       value16 0 (toString16_digits fuel z "") = z.
Proof.
  induction fuel as [|fuel IH]; intros z Hz.
  - simpl in *. lia.
  - cbn [toString16_digits].
    pose proof (Z.mod_pos_bound z 16 ltac:(lia)) as Hmod.
    destruct (digit16_value (z mod 16) Hmod) as [Hv _].
    destruct (z <? 16)%Z eqn:Hlt.
    + apply Z.ltb_lt in Hlt. cbn [value16]. rewrite Hv.
      rewrite Z.mod_small by lia. lia.
    + apply Z.ltb_ge in Hlt.
      rewrite toString16_digits_acc, value16_append, IH.
      * cbn [value16]. rewrite Hv. pose proof (Z.div_mod z 16). lia.
      * rewrite Nat2Z.inj_succ, Z.pow_succ_r in Hz by lia.
        split; [apply Z.div_pos; lia | apply Z.div_lt_upper_bound; lia].
Qed.

(** A numeral with digits starts with a digit, never with the sign. *)
Lemma toString16_digits_head (fuel : nat) :
  ∀ z acc, (0 <= z)%Z →
    (fuel ≠ 0 ∨ ∃ c rest, acc = String c rest ∧ c ≠ "-"%char) →
    ∃ c rest, toString16_digits fuel z acc = String c rest ∧ c ≠ "-"%char.
Proof.
  induction fuel as [|fuel IH]; intros z acc Hz Hacc.
  - by destruct Hacc as [?|Hacc].
  - cbn [toString16_digits].
    pose proof (Z.mod_pos_bound z 16 ltac:(lia)) as Hmod.
    destruct (digit16_value (z mod 16) Hmod) as [_ Hc].
    destruct (z <? 16)%Z; [by eexists _, _|].
    apply IH; [apply Z.div_pos; lia|]. right. by eexists _, _.
Qed.

Lemma toString16_inj (n m : Z) :
  (- 2 ^ 31 <= n < 2 ^ 31)%Z → (- 2 ^ 31 <= m < 2 ^ 31)%Z →
  toString16 n = toString16 m → n = m.
Proof.
  intros Hn Hm. unfold toString16.
  assert (Hvalue : ∀ z, (0 <= z <= 2 ^ 31)%Z →
            value16 0 (toString16_digits 8 z "") = z).
  { intros z Hz. apply toString16_digits_value.
    change (16 ^ Z.of_nat 8)%Z with (2 ^ 32)%Z. lia. }
  assert (Hhead : ∀ z x, (0 <= z)%Z →
            toString16_digits 8 z "" ≠ "-" +:+ x).
  { intros z x Hz Heq.
    destruct (toString16_digits_head 8 z "" Hz) as (c & rest & Hd & Hc);
      [by left|].
    rewrite Hd in Heq. simpl in Heq. by injection Heq as -> _. }
  destruct (n <? 0)%Z eqn:Hnn, (m <? 0)%Z eqn:Hmm;
    try apply Z.ltb_lt in Hnn; try apply Z.ltb_lt in Hmm;
    try apply Z.ltb_ge in Hnn; try apply Z.ltb_ge in Hmm; intros Heq.
  - apply append_inj in Heq. apply (f_equal (value16 0)) in Heq.
    rewrite !Hvalue in Heq by lia. lia.
  - symmetry in Heq. by apply Hhead in Heq.
  - by apply Hhead in Heq.
  - apply (f_equal (value16 0)) in Heq. rewrite !Hvalue in Heq by lia. done.
Qed.

(** X19.  Two preambles get the same hash exactly when their polynomials
    agree modulo 2^32: the hash is the polynomial of the characters at 33,
    from 5381, reduced to 32 bits, and its hexadecimal form loses
    nothing. *)
Theorem hashPreamble_collisions (p q : jsstring) :
  hashPreamble p = hashPreamble q
  ↔ (polynomial p mod 2 ^ 32 = polynomial q mod 2 ^ 32)%Z.
Proof.
  unfold hashPreamble. rewrite !djb2_polynomial. split.
  - intros Heq. apply toInt32_eq.
    by apply toString16_inj; [apply toInt32_range..|].
  - intros Heq. by apply toInt32_eq in Heq as ->.
Qed.

Example hashPreamble_examples :
  hashPreamble [] = "1505"
  ∧ hashPreamble (js "\documentclass{article}") = "-1400202e"
  ∧ extractPreamble (js "\documentclass{article}\begin{document}Hi")
    = js "\documentclass{article}"
  ∧ extractPreamble (js "Hi") = [].
Proof. by vm_compute. Qed.

(** ** Which engine is detected *)

Lemma includes_spec (lit s : jsstring) :
  includes lit s = true ↔ ∃ pre post, s = pre ++ lit ++ post.
Proof.
  split.
  - unfold includes. destruct (indexOf lit s) as [i|] eqn:Hi; [|done].
    intros _. destruct (indexOf_Some _ _ _ Hi) as [[rest Hrest] _].
    by exists (take i s), rest.
  - intros (pre & post & ->). apply includes_suffix.
    rewrite stripPrefix_same. by eexists.
Qed.

(** X20.  [detectEngine] answers XeLaTeX exactly for the sources in which
    one of the five indicators occurs somewhere, as it is written, comments
    included; for every other source it answers pdfLaTeX. *)
Theorem detectEngine_indicators (source : jsstring) :
  (detectEngine source = xelatex
   ∧ ∃ indicator pre post,
       indicator ∈ xelatexIndicators ∧ source = pre ++ indicator ++ post)
  ∨ (detectEngine source = pdflatex
     ∧ ∀ indicator pre post,
         indicator ∈ xelatexIndicators → source ≠ pre ++ indicator ++ post).
Proof.
  assert (Hfalse : ∀ lit, includes lit source = false →
            ∀ pre post, source ≠ pre ++ lit ++ post).
  { intros lit Hlit pre post Heq.
    assert (includes lit source = true) by (apply includes_spec; eauto).
    congruence. }
  unfold detectEngine, xelatexIndicators.
  destruct (includes (usepackage ++ js "{fontspec}") source) eqn:H1;
    [left; split; [done|]; apply includes_spec in H1 as (pre & post & ->);
     eexists _, pre, post; split; [|done]; set_solver|].
  destruct (includes (usepackage ++ js "{unicode-math}") source) eqn:H2;
    [left; split; [done|]; apply includes_spec in H2 as (pre & post & ->);
     eexists _, pre, post; split; [|done]; set_solver|].
  destruct (includes (backslash :: js "setmainfont") source) eqn:H3;
    [left; split; [done|]; apply includes_spec in H3 as (pre & post & ->);
     eexists _, pre, post; split; [|done]; set_solver|].
  destruct (includes (backslash :: js "setsansfont") source) eqn:H4;
    [left; split; [done|]; apply includes_spec in H4 as (pre & post & ->);
     eexists _, pre, post; split; [|done]; set_solver|].
  destruct (includes (backslash :: js "setmonofont") source) eqn:H5;
    [left; split; [done|]; apply includes_spec in H5 as (pre & post & ->);
     eexists _, pre, post; split; [|done]; set_solver|].
  right. split; [done|]. intros indicator pre post Hin.
  repeat (apply elem_of_cons in Hin as [->|Hin]; [by apply Hfalse|]).
  by apply elem_of_nil in Hin.
Qed.

(** The font commands both [detectEngine] and the selector's requirement
    for XeLaTeX know. *)
Definition fontCommands : list jsstring :=
  map (fun n => backslash :: js n) ["setmainfont"; "setsansfont"; "setmonofont"].

(** X21.  When the selector's test for [\setmainfont], [\setsansfont] or
    [\setmonofont] succeeds on the source without its comments,
    [detectEngine] answers XeLaTeX for the source. *)
Theorem detectEngine_font_command (source cmd : jsstring) :
  cmd ∈ fontCommands →
  testCommand cmd (stripComments source) = true →
  detectEngine source = xelatex.
Proof.
  intros Hcmd Htest.
  assert (Hplain : plainCommand cmd).
  { unfold fontCommands in Hcmd. cbn [map] in Hcmd.
    repeat (apply elem_of_cons in Hcmd as [->|Hcmd];
            [split; [done | by vm_compute; repeat constructor]|]).
    by apply elem_of_nil in Hcmd. }
  destruct (testCommand_strip cmd Hplain source false Htest) as (i & Hat & _).
  assert (Hin : includes cmd source = true).
  { rewrite <- (take_drop i source). apply includes_suffix.
    unfold commandAt in Hat.
    destruct (stripPrefix cmd (drop i source)); [by eexists | done]. }
  unfold detectEngine. unfold fontCommands in Hcmd. cbn [map] in Hcmd.
  repeat (apply elem_of_cons in Hcmd as [->|Hcmd];
          [rewrite Hin; by rewrite ?orb_true_r|]).
  by apply elem_of_nil in Hcmd.
Qed.

Lemma detectEngine_font_command_witness :
  detectEngine (js "\documentclass{article}\setmainfont{Arial}") = xelatex.
Proof.
  apply (detectEngine_font_command _ (backslash :: js "setmainfont")).
  - by vm_compute; set_solver.
  - by vm_compute.
Defined.

(** The options of [\usepackage] hide [fontspec] from [detectEngine], not
    from the selector. *)
Example detectEngine_options :
  detectEngine (js "\usepackage[no-math]{fontspec}") = pdflatex
  ∧ extractPackages (js "\usepackage[no-math]{fontspec}") = [js "fontspec"]
  ∧ detectEngine (js "% \usepackage{fontspec}") = xelatex.
Proof. by vm_compute. Qed.

End BundleUtils.

(** * Laying files out in a bundle

    The bundle builder and the bundle splitter write a bundle the same way:
    the contents of the files one after another, and for each file its
    directory, its name and the extent [start, end) it got. *)

Module Layout.

(** The state of the loop after some files: the chunks pushed so far, the
    entries pushed so far, and [offset].  The entries are laid out when
    [offset] is the length of the chunks together and every entry's extent
    of the concatenated chunks, whatever follows them, is its chunk. *)
Definition laidOut (chunks : list (list byte)) (newFiles : list BundleFile)
    (offset : Z) : Prop :=
  offset = Z.of_nat (length (concat chunks))
  ∧ ∀ post, map (fun f => slice (concat chunks ++ post) (start f) (end_ f)) newFiles
            = chunks.

Lemma slice_chunk {A : Type} (pre chunk post : list A) :
  slice (pre ++ chunk ++ post) (Z.of_nat (length pre))
    (Z.of_nat (length pre) + Z.of_nat (length chunk))
  = chunk.
Proof.
  unfold slice, relativeIndex. rewrite !length_app.
  destruct (Z.ltb_spec (Z.of_nat (length pre)) 0) as [?|_]; [lia|].
  destruct (Z.ltb_spec (Z.of_nat (length pre) + Z.of_nat (length chunk)) 0)
    as [?|_]; [lia|].
  rewrite !Z.min_l by lia.
  replace (Z.to_nat (Z.of_nat (length pre))) with (length pre) by lia.
  replace (Z.to_nat (Z.max (Z.of_nat (length pre) + Z.of_nat (length chunk)
                            - Z.of_nat (length pre)) 0))
    with (length chunk) by lia.
  by rewrite drop_app_length, take_app_length.
Qed.

Lemma laidOut_nil : laidOut [] [] 0.
Proof. by split. Qed.

Lemma laidOut_snoc (chunks : list (list byte)) (newFiles : list BundleFile)
    (offset : Z) (dir file : string) (chunk : list byte) :
  laidOut chunks newFiles offset →
  laidOut (chunks ++ [chunk])
    (newFiles ++ [{| path := dir; name := file; start := offset;
                     end_ := offset + Z.of_nat (length chunk) |}])
    (offset + Z.of_nat (length chunk)).
Proof.
  intros [-> Hslices]. split.
  - rewrite concat_app, length_app. simpl. rewrite app_nil_r. lia.
  - intros post. rewrite map_app, concat_app. simpl. rewrite app_nil_r.
    rewrite <- app_assoc. rewrite Hslices. f_equal.
    by rewrite slice_chunk.
Qed.

End Layout.

(** * Splitting the monolithic bundle

    The splitter reads the file table and the data of one large bundle,
    assigns every file to one of the bundles of [BUNDLE_DEFINITIONS] (or to
    the catch-all [extra]) and writes each non-empty bundle out: its data,
    and the metadata [BundleLoader.mountBundle] reads. *)

Module SplitBundle.
Import BundleLoader.

(** One entry of the file table ([FileEntry]). *)
Record FileEntry := {
  filename : string;
  entry_start : Z;
  entry_end : Z
}.

Record BundleDefinition := {
  def_name : string;
  patterns : list string;
  priority : Z;
  fileFilter : option (string → string → bool)
}.

(** [s.includes(pattern)] on paths. *)
Fixpoint includes (pattern s : string) : bool :=
  String.prefix pattern s
  || match s with
     | EmptyString => false
     | String _ rest => includes pattern rest
     end.

(** [s.lastIndexOf('/')]: [-1] without a slash. *)
Fixpoint lastIndexOf_from (s : string) (i found : Z) : Z :=
  match s with
  | EmptyString => found
  | String c rest =>
      lastIndexOf_from rest (i + 1) (if Ascii.eqb c "/" then i else found)
  end.

Definition lastIndexOf_slash (s : string) : Z := lastIndexOf_from s 0 (-1).

(** [String.prototype.slice], with the index rules of [slice]. *)
Definition string_slice (s : string) (start end_ : Z) : string :=
  string_of_list_ascii (slice (list_ascii_of_string s) start end_).

(** The body of the loop of [matchBundle] for one definition. *)
Definition matches (filename basename dirpath : string)
    (def : BundleDefinition) : bool :=
  match fileFilter def with
  | Some filter => filter basename dirpath
  | None => false
  end
  || existsb (fun pattern => String.prefix pattern filename
                             || includes pattern filename)
       (patterns def).

Definition matchBundle (filename : string)
    (definitions : list BundleDefinition) : string :=
  let basename := List.last (split_slash filename) "" in
  let dirpath := string_slice filename 0 (lastIndexOf_slash filename) in
  match List.find (matches filename basename dirpath) definitions with
  | Some def => def_name def
  | None => "extra"
  end.

(** [bundles.get(key)!.push(file)] on a [Map] in insertion order; [None]
    when the key is missing, where the call throws. *)
Fixpoint push (key : string) (file : FileEntry)
    (bundles : list (string * list FileEntry))
  : option (list (string * list FileEntry)) :=
  match bundles with
  | [] => None
  | (k, v) :: rest =>
      if String.eqb k key then Some ((k, v ++ [file]) :: rest)
      else cons (k, v) <$> push key file rest
  end.

(** The files of the loop so far pushed, or [None] from the first throw. *)
Fixpoint assign (definitions : list BundleDefinition) (files : list FileEntry)
    (bundles : list (string * list FileEntry))
  : option (list (string * list FileEntry)) :=
  match files with
  | [] => Some bundles
  | file :: rest =>
      match push (matchBundle (filename file) definitions) file bundles with
      | Some bundles' => assign definitions rest bundles'
      | None => None
      end
  end.

Definition groupFilesByBundle (files : list FileEntry)
    (definitions : list BundleDefinition)
  : option (list (string * list FileEntry)) :=
  let initial :=
    CTANFetcher.map_set "extra" []
      (fold_left (fun bundles def => CTANFetcher.map_set (def_name def) [] bundles)
         definitions []) in
  assign definitions files initial.

(** [bundleFiles.sort((a, b) => a.start - b.start)]: the sort is stable, so
    it is the insertion of every file before the first later one that does
    not start before it. *)
Fixpoint insertByStart (file : FileEntry) (sorted : list FileEntry)
  : list FileEntry :=
  match sorted with
  | [] => [file]
  | g :: rest =>
      if (entry_start file <=? entry_start g)%Z then file :: g :: rest
      else g :: insertByStart file rest
  end.

Definition sortByStart (bundleFiles : list FileEntry) : list FileEntry :=
  foldr insertByStart [] bundleFiles.

Section Split.
(** [path.dirname] and [path.basename] *)
Variables dirname basename : string → string.

(** One turn of the loop over the sorted files of a bundle; the state is
    [chunks], [newFiles] and [offset]. *)
Definition packFile (data : list byte)
    (acc : list (list byte) * list BundleFile * Z) (file : FileEntry)
  : list (list byte) * list BundleFile * Z :=
  let '(chunks, newFiles, offset) := acc in
  let fileData := slice data (entry_start file) (entry_end file) in
  let dir := dirname (filename file) in
  let name := basename (filename file) in
  (chunks ++ [fileData],
   newFiles ++ [{| path := dir; name := name; start := offset;
                   end_ := (offset + Z.of_nat (length fileData))%Z |}],
   (offset + Z.of_nat (length fileData))%Z).

(** The body of the loop over the bundles for a non-empty one: the
    metadata, and the data that is written gzipped. *)
Definition packBundle (data : list byte) (bundleName : string)
    (bundleFiles : list FileEntry) : BundleMetadata * list byte :=
  let sorted := sortByStart bundleFiles in
  let '(chunks, newFiles, _) := fold_left (packFile data) sorted ([], [], 0%Z) in
  let bundleData := concat chunks in
  ({| bundle_name := bundleName; files := newFiles;
      totalSize := Z.of_nat (length bundleData) |},
   bundleData).

(** The loop over the bundles: the empty ones are skipped. *)
Definition packBundles (data : list byte)
    (bundleGroups : list (string * list FileEntry))
  : list (BundleMetadata * list byte) :=
  omap (fun group =>
          if (length (snd group) =? 0)%nat then None
          else Some (packBundle data (fst group) (snd group)))
    bundleGroups.

End Split.

(** ** Every file lands in one bundle *)

(** The keys of the [Map] of [groupFilesByBundle], in its order: the names
    of the definitions, then [extra]. *)
Definition bundleNames (definitions : list BundleDefinition) : list string :=
  set_add "extra"
    (fold_left (fun names def => set_add (def_name def) names) definitions []).

Definition emptyBundles (names : list string) : list (string * list FileEntry) :=
  map (fun k => (k, [])) names.

Lemma map_set_empty (key : string) (names : list string) :
  CTANFetcher.map_set key [] (emptyBundles names) = emptyBundles (set_add key names).
Proof.
  unfold set_add. case_bool_decide as Hin.
  - induction names as [|k names IH]; [by apply elem_of_nil in Hin|].
    simpl. destruct (String.eqb k key) eqn:Hk; [done|].
    apply String.eqb_neq in Hk. f_equal. apply IH.
    apply elem_of_cons in Hin as [->|Hin]; done.
  - unfold emptyBundles. rewrite map_app. apply CTANFetcher.map_set_fresh.
    by rewrite map_map, map_id.
Qed.

Lemma initial_bundles (definitions : list BundleDefinition) :
  CTANFetcher.map_set "extra" []
    (fold_left (fun bundles def => CTANFetcher.map_set (def_name def) [] bundles)
       definitions [])
  = emptyBundles (bundleNames definitions).
Proof.
  unfold bundleNames. rewrite <- map_set_empty. f_equal.
  change (@nil (string * list FileEntry)) with (emptyBundles []).
  generalize (@nil string). induction definitions as [|def defs IH]; intros names.
  - done.
  - simpl. by rewrite map_set_empty, IH.
Qed.

Lemma elem_of_names (definitions : list BundleDefinition) (x : string) :
  ∀ names,
    x ∈ fold_left (fun names def => set_add (def_name def) names) definitions names
    ↔ x ∈ names ∨ ∃ def, def ∈ definitions ∧ def_name def = x.
Proof.
  induction definitions as [|def defs IH]; intros names; simpl.
  - split; [by left | intros [?|(def & Hdef & _)]; [done|]].
    by apply elem_of_nil in Hdef.
  - rewrite IH, elem_of_set_add. split.
    + intros [[->|?]|(d & Hd & Hx)]; [right | by left | right].
      * exists def. split; [by left | done].
      * exists d. split; [by right | done].
    + intros [?|(d & Hd & Hx)]; [by left; right|].
      apply elem_of_cons in Hd as [->|Hd]; [by left; left|].
      right. by exists d.
Qed.

Lemma NoDup_names (definitions : list BundleDefinition) :
  ∀ names, NoDup names →
    NoDup (fold_left (fun names def => set_add (def_name def) names)
             definitions names).
Proof.
  induction definitions as [|def defs IH]; intros names Hnd; simpl; [done|].
  by apply IH, set_add_NoDup.
Qed.

Lemma NoDup_bundleNames (definitions : list BundleDefinition) :
  NoDup (bundleNames definitions).
Proof. apply set_add_NoDup, NoDup_names, NoDup_nil_2. Qed.

(** [matchBundle] answers the name of a definition, or [extra]. *)
Lemma matchBundle_named (filename : string) (definitions : list BundleDefinition) :
  matchBundle filename definitions ∈ bundleNames definitions.
Proof.
  unfold matchBundle, bundleNames. apply elem_of_set_add.
  destruct (List.find _ definitions) as [def|] eqn:Hfind; [right | by left].
  apply List.find_some in Hfind as [Hin _].
  apply elem_of_names. right. exists def. by rewrite list_elem_of_In.
Qed.

Section Grouping.
Variable definitions : list BundleDefinition.

(** The [Map] after the files [done]: under every name, the files of
    [done] that [matchBundle] gives to it, in their order. *)
Definition grouped (names : list string) (done : list FileEntry)
  : list (string * list FileEntry) :=
  map (fun k =>
         (k, filter (fun file => matchBundle (filename file) definitions = k) done))
    names.

Lemma grouped_other (names : list string) (done : list FileEntry)
    (file : FileEntry) :
  matchBundle (filename file) definitions ∉ names →
  grouped names (done ++ [file]) = grouped names done.
Proof.
  intros Hnot. unfold grouped. apply map_ext_in. intros k Hk.
  apply list_elem_of_In in Hk. f_equal. rewrite filter_app.
  rewrite (filter_cons_False _ file); [by rewrite filter_nil, app_nil_r|].
  intros Heq. by subst k.
Qed.

Lemma push_grouped (done : list FileEntry) (file : FileEntry) :
  ∀ names, NoDup names →
    matchBundle (filename file) definitions ∈ names →
    push (matchBundle (filename file) definitions) file (grouped names done)
    = Some (grouped names (done ++ [file])).
Proof.
  induction names as [|k names IH]; intros Hnd Hin;
    [by apply elem_of_nil in Hin|].
  apply NoDup_cons in Hnd as [Hk Hnd].
  cbn [grouped map push]. fold (grouped names done).
  fold (grouped names (done ++ [file])).
  destruct (String.eqb k _) eqn:Heq.
  - apply String.eqb_eq in Heq. rewrite filter_app.
    rewrite (filter_cons_True _ file) by done. rewrite filter_nil.
    rewrite grouped_other; [done | by rewrite <- Heq].
  - apply String.eqb_neq in Heq.
    apply elem_of_cons in Hin as [Hin|Hin]; [done|].
    rewrite (IH Hnd Hin). cbn [fmap option_fmap option_map].
    rewrite filter_app, (filter_cons_False _ file) by done.
    by rewrite filter_nil, app_nil_r.
Qed.

Lemma assign_grouped (names : list string) (files : list FileEntry) :
  NoDup names →
  (∀ file, matchBundle (filename file) definitions ∈ names) →
  ∀ done,
    assign definitions files (grouped names done)
    = Some (grouped names (done ++ files)).
Proof.
  intros Hnd Hnamed. induction files as [|file files IH]; intros done; simpl.
  - by rewrite app_nil_r.
  - rewrite push_grouped by done. rewrite IH. by rewrite <- app_assoc.
Qed.

(** The groups of a list under names without repetition that cover it are
    a rearrangement of the list. *)
Lemma grouped_Permutation (names : list string) :
  NoDup names →
  ∀ files, (∀ file, matchBundle (filename file) definitions ∈ names) →
    concat (map snd (grouped names files)) ≡ₚ files.
Proof.
  intros Hnd files Hnamed. induction files as [|file files IH].
  - clear. unfold grouped. induction names as [|k names IHn]; [done|].
    simpl. exact IHn.
  - destruct (list_elem_of_split _ _ (Hnamed file)) as (n1 & n2 & Hsplit).
    rewrite Hsplit in Hnd, IH |- *.
    apply NoDup_app in Hnd as (_ & Hn1 & Hnd).
    apply NoDup_cons in Hnd as [Hn2 _].
    assert (Hother : ∀ ns, matchBundle (filename file) definitions ∉ ns →
              grouped ns (file :: files) = grouped ns files).
    { intros ns Hns. unfold grouped. apply map_ext_in. intros k Hk.
      apply list_elem_of_In in Hk. f_equal.
      apply filter_cons_False. intros Heq. by subst k. }
    unfold grouped in IH |- *. rewrite !map_app, !concat_app in IH |- *.
    cbn [map concat snd] in IH |- *.
    fold (grouped n1 (file :: files)). fold (grouped n2 (file :: files)).
    fold (grouped n1 files) in IH. fold (grouped n2 files) in IH.
    rewrite (Hother n1), (Hother n2); [| done | by intros ?; eapply Hn1; [|left]].
    rewrite (filter_cons_True _ file) by done.
    cbn [app]. etrans; [symmetry; apply Permutation_middle|].
    by apply Permutation_skip.
Qed.

End Grouping.

(** X22.  [groupFilesByBundle] never throws, and its groups are a partition
    of the files: the [Map] has one key for every definition name and for
    [extra], the group under a key holds exactly the files [matchBundle]
    gives to it, in their order in the table, and the groups together are
    a rearrangement of the table, so no file is lost and none is in two
    bundles. *)
Theorem groupFilesByBundle_partition (files : list FileEntry)
    (definitions : list BundleDefinition) :
  ∃ bundles,
    groupFilesByBundle files definitions = Some bundles
    ∧ map fst bundles = bundleNames definitions
    ∧ NoDup (map fst bundles)
    ∧ (∀ bundleName bundleFiles,
         (bundleName, bundleFiles) ∈ bundles →
         bundleFiles
         = filter (fun file => matchBundle (filename file) definitions = bundleName)
             files)
    ∧ concat (map snd bundles) ≡ₚ files.
Proof.
  exists (grouped definitions (bundleNames definitions) files).
  assert (Hkeys : map fst (grouped definitions (bundleNames definitions) files)
                  = bundleNames definitions).
  { unfold grouped. by rewrite map_map, map_id. }
  split_and!.
  - unfold groupFilesByBundle. rewrite initial_bundles.
    change (emptyBundles (bundleNames definitions))
      with (grouped definitions (bundleNames definitions) []).
    apply assign_grouped; [apply NoDup_bundleNames|].
    intros file. apply matchBundle_named.
  - done.
  - rewrite Hkeys. apply NoDup_bundleNames.
  - intros bundleName bundleFiles Hin. unfold grouped in Hin.
    apply list_elem_of_fmap in Hin as (k & [= -> ->] & _). done.
  - apply grouped_Permutation; [apply NoDup_bundleNames|].
    intros file. apply matchBundle_named.
Qed.

(** ** What is packed is what gets mounted *)




Section RoundTrip.
Variables dirname basename : string → string.
Context {FS : Type} `{EmscriptenFS FS}.



End RoundTrip.

(** *** A table of two files, split and mounted *)

(** The directory and the base name as [matchBundle] cuts them. *)
Definition dirpathOf (filename : string) : string :=
  string_slice filename 0 (lastIndexOf_slash filename).

Definition basenameOf (filename : string) : string :=
  List.last (split_slash filename) "".

Definition monolith : list byte :=
  list_byte_of_string "\ProvidesPackage{a}\ProvidesPackage{b}".

Definition table : list FileEntry :=
  [ {| filename := "/texlive/texmf-dist/tex/latex/b/b.sty";
       entry_start := 19; entry_end := 38 |};
    {| filename := "/texlive/texmf-dist/tex/latex/a/a.sty";
       entry_start := 0; entry_end := 19 |} ].



Example packBundle_table :
  packBundle dirpathOf basenameOf monolith "extra" table
  = ({| bundle_name := "extra";
        files :=
          [ {| path := "/texlive/texmf-dist/tex/latex/a"; name := "a.sty";
               start := 0; end_ := 19 |};
            {| path := "/texlive/texmf-dist/tex/latex/b"; name := "b.sty";
               start := 19; end_ := 38 |} ];
        totalSize := 38 |},
     monolith).
Proof. by vm_compute. Qed.

(** The first definition that matches wins, a pattern matches anywhere in
    the name, and a name without a slash loses its last character on the
    way to [fileFilter]. *)
Example matchBundle_examples :
  let definitions :=
    [ {| def_name := "core"; patterns := ["/texlive/texmf-dist/tex/latex/base/"];
         priority := 0; fileFilter := None |};
      {| def_name := "fmt-xelatex"; patterns := []; priority := 0;
         fileFilter := Some (fun filename path => String.eqb filename "xelatex.fmt") |};
      {| def_name := "tex-latex-misc"; patterns := ["/texlive/texmf-dist/tex/latex/"];
         priority := 19; fileFilter := None |} ] in
  matchBundle "/texlive/texmf-dist/tex/latex/base/article.cls" definitions = "core"
  ∧ matchBundle "/texlive/texmf-dist/tex/latex/a/a.sty" definitions = "tex-latex-misc"
  ∧ matchBundle "/x/texlive/texmf-dist/tex/latex/base/y" definitions = "core"
  ∧ matchBundle "/texlive/web2c/xelatex.fmt" definitions = "fmt-xelatex"
  ∧ matchBundle "/bin/busytex" definitions = "extra"
  ∧ dirpathOf "xelatex.fmt" = "xelatex.fm".
Proof. by vm_compute. Qed.

End SplitBundle.

(** * The bundle builder

    [buildBundle] collects the files of the packages of a bundle under the
    TeX tree [texmfRoot], and lays them out with paths that start with
    [/texmf/]. *)

Module BundleBuilder.

(** Lists that agree on two projections agree on the pairs of them. *)
Lemma map_pair {A B C D : Type} (f : A → C) (h : A → D) (g : B → C) (k : B → D) :
  ∀ (l : list A) (l' : list B),
    map f l = map g l' → map h l = map k l' →
    map (fun x => (f x, h x)) l = map (fun y => (g y, k y)) l'.
Proof.
  induction l as [|x l IH]; intros [|y l']; simpl; try done.
  intros [= -> Hf] [= -> Hh]. f_equal. by apply IH.
Qed.

Section Build.
(** [path.relative], [path.dirname], [path.basename], and what
    [fs.readFileSync] reads from the files that [findPackageFiles] found. *)
Variable relative : string → string → string.
Variables dirname basename : string → string.
Variable readFileSync : string → list byte.
Variable texmfRoot : string.

(** One turn of the loop over [allFiles]; the state is [chunks],
    [fileMetadata] and [offset]. *)
Definition addFile (acc : list (list byte) * list BundleFile * Z) (file : string)
  : list (list byte) * list BundleFile * Z :=
  let '(chunks, fileMetadata, offset) := acc in
  let content := readFileSync file in
  let relativePath := relative texmfRoot (dirname file) in
  let virtualPath := "/texmf/" +:+ relativePath in
  (chunks ++ [content],
   fileMetadata ++ [{| path := virtualPath; name := basename file;
                       start := offset;
                       end_ := (offset + Z.of_nat (length content))%Z |}],
   (offset + Z.of_nat (length content))%Z).

(** The [files] of the metadata and [dataBuffer], as [buildBundle] makes
    them of [allFiles]. *)
Definition layout (allFiles : list string) : list BundleFile * list byte :=
  let '(chunks, fileMetadata, _) := fold_left addFile allFiles ([], [], 0%Z) in
  (fileMetadata, concat chunks).

Lemma addFiles_laidOut (allFiles : list string) :
  ∃ chunks fileMetadata offset,
    fold_left addFile allFiles ([], [], 0%Z) = (chunks, fileMetadata, offset)
    ∧ chunks = map readFileSync allFiles
    ∧ map path fileMetadata
      = map (fun file => "/texmf/" +:+ relative texmfRoot (dirname file)) allFiles
    ∧ map name fileMetadata = map basename allFiles
    ∧ Layout.laidOut chunks fileMetadata offset.
Proof.
  induction allFiles as [|file allFiles IH] using rev_ind.
  - exists [], [], 0%Z. by split_and!; try apply Layout.laidOut_nil.
  - destruct IH as (chunks & fileMetadata & offset & Hfold & Hc & Hp & Hn & Hl).
    rewrite fold_left_app, Hfold. cbn [fold_left addFile].
    eexists _, _, _. split; [reflexivity|].
    rewrite !map_app, Hc, Hp, Hn. split_and!; try done.
    rewrite <- Hc. by apply Layout.laidOut_snoc.
Qed.

Lemma texmf_not_texlive (rest : string) :
  underTexlive ("/texmf/" +:+ rest) = false
  ∧ ∀ file, underTexlive (("/texmf/" +:+ rest) +:+ "/" +:+ file) = false.
Proof. done. Qed.

Lemma layout_entries (allFiles : list string) :
  map path (fst (layout allFiles))
  = map (fun file => "/texmf/" +:+ relative texmfRoot (dirname file)) allFiles
  ∧ map name (fst (layout allFiles)) = map basename allFiles
  ∧ map (fun f => slice (snd (layout allFiles)) (start f) (end_ f))
      (fst (layout allFiles))
    = map readFileSync allFiles.
Proof.
  unfold layout.
  destruct (addFiles_laidOut allFiles)
    as (chunks & fileMetadata & offset & -> & Hc & Hp & Hn & _ & Hslices).
  cbn [fst snd]. specialize (Hslices []). rewrite app_nil_r in Hslices.
  split_and!; [done | done | by rewrite Hslices].
Qed.

(** X24.  The layout of [buildBundle]: one entry per file, in order, under
    the file's base name; the entry's extent of the data buffer is what
    was read from the file; and every path starts with [/texmf/], so no
    entry, and no full path of an entry, is under [/texlive/]. *)
Theorem layout_extents (allFiles : list string) :
  map (fun f => (name f, slice (snd (layout allFiles)) (start f) (end_ f)))
    (fst (layout allFiles))
  = map (fun file => (basename file, readFileSync file)) allFiles
  ∧ map path (fst (layout allFiles))
    = map (fun file => "/texmf/" +:+ relative texmfRoot (dirname file)) allFiles
  ∧ Forall (fun f => underTexlive (path f) = false
                     ∧ underTexlive (fullPath f) = false)
      (fst (layout allFiles)).
Proof.
  destruct (layout_entries allFiles) as (Hp & Hn & Hslices).
  split_and!.
  - by apply map_pair.
  - done.
  - apply Forall_forall. intros f Hf.
    assert (Hin : path f ∈ map path (fst (layout allFiles)))
      by (by apply list_elem_of_fmap_2).
    rewrite Hp in Hin. apply list_elem_of_fmap in Hin as (file & Hpath & _).
    unfold fullPath. rewrite Hpath.
    split; [apply texmf_not_texlive | apply (texmf_not_texlive _)].
Qed.

Section Mounted.
Context {FS : Type} `{EmscriptenFS FS}.

(** X25.  A bundle laid out by [buildBundle] and mounted by
    [PackageManager.mountBundle] ends up outside [/texlive/]: whatever the
    file system answers, every write of the mount goes to a path that does
    not start with [/texlive/], and every file of the bundle is written at
    [/texmf/] + its directory relative to [texmfRoot] + [/] + its base
    name. *)
Theorem layout_mounted_outside_texlive (bundleName : string)
    (allFiles : list string) (e : engine FS) (warnings : list string) :
  ∃ ps : list string,
    map fst (written (calls (fst
      (PackageManager.mountBundle
         {| PackageManager.bundle_name := bundleName;
            PackageManager.files := fst (layout allFiles) |}
         (snd (layout allFiles)) e warnings))))
    = map fst (written (calls e)) ++ ps
    ∧ Forall (fun p => underTexlive p = false) ps
    ∧ ∀ file, file ∈ allFiles →
        ("/texmf/" +:+ relative texmfRoot (dirname file)) +:+ "/" +:+ basename file
        ∈ ps.
Proof.
  unfold PackageManager.mountBundle. cbn [PackageManager.files].
  destruct (PackageManager.mountBundle_written_paths (snd (layout allFiles))
              (fst (layout allFiles)) (e, warnings)) as (ps & Hps & Hin).
  exists ps. split; [exact Hps|].
  destruct (layout_entries allFiles) as (Hpaths & Hnames & _).
  assert (Hfull : map fullPath (fst (layout allFiles))
            = map (fun file => ("/texmf/" +:+ relative texmfRoot (dirname file))
                               +:+ "/" +:+ basename file) allFiles).
  { pose proof (map_pair path name _ _ _ _ Hpaths Hnames) as Hpair.
    apply (f_equal (map (fun d => fst d +:+ "/" +:+ snd d))) in Hpair.
    by rewrite !map_map in Hpair. }
  split.
  - apply Forall_forall. intros p Hp. apply Hin in Hp. rewrite Hfull in Hp.
    apply list_elem_of_fmap in Hp as (file & -> & _).
    apply (texmf_not_texlive _).
  - intros file Hfile. apply Hin. rewrite Hfull.
    apply list_elem_of_fmap. by exists file.
Qed.

End Mounted.
End Build.

End BundleBuilder.

(** * The manifest of a downloaded CTAN package

    [buildManifest] gives every extracted file it can place a target in
    the TeX tree. *)

Module DownloadCtan.

Record ManifestFile := {
  source : string;
  target : string;
  size : Z
}.

Record PackageManifest := {
  package : string;
  manifest_files : list ManifestFile
}.

(** [s.indexOf(pattern)] on paths, [-1] when there is none. *)
Fixpoint indexOf (pattern s : string) : Z :=
  if String.prefix pattern s then 0%Z
  else match s with
       | EmptyString => (-1)%Z
       | String _ rest =>
           let i := indexOf pattern rest in
           if (i <? 0)%Z then (-1)%Z else (i + 1)%Z
       end.

(** [s.slice(start)]: up to the end. *)
Definition sliceFrom (s : string) (start : Z) : string :=
  let l := list_ascii_of_string s in
  string_of_list_ascii (slice l start (Z.of_nat (length l))).

Section Manifest.
(** [path.relative], and the size [fs.statSync] reports. *)
Variable relative : string → string → string.
Variable statSize : string → Z.

(** The target of a file by its path relative to the extracted directory;
    [None] for a file that is skipped. *)
Definition targetOf (relativePath : string) : option string :=
  if String.prefix "tex/" relativePath
     || String.prefix "fonts/" relativePath
     || String.prefix "doc/" relativePath
     || String.prefix "source/" relativePath
     || String.prefix "bibtex/" relativePath
     || String.prefix "scripts/" relativePath
     || String.prefix "dvips/" relativePath
     || String.prefix "metapost/" relativePath
     || String.prefix "metafont/" relativePath
  then Some ("/texlive/texmf-dist/" +:+ relativePath)
  else if SplitBundle.includes "/tex/" relativePath then
    let texIdx := indexOf "/tex/" relativePath in
    Some ("/texlive/texmf-dist" +:+ sliceFrom relativePath texIdx)
  else if SplitBundle.includes "/fonts/" relativePath then
    let fontsIdx := indexOf "/fonts/" relativePath in
    Some ("/texlive/texmf-dist" +:+ sliceFrom relativePath fontsIdx)
  else None.

Definition buildManifest (packageName extractDir : string) (files : list string)
  : PackageManifest :=
  {| package := packageName;
     manifest_files :=
       omap (fun file =>
               let relativePath := relative extractDir file in
               match targetOf relativePath with
               | Some target =>
                   Some {| source := file; target := target;
                           size := statSize file |}
               | None => None
               end)
         files |}.

End Manifest.

(** ** Every target is in the TeX tree *)

Lemma slice_all {A : Type} (l : list A) : slice l 0 (Z.of_nat (length l)) = l.
Proof.
  unfold slice, relativeIndex.
  destruct (Z.ltb_spec (Z.of_nat (length l)) 0) as [?|_]; [lia|].
  cbn [Z.ltb Z.compare]. rewrite Z.min_l, Z.min_l by lia.
  rewrite Z.sub_0_r, Z.max_l by lia. cbn [Z.to_nat drop].
  by rewrite Nat2Z.id, firstn_all.
Qed.

Lemma slice_cons {A : Type} (c : A) (l : list A) (i : Z) :
  (0 <= i)%Z →
  slice (c :: l) (i + 1) (Z.of_nat (length (c :: l)))
  = slice l i (Z.of_nat (length l)).
Proof.
  intros Hi. unfold slice, relativeIndex.
  destruct (Z.ltb_spec (i + 1) 0) as [?|_]; [lia|].
  destruct (Z.ltb_spec i 0) as [?|_]; [lia|].
  destruct (Z.ltb_spec (Z.of_nat (length (c :: l))) 0) as [?|_]; [lia|].
  destruct (Z.ltb_spec (Z.of_nat (length l)) 0) as [?|_]; [lia|].
  cbn [length]. rewrite !(Z.min_l (Z.of_nat _)) by lia.
  destruct (Z.le_ge_cases i (Z.of_nat (length l))) as [Hle|Hge].
  - rewrite !Z.min_l by lia.
    replace (Z.to_nat (i + 1)) with (S (Z.to_nat i)) by lia. cbn [drop].
    f_equal. lia.
  - rewrite !Z.min_r by lia.
    replace (Z.to_nat (Z.of_nat (S (length l)))) with (S (length l)) by lia.
    cbn [drop]. rewrite Nat2Z.id. f_equal. lia.
Qed.

(** A path that includes the pattern is a start followed by what is
    sliced from the first occurrence, which begins with the pattern. *)
Lemma sliceFrom_indexOf (pattern s : string) :
  SplitBundle.includes pattern s = true →
  (0 <= indexOf pattern s)%Z
  ∧ String.prefix pattern (sliceFrom s (indexOf pattern s)) = true
  ∧ ∃ skipped, s = skipped +:+ sliceFrom s (indexOf pattern s).
Proof.
  induction s as [|c s IH]; cbn [SplitBundle.includes indexOf].
  - destruct (String.prefix pattern "") eqn:Hp; [|done]. intros _.
    unfold sliceFrom. cbn [list_ascii_of_string]. rewrite slice_all.
    split; [done|]. split; [done | by exists ""].
  - destruct (String.prefix pattern (String c s)) eqn:Hp.
    + intros _. unfold sliceFrom. rewrite slice_all.
      rewrite string_of_list_ascii_of_string.
      split; [done|]. split; [done | by exists ""].
    + cbn [orb]. intros Hin. destruct (IH Hin) as (Hpos & Hpre & skipped & Hs).
      destruct (Z.ltb_spec (indexOf pattern s) 0) as [?|_]; [lia|].
      assert (Heq : sliceFrom (String c s) (indexOf pattern s + 1)
                    = sliceFrom s (indexOf pattern s)).
      { unfold sliceFrom. cbn [list_ascii_of_string]. by rewrite slice_cons. }
      rewrite Heq. split; [lia|]. split; [done|].
      exists (String c skipped).
      change (String c s = String c (skipped +:+ sliceFrom s (indexOf pattern s))).
      by rewrite <- Hs.
Qed.

Section Targets.
Variable relative : string → string → string.
Variable statSize : string → Z.

(** A target is [/texlive/texmf-dist] and then a tail of the relative path
    that begins at a slash (the one put before the path counts). *)
Lemma targetOf_tail (relativePath target : string) :
  targetOf relativePath = Some target →
  ∃ skipped tail,
    "/" +:+ relativePath = skipped +:+ String "/" tail
    ∧ target = "/texlive/texmf-dist/" +:+ tail.
Proof.
  unfold targetOf.
  destruct (_ || _) eqn:Htds.
  { intros [= <-]. by exists "", relativePath. }
  assert (Hslash : ∀ pattern rest,
            String.prefix (String "/" pattern) rest = true →
            ∃ tail, rest = String "/" tail).
  { intros pattern [|c rest] Hp; [done|]. cbn [String.prefix] in Hp.
    destruct (ascii_dec "/" c) as [<-|]; [by eexists | done]. }
  assert (Hcut : ∀ pattern,
            SplitBundle.includes (String "/" pattern) relativePath = true →
            ∃ skipped tail,
              "/" +:+ relativePath = skipped +:+ String "/" tail
              ∧ "/texlive/texmf-dist"
                +:+ sliceFrom relativePath (indexOf (String "/" pattern) relativePath)
                = "/texlive/texmf-dist/" +:+ tail).
  { intros pattern Hin.
    destruct (sliceFrom_indexOf _ _ Hin) as (_ & Hpre & skipped & Hs).
    destruct (Hslash _ _ Hpre) as [tail Htail].
    exists (String "/" skipped), tail. rewrite Htail in Hs |- *.
    split; [|done].
    change (String "/" relativePath = String "/" (skipped +:+ String "/" tail)).
    by rewrite <- Hs. }
  destruct (SplitBundle.includes "/tex/" relativePath) eqn:Htex.
  { intros [= <-]. by apply Hcut. }
  destruct (SplitBundle.includes "/fonts/" relativePath) eqn:Hfonts; [|done].
  intros [= <-]. by apply Hcut.
Qed.

(** X26.  [buildManifest] lists, in the order of [files], exactly the
    files for which a target is found, each with the size [statSync]
    reports, and every target is in the TeX tree: it is
    [/texlive/texmf-dist/] followed by a tail of the file's path relative
    to [extractDir] that starts after a slash, or by the whole relative
    path. *)
Theorem buildManifest_targets (packageName extractDir : string)
    (files : list string) :
  let manifest := buildManifest relative statSize packageName extractDir files in
  map source (manifest_files manifest)
  = List.filter
      (fun file =>
         match targetOf (relative extractDir file) with
         | Some _ => true
         | None => false
         end)
      files
  ∧ Forall
      (fun f =>
         size f = statSize (source f)
         ∧ underTexlive (target f) = true
         ∧ ∃ skipped tail,
             "/" +:+ relative extractDir (source f) = skipped +:+ String "/" tail
             ∧ target f = "/texlive/texmf-dist/" +:+ tail)
      (manifest_files manifest).
Proof.
  cbn zeta. unfold buildManifest. cbn [manifest_files].
  induction files as [|file files [IHs IHf]]; [by split|].
  cbn [omap list_omap List.filter].
  destruct (targetOf (relative extractDir file)) as [t|] eqn:Ht; [|done].
  cbn [map source]. split; [by rewrite IHs|].
  constructor; [|done]. cbn [size source target].
  destruct (targetOf_tail _ _ Ht) as (skipped & tail & Hrel & ->).
  split; [done|]. split; [done|]. by exists skipped, tail.
Qed.

End Targets.

Example targetOf_examples :
  targetOf "tex/latex/pgf/pgf.sty" = Some "/texlive/texmf-dist/tex/latex/pgf/pgf.sty"
  ∧ targetOf "pgf/tex/latex/pgf.sty" = Some "/texlive/texmf-dist/tex/latex/pgf.sty"
  ∧ targetOf "lm/fonts/opentype/lm.otf" = Some "/texlive/texmf-dist/fonts/opentype/lm.otf"
  ∧ targetOf "a/tex/b/tex/c.sty" = Some "/texlive/texmf-dist/tex/b/tex/c.sty"
  ∧ targetOf "pgf/README" = None
  ∧ targetOf "tex" = None.
Proof. by vm_compute. Qed.

End DownloadCtan.

(** * Package names

    The CTAN fetching module guesses the package of a missing file and
    checks package names; the proxy has a check of its own. *)

Module CTANNames.
Import EngineSelector.

Definition isLower (c : N) : bool := ((97 <=? c) && (c <=? 122))%N.
Definition isUpper (c : N) : bool := ((65 <=? c) && (c <=? 90))%N.
Definition isDigit (c : N) : bool := ((48 <=? c) && (c <=? 57))%N.

Definition dot : N := 46.

(** [/^(ec|tc)[a-z]{2}\d+$/.test(filename)] *)
Definition isCmSuperFont (filename : jsstring) : bool :=
  match filename with
  | c0 :: c1 :: a :: b :: d :: rest =>
      ((c0 =? 101) || (c0 =? 116))%N && (c1 =? 99)%N
      && isLower a && isLower b && isDigit d && forallb isDigit rest
  | _ => false
  end.

Definition extensions : list jsstring :=
  map js ["sty"; "cls"; "def"; "clo"; "fd"; "cfg"; "tex"].

(** [\.(sty|cls|def|clo|fd|cfg|tex)$] anchored at the start of [s]. *)
Definition isExtension (s : jsstring) : bool :=
  match s with
  | c :: ext => (c =? dot)%N && bool_decide (ext ∈ extensions)
  | [] => false
  end.

(** [s.replace(/\.(sty|cls|def|clo|fd|cfg|tex)$/, '')]: the match, at the
    first place where there is one, runs to the end and is removed. *)
Fixpoint removeExtension (s : jsstring) : jsstring :=
  if isExtension s then []
  else match s with
       | [] => []
       | c :: rest => c :: removeExtension rest
       end.

Definition getPackageFromFile (filename : jsstring) : jsstring :=
  if isCmSuperFont filename then js "cm-super" else removeExtension filename.

(** [[a-zA-Z0-9_-]] *)
Definition isNameChar (c : N) : bool :=
  isLower c || isUpper c || isDigit c || (c =? 95)%N || (c =? 45)%N.

Definition skipList : list jsstring :=
  map js ["document"; "texput"; "null"; "undefined"; "NaN"].

Definition isValidPackageName (name : jsstring) : bool :=
  if match name with [] => true | _ => false end
     || (length name <? 2)%nat || (50 <? length name)%nat then false
  else if existsb (fun c => negb (isNameChar c)) name then false
  else if bool_decide (name ∈ skipList) then false
  else true.

(** The proxy's [isValidPackageName]:
    [/^[a-zA-Z][a-zA-Z0-9\-]*$/.test(name)] for a non-empty name. *)
Definition proxy_isValidPackageName (name : jsstring) : bool :=
  match name with
  | [] => false
  | c :: rest =>
      (isLower c || isUpper c)
      && forallb (fun c => isLower c || isUpper c || isDigit c || (c =? 45)%N) rest
  end.

(** ** The package of a file *)

Lemma isCmSuperFont_no_dot (filename : jsstring) :
  isCmSuperFont filename = true → dot ∉ filename.
Proof.
  destruct filename as [|c0 [|c1 [|a [|b [|d rest]]]]]; try done.
  cbn [isCmSuperFont]. rewrite !andb_true_iff, orb_true_iff, !N.eqb_eq.
  unfold isLower, isDigit. rewrite !andb_true_iff, !N.leb_le.
  intros [[[[[Hc0 Hc1] Ha] Hb] Hd] Hrest].
  rewrite forallb_forall in Hrest.
  intros Hin. unfold dot in Hin.
  repeat (apply elem_of_cons in Hin as [Heq|Hin]; [lia|]).
  apply list_elem_of_In, Hrest in Hin.
  apply andb_true_iff in Hin. rewrite !N.leb_le in Hin. lia.
Qed.

Lemma extensions_no_dot (ext : jsstring) : ext ∈ extensions → dot ∉ ext.
Proof.
  unfold extensions. cbn [map].
  intros Hext. repeat (apply elem_of_cons in Hext as [->|Hext];
    [by vm_compute; intros Hin; repeat (apply elem_of_cons in Hin as [[=]|Hin]);
        apply elem_of_nil in Hin|]).
  by apply elem_of_nil in Hext.
Qed.

Lemma removeExtension_app (name ext : jsstring) :
  ext ∈ extensions → removeExtension (name ++ dot :: ext) = name.
Proof.
  intros Hext. induction name as [|c name IH].
  - cbn [app removeExtension isExtension]. rewrite N.eqb_refl.
    by rewrite bool_decide_eq_true_2.
  - cbn [app removeExtension isExtension].
    rewrite (bool_decide_eq_false_2 (name ++ dot :: ext ∈ extensions)).
    + rewrite andb_false_r. by rewrite IH.
    + intros Hin. apply extensions_no_dot in Hin. apply Hin.
      apply elem_of_app. right. by left.
Qed.

(** X27.  The package of a file named after it: for a name followed by a
    dot and one of the extensions [sty], [cls], [def], [clo], [fd], [cfg]
    or [tex], [getPackageFromFile] answers the name, whatever the name
    is. *)
Theorem getPackageFromFile_extension (name ext : jsstring) :
  ext ∈ extensions →
  getPackageFromFile (name ++ dot :: ext) = name.
Proof.
  intros Hext. unfold getPackageFromFile.
  destruct (isCmSuperFont (name ++ dot :: ext)) eqn:Hfont.
  - apply isCmSuperFont_no_dot in Hfont. exfalso. apply Hfont.
    apply elem_of_app. right. by left.
  - by apply removeExtension_app.
Qed.

Lemma getPackageFromFile_extension_witness :
  getPackageFromFile (js "tikz-cd" ++ dot :: js "sty") = js "tikz-cd".
Proof.
  apply (getPackageFromFile_extension (js "tikz-cd") (js "sty")).
  by vm_compute; set_solver.
Defined.

Example getPackageFromFile_examples :
  getPackageFromFile (js "ecrm1000") = js "cm-super"
  ∧ getPackageFromFile (js "tcrm1000") = js "cm-super"
  ∧ getPackageFromFile (js "ecrm") = js "ecrm"
  ∧ getPackageFromFile (js "amsmath.sty") = js "amsmath"
  ∧ getPackageFromFile (js "t1lmr.fd") = js "t1lmr"
  ∧ getPackageFromFile (js "a.sty.bak") = js "a.sty.bak"
  ∧ getPackageFromFile (js "a.sty.tex") = js "a.sty".
Proof. by vm_compute. Qed.

(** ** The two checks of a package name *)

Definition isProxyChar (c : N) : bool :=
  isLower c || isUpper c || isDigit c || (c =? 45)%N.

Lemma isNameChar_proxy (c : N) :
  isNameChar c = true ∧ c ≠ 95%N ↔ isProxyChar c = true.
Proof.
  unfold isNameChar, isProxyChar.
  destruct (isLower c) eqn:Hl, (isUpper c) eqn:Hu, (isDigit c) eqn:Hd,
    (c =? 45)%N eqn:H45, (c =? 95)%N eqn:H95; cbn [orb];
    unfold isLower, isUpper, isDigit in *;
    rewrite ?andb_true_iff, ?andb_false_iff, ?N.leb_le, ?N.leb_gt,
      ?N.eqb_eq, ?N.eqb_neq in *;
    split; try done; try (intros _; split; [done | lia]); try lia;
    intros [_ ?]; lia.
Qed.

Lemma isValidPackageName_spec (name : jsstring) :
  isValidPackageName name = true
  ↔ 2 ≤ length name ≤ 50
    ∧ Forall (fun c => isNameChar c = true) name
    ∧ name ∉ skipList.
Proof.
  unfold isValidPackageName.
  destruct (Nat.ltb_spec (length name) 2) as [Hshort|Hlong].
  { rewrite orb_true_r. cbn [orb]. split; [done | lia]. }
  destruct (Nat.ltb_spec 50 (length name)) as [Hbig|Hsmall].
  { rewrite orb_true_r. split; [done | lia]. }
  destruct name as [|c0 name']; [simpl in Hlong; lia|]. cbn [orb].
  set (name := c0 :: name') in *.
  destruct (existsb (fun c => negb (isNameChar c)) name) eqn:Hbad.
  - split; [done|]. intros (_ & Hall & _).
    apply existsb_exists in Hbad as (c & Hc & Hneg).
    rewrite Forall_forall in Hall. apply list_elem_of_In, Hall in Hc.
    by rewrite Hc in Hneg.
  - assert (Hall : Forall (fun c => isNameChar c = true) name).
    { apply Forall_forall. intros c Hc.
      destruct (isNameChar c) eqn:Hn; [done|]. exfalso.
      assert (Hex : existsb (fun c => negb (isNameChar c)) name = true).
      { apply existsb_exists. exists c. rewrite Hn.
        by rewrite <- list_elem_of_In. }
      congruence. }
    case_bool_decide as Hskip; split; try done.
    by intros (_ & _ & ?).
Qed.

(** X28.  The names both checks accept: a name passes the fetcher's check,
    starts with a letter and has no underscore exactly when it passes the
    proxy's check, has 2 to 50 characters and is not one of [document],
    [texput], [null], [undefined] and [NaN]. *)
Theorem isValidPackageName_proxy (name : jsstring) :
  isValidPackageName name = true
  ∧ (∃ c rest, name = c :: rest ∧ (isLower c || isUpper c) = true)
  ∧ 95%N ∉ name
  ↔ proxy_isValidPackageName name = true
    ∧ 2 ≤ length name ≤ 50
    ∧ name ∉ skipList.
Proof.
  rewrite isValidPackageName_spec. split.
  - intros ((Hlen & Hall & Hskip) & (c & rest & -> & Hc) & Hno).
    split; [|done]. cbn [proxy_isValidPackageName]. rewrite Hc. cbn [andb].
    apply forallb_forall. intros x Hx. apply list_elem_of_In in Hx.
    apply isNameChar_proxy. rewrite Forall_forall in Hall. split.
    + apply Hall. by right.
    + intros ->. apply Hno. by right.
  - intros (Hproxy & Hlen & Hskip).
    destruct name as [|c rest]; [done|]. cbn [proxy_isValidPackageName] in Hproxy.
    apply andb_true_iff in Hproxy as [Hc Hrest].
    rewrite forallb_forall in Hrest.
    assert (Hchars : ∀ x, x ∈ c :: rest → isProxyChar x = true).
    { intros x [->|Hx]%elem_of_cons.
      - unfold isProxyChar. by rewrite Hc.
      - apply Hrest. by apply list_elem_of_In. }
    split; [split; [done | split; [|done]] | split].
    + apply Forall_forall. intros x Hx.
      by apply Hchars, isNameChar_proxy in Hx as [? _].
    + by exists c, rest.
    + intros Hin. by apply Hchars, isNameChar_proxy in Hin as [_ ?].
Qed.

Example isValidPackageName_examples :
  isValidPackageName (js "tikz-cd") = true
  ∧ proxy_isValidPackageName (js "tikz-cd") = true
  ∧ isValidPackageName (js "l3_kernel") = true
  ∧ proxy_isValidPackageName (js "l3_kernel") = false
  ∧ isValidPackageName (js "2up") = true
  ∧ proxy_isValidPackageName (js "2up") = false
  ∧ isValidPackageName (js "a") = false
  ∧ proxy_isValidPackageName (js "a") = true
  ∧ isValidPackageName (js "document") = false
  ∧ proxy_isValidPackageName (js "document") = true.
Proof. by vm_compute. Qed.

End CTANNames.

(** * The index from file names to packages

    The index script reads the TeX Live package database line by line and
    records, for the run files with the extension of a package file, which
    package they belong to. *)

Module TlpdbIndex.
Import EngineSelector Scan.

(** The variables of the loop over the lines: [fileToPackage] with its own
    properties in insertion order, [currentPkg] ([None] is [null]) and
    [inRunfiles]. *)
Record state := {
  fileToPackage : list (jsstring * jsstring);
  currentPkg : option jsstring;
  inRunfiles : bool
}.

Definition startsWith (lit s : jsstring) : bool :=
  match stripPrefix lit s with
  | Some _ => true
  | None => false
  end.

Definition indexedExtensions : list jsstring :=
  map js ["sty"; "cls"; "def"; "fd"; "cfg"; "clo"; "ltx"].

(** [\.(sty|cls|def|fd|cfg|clo|ltx)$] anchored at the start of [s]. *)
Definition isExtension (s : jsstring) : bool :=
  match s with
  | c :: ext => (c =? 46)%N && bool_decide (ext ∈ indexedExtensions)
  | [] => false
  end.

(** [file.match(/\.(sty|cls|def|fd|cfg|clo|ltx)$/)] is not [null]. *)
Fixpoint hasExtension (s : jsstring) : bool :=
  isExtension s
  || match s with
     | [] => false
     | _ :: rest => hasExtension rest
     end.

(** [file.split('/').pop()] *)
Definition lastComponent (file : jsstring) : jsstring :=
  rev (takeWhile (fun c => negb (c =? 47)%N) (rev file)).

(** Is [fileToPackage[fileName]] truthy?  An own property is when it is not
    the empty string; a member inherited from [Object.prototype] is. *)
Definition hasPackage (table : list (jsstring * jsstring)) (fileName : jsstring)
  : bool :=
  match List.find (fun entry => bool_decide (fst entry = fileName)) table with
  | Some entry => match snd entry with [] => false | _ => true end
  | None => bool_decide (fileName ∈ map js objectPrototypeKeys)
  end.

(** [fileToPackage[fileName] = pkg] *)
Fixpoint assign (fileName pkg : jsstring) (table : list (jsstring * jsstring))
  : list (jsstring * jsstring) :=
  match table with
  | [] => [(fileName, pkg)]
  | (k, v) :: rest =>
      if bool_decide (k = fileName) then (k, pkg) :: rest
      else (k, v) :: assign fileName pkg rest
  end.

(** The body of the loop for one line. *)
Definition step (st : state) (line : jsstring) : state :=
  if startsWith (js "name ") line then
    {| fileToPackage := fileToPackage st;
       currentPkg := Some (trim (drop 5 line));
       inRunfiles := false |}
  else if startsWith (js "runfiles ") line then
    {| fileToPackage := fileToPackage st; currentPkg := currentPkg st;
       inRunfiles := true |}
  else if startsWith (js "docfiles ") line || startsWith (js "srcfiles ") line
          || bool_decide (line = []) then
    {| fileToPackage := fileToPackage st; currentPkg := currentPkg st;
       inRunfiles := false |}
  else if inRunfiles st && startsWith (js " ") line then
    let file := trim line in
    if hasExtension file then
      let fileName := lastComponent file in
      match fileName, currentPkg st with
      | _ :: _, Some (c :: pkg) =>
          if negb (startsWith (js "00") (c :: pkg))
             && negb (hasPackage (fileToPackage st) fileName)
          then {| fileToPackage := assign fileName (c :: pkg) (fileToPackage st);
                  currentPkg := currentPkg st; inRunfiles := inRunfiles st |}
          else st
      | _, _ => st
      end
    else st
  else st.

(** The index after the lines of the database. *)
Definition index (lines : list jsstring) : list (jsstring * jsstring) :=
  fileToPackage
    (fold_left step lines
       {| fileToPackage := []; currentPkg := None; inRunfiles := false |}).

(** ** The first package of a file keeps it *)

(** What holds of the index all along: no file name twice, none empty or
    with a slash, and every package a non-empty name that does not start
    with [00]. *)
Definition wellFormed (table : list (jsstring * jsstring)) : Prop :=
  NoDup (map fst table)
  ∧ Forall (fun entry =>
              fst entry ≠ [] ∧ (47%N ∉ fst entry)
              ∧ snd entry ≠ [] ∧ startsWith (js "00") (snd entry) = false)
      table.

Lemma hasPackage_own (table : list (jsstring * jsstring)) (fileName : jsstring) :
  Forall (fun entry => snd entry ≠ []) table →
  hasPackage table fileName = false → fileName ∉ map fst table.
Proof.
  unfold hasPackage. intros Hvalues Hnone Hin.
  destruct (List.find _ table) as [entry|] eqn:Hfind.
  - apply List.find_some in Hfind as [Hentry _].
    rewrite Forall_forall in Hvalues.
    apply list_elem_of_In in Hentry. apply Hvalues in Hentry.
    destruct entry as [k [|c v]]; simpl in *; congruence.
  - apply list_elem_of_fmap in Hin as (entry & -> & Hentry).
    apply list_elem_of_In in Hentry.
    apply (List.find_none _ _ Hfind) in Hentry.
    by rewrite bool_decide_eq_true_2 in Hentry.
Qed.

Lemma assign_fresh (fileName pkg : jsstring) (table : list (jsstring * jsstring)) :
  fileName ∉ map fst table → assign fileName pkg table = table ++ [(fileName, pkg)].
Proof.
  induction table as [|[k v] table IH]; simpl; [done|]. intros Hk.
  rewrite bool_decide_eq_false_2 by (intros ->; apply Hk; by left).
  f_equal. apply IH. intros Hin. apply Hk. by right.
Qed.

Lemma lastComponent_no_slash (file : jsstring) : 47%N ∉ lastComponent file.
Proof.
  unfold lastComponent. intros Hin.
  apply list_elem_of_In, in_rev, list_elem_of_In in Hin.
  pose proof (takeWhile_Forall (fun c => negb (c =? 47)%N) (rev file)) as Hall.
  rewrite Forall_forall in Hall. apply Hall in Hin. by rewrite N.eqb_refl in Hin.
Qed.

(** One line leaves the entries of a well-formed index as they are, and
    the index well-formed. *)
Lemma step_keeps (st : state) (line : jsstring) :
  wellFormed (fileToPackage st) →
  wellFormed (fileToPackage (step st line))
  ∧ ∀ entry, entry ∈ fileToPackage st → entry ∈ fileToPackage (step st line).
Proof.
  intros Hwf. unfold step.
  destruct (startsWith (js "name ") line); [done|].
  destruct (startsWith (js "runfiles ") line); [done|].
  destruct (_ || _); [done|].
  destruct (inRunfiles st && startsWith (js " ") line); [|done].
  cbn zeta. destruct (hasExtension (trim line)); [|done].
  destruct (lastComponent (trim line)) as [|f fileName] eqn:Hname; [done|].
  destruct (currentPkg st) as [[|c pkg]|]; try done.
  destruct (startsWith (js "00") (c :: pkg)) eqn:H00; [done|].
  destruct (hasPackage (fileToPackage st) (f :: fileName)) eqn:Hhas; [done|].
  cbn [negb andb fileToPackage].
  destruct Hwf as [Hnd Hall].
  assert (Hfresh : f :: fileName ∉ map fst (fileToPackage st)).
  { apply hasPackage_own; [|done].
    apply Forall_forall. intros entry Hentry.
    rewrite Forall_forall in Hall. by destruct (Hall entry Hentry) as (_ & _ & ? & _). }
  rewrite assign_fresh by done. split.
  - split.
    + rewrite map_app. apply NoDup_app. split_and!; [done | | apply NoDup_singleton].
      intros k Hk [->|Hnil%elem_of_nil]%elem_of_cons; done.
    + apply Forall_app. split; [done|]. constructor; [|done]. cbn [fst snd].
      split_and!; try done.
      rewrite <- Hname. apply lastComponent_no_slash.
  - intros entry Hentry. apply elem_of_app. by left.
Qed.

Lemma steps_keep (lines : list jsstring) :
  ∀ st, wellFormed (fileToPackage st) →
    wellFormed (fileToPackage (fold_left step lines st))
    ∧ ∀ entry, entry ∈ fileToPackage st →
        entry ∈ fileToPackage (fold_left step lines st).
Proof.
  induction lines as [|line lines IH]; intros st Hwf; [done|].
  cbn [fold_left]. destruct (step_keeps st line Hwf) as [Hwf' Hkeep].
  destruct (IH _ Hwf') as [Hwf'' Hkeep']. split; [done|].
  intros entry Hentry. by apply Hkeep', Hkeep.
Qed.

(** X29.  The index is first come, first served: an entry the index has
    after some lines of the database is still there, with the same
    package, after any further lines.  And the index is well formed: no
    file name occurs twice, no file name is empty or has a slash, and every
    package is a non-empty name that does not start with [00]. *)
Theorem index_first_wins (lines more : list jsstring) :
  wellFormed (index lines)
  ∧ ∀ fileName pkg,
      (fileName, pkg) ∈ index lines → (fileName, pkg) ∈ index (lines ++ more).
Proof.
  unfold index. rewrite fold_left_app.
  set (initial := {| fileToPackage := []; currentPkg := None; inRunfiles := false |}).
  assert (Hinit : wellFormed (fileToPackage initial))
    by (split; [apply NoDup_nil_2 | constructor]).
  destruct (steps_keep lines initial Hinit) as [Hwf _].
  split; [exact Hwf|]. intros fileName pkg Hin.
  by apply (steps_keep more _ Hwf).
Qed.

Definition tlpdb : list jsstring :=
  map js [ "name 00texlive.config"; "runfiles size=1"; " texmf-dist/tex/a.sty"; "";
           "name amsmath"; "docfiles size=2"; " texmf-dist/doc/amsmath.sty";
           "runfiles size=3"; " texmf-dist/tex/latex/amsmath/amsmath.sty";
           " texmf-dist/tex/latex/amsmath/amsmath.pdf"; "";
           "name other"; "runfiles size=1";
           " texmf-dist/tex/latex/other/amsmath.sty";
           " texmf-dist/tex/latex/other/other.cls" ].

Example index_tlpdb :
  index tlpdb = [ (js "amsmath.sty", js "amsmath"); (js "other.cls", js "other") ].
Proof. by vm_compute. Qed.

End TlpdbIndex.
